(** * safetensors-parser: a shallow embedding of [src/index.ts]

    The development follows the source file top to bottom:
    - the platform the code runs on (JavaScript numbers and bit operations,
      [Uint8Array], [Map], ordinary objects, [JSON], [TextEncoder] and
      [TextDecoder]), modelled from ECMA-262 for the fragment the code uses;
    - the element-size resolver and the explicit size check;
    - the header validator (raw header and parsed structure);
    - the entity model ([TensorMap], [TensorRef]) over an explicit store,
      because tensors are shared by reference with their container;
    - the decoder [parseSafeTensors] and the encoder [saveSafeTensors];
    - the properties of the specification, one theorem per claim. *)

From Stdlib Require Import ZArith QArith List String Ascii Lia Bool.
From Stdlib.Strings Require Import Byte.
From stdpp Require Import base gmap strings list.

Local Open Scope Z_scope.

(* ===================================================================== *)
(** ** Exceptions *)
(* ===================================================================== *)

(** One constructor per [throw] site of the source, carrying the names the
    message interpolates. *)
Inductive message : Type :=
  | NameAlreadyExists (name : string)
  | MustProvideFormatAndShape (name : string)
  | RemoveFromForeignMap
  | AddFromForeignMap
  | NameExistsInParent (val : string)
  | HeaderNotValid
  | HeaderTooLong
  | FileTruncated
  | MetadataNotString (key : string)
  | DtypeNotString (key : string)
  | ShapeNotArray (key : string)
  | ShapeNotNumbers (key : string)
  | OffsetsNotPair (key : string)
  | OffsetsOutOfRange (key : string)
  | OffsetsEndOverlaps (key : string)
  | OffsetsStartOverlaps (key : string)
  | InvalidKey (name key : string)
  | MissingDtype (name : string)
  | MissingShape (name : string)
  | MissingDataOffsets (name : string)
  | MissingFormatAndShape (name : string)
  | WrongSize (name : string)
  | FormatWithoutBitSize (format : string)
  | FormatNotPowerOfTwo (format : string)
  | MetadataTooLarge
  | AlignmentProblem (name : string).

(** [Error] is the plain (fatal) error class, [IgnorableError] its subclass
    for the violations a caller may tolerate.  [SyntaxError], [TypeError]
    and [RangeError] are raised by the platform.  [Unmodelled] marks the
    inputs on which the platform model below is silent (text that is not
    well-formed, escapes of characters beyond ASCII, fractional numbers,
    arithmetic that leaves the exact range, coercion of a non-number to a
    number): there the platform does something the model does not
    describe.  No theorem concludes with it. *)
Inductive exn : Type :=
  | Error (m : message)
  | IgnorableError (m : message)
  | SyntaxError
  | TypeError
  | RangeError
  | Unmodelled.

Inductive result (A : Type) : Type :=
  | Ok (a : A)
  | Throw (e : exn).
Arguments Ok {A} a.
Arguments Throw {A} e.

Definition bind {A B : Type} (m : result A) (k : A -> result B) : result B :=
  match m with
  | Ok a => k a
  | Throw e => Throw e
  end.

Notation "'do' x <- m ; k" := (bind m (fun x => k))
  (at level 10, x name, m at level 100, k at level 200,
   format "'do'  x  <-  m ;  '//' k").
Notation "'do' ' p <- m ; k" := (bind m (fun x => let 'p := x in k))
  (at level 10, p pattern, m at level 100, k at level 200,
   format "'do'  ' p  <-  m ;  '//' k").
Notation "'exec' m ; k" := (bind m (fun _ => k))
  (at level 10, m at level 100, k at level 200,
   format "'exec'  m ;  '//' k").

Definition is_ignorable {A : Type} (r : result A) : bool :=
  match r with
  | Throw (IgnorableError _) => true
  | _ => false
  end.

Definition is_ok {A : Type} (r : result A) : bool :=
  match r with
  | Ok _ => true
  | Throw _ => false
  end.

(* ===================================================================== *)
(** ** JavaScript numbers and bit operations *)
(* ===================================================================== *)

(** The source only handles integers ([type Integer = number]).  They are
    modelled by [Z]; a JavaScript number is exact on every integer of
    magnitude up to 2^53, which is the range the model is faithful on. *)
Definition Integer : Type := Z.

(** An integer every JavaScript number holds exactly.  When the exact
    result of an operation on numbers is such an integer, the operation
    returns it. *)
Definition exact_integer (z : Z) : bool := Z.abs z <=? 9007199254740992.

(** [ToInt32]: the conversion every bitwise operator applies to its
    operands, wrap-around included. *)
Definition ToInt32 (z : Z) : Z :=
  (z + 2147483648) mod 4294967296 - 2147483648.

(** [a & b], [a | b], [~a] and [a >> n] on numbers. *)
Definition js_and (a b : Z) : Z := Z.land (ToInt32 a) (ToInt32 b).
Definition js_or (a b : Z) : Z := Z.lor (ToInt32 a) (ToInt32 b).
Definition js_not (a : Z) : Z := Z.lnot (ToInt32 a).
Definition js_shr (a n : Z) : Z := Z.shiftr (ToInt32 a) (n mod 32).

(* ===================================================================== *)
(** ** Byte arrays *)
(* ===================================================================== *)

Definition Bytes : Type := list byte.

Definition byte_val (b : byte) : Z := Z.of_N (Byte.to_N b).

(** A number stored into a [Uint8Array] is reduced modulo 256. *)
Definition byte_of_Z (z : Z) : byte :=
  match Byte.of_N (Z.to_N (z mod 256)) with
  | Some b => b
  | None => x00
  end.

Definition byteLength (b : Bytes) : Z := Z.of_nat (length b).

(** [bytes[i]]: [None] stands for [undefined] outside the array. *)
Definition byte_at (b : Bytes) (i : nat) : option byte := nth_error b i.

(** [bytes[i]! | 0]: [undefined | 0] is 0. *)
Definition byte_or_0 (b : Bytes) (i : nat) : Z :=
  match byte_at b i with
  | Some x => js_or (byte_val x) 0
  | None => 0
  end.

(** A relative index of [slice]: negative counts from the end, and the
    result is clamped to the array. *)
Definition relative_index (len i : Z) : Z :=
  if i <? 0 then Z.max (len + i) 0 else Z.min i len.

(** [bytes.slice(start, end)]. *)
Definition slice (b : Bytes) (start end_ : Z) : Bytes :=
  let len := byteLength b in
  let k := relative_index len start in
  let final := relative_index len end_ in
  firstn (Z.to_nat (Z.max (final - k) 0)) (skipn (Z.to_nat k) b).

(** [new Uint8Array(n)]: [n] zero bytes, a [RangeError] for a negative
    length. *)
Definition new_Uint8Array (n : Z) : result Bytes :=
  if n <? 0 then Throw RangeError else Ok (repeat x00 (Z.to_nat n)).

(** [target.set(data, at)]: copies [data] into [target] from index [at]; a
    [RangeError] when it does not fit. *)
Definition Uint8Array_set (target data : Bytes) (at_ : Z) : result Bytes :=
  if (at_ <? 0) || (byteLength target <? at_ + byteLength data)
  then Throw RangeError
  else Ok (firstn (Z.to_nat at_) target ++ data
           ++ skipn (Z.to_nat at_ + length data) target).

(* ===================================================================== *)
(** ** Strings and decimal numerals *)
(* ===================================================================== *)

(** A JavaScript string is modelled by the [string] of its UTF-8 bytes:
    an ASCII character is one byte, any other character two to four.  The
    strings modelled are the well-formed ones (no lone surrogate), which
    are exactly those with a UTF-8 form ([is_utf8] below); two strings are
    equal when their UTF-8 forms are.  Array indices, digits, quotes and
    the other characters the code looks at are ASCII. *)
Definition code (c : ascii) : N := N_of_ascii c.

Definition dquote : ascii := ascii_of_N 34.
Definition backslash : ascii := ascii_of_N 92.

Definition is_digit (c : ascii) : bool :=
  (48 <=? code c)%N && (code c <=? 57)%N.

Definition digit_val (c : ascii) : N := (code c - 48)%N.
Definition digit_char (n : N) : ascii := ascii_of_N (48 + n).

Definition is_ascii_char (c : ascii) : bool := (code c <? 128)%N.

Fixpoint is_ascii (s : string) : bool :=
  match s with
  | EmptyString => true
  | String c r => is_ascii_char c && is_ascii r
  end.

(** A continuation byte of UTF-8. *)
Definition is_continuation (c : ascii) : bool :=
  (128 <=? code c)%N && (code c <=? 191)%N.

(** Well-formed UTF-8 (Unicode, table 3-7): one to four bytes for each
    character, no overlong form, no surrogate, nothing above U+10FFFF. *)
Fixpoint is_utf8 (s : string) : bool :=
  match s with
  | EmptyString => true
  | String c r =>
      let n := code c in
      if (n <? 128)%N then is_utf8 r
      else if (194 <=? n)%N && (n <=? 223)%N then
        match r with
        | String c1 r1 => is_continuation c1 && is_utf8 r1
        | _ => false
        end
      else if (224 <=? n)%N && (n <=? 239)%N then
        match r with
        | String c1 (String c2 r2) =>
            is_continuation c1 && is_continuation c2
            && (if (n =? 224)%N then (160 <=? code c1)%N else true)
            && (if (n =? 237)%N then (code c1 <=? 159)%N else true)
            && is_utf8 r2
        | _ => false
        end
      else if (240 <=? n)%N && (n <=? 244)%N then
        match r with
        | String c1 (String c2 (String c3 r3)) =>
            is_continuation c1 && is_continuation c2 && is_continuation c3
            && (if (n =? 240)%N then (144 <=? code c1)%N else true)
            && (if (n =? 244)%N then (code c1 <=? 143)%N else true)
            && is_utf8 r3
        | _ => false
        end
      else false
  end.

(** The UTF-8 bytes of a string. *)
Definition text_bytes (s : string) : Bytes :=
  map byte_of_ascii (list_ascii_of_string s).

(** The value of a run of decimal digits, most significant first. *)
Fixpoint digits_value (acc : N) (s : string) : N :=
  match s with
  | EmptyString => acc
  | String c r => digits_value (10 * acc + digit_val c) r
  end.

Fixpoint all_digits (s : string) : bool :=
  match s with
  | EmptyString => true
  | String c r => is_digit c && all_digits r
  end.

Fixpoint digits_of_N_aux (fuel : nat) (n : N) (acc : string) : string :=
  match fuel with
  | O => acc
  | S f =>
      let acc' := String (digit_char (n mod 10)) acc in
      if (n <? 10)%N then acc' else digits_of_N_aux f (n / 10) acc'
  end.

(** The decimal numeral of a natural number, without leading zeros. *)
Definition string_of_N (n : N) : string :=
  digits_of_N_aux (S (N.to_nat (N.log2 n))) n EmptyString.

(** [String(z)] for an integer. *)
Definition string_of_Z (z : Z) : string :=
  if z <? 0 then String "-" (string_of_N (Z.abs_N z))
  else string_of_N (Z.to_N z).

(** An array index: the canonical numeral of an integer in 0 .. 2^32-2
    (ECMA-262, 6.1.7). *)
Definition array_index (s : string) : option N :=
  match s with
  | EmptyString => None
  | _ =>
      if all_digits s then
        let n := digits_value 0 s in
        if String.eqb (string_of_N n) s && (n <? 4294967295)%N
        then Some n else None
      else None
  end.

(* ===================================================================== *)
(** ** Values, objects and maps *)
(* ===================================================================== *)

(** The values [JSON.parse] returns and [JSON.stringify] accepts.  An
    object is the list of its own properties in enumeration order.
    [JNum z] is the number whose value is the integer [z]: the numbers of
    a header are integers, and the platform holds every integer up to
    2^53 in magnitude exactly.  Numbers with a fraction, and integers no
    number holds, have no counterpart here. *)
#[local] Unset Elimination Schemes.
Inductive json : Type :=
  | JNull
  | JBool (b : bool)
  | JNum (z : Z)
  | JStr (s : string)
  | JArr (l : list json)
  | JObj (l : list (string * json)).
#[local] Set Elimination Schemes.

Definition typeof (v : json) : string :=
  match v with
  | JNull => "object"
  | JBool _ => "boolean"
  | JNum _ => "number"
  | JStr _ => "string"
  | JArr _ => "object"
  | JObj _ => "object"
  end%string.

Definition Array_isArray (v : json) : bool :=
  match v with
  | JArr _ => true
  | _ => false
  end.

Section Assoc.
Context {V : Type}.

Fixpoint assoc_get (l : list (string * V)) (k : string) : option V :=
  match l with
  | [] => None
  | (k', v) :: r => if String.eqb k' k then Some v else assoc_get r k
  end.

Fixpoint assoc_replace (l : list (string * V)) (k : string) (v : V)
  : list (string * V) :=
  match l with
  | [] => []
  | (k', v') :: r =>
      if String.eqb k' k then (k', v) :: r
      else (k', v') :: assoc_replace r k v
  end.

Definition assoc_keys (l : list (string * V)) : list string := map fst l.

(** [Map.prototype.get], [set] and [delete]: a [Map] enumerates its
    entries in insertion order, and setting a key that is present keeps
    its place. *)
Definition Map_get (m : list (string * V)) (k : string) : option V :=
  assoc_get m k.

Definition Map_set (m : list (string * V)) (k : string) (v : V)
  : list (string * V) :=
  match assoc_get m k with
  | Some _ => assoc_replace m k v
  | None => m ++ [(k, v)]
  end.

Definition Map_delete (m : list (string * V)) (k : string)
  : list (string * V) :=
  List.filter (fun kv => negb (String.eqb (fst kv) k)) m.

(** Own properties of an ordinary object enumerate array indices first,
    in ascending order, then the other keys in creation order
    (OrdinaryOwnPropertyKeys). *)
Fixpoint insert_index (i : N) (k : string) (v : V) (l : list (string * V))
  : list (string * V) :=
  match l with
  | [] => [(k, v)]
  | (k', v') :: r =>
      match array_index k' with
      | Some j =>
          if (i <? j)%N then (k, v) :: l
          else (k', v') :: insert_index i k v r
      | None => (k, v) :: l
      end
  end.

(** CreateDataProperty: defines the own property [k]. *)
Definition obj_define (o : list (string * V)) (k : string) (v : V)
  : list (string * V) :=
  match assoc_get o k with
  | Some _ => assoc_replace o k v
  | None =>
      match array_index k with
      | Some i => insert_index i k v o
      | None => o ++ [(k, v)]
      end
  end.
End Assoc.

(** [o[k] = v] on an object created by a literal [{}]: every key defines an
    own property, except [__proto__], which is the accessor inherited from
    [Object.prototype] and never creates one. *)
Definition obj_assign {V : Type} (o : list (string * V)) (k : string) (v : V)
  : list (string * V) :=
  if String.eqb k "__proto__" then o else obj_define o k v.

Fixpoint indexed_from {A : Type} (i : N) (l : list A) : list (string * A) :=
  match l with
  | [] => []
  | x :: r => (string_of_N i, x) :: indexed_from (N.succ i) r
  end.

Fixpoint chars_of (s : string) : list json :=
  match s with
  | EmptyString => []
  | String c r => JStr (String c EmptyString) :: chars_of r
  end.

(** [Object.entries(v)]: the own enumerable properties of [ToObject(v)].
    The properties of a string are its UTF-16 code units, which are its
    characters when the string is ASCII. *)
Definition Object_entries (v : json) : result (list (string * json)) :=
  match v with
  | JObj l => Ok l
  | JArr l => Ok (indexed_from 0 l)
  | JStr s =>
      if is_ascii s then Ok (indexed_from 0 (chars_of s))
      else Throw Unmodelled
  | JNum _ => Ok []
  | JBool _ => Ok []
  | JNull => Throw TypeError
  end.

(* ===================================================================== *)
(** ** JSON.stringify *)
(* ===================================================================== *)

Definition hex_digit (n : N) : ascii :=
  if (n <? 10)%N then ascii_of_N (48 + n) else ascii_of_N (87 + n).

(** QuoteJSONString, one byte of the string: the quote, the backslash and
    the control characters are escaped, every other character is copied,
    the bytes of a character beyond ASCII included. *)
Definition quote_char (c : ascii) : string :=
  let n := code c in
  if (n =? 34)%N then String backslash (String dquote EmptyString)
  else if (n =? 92)%N then String backslash (String backslash EmptyString)
  else if (n =? 8)%N then String backslash "b"
  else if (n =? 12)%N then String backslash "f"
  else if (n =? 10)%N then String backslash "n"
  else if (n =? 13)%N then String backslash "r"
  else if (n =? 9)%N then String backslash "t"
  else if (n <? 32)%N then
    String backslash
      (String "u" (String "0" (String "0"
        (String (hex_digit (n / 16)) (String (hex_digit (n mod 16))
           EmptyString)))))
  else String c EmptyString.

Fixpoint quote_chars (s : string) : string :=
  match s with
  | EmptyString => String dquote EmptyString
  | String c r => quote_char c +:+ quote_chars r
  end.

Definition quote (s : string) : string := String dquote (quote_chars s).

(** [JSON.stringify(v)] without indentation.  A number is printed as
    the decimal numeral of its integer value, as the platform prints the
    integers below 10^21 in magnitude; from there on the platform
    switches to the exponent notation, which this function does not
    follow. *)
Fixpoint JSON_stringify (v : json) : string :=
  match v with
  | JNull => "null"%string
  | JBool true => "true"%string
  | JBool false => "false"%string
  | JNum z => string_of_Z z
  | JStr s => quote s
  | JArr [] => "[]"%string
  | JArr (x :: r) =>
      "[" +:+ JSON_stringify x +:+
      (fix elems (l : list json) : string :=
         match l with
         | [] => "]"%string
         | y :: l' => "," +:+ JSON_stringify y +:+ elems l'
         end) r
  | JObj [] => "{}"%string
  | JObj ((k, x) :: r) =>
      "{" +:+ quote k +:+ ":" +:+ JSON_stringify x +:+
      (fix members (l : list (string * json)) : string :=
         match l with
         | [] => "}"%string
         | (k', y) :: l' =>
             "," +:+ quote k' +:+ ":" +:+ JSON_stringify y +:+ members l'
         end) r
  end.

(* ===================================================================== *)
(** ** JSON.parse *)
(* ===================================================================== *)

Definition is_ws (c : ascii) : bool :=
  let n := code c in
  (n =? 32)%N || (n =? 9)%N || (n =? 10)%N || (n =? 13)%N.

Fixpoint skip_ws (s : string) : string :=
  match s with
  | EmptyString => EmptyString
  | String c r => if is_ws c then skip_ws r else s
  end.

Definition hex_val (c : ascii) : option N :=
  let n := code c in
  if (48 <=? n)%N && (n <=? 57)%N then Some (n - 48)%N
  else if (97 <=? n)%N && (n <=? 102)%N then Some (n - 87)%N
  else if (65 <=? n)%N && (n <=? 70)%N then Some (n - 55)%N
  else None.

Definition hex4 (a b c d : ascii) : option N :=
  match hex_val a, hex_val b, hex_val c, hex_val d with
  | Some x, Some y, Some z, Some w => Some (((x * 16 + y) * 16 + z) * 16 + w)%N
  | _, _, _, _ => None
  end.

(** The character a two-character escape stands for. *)
Definition simple_escape (e : ascii) : option ascii :=
  let n := code e in
  if (n =? 34)%N then Some dquote
  else if (n =? 92)%N then Some backslash
  else if (n =? 47)%N then Some "/"%char
  else if (n =? 98)%N then Some (ascii_of_N 8)
  else if (n =? 102)%N then Some (ascii_of_N 12)
  else if (n =? 110)%N then Some (ascii_of_N 10)
  else if (n =? 114)%N then Some (ascii_of_N 13)
  else if (n =? 116)%N then Some (ascii_of_N 9)
  else None.

(** The characters of a string literal, after its opening quote.  An
    escape [\uXXXX] of a character beyond ASCII is outside the model. *)
Fixpoint parse_chars (s : string) : result (string * string) :=
  match s with
  | EmptyString => Throw SyntaxError
  | String c r =>
      if (code c =? 34)%N then Ok (EmptyString, r)
      else if (code c =? 92)%N then
        match r with
        | EmptyString => Throw SyntaxError
        | String e r1 =>
            match simple_escape e with
            | Some ch =>
                do '(t, rest) <- parse_chars r1;
                Ok (String ch t, rest)
            | None =>
                if (code e =? 117)%N then
                  match r1 with
                  | String a (String b (String c' (String d r2))) =>
                      match hex4 a b c' d with
                      | Some n =>
                          if (n <? 128)%N then
                            do '(t, rest) <- parse_chars r2;
                            Ok (String (ascii_of_N n) t, rest)
                          else Throw Unmodelled
                      | None => Throw SyntaxError
                      end
                  | _ => Throw SyntaxError
                  end
                else Throw SyntaxError
            end
        end
      else if (code c <? 32)%N then Throw SyntaxError
      else
        do '(t, rest) <- parse_chars r;
        Ok (String c t, rest)
  end.

Fixpoint take_digits (s : string) : string * string :=
  match s with
  | EmptyString => (EmptyString, EmptyString)
  | String c r =>
      if is_digit c then
        let '(ds, rest) := take_digits r in (String c ds, rest)
      else (EmptyString, s)
  end.

(** The integer part of a number.  [JSON.parse] also reads a fraction
    and an exponent after it; the value is then no integer in general, and
    the model is silent on such a text ([Unmodelled]) where the platform
    returns a number. *)
Definition parse_digits (s : string) : result (N * string) :=
  let '(ds, rest) := take_digits s in
  match ds with
  | EmptyString => Throw SyntaxError
  | String d ds' =>
      if (code d =? 48)%N && negb (String.eqb ds' EmptyString)
      then Throw SyntaxError
      else
        match rest with
        | String c _ =>
            if (code c =? 46)%N || (code c =? 101)%N || (code c =? 69)%N
            then Throw Unmodelled
            else Ok (digits_value 0 ds, rest)
        | EmptyString => Ok (digits_value 0 ds, rest)
        end
  end.

Definition parse_number (s : string) : result (json * string) :=
  match s with
  | String c r =>
      if (code c =? 45)%N then
        do '(n, rest) <- parse_digits r;
        Ok (JNum (- Z.of_N n), rest)
      else
        do '(n, rest) <- parse_digits s;
        Ok (JNum (Z.of_N n), rest)
  | EmptyString => Throw SyntaxError
  end.

Fixpoint strip_prefix (p s : string) : option string :=
  match p, s with
  | EmptyString, _ => Some s
  | String a p', String b s' =>
      if Ascii.eqb a b then strip_prefix p' s' else None
  | String _ _, EmptyString => None
  end.

Definition parse_literal (s : string) : result (json * string) :=
  match strip_prefix "true" s with
  | Some r => Ok (JBool true, r)
  | None =>
      match strip_prefix "false" s with
      | Some r => Ok (JBool false, r)
      | None =>
          match strip_prefix "null" s with
          | Some r => Ok (JNull, r)
          | None => Throw SyntaxError
          end
      end
  end.

(** A member name, its colon included. *)
Definition parse_key (s : string) : result (string * string) :=
  match skip_ws s with
  | String c r =>
      if (code c =? 34)%N then
        do '(k, r1) <- parse_chars r;
        match skip_ws r1 with
        | String c1 r2 =>
            if (code c1 =? 58)%N then Ok (k, r2) else Throw SyntaxError
        | EmptyString => Throw SyntaxError
        end
      else Throw SyntaxError
  | EmptyString => Throw SyntaxError
  end.

(** The recursive-descent parser.  [fuel] bounds the number of calls; twice
    the length of the text, plus two, is always enough (every call
    consumes a character), so the last branch is never taken from
    [JSON_parse].  An object is built as [JSON.parse] does, by defining
    its members one after the other. *)
Fixpoint parse_value (fuel : nat) (s : string) : result (json * string) :=
  match fuel with
  | O => Throw Unmodelled
  | S f =>
      match skip_ws s with
      | EmptyString => Throw SyntaxError
      | String c r =>
          let n := code c in
          if (n =? 123)%N then
            match skip_ws r with
            | String c1 r1 =>
                if (code c1 =? 125)%N then Ok (JObj [], r1)
                else
                  do '(o, rest) <- parse_members f [] r;
                  Ok (JObj o, rest)
            | EmptyString => Throw SyntaxError
            end
          else if (n =? 91)%N then
            match skip_ws r with
            | String c1 r1 =>
                if (code c1 =? 93)%N then Ok (JArr [], r1)
                else
                  do '(l, rest) <- parse_elems f r;
                  Ok (JArr l, rest)
            | EmptyString => Throw SyntaxError
            end
          else if (n =? 34)%N then
            do '(t, rest) <- parse_chars r;
            Ok (JStr t, rest)
          else if (n =? 45)%N || is_digit c then parse_number (String c r)
          else parse_literal (String c r)
      end
  end
with parse_elems (fuel : nat) (s : string) : result (list json * string) :=
  match fuel with
  | O => Throw Unmodelled
  | S f =>
      do '(v, r) <- parse_value f s;
      match skip_ws r with
      | String c r1 =>
          if (code c =? 44)%N then
            do '(l, rest) <- parse_elems f r1;
            Ok (v :: l, rest)
          else if (code c =? 93)%N then Ok ([v], r1)
          else Throw SyntaxError
      | EmptyString => Throw SyntaxError
      end
  end
with parse_members (fuel : nat) (acc : list (string * json)) (s : string)
  : result (list (string * json) * string) :=
  match fuel with
  | O => Throw Unmodelled
  | S f =>
      do '(k, r) <- parse_key s;
      do '(v, r0) <- parse_value f r;
      let acc' := obj_define acc k v in
      match skip_ws r0 with
      | String c r1 =>
          if (code c =? 44)%N then parse_members f acc' r1
          else if (code c =? 125)%N then Ok (acc', r1)
          else Throw SyntaxError
      | EmptyString => Throw SyntaxError
      end
  end.

(** [JSON.parse(text)]. *)
Definition JSON_parse (text : string) : result json :=
  do '(v, rest) <- parse_value (2 * String.length text + 2) text;
  match skip_ws rest with
  | EmptyString => Ok v
  | String _ _ => Throw SyntaxError
  end.

(* ===================================================================== *)
(** ** TextEncoder and TextDecoder *)
(* ===================================================================== *)

(** [new TextEncoder().encode(s)]: the UTF-8 bytes of a well-formed
    string. *)
Definition TextEncoder_encode (s : string) : result Bytes :=
  if is_utf8 s then Ok (text_bytes s) else Throw Unmodelled.

(** [new TextDecoder().decode(b)]: a byte order mark at the start is
    dropped, and well-formed UTF-8 gives the string it encodes.  The
    replacement of malformed bytes is outside the model. *)
Definition strip_BOM (b : Bytes) : Bytes :=
  match b with
  | xef :: xbb :: xbf :: r => r
  | _ => b
  end.

Definition TextDecoder_decode (b : Bytes) : result string :=
  let s := string_of_list_ascii (map ascii_of_byte (strip_BOM b)) in
  if is_utf8 s then Ok s else Throw Unmodelled.

(** Test text is written with apostrophes for the double quotes. *)
Fixpoint dq (s : string) : string :=
  match s with
  | EmptyString => EmptyString
  | String c r => String (if (code c =? 39)%N then dquote else c) (dq r)
  end.


(* ===================================================================== *)
(** ** Types of the source *)
(* ===================================================================== *)

Definition Format : Type := string.
Definition TensorName : Type := string.
Definition OffsetPair : Type := (Integer * Integer)%type.

(** [Shape] is declared as [Integer[]], but a shape read from a header is
    whatever array the header holds: under leniency its elements are kept
    as they are. *)
Definition Shape : Type := list json.

(** [x as Integer]: reading a value where the source computes with a
    number.  The cast checks nothing: on a value of another kind the
    comparisons and the arithmetic of the source coerce it to a number and
    go on.  The model does not follow the coercion and is silent there
    ([Unmodelled]). *)
Definition as_Integer (v : json) : result Integer :=
  match v with
  | JNum z => Ok z
  | _ => Throw Unmodelled
  end.

(* ===================================================================== *)
(** ** formatLength and the explicit size check *)
(* ===================================================================== *)

(** [format.match(/\d+/)]: the first maximal run of digits. *)
Fixpoint match_digits (format : string) : option string :=
  match format with
  | EmptyString => None
  | String c r =>
      if is_digit c then Some (fst (take_digits format))
      else match_digits r
  end.

(** Rounding of a natural number to the nearest double, ties to even;
    [None] is [Infinity]. *)
Definition round_to_double (n : N) : option Z :=
  if (n <? 2 ^ 53)%N then Some (Z.of_N n)
  else
    let e := (N.log2 n - 52)%N in
    let q := (n / 2 ^ e)%N in
    let r := (n mod 2 ^ e)%N in
    let half := (2 ^ (e - 1))%N in
    let q' := if (half <? r)%N || ((r =? half)%N && N.odd q)
              then (q + 1)%N else q in
    let v := (q' * 2 ^ e)%N in
    if (v <? 2 ^ 1024)%N then Some (Z.of_N v) else None.

(** [parseInt(digits, 10) | 0]; [Infinity | 0] is 0. *)
Definition parseInt_or_0 (digits : string) : Z :=
  match round_to_double (digits_value 0 digits) with
  | Some v => ToInt32 v
  | None => 0
  end.

(** Get the byte length of a given format constant; a fraction for a
    sub-byte format. *)
Definition formatLength (format : Format) : result Q :=
  match match_digits format with
  | None => Throw (Error (FormatWithoutBitSize format))
  | Some num =>
      let parsed := parseInt_or_0 num in
      if negb (js_and (js_or parsed 0) (js_or parsed 0 - 1) =? 0)
      then Throw (Error (FormatNotPowerOfTwo format))
      else Ok (parsed # 8)%Q
  end.

(** The loop [num *= shape[i]].  The product of two numbers is exact as
    long as the factors and the result are integers every number holds;
    beyond that the multiplication rounds, which is outside the model. *)
Fixpoint shape_product (shape : Shape) (num : Z) : result Z :=
  match shape with
  | [] => Ok num
  | d :: r =>
      do x <- as_Integer d;
      if exact_integer x && exact_integer (num * x)
      then shape_product r (num * x)
      else Throw Unmodelled
  end.

Definition _sanityCheck (name : TensorName) (bytes : Bytes)
    (format : option Format) (shape : option Shape) : result unit :=
  match format, shape with
  | Some fmt, Some shp =>
      if String.eqb fmt EmptyString
      then Throw (Error (MissingFormatAndShape name))
      else
        let shp := match shp with [] => [JNum 1] | _ => shp end in
        do num <- shape_product shp 1;
        do fl <- formatLength fmt;
        if negb (Qeq_bool (inject_Z (byteLength bytes)) (inject_Z num * fl))
        then Throw (IgnorableError (WrongSize name))
        else Ok tt
  | _, _ => Throw (Error (MissingFormatAndShape name))
  end.

(* ===================================================================== *)
(** ** The header validator *)
(* ===================================================================== *)

(** Return true if each element compares equal in the arrays. *)
Fixpoint arrayCompare_from (a b : list Z) : bool :=
  match a, b with
  | x :: a', y :: b' => if negb (x =? y) then false else arrayCompare_from a' b'
  | _, _ => true
  end.

Definition arrayCompare (a b : list Z) : bool :=
  if negb (length a =? length b)%nat then false
  else arrayCompare_from a b.

Definition unsafeGetHeaderSize (bytes : Bytes) : Integer :=
  js_or (byte_or_0 bytes 0
         + byte_or_0 bytes 1 * 256
         + byte_or_0 bytes 2 * 256 * 256
         + byte_or_0 bytes 3 * 256 * 256 * 256) 0.

Definition MAX_HEADER : Z := 100 * 1024 * 1024.

Definition sanityCheckTensorsHeader (ignoreInvalid : bool) (bytes : Bytes)
    (filesize : Integer) : result Integer :=
  if negb (arrayCompare (map byte_val (slice bytes 4 9)) [0; 0; 0; 0; 123])
  then Throw (Error HeaderNotValid)
  else
    let val := unsafeGetHeaderSize bytes in
    if (MAX_HEADER <? val) && negb ignoreInvalid
    then Throw (IgnorableError HeaderTooLong)
    else if filesize <? 8 + val
    then Throw (Error FileTruncated)
    else Ok val.

Fixpoint checkMetadata_loop (ignoreInvalid : bool)
    (entries : list (string * json)) : result unit :=
  match entries with
  | [] => Ok tt
  | (key, strval) :: r =>
      if negb (String.eqb (typeof strval) "string") && negb ignoreInvalid
      then Throw (IgnorableError (MetadataNotString key))
      else checkMetadata_loop ignoreInvalid r
  end.

Definition checkMetadata (ignoreInvalid : bool) (value : json) : result unit :=
  do entries <- Object_entries value;
  checkMetadata_loop ignoreInvalid entries.

Definition pairInRange (pair : OffsetPair) (chunksize : Integer) : bool :=
  (0 <=? fst pair) && (fst pair <=? chunksize)
  && (0 <=? snd pair) && (snd pair <=? chunksize)
  && (fst pair <=? snd pair).

Module TensorAttributeChecker.

(** The fields of the class.  [covered] is the array shared by the
    checkers of one header: each checker receives it and appends to
    it. *)
Record t : Type := mk {
  chunksize : Integer;
  covered : list OffsetPair;
  ignoreInvalid : bool;
  has_dtype : bool;
  has_shape : bool;
  has_data_offsets : bool
}.

Definition new (chunksize : Integer) (covered : list OffsetPair)
    (ignoreInvalid : bool) : t :=
  mk chunksize covered ignoreInvalid false false false.

Definition dtype (this : t) (key : string) (val : json) : result t :=
  if negb (String.eqb (typeof val) "string")
  then Throw (Error (DtypeNotString key))
  else Ok (mk this.(chunksize) this.(covered) this.(ignoreInvalid)
              true this.(has_shape) this.(has_data_offsets)).

Definition attrOk (key : string) : bool :=
  String.eqb key "dtype" || String.eqb key "shape"
  || String.eqb key "data_offsets".

Definition assertAttributePresence (this : t) (name : TensorName)
  : result unit :=
  if negb this.(has_dtype) then Throw (Error (MissingDtype name))
  else if negb this.(has_shape) then Throw (Error (MissingShape name))
  else if negb this.(has_data_offsets)
  then Throw (Error (MissingDataOffsets name))
  else Ok tt.

Fixpoint checkTensorShape_loop (this : t) (key : string) (val : list json)
  : result unit :=
  match val with
  | [] => Ok tt
  | v :: r =>
      if negb (String.eqb (typeof v) "number") && negb this.(ignoreInvalid)
      then Throw (IgnorableError (ShapeNotNumbers key))
      else checkTensorShape_loop this key r
  end.

Definition checkTensorShape (this : t) (key : string) (val : json)
  : result unit :=
  match val with
  | JArr l => checkTensorShape_loop this key l
  | _ => Throw (Error (ShapeNotArray key))
  end.

Definition shape (this : t) (key : string) (val : json) : result t :=
  exec checkTensorShape this key val;
  Ok (mk this.(chunksize) this.(covered) this.(ignoreInvalid)
         this.(has_dtype) true this.(has_data_offsets)).

Definition checkDataOffsetBasics (this : t) (key : string)
    (val : OffsetPair) : result unit :=
  let err :=
    if negb (pairInRange val this.(chunksize)) && negb this.(ignoreInvalid)
    then Some (IgnorableError (OffsetsOutOfRange key))
    else None in
  match err with
  | Some e => if negb this.(ignoreInvalid) then Throw e else Ok tt
  | None => Ok tt
  end.

Definition checkTensorOverlap (this : t) (key : string)
    (start end_ : Integer) (val : OffsetPair) : result unit :=
  let err := None in
  let err :=
    if (start <? snd val) && (snd val <=? end_)
    then Some (IgnorableError (OffsetsEndOverlaps key))
    else err in
  let err :=
    if (start <=? fst val) && (fst val <? end_)
    then Some (IgnorableError (OffsetsStartOverlaps key))
    else err in
  match err with
  | Some e => if negb this.(ignoreInvalid) then Throw e else Ok tt
  | None => Ok tt
  end.

Fixpoint checkOverlap_loop (this : t) (key : string)
    (cov : list OffsetPair) (val : OffsetPair) : result unit :=
  match cov with
  | [] => Ok tt
  | (start, end_) :: r =>
      exec checkTensorOverlap this key start end_ val;
      checkOverlap_loop this key r val
  end.

(** [obj as OffsetPair]: the two elements, read as numbers.  The source
    compares the elements as they are, so that two elements of another
    kind (the strings of two numerals, say) are coerced and may pass the
    range and overlap checks; the model follows the checks on two integers
    and is silent otherwise ([Unmodelled]). *)
Definition as_OffsetPair (obj : list json) : result OffsetPair :=
  match obj with
  | [a; b] =>
      do x <- as_Integer a;
      do y <- as_Integer b;
      Ok (x, y)
  | _ => Throw Unmodelled
  end.

Definition checkDataOffsets (this : t) (key : string) (obj : json)
  : result t :=
  match obj with
  | JArr l =>
      if negb (length l =? 2)%nat then Throw (Error (OffsetsNotPair key))
      else
        do val <- as_OffsetPair l;
        exec checkDataOffsetBasics this key val;
        exec checkOverlap_loop this key this.(covered) val;
        Ok (mk this.(chunksize) (this.(covered) ++ [val])
               this.(ignoreInvalid) this.(has_dtype) this.(has_shape)
               this.(has_data_offsets))
  | _ => Throw (Error (OffsetsNotPair key))
  end.

Definition data_offsets (this : t) (key : string) (val : json) : result t :=
  do this <- checkDataOffsets this key val;
  Ok (mk this.(chunksize) this.(covered) this.(ignoreInvalid)
         this.(has_dtype) this.(has_shape) true).

(** [this[key](name, val)] for a key that passed [attrOk]. *)
Definition dispatch (this : t) (key : string) (name : string) (val : json)
  : result t :=
  if String.eqb key "dtype" then dtype this name val
  else if String.eqb key "shape" then shape this name val
  else data_offsets this name val.

Fixpoint checkTensorValue_loop (this : t) (name : TensorName)
    (entries : list (string * json)) : result t :=
  match entries with
  | [] => Ok this
  | (key, val) :: r =>
      if negb (attrOk key) then
        if negb this.(ignoreInvalid)
        then Throw (IgnorableError (InvalidKey name key))
        else checkTensorValue_loop this name r
      else
        do this <- dispatch this key name val;
        checkTensorValue_loop this name r
  end.

Definition checkTensorValue (this : t) (name : TensorName) (value : json)
  : result t :=
  do entries <- Object_entries value;
  do this <- checkTensorValue_loop this name entries;
  exec assertAttributePresence this name;
  Ok this.

End TensorAttributeChecker.

(** The loop of [sanityCheckTensorsParsed]; it returns the ranges covered
    so far, the array every checker shares. *)
Fixpoint sanityCheckTensorsParsed_loop (ignoreInvalid : bool)
    (chunksize : Integer) (covered : list OffsetPair)
    (entries : list (string * json)) : result (list OffsetPair) :=
  match entries with
  | [] => Ok covered
  | (name, value) :: r =>
      if String.eqb name "__metadata__" then
        exec checkMetadata ignoreInvalid value;
        sanityCheckTensorsParsed_loop ignoreInvalid chunksize covered r
      else
        let tac := TensorAttributeChecker.new chunksize covered ignoreInvalid in
        do tac <- TensorAttributeChecker.checkTensorValue tac name value;
        sanityCheckTensorsParsed_loop ignoreInvalid chunksize
          tac.(TensorAttributeChecker.covered) r
  end.

Definition sanityCheckTensorsParsed (ignoreInvalid : bool) (j : json)
    (chunksize : Integer) : result unit :=
  do entries <- Object_entries j;
  exec sanityCheckTensorsParsed_loop ignoreInvalid chunksize [] entries;
  Ok tt.

(* ===================================================================== *)
(** ** The store *)
(* ===================================================================== *)

(** A [TensorRef] is shared by reference between its holders and the
    [TensorMap] that owns it, and both sides are mutated in place.  Objects
    therefore live in a store and are named by their address. *)
Definition loc : Type := positive.

(** The fields of [class TensorRef].  [_parent] is [None] when the
    property is absent ([undefined]). *)
Record TensorRef : Type := mkTensorRef {
  _name : TensorName;
  bytes : Bytes;
  format : Format;
  shape : Shape;
  _parent : option loc
}.

(** The fields of [class TensorMap]; both are [Map]s.  The metadata map is
    held by value: no property below depends on a caller keeping an alias
    of it. *)
Record TensorMap : Type := mkTensorMap {
  refs : list (string * loc);
  metadata : list (string * json)
}.

Record heap : Type := mkHeap {
  tensorRefs : gmap loc TensorRef;
  tensorMaps : gmap loc TensorMap;
  next : loc
}.

Definition empty_heap : heap := mkHeap ∅ ∅ 1%positive.

(** Computations that read and write the store and may throw; the store
    reached when the exception is thrown is kept, as nothing rolls a
    mutation back. *)
Definition M (A : Type) : Type := heap -> result A * heap.

Definition ret {A : Type} (a : A) : M A := fun h => (Ok a, h).
Definition throw {A : Type} (e : exn) : M A := fun h => (Throw e, h).
Definition lift {A : Type} (r : result A) : M A := fun h => (r, h).

Definition bindM {A B : Type} (m : M A) (k : A -> M B) : M B :=
  fun h =>
    match m h with
    | (Ok a, h') => k a h'
    | (Throw e, h') => (Throw e, h')
    end.

Notation "'let*' x := m 'in' k" := (bindM m (fun x => k))
  (at level 10, x name, m at level 100, k at level 200,
   format "'let*'  x  :=  m  'in'  '//' k").
Notation "m >> k" := (bindM m (fun _ => k))
  (at level 190, right associativity).

Definition get_ref (l : loc) : M TensorRef :=
  fun h =>
    match h.(tensorRefs) !! l with
    | Some t => (Ok t, h)
    | None => (Throw Unmodelled, h)
    end.

Definition set_ref (l : loc) (t : TensorRef) : M unit :=
  fun h => (Ok tt, mkHeap (<[l := t]> h.(tensorRefs)) h.(tensorMaps) h.(next)).

Definition get_map (l : loc) : M TensorMap :=
  fun h =>
    match h.(tensorMaps) !! l with
    | Some m => (Ok m, h)
    | None => (Throw Unmodelled, h)
    end.

Definition set_map (l : loc) (m : TensorMap) : M unit :=
  fun h => (Ok tt, mkHeap h.(tensorRefs) (<[l := m]> h.(tensorMaps)) h.(next)).

Definition alloc_ref (t : TensorRef) : M loc :=
  fun h =>
    (Ok h.(next),
     mkHeap (<[h.(next) := t]> h.(tensorRefs)) h.(tensorMaps)
            (Pos.succ h.(next))).

Definition alloc_map (m : TensorMap) : M loc :=
  fun h =>
    (Ok h.(next),
     mkHeap h.(tensorRefs) (<[h.(next) := m]> h.(tensorMaps))
            (Pos.succ h.(next))).

Definition set_parent (t : TensorRef) (p : option loc) : TensorRef :=
  mkTensorRef t.(_name) t.(bytes) t.(format) t.(shape) p.

Definition set_refs (m : TensorMap) (r : list (string * loc)) : TensorMap :=
  mkTensorMap r m.(metadata).

Definition same_parent (p : option loc) (this : loc) : bool :=
  match p with
  | Some q => Pos.eqb q this
  | None => false
  end.

(* ===================================================================== *)
(** ** TensorMap and TensorRef *)
(* ===================================================================== *)

(** The second argument of [addTensor]: an existing [TensorRef] or the
    bytes of a new one ([data instanceof TensorRef]). *)
Inductive tensor_data : Type :=
  | AsTensorRef (tensor : loc)
  | AsBytes (b : Bytes).

Module TensorMap.

Definition new : M loc := alloc_map (mkTensorMap [] []).

(** If the tensor exists in the map, return it, else return undefined. *)
Definition getTensor (this : loc) (name : TensorName) : M (option loc) :=
  let* m := get_map this in
  ret (Map_get m.(refs) name).

Definition _setTensor (this : loc) (name : TensorName) (tensor : loc)
  : M loc :=
  let* t := get_ref tensor in
  match t.(_parent) with
  | Some p =>
      if negb (Pos.eqb p this) then throw (Error AddFromForeignMap)
      else ret tt
  | None => ret tt
  end >>
  let* m := get_map this in
  set_map this (set_refs m (Map_set m.(refs) name tensor)) >>
  set_ref tensor (set_parent t (Some this)) >>
  ret tensor.

(** Add a new tensor to the map; fail if the name already exists. *)
Definition addTensor (this : loc) (name : TensorName) (data : tensor_data)
    (format : option Format) (shape : option Shape) : M loc :=
  let* m := get_map this in
  match Map_get m.(refs) name with
  | Some _ => throw (Error (NameAlreadyExists name))
  | None =>
      match data with
      | AsTensorRef tensor => _setTensor this name tensor
      | AsBytes b =>
          match format, shape with
          | Some fmt, Some shp =>
              if String.eqb fmt EmptyString
              then throw (Error (MustProvideFormatAndShape name))
              else
                let* tensor := alloc_ref (mkTensorRef name b fmt shp None) in
                _setTensor this name tensor
          | _, _ => throw (Error (MustProvideFormatAndShape name))
          end
      end
  end.

(** Remove a tensor from the map, by name or by reference. *)
Definition removeTensor (this : loc) (name : TensorName + loc) : M unit :=
  let* m := get_map this in
  let found :=
    match name with
    | inl n => Map_get m.(refs) n
    | inr tensor => Some tensor
    end in
  match found with
  | None => ret tt
  | Some ten =>
      let* t := get_ref ten in
      if negb (same_parent t.(_parent) this)
      then throw (Error RemoveFromForeignMap)
      else
        set_ref ten (set_parent t None) >>
        let* m := get_map this in
        set_map this (set_refs m (Map_delete m.(refs) t.(_name)))
  end.

(** Set this name to be this tensor, whether it exists or not. *)
Definition setTensor (this : loc) (name : TensorName) (tensor : loc)
  : M loc :=
  removeTensor this (inl name) >>
  addTensor this name (AsTensorRef tensor) None None.

(** If the tensor exists, return it; otherwise create it with the
    factory, add it to the map, and return it. *)
Definition getOrMakeTensor (this : loc) (name : TensorName)
    (factory : M loc) : M loc :=
  let* m := get_map this in
  match Map_get m.(refs) name with
  | Some ten => ret ten
  | None =>
      let* ten := factory in
      let* m := get_map this in
      set_map this (set_refs m (Map_set m.(refs) name ten)) >>
      ret ten
  end.

Definition getMetaValue (this : loc) (name : TensorName)
  : M (option json) :=
  let* m := get_map this in
  ret (Map_get m.(metadata) name).

Definition setMetaValue (this : loc) (name : TensorName) (value : json)
  : M unit :=
  let* m := get_map this in
  set_map this (mkTensorMap m.(refs) (Map_set m.(metadata) name value)).

Definition allMetadata (this : loc) : M (list (string * json)) :=
  let* m := get_map this in
  ret m.(metadata).

Definition allTensors (this : loc) : M (list (string * loc)) :=
  let* m := get_map this in
  ret m.(refs).

Definition setAllMetadata (this : loc) (md : list (string * json))
  : M unit :=
  let* m := get_map this in
  set_map this (mkTensorMap m.(refs) md).

End TensorMap.

Module TensorRef.

(** Make a new tensorref referencing the given data, not parented. *)
Definition new (name : TensorName) (b : Bytes) (fmt : Format)
    (shp : Shape) : M loc :=
  alloc_ref (mkTensorRef name b fmt shp None).

Definition parent (this : loc) : M (option loc) :=
  let* t := get_ref this in
  ret t.(_parent).

Definition name (this : loc) : M string :=
  let* t := get_ref this in
  ret t.(_name).

(** The setter of [name]: renaming a tensor of a map renames it in the
    map. *)
Definition set_name (this : loc) (val : string) : M unit :=
  let* t := get_ref this in
  match t.(_parent) with
  | Some p =>
      let* pm := get_map p in
      match Map_get pm.(refs) val with
      | Some _ => throw (Error (NameExistsInParent val))
      | None => set_map p (set_refs pm (Map_delete pm.(refs) t.(_name)))
      end
  | None => ret tt
  end >>
  set_ref this (mkTensorRef val t.(bytes) t.(format) t.(shape) t.(_parent)) >>
  match t.(_parent) with
  | Some p =>
      let* pm := get_map p in
      set_map p (set_refs pm (Map_set pm.(refs) val this))
  | None => ret tt
  end.

(** If the tensor is parented, remove it from the parent. *)
Definition removeIfParented (this : loc) : M unit :=
  let* t := get_ref this in
  match t.(_parent) with
  | Some p => TensorMap.removeTensor p (inr this)
  | None => ret tt
  end.

End TensorRef.

(** [sanityCheck], the overload on a tensor and the overload on its
    parts. *)
Definition sanityCheck (t : TensorRef) : result unit :=
  _sanityCheck t.(_name) t.(bytes) (Some t.(format)) (Some t.(shape)).

Definition sanityCheck_parts (b : Bytes) (fmt : option Format)
    (shp : option Shape) : result unit :=
  _sanityCheck "created" b fmt shp.

Definition TensorRef_sanityCheck (this : loc) : M unit :=
  let* t := get_ref this in
  lift (sanityCheck t).

(* ===================================================================== *)
(** ** The decoder *)
(* ===================================================================== *)

(** [val.key] on a parsed value: an own property of an object. *)
Definition get_prop (val : json) (key : string) : option json :=
  match val with
  | JObj l => assoc_get l key
  | _ => None
  end.

(** [new Map(entries)]. *)
Definition Map_of_entries {V : Type} (entries : list (string * V))
  : list (string * V) :=
  fold_left (fun m kv => Map_set m (fst kv) (snd kv)) entries [].

(** The destructuring [{dtype, shape, data_offsets} = val] and the two
    reads [data_offsets[0]], [data_offsets[1]].  After validation the three
    properties are present, [dtype] is a string, [shape] an array and
    [data_offsets] an array of two elements.  The source adds the two
    elements to the start of the data section whatever they are, and
    slices; the model follows it on two integers and is silent otherwise
    ([Unmodelled]), where the decoder itself goes on and returns a
    container. *)
Definition tensor_entry (val : json)
  : result (Format * Shape * Integer * Integer) :=
  match get_prop val "dtype", get_prop val "shape",
        get_prop val "data_offsets" with
  | Some (JStr dtype), Some (JArr shape), Some (JArr [o0; o1]) =>
      do start <- as_Integer o0;
      do end_ <- as_Integer o1;
      Ok (dtype, shape, start, end_)
  | _, _, None => Throw TypeError
  | _, _, _ => Throw Unmodelled
  end.

Fixpoint parseSafeTensors_loop (bytes : Bytes) (hdrsize : Integer)
    (ret_ : loc) (entries : list (string * json)) : M unit :=
  match entries with
  | [] => ret tt
  | (name, val) :: r =>
      (if String.eqb name "__metadata__" then
         let* md := lift (Object_entries val) in
         TensorMap.setAllMetadata ret_ (Map_of_entries md)
       else
         let* e := lift (tensor_entry val) in
         let '(dtype, shape, start, end_) := e in
         let* _ := TensorMap.addTensor ret_ name
                     (AsBytes (slice bytes (8 + hdrsize + start)
                                           (8 + hdrsize + end_)))
                     (Some dtype) (Some shape) in
         ret tt) >>
      parseSafeTensors_loop bytes hdrsize ret_ r
  end.

(** Given a safetensors file, return the [TensorMap] of the tensors and
    metadata stored in it.  The optional flag is passed as a boolean
    ([!!ignoreInvalid]). *)
Definition parseSafeTensors (bytes : Bytes) (ignoreInvalid : bool) : M loc :=
  let* _ := lift (sanityCheckTensorsHeader ignoreInvalid bytes
                    (byteLength bytes)) in
  let hdrsize := unsafeGetHeaderSize bytes in
  let* ret_ := TensorMap.new in
  let* text := lift (TextDecoder_decode (slice bytes 8 (8 + hdrsize))) in
  let* j := lift (JSON_parse text) in
  let* _ := lift (sanityCheckTensorsParsed ignoreInvalid j
                    (byteLength bytes - 8 - hdrsize)) in
  let* entries := lift (Object_entries j) in
  parseSafeTensors_loop bytes hdrsize ret_ entries >>
  ret ret_.

(* ===================================================================== *)
(** ** The encoder *)
(* ===================================================================== *)

Definition padder : Bytes := [x20; x20; x20; x20; x20; x20; x20; x20].

(** [(n + 7) & ~7]. *)
Definition align8 (n : Integer) : Integer := js_and (n + 7) (js_not 7).

Module TensorSaver.

(** The fields of the helper class, in the buffer mode of
    [saveSafeTensors] (no [write] callback given).  [hdr] lists the own
    properties of the header object and [hdr_proto] its prototype when
    an assignment to [__proto__] replaced it; [wrote] is the variable
    captured by the default writer.  The fields the class declares
    optional are assigned by [calcOffset], [calcHeader] and
    [writeHeader] before any later phase reads them. *)
Record t : Type := mk {
  hdr : list (string * json);
  hdr_proto : option json;
  tes : list (string * TensorRef);
  offset : Integer;
  hdrBuf : Bytes;
  lenbuf : Bytes;
  hblen : Integer;
  ret : Bytes;
  wrote : Integer
}.

Fixpoint setMetadata_loop (md : list (string * json)) (toset : bool)
    (entries : list (string * json)) : list (string * json) * bool :=
  match entries with
  | [] => (md, toset)
  | (name, val) :: r => setMetadata_loop (obj_assign md name val) true r
  end.

(** The constructor, which runs [setMetadata]. *)
Definition new (tensorMap : TensorMap) : t :=
  let '(md, toset) := setMetadata_loop [] false tensorMap.(metadata) in
  let hdr := if toset then obj_assign [] "__metadata__" (JObj md) else [] in
  mk hdr None [] 0 [] [] 0 [] 0.

(** [this.hdr[name] = v] for an object [v]. *)
Definition hdr_assign (hdr : list (string * json)) (proto : option json)
    (name : string) (v : json) : list (string * json) * option json :=
  if String.eqb name "__proto__" then (hdr, Some v)
  else (obj_define hdr name v, proto).

Fixpoint calcOffset_loop (hdr : list (string * json)) (proto : option json)
    (offset : Integer) (tes : list (string * TensorRef))
  : list (string * json) * option json * Integer :=
  match tes with
  | [] => (hdr, proto, offset)
  | (name, tensor) :: r =>
      let entry :=
        JObj [("dtype", JStr tensor.(format));
              ("shape", JArr tensor.(shape));
              ("data_offsets",
               JArr [JNum offset;
                     JNum (offset + byteLength tensor.(bytes))])] in
      let '(hdr', proto') := hdr_assign hdr proto name entry in
      calcOffset_loop hdr' proto'
        (offset + align8 (byteLength tensor.(bytes))) r
  end.

(** [Array.from(this.tensorMap.allTensors.entries())], each reference
    read from the store. *)
Fixpoint entries_of (h : heap) (refs : list (string * loc))
  : result (list (string * TensorRef)) :=
  match refs with
  | [] => Ok []
  | (name, l) :: r =>
      match h.(tensorRefs) !! l with
      | Some tensor =>
          do rest <- entries_of h r;
          Ok ((name, tensor) :: rest)
      | None => Throw Unmodelled
      end
  end.

Definition calcOffset (h : heap) (tensorMap : TensorMap) (this : t)
  : result t :=
  do tes <- entries_of h tensorMap.(refs);
  let '(hdr', proto', offset) :=
    calcOffset_loop this.(hdr) this.(hdr_proto) 0 tes in
  Ok (mk hdr' proto' tes offset this.(hdrBuf) this.(lenbuf) this.(hblen)
         this.(ret) this.(wrote)).

Definition calcHeader (this : t) : result t :=
  do hdrBuf <- TextEncoder_encode (JSON_stringify (JObj this.(hdr)));
  let hblen := align8 (byteLength hdrBuf) in
  if MAX_HEADER <? hblen then Throw (Error MetadataTooLarge)
  else
    let lenbuf :=
      [byte_of_Z (js_and hblen 255);
       byte_of_Z (js_and (js_shr hblen 8) 255);
       byte_of_Z (js_and (js_shr hblen 16) 255);
       byte_of_Z (js_and (js_shr hblen 24) 255);
       x00; x00; x00; x00] in
    Ok (mk this.(hdr) this.(hdr_proto) this.(tes) this.(offset) hdrBuf
           lenbuf hblen this.(ret) this.(wrote)).

(** The default writer: [this.ret.set(data, wrote); wrote += data.length]. *)
Definition write (this : t) (data : Bytes) : result t :=
  do buf <- Uint8Array_set this.(ret) data this.(wrote);
  Ok (mk this.(hdr) this.(hdr_proto) this.(tes) this.(offset)
         this.(hdrBuf) this.(lenbuf) this.(hblen) buf
         (this.(wrote) + byteLength data)).

Definition writeHeader (this : t) : result t :=
  do buf <- new_Uint8Array (this.(offset) + this.(hblen) + 8);
  let this := mk this.(hdr) this.(hdr_proto) this.(tes) this.(offset)
                 this.(hdrBuf) this.(lenbuf) this.(hblen) buf 0 in
  do this <- write this this.(lenbuf);
  do this <- write this this.(hdrBuf);
  if byteLength this.(hdrBuf) <? this.(hblen)
  then write this
         (slice padder 0 (this.(hblen) - byteLength this.(hdrBuf)))
  else Ok this.

(** [this.hdr[name]]: an own property, or the prototype for the key
    [__proto__]. *)
Definition hdr_get (this : t) (name : string) : option json :=
  if String.eqb name "__proto__" then this.(hdr_proto)
  else assoc_get this.(hdr) name.

(** [this.hdr[name].data_offsets[1]]. *)
Definition recorded_end (this : t) (name : string) : result Integer :=
  match hdr_get this name with
  | Some entry =>
      match get_prop entry "data_offsets" with
      | Some (JArr [_; e]) => as_Integer e
      | _ => Throw TypeError
      end
  | None => Throw TypeError
  end.

Fixpoint writeTensors_loop (this : t) (written : Integer)
    (tes : list (string * TensorRef)) : result t :=
  match tes with
  | [] => Ok this
  | (name, tensor) :: r =>
      let len := byteLength tensor.(bytes) in
      do this <- write this tensor.(bytes);
      let written := written + len in
      do '(this, written) <-
        (if negb (js_and len 7 =? 0) then
           do this <- write this (slice padder 0 (8 - js_and len 7));
           Ok (this, written + (8 - js_and len 7))
         else Ok (this, written));
      do end_ <- recorded_end this name;
      if negb (align8 end_ =? written)
      then Throw (Error (AlignmentProblem name))
      else writeTensors_loop this written r
  end.

Definition writeTensors (this : t) : result t :=
  writeTensors_loop this 0 this.(tes).

End TensorSaver.

(** Given a [TensorMap], generate the contents of a safetensors file that
    contains those tensors and the metadata (the overload that returns the
    buffer).  The store is only read. *)
Definition saveSafeTensors_of (h : heap) (tm : TensorMap) : result Bytes :=
  let save := TensorSaver.new tm in
  do save <- TensorSaver.calcOffset h tm save;
  do save <- TensorSaver.calcHeader save;
  do save <- TensorSaver.writeHeader save;
  do save <- TensorSaver.writeTensors save;
  Ok save.(TensorSaver.ret).

Definition saveSafeTensors (tensorMap : loc) : M Bytes :=
  let* tm := get_map tensorMap in
  fun h => (saveSafeTensors_of h tm, h).

(* ===================================================================== *)
(** ** Sample inputs *)
(* ===================================================================== *)

(** The archive of the test script: one tensor [ten] of format BF16 and
    shape 2 x 3 over the bytes 1 .. 12. *)
Definition test_header : string :=
  dq "{'ten':{'dtype':'BF16','shape':[2,3],'data_offsets':[0,12]}}    ".

Definition test_archive : Bytes :=
  [x40; x00; x00; x00; x00; x00; x00; x00]
  ++ text_bytes test_header
  ++ [x01; x02; x03; x04; x05; x06; x07; x08; x09; x0a; x0b; x0c;
      x20; x20; x20; x20].

(** The same archive with its last padding byte zeroed. *)
Definition test_archive_zero_pad : Bytes :=
  [x40; x00; x00; x00; x00; x00; x00; x00]
  ++ text_bytes test_header
  ++ [x01; x02; x03; x04; x05; x06; x07; x08; x09; x0a; x0b; x0c;
      x20; x20; x20; x00].

(** A header whose second range contains the first. *)
Definition nested_ranges_header : json :=
  JObj [("a", JObj [("dtype", JStr "U8"); ("shape", JArr [JNum 4]);
                    ("data_offsets", JArr [JNum 4; JNum 8])]);
        ("b", JObj [("dtype", JStr "U8"); ("shape", JArr [JNum 12]);
                    ("data_offsets", JArr [JNum 0; JNum 12])])].

(** The first nine bytes of a file announcing a header of 2^31 bytes. *)
Definition huge_length_prefix : Bytes :=
  [x00; x00; x00; x80; x00; x00; x00; x00; x7b].

(** Two offset ranges share a byte. *)
Definition ranges_intersect (p q : OffsetPair) : Prop :=
  exists x : Z, fst p <= x < snd p /\ fst q <= x < snd q.

(** Every tensor of the mapping of [c] points back to [c]. *)
Definition parent_invariant (h : heap) (c : loc) : Prop :=
  forall (m : TensorMap) (k : string) (t : loc),
    h.(tensorMaps) !! c = Some m ->
    Map_get m.(refs) k = Some t ->
    exists tr, h.(tensorRefs) !! t = Some tr /\ tr.(_parent) = Some c.

(** A fresh map on which [getOrMakeTensor] runs its factory. *)
Definition getOrMake_scenario : M loc :=
  let* c := TensorMap.new in
  TensorMap.getOrMakeTensor c "a" (TensorRef.new "a" [x01] "U8" [JNum 1]).

(** What is said of [c.addTensor(n, t)] followed by [c.removeTensor(n)]:
    the entry is stored under [n], the name of [t] is unchanged, the
    removal clears the parent of [t] and deletes the entry under the name
    of [t], and [c.getTensor(n)] still returns [t]. *)
Definition add_then_remove_keeps_entry (h : heap) (c t : loc) (n : string)
  : Prop :=
  exists (h1 h2 : heap) (tr0 tr1 tr2 : TensorRef) (m1 m2 : TensorMap),
    h.(tensorRefs) !! t = Some tr0
    /\ TensorMap.addTensor c n (AsTensorRef t) None None h = (Ok t, h1)
    /\ h1.(tensorRefs) !! t = Some tr1
    /\ h1.(tensorMaps) !! c = Some m1
    /\ Map_get m1.(refs) n = Some t
    /\ tr1.(_name) = tr0.(_name)
    /\ TensorMap.removeTensor c (inl n) h1 = (Ok tt, h2)
    /\ h2.(tensorRefs) !! t = Some tr2
    /\ tr2.(_parent) = None
    /\ h2.(tensorMaps) !! c = Some m2
    /\ m2.(refs) = Map_delete m1.(refs) tr1.(_name)
    /\ TensorMap.getTensor c n h2 = (Ok (Some t), h2).

(** A map holding a tensor under the key [n], and a free-standing tensor
    named [x]. *)
Definition occupied_name_scenario : M loc :=
  let* c := TensorMap.new in
  let* _ := TensorMap.addTensor c "n" (AsBytes [x01]) (Some "U8"%string)
              (Some [JNum 1]) in
  TensorRef.new "x" [x02] "U8" [JNum 1].

(** [t] is owned by [c]: it points back to [c] and [c] holds it. *)
Definition owned_by (h : heap) (t c : loc) : Prop :=
  exists (tr : TensorRef) (m : TensorMap) (k : string),
    h.(tensorRefs) !! t = Some tr
    /\ tr.(_parent) = Some c
    /\ h.(tensorMaps) !! c = Some m
    /\ Map_get m.(refs) k = Some t.

(** Assigning [t.name] its current value throws the collision error and
    leaves the store as it was. *)
Definition rename_to_own_name_throws (h : heap) (t : loc) : Prop :=
  exists tr : TensorRef,
    h.(tensorRefs) !! t = Some tr
    /\ TensorRef.set_name t tr.(_name) h
       = (Throw (Error (NameExistsInParent tr.(_name))), h).

(** A tensor named [x] added to a fresh map under the key [y]. *)
Definition renamed_key_scenario : M loc :=
  let* c := TensorMap.new in
  let* t := TensorRef.new "x" [x01] "U8" [JNum 1] in
  TensorMap.addTensor c "y" (AsTensorRef t) None None.

(** A fresh map and a free-standing tensor named [x]. *)
Definition fresh_pair_heap : heap :=
  snd ((let* c := TensorMap.new in
        TensorRef.new "x" [x01] "U8" [JNum 1]) empty_heap).

(** A tensor added to a fresh map under its own name. *)
Definition own_name_heap : heap :=
  snd ((let* c := TensorMap.new in
        TensorMap.addTensor c "x" (AsBytes [x01]) (Some "U8"%string)
          (Some [JNum 1])) empty_heap).

(** A map of two tensors, the first of 2 GiB. *)
Definition two_gib : Bytes := repeat x00 (Z.to_nat 2147483648).

Definition big_tensor_map : TensorMap :=
  mkTensorMap [("a", 1%positive); ("b", 2%positive)] [].

Definition big_tensor_heap : heap :=
  mkHeap
    (<[1%positive := mkTensorRef "a" two_gib "U8" [JNum 2147483648]
                       (Some 3%positive)]>
       (<[2%positive := mkTensorRef "b" [x01] "U8" [JNum 1]
                          (Some 3%positive)]> ∅))
    (<[3%positive := big_tensor_map]> ∅)
    4%positive.

(* ===================================================================== *)
(** ** Notions used to state the properties of the platform model *)
(* ===================================================================== *)

(** The next character cannot continue a numeral. *)
Definition not_digit_head (s : string) : Prop :=
  match s with
  | EmptyString => True
  | String c _ => is_digit c = false
  end.

(** What may follow a value in a text: not a digit and not the start of a
    fraction or of an exponent. *)
Definition delimited (s : string) : Prop :=
  match s with
  | EmptyString => True
  | String c _ =>
      is_digit c = false
      /\ (code c =? 46)%N = false /\ (code c =? 101)%N = false
      /\ (code c =? 69)%N = false
  end.

(** All the strings of a value, member names included, are well-formed. *)
Fixpoint json_text (v : json) : bool :=
  match v with
  | JStr s => is_utf8 s
  | JArr l => forallb json_text l
  | JObj l =>
      (fix members (l : list (string * json)) : bool :=
         match l with
         | [] => true
         | (k, x) :: r => is_utf8 k && json_text x && members r
         end) l
  | _ => true
  end.

(** The object obtained by defining the members of [l] in turn, starting
    from the properties [acc]: what [JSON.parse] builds from the text of
    an object. *)
Definition define_all {V : Type} (acc l : list (string * V))
  : list (string * V) :=
  fold_left (fun o kv => obj_define o (fst kv) (snd kv)) l acc.

(** The value [JSON.parse] returns for the text of [v]: every object
    rebuilt from its members. *)
Fixpoint canon (v : json) : json :=
  match v with
  | JArr l => JArr (map canon l)
  | JObj l =>
      JObj (define_all []
              ((fix members (l : list (string * json))
                  : list (string * json) :=
                  match l with
                  | [] => []
                  | (k, x) :: r => (k, canon x) :: members r
                  end) l))
  | _ => v
  end.

Fixpoint canon_members (l : list (string * json)) : list (string * json) :=
  match l with
  | [] => []
  | (k, x) :: r => (k, canon x) :: canon_members r
  end.

(** The tail of the text of an array and of an object. *)
Fixpoint stringify_elems (l : list json) : string :=
  match l with
  | [] => "]"
  | y :: l' => "," +:+ JSON_stringify y +:+ stringify_elems l'
  end.

Fixpoint stringify_members (l : list (string * json)) : string :=
  match l with
  | [] => "}"
  | (k, y) :: l' =>
      "," +:+ quote k +:+ ":" +:+ JSON_stringify y +:+ stringify_members l'
  end.

Fixpoint members_text (l : list (string * json)) : bool :=
  match l with
  | [] => true
  | (k, x) :: r => is_utf8 k && json_text x && members_text r
  end.

Fixpoint spaces (n : nat) : string :=
  match n with
  | O => EmptyString
  | S m => String " " (spaces m)
  end.

(** The first character of the text of a value. *)
Definition value_start (c : ascii) : Prop :=
  is_ws c = false /\ (code c =? 93)%N = false /\ (code c =? 125)%N = false.

(** The statement proved by induction on the value. *)
Definition parses_back (v : json) : Prop :=
  json_text v = true ->
  forall (fuel : nat) (rest : string),
    delimited rest ->
    (2 * String.length (JSON_stringify v +:+ rest) + 1 <= fuel)%nat ->
    parse_value fuel (JSON_stringify v +:+ rest) = Ok (canon v, rest).

(** The key [k] enumerates before the key [k'] in an object: array
    indices first and in ascending order. *)
Definition precedes (k k' : string) : Prop :=
  match array_index k, array_index k' with
  | Some i, Some j => (i < j)%N
  | Some _, None => True
  | None, Some _ => False
  | None, None => True
  end.

(** The own properties of an object, as enumerated: distinct keys, array
    indices first and ascending. *)
Fixpoint js_ordered {V : Type} (l : list (string * V)) : Prop :=
  match l with
  | [] => True
  | (k, _) :: r =>
      assoc_get r k = None
      /\ Forall (fun kv => precedes k (fst kv)) r
      /\ js_ordered r
  end.

(** The keys of an association list are distinct, as those of a [Map] and
    of an object are. *)
Fixpoint unique_keys {V : Type} (l : list (string * V)) : Prop :=
  match l with
  | [] => True
  | (k, _) :: r => assoc_get r k = None /\ unique_keys r
  end.

(* ===================================================================== *)
(** ** Notions used to state the properties of the codec *)
(* ===================================================================== *)

(** Rounding up to the next multiple of 8. *)
Definition round8 (n : Z) : Z := 8 * ((n + 7) / 8).

(** The start offset of every tensor when the first one starts at
    [offset] and each one is followed by its padding. *)
Fixpoint layout (offset : Z) (tes : list (string * TensorRef))
  : list (string * TensorRef * Z) :=
  match tes with
  | [] => []
  | (n, t) :: r =>
      (n, t, offset) :: layout (offset + round8 (byteLength t.(bytes))) r
  end.

Fixpoint data_size (tes : list (string * TensorRef)) : Z :=
  match tes with
  | [] => 0
  | (_, t) :: r => round8 (byteLength t.(bytes)) + data_size r
  end.

(** The header entry of a tensor that starts at offset [o]. *)
Definition entry_of (t : TensorRef) (o : Z) : json :=
  JObj [("dtype", JStr t.(format));
        ("shape", JArr t.(shape));
        ("data_offsets", JArr [JNum o; JNum (o + byteLength t.(bytes))])].

Definition header_entries (l : list (string * TensorRef * Z))
  : list (string * json) :=
  map (fun x => (fst (fst x), entry_of (snd (fst x)) (snd x))) l.

(** The metadata object, and the header object of a map whose tensors
    are [tes]. *)
Definition metadata_object (md : list (string * json))
  : list (string * json) :=
  define_all [] md.

(** The initial properties of the header object: the metadata, if any. *)
Definition header_base (tm : TensorMap) : list (string * json) :=
  match tm.(metadata) with
  | [] => []
  | _ :: _ => [("__metadata__", JObj (metadata_object tm.(metadata)))]
  end.

Definition header_of (tm : TensorMap) (tes : list (string * TensorRef))
  : list (string * json) :=
  define_all (header_base tm) (header_entries (layout 0 tes)).

Definition padding (len : Z) : Bytes :=
  repeat x20 (Z.to_nat (round8 len - len)).

(** The data section: every tensor followed by its padding. *)
Fixpoint data_section (tes : list (string * TensorRef)) : Bytes :=
  match tes with
  | [] => []
  | (_, t) :: r =>
      t.(bytes) ++ padding (byteLength t.(bytes)) ++ data_section r
  end.

(** The four low bytes of a length, least significant first, and four
    zero bytes. *)
Definition length_field (n : Z) : Bytes :=
  [byte_of_Z (n mod 256); byte_of_Z (n / 256 mod 256);
   byte_of_Z (n / 65536 mod 256); byte_of_Z (n / 16777216 mod 256);
   x00; x00; x00; x00].

(** The archive made of a header text and of the tensors [tes]. *)
Definition archive_of (text : string) (tes : list (string * TensorRef))
  : Bytes :=
  let len := Z.of_nat (String.length text) in
  length_field (round8 len)
  ++ text_bytes text
  ++ repeat x20 (Z.to_nat (round8 len - len))
  ++ data_section tes.

Definition is_number (v : json) : bool :=
  match v with
  | JNum _ => true
  | _ => false
  end.

(** What the encoder asks of a tensor and of its key: the key is neither
    of the two reserved words, the format is not empty, the shape holds
    numbers, and the text is well-formed. *)
Definition tensor_ok (nt : string * TensorRef) : bool :=
  negb (String.eqb (fst nt) "__metadata__")
  && negb (String.eqb (fst nt) "__proto__")
  && is_utf8 (fst nt)
  && negb (String.eqb (snd nt).(format) EmptyString)
  && is_utf8 (snd nt).(format)
  && forallb is_number (snd nt).(shape).

Definition meta_ok (kv : string * json) : bool :=
  negb (String.eqb (fst kv) "__proto__")
  && is_utf8 (fst kv)
  && match snd kv with
     | JStr s => is_utf8 s
     | _ => false
     end.

(** The tensor holds at least one byte. *)
Definition holds_bytes (nt : string * TensorRef) : bool :=
  0 <? byteLength (snd nt).(bytes).

(** A container the encoder handles: [tes] are its tensors read from
    the store. *)
Record encodable (h : heap) (tm : TensorMap)
    (tes : list (string * TensorRef)) : Prop := {
  enc_entries : TensorSaver.entries_of h tm.(refs) = Ok tes;
  enc_names : unique_keys tm.(refs);
  enc_keys : unique_keys tm.(metadata);
  enc_tensors : forallb tensor_ok tes = true;
  enc_metadata : forallb meta_ok tm.(metadata) = true;
  enc_data : data_size tes < 2147483648;
  enc_header :
    Z.of_nat (String.length (JSON_stringify (JObj (header_of tm tes))))
    <= MAX_HEADER
}.

(** Two containers hold the same tensors under the same names. *)
Definition same_tensors (h : heap) (tm : TensorMap) (h' : heap)
    (tm' : TensorMap) : Prop :=
  forall n : string,
    match Map_get tm.(refs) n, Map_get tm'.(refs) n with
    | Some l, Some l' =>
        exists t t',
          h.(tensorRefs) !! l = Some t
          /\ h'.(tensorRefs) !! l' = Some t'
          /\ t'.(format) = t.(format)
          /\ t'.(shape) = t.(shape)
          /\ t'.(bytes) = t.(bytes)
    | None, None => True
    | _, _ => False
    end.

Definition same_metadata (tm tm' : TensorMap) : Prop :=
  forall k : string, Map_get tm'.(metadata) k = Map_get tm.(metadata) k.

(** Encoding the container [c] and decoding the result, leniency
    disabled, succeeds and gives back the same tensors and metadata. *)
Definition roundtrips (h : heap) (c : loc) : Prop :=
  exists (tm : TensorMap) (b : Bytes) (c' : loc) (h' : heap)
         (tm' : TensorMap),
    h.(tensorMaps) !! c = Some tm
    /\ saveSafeTensors c h = (Ok b, h)
    /\ parseSafeTensors b false h = (Ok c', h')
    /\ h'.(tensorMaps) !! c' = Some tm'
    /\ same_tensors h tm h' tm'
    /\ same_metadata tm tm'.

(** An entry of an object whose text parses back to itself. *)
Definition plain_entry (kv : string * json) : Prop :=
  is_utf8 (fst kv) = true /\ json_text (snd kv) = true
  /\ canon (snd kv) = snd kv.

(** A state of the saver whose buffer is [buf] and whose writer stands at
    [w]. *)
Definition saver_at (s : TensorSaver.t) (buf : Bytes) (w : Z)
  : TensorSaver.t :=
  TensorSaver.mk s.(TensorSaver.hdr) s.(TensorSaver.hdr_proto)
    s.(TensorSaver.tes) s.(TensorSaver.offset) s.(TensorSaver.hdrBuf)
    s.(TensorSaver.lenbuf) s.(TensorSaver.hblen) buf w.

(** An earlier range [c] makes [checkTensorOverlap] report the range
    [v]. *)
Definition flags (c v : OffsetPair) : bool :=
  ((fst c <? snd v) && (snd v <=? snd c))
  || ((fst c <=? fst v) && (fst v <? snd c)).

(** The range a header entry declares. *)
Definition entry_range (v : json) : option OffsetPair :=
  match get_prop v "data_offsets" with
  | Some (JArr [JNum a; JNum b]) => Some (a, b)
  | _ => None
  end.

(** A header entry the validator accepts: the metadata with string
    values, or a tensor with a shape of numbers and a range inside the
    data section. *)
Definition valid_entry (chunksize : Z) (kv : string * json) : Prop :=
  (fst kv = "__metadata__"%string
   /\ exists md, snd kv = JObj md
                 /\ Forall (fun e => typeof (snd e) = "string"%string) md)
  \/ (fst kv <> "__metadata__"%string
      /\ exists t o, snd kv = entry_of t o
                     /\ forallb is_number t.(shape) = true
                     /\ 0 <= o /\ o + byteLength t.(bytes) <= chunksize).

(** The keys of the tensor entries of a header. *)
Fixpoint tensor_keys (es : list (string * json)) : list string :=
  match es with
  | [] => []
  | (k, _) :: r =>
      if String.eqb k "__metadata__" then tensor_keys r
      else k :: tensor_keys r
  end.

(** A header entry the decoding loop handles: the metadata object, or a
    tensor of a non-empty format. *)
Definition decodable_entry (kv : string * json) : Prop :=
  (fst kv = "__metadata__"%string /\ exists md, snd kv = JObj md)
  \/ (fst kv <> "__metadata__"%string
      /\ exists t o, snd kv = entry_of t o /\ t.(format) <> EmptyString).

(** A container built by hand: its tensors resolve in the store, every
    shape is consistent with the byte length under the explicit size
    check, and the metadata values are strings. *)
Definition hand_built (h : heap) (tm : TensorMap) : Prop :=
  exists tes : list (string * TensorRef),
    TensorSaver.entries_of h tm.(refs) = Ok tes
    /\ Forall (fun nt => sanityCheck (snd nt) = Ok tt) tes
    /\ Forall (fun kv => typeof (snd kv) = "string"%string) tm.(metadata).

(** The fields of a tensor that its archive records. *)
Definition same_fields (t t' : TensorRef) : Prop :=
  t'.(format) = t.(format) /\ t'.(shape) = t.(shape)
  /\ t'.(bytes) = t.(bytes).

(** The container of the test script: three tensors and two metadata
    entries. *)
Definition test_container : M loc :=
  let* c := TensorMap.new in
  let* _ := TensorMap.addTensor c "snark"
              (AsBytes [x01; x02; x03; x04; x05; x06; x07; x08; x09; x0a;
                        x0b; x0c])
              (Some "UINT8"%string) (Some [JNum 1; JNum 3; JNum 4]) in
  let* _ := TensorMap.addTensor c "snork" (AsBytes [x00; x01; x01; x00])
              (Some "UINT8"%string) (Some [JNum 4]) in
  let* t := TensorRef.new "snurk" [x00; x01; x01; x00] "UINT8"
              [JNum 2; JNum 2] in
  let* _ := TensorMap.addTensor c "snurk" (AsTensorRef t) None None in
  let* _ := TensorMap.setMetaValue c "foo" (JStr "bar") in
  let* _ := TensorMap.setMetaValue c "baz" (JStr "quux") in
  ret c.

Definition test_container_heap : heap := snd (test_container empty_heap).

Definition test_container_map : TensorMap :=
  mkTensorMap [("snark", 2%positive); ("snork", 3%positive);
               ("snurk", 4%positive)]
              [("foo", JStr "bar"); ("baz", JStr "quux")].

Definition test_container_tensors : list (string * TensorRef) :=
  [("snark", mkTensorRef "snark"
               [x01; x02; x03; x04; x05; x06; x07; x08; x09; x0a; x0b; x0c]
               "UINT8" [JNum 1; JNum 3; JNum 4] (Some 1%positive));
   ("snork", mkTensorRef "snork" [x00; x01; x01; x00] "UINT8" [JNum 4]
               (Some 1%positive));
   ("snurk", mkTensorRef "snurk" [x00; x01; x01; x00] "UINT8"
               [JNum 2; JNum 2] (Some 1%positive))].

(** A container whose only tensor is stored under the reserved key. *)
Definition reserved_name_container : M loc :=
  let* c := TensorMap.new in
  let* _ := TensorMap.addTensor c "__metadata__" (AsBytes [x01])
              (Some "U8"%string) (Some [JNum 1]) in
  ret c.

(** A tensor of eight bytes followed by an empty tensor. *)
Definition empty_tensor_container : M loc :=
  let* c := TensorMap.new in
  let* _ := TensorMap.addTensor c "a"
              (AsBytes [x01; x02; x03; x04; x05; x06; x07; x08])
              (Some "U8"%string) (Some [JNum 8]) in
  let* _ := TensorMap.addTensor c "b" (AsBytes [])
              (Some "U8"%string) (Some [JNum 0]) in
  ret c.

(** A container whose names enumerate as they were added: an empty tensor
    [0], a tensor [1] of eight bytes, a tensor [w] followed by an e with
    an acute accent (two bytes in UTF-8), and one metadata entry. *)
Definition accented_name : string :=
  String "w" (String "195" (String "169" EmptyString)).

Definition ordered_names_container : M loc :=
  let* c := TensorMap.new in
  let* _ := TensorMap.addTensor c "0" (AsBytes [])
              (Some "U8"%string) (Some [JNum 0]) in
  let* _ := TensorMap.addTensor c "1"
              (AsBytes [x01; x02; x03; x04; x05; x06; x07; x08])
              (Some "U8"%string) (Some [JNum 8]) in
  let* _ := TensorMap.addTensor c accented_name (AsBytes [x0a; x0b; x0c])
              (Some "U8"%string) (Some [JNum 3]) in
  let* _ := TensorMap.setMetaValue c "k" (JStr "v") in
  ret c.

Definition ordered_names_heap : heap :=
  snd (ordered_names_container empty_heap).

Definition ordered_names_map : TensorMap :=
  mkTensorMap [("0", 2%positive); ("1", 3%positive);
               (accented_name, 4%positive)]
              [("k", JStr "v")].

Definition ordered_names_tensors : list (string * TensorRef) :=
  [("0", mkTensorRef "0" [] "U8" [JNum 0] (Some 1%positive));
   ("1", mkTensorRef "1" [x01; x02; x03; x04; x05; x06; x07; x08] "U8"
           [JNum 8] (Some 1%positive));
   (accented_name, mkTensorRef accented_name [x0a; x0b; x0c] "U8" [JNum 3]
                     (Some 1%positive))].

Definition ordered_names_archive : Bytes :=
  archive_of
    (JSON_stringify (JObj (header_of ordered_names_map ordered_names_tensors)))
    ordered_names_tensors.

(** A container whose tensor [w] was added before its tensor [0]. *)
Definition unordered_names_container : M loc :=
  let* c := TensorMap.new in
  let* _ := TensorMap.addTensor c "w" (AsBytes [x01])
              (Some "U8"%string) (Some [JNum 1]) in
  let* _ := TensorMap.addTensor c "0" (AsBytes [x02])
              (Some "U8"%string) (Some [JNum 1]) in
  ret c.

(** Two lists of tensors under the same keys and with the same recorded
    fields. *)
Definition same_entries (tes tes' : list (string * TensorRef)) : Prop :=
  Forall2 (fun x y => fst x = fst y /\ same_fields (snd x) (snd y)) tes tes'.

(** An archive made of a header text, taken as it is, and of a data
    section. *)
Definition raw_archive (text : string) (data : Bytes) : Bytes :=
  length_field (Z.of_nat (String.length text)) ++ text_bytes text ++ data.

(** An archive whose tensor declares six elements of 16 bits over eleven
    bytes. *)
Definition short_tensor_archive : Bytes :=
  raw_archive
    (dq "{'ten':{'dtype':'BF16','shape':[2,3],'data_offsets':[0,11]}}")
    [x01; x02; x03; x04; x05; x06; x07; x08; x09; x0a; x0b].

(** An archive with a shape element that is not a number, a field that is
    not known, two ranges that overlap, a range that leaves the data
    section and a metadata value that is not a string. *)
Definition out_of_spec_header : string :=
  dq ("{'a':{'dtype':'U8','shape':[2,'x'],'data_offsets':[0,4],'extra':1},"
      +:+ "'b':{'dtype':'U8','shape':[4],'data_offsets':[2,9]},"
      +:+ "'__metadata__':{'k':1}}").

Definition out_of_spec_archive : Bytes :=
  raw_archive out_of_spec_header [x01; x02; x03; x04; x05; x06].

(** The metadata the decoding loop leaves in the container: that of the
    last [__metadata__] entry of the header, [acc] when there is none. *)
Fixpoint header_metadata (acc : list (string * json))
    (es : list (string * json)) : list (string * json) :=
  match es with
  | [] => acc
  | (k, v) :: r =>
      header_metadata
        (if String.eqb k "__metadata__"
         then match Object_entries v with
              | Ok md => Map_of_entries md
              | Throw _ => acc
              end
         else acc) r
  end.

(** The container [c] of the store [h'] holds what the header of the
    archive [b] says: every tensor entry is stored under its name with the
    format and the shape the entry gives, its bytes are the slice its
    range selects when the two offsets are integers, and the metadata is
    that of the header. *)
Definition kept_verbatim (b : Bytes) (h' : heap) (c : loc) : Prop :=
  exists (text : string) (j : json) (entries : list (string * json))
         (tm : TensorMap),
    TextDecoder_decode (slice b 8 (8 + unsafeGetHeaderSize b)) = Ok text
    /\ JSON_parse text = Ok j
    /\ Object_entries j = Ok entries
    /\ h'.(tensorMaps) !! c = Some tm
    /\ (forall name val,
           List.In (name, val) entries -> name <> "__metadata__"%string ->
           exists (l : loc) (t : TensorRef),
             Map_get tm.(refs) name = Some l
             /\ h'.(tensorRefs) !! l = Some t
             /\ get_prop val "dtype" = Some (JStr t.(format))
             /\ get_prop val "shape" = Some (JArr t.(shape))
             /\ (forall o0 o1 : Z,
                    get_prop val "data_offsets"
                    = Some (JArr [JNum o0; JNum o1]) ->
                    t.(bytes)
                    = slice b (8 + unsafeGetHeaderSize b + o0)
                              (8 + unsafeGetHeaderSize b + o1)))
    /\ tm.(metadata) = header_metadata [] entries.

(** A tensor description with no fault but those leniency waives: an
    object that has, once each, a string for [dtype], an array for
    [shape], whatever its elements, and two integers for [data_offsets],
    whatever range they give; it may have other fields. *)
Definition tolerated_tensor (value : json) : Prop :=
  exists (fields : list (string * json)) (dtype : string)
         (shape : list json) (a b : Z),
    value = JObj fields
    /\ unique_keys fields
    /\ assoc_get fields "dtype" = Some (JStr dtype)
    /\ assoc_get fields "shape" = Some (JArr shape)
    /\ assoc_get fields "data_offsets" = Some (JArr [JNum a; JNum b]).

(** A header entry with no fault but those leniency waives: the metadata,
    an object or another value with properties, whatever their values, or
    a tensor description as above. *)
Definition tolerated_entry (kv : string * json) : Prop :=
  if String.eqb (fst kv) "__metadata__"
  then exists md : list (string * json), Object_entries (snd kv) = Ok md
  else tolerated_tensor (snd kv).

(** The header of [out_of_spec_archive], parsed. *)
Definition out_of_spec_entries : list (string * json) :=
  [("a", JObj [("dtype", JStr "U8"); ("shape", JArr [JNum 2; JStr "x"]);
               ("data_offsets", JArr [JNum 0; JNum 4]); ("extra", JNum 1)]);
   ("b", JObj [("dtype", JStr "U8"); ("shape", JArr [JNum 4]);
               ("data_offsets", JArr [JNum 2; JNum 9])]);
   ("__metadata__", JObj [("k", JNum 1)])].

(** A result of a checker under leniency: no suppressible error, and the
    flag is still set. *)
Definition lenient_result (r : result TensorAttributeChecker.t) : Prop :=
  match r with
  | Ok this => this.(TensorAttributeChecker.ignoreInvalid) = true
  | Throw (IgnorableError _) => False
  | Throw _ => True
  end.

(* ===================================================================== *)
(** ** Notions used to state further properties of the code *)
(* ===================================================================== *)

(** The text holds a decimal digit. *)
Fixpoint has_digit (s : string) : bool :=
  match s with
  | EmptyString => false
  | String c r => is_digit c || has_digit r
  end.

Definition power_of_two (n : Z) : Prop := exists k : Z, 0 <= k /\ n = 2 ^ k.

(** The number of elements of a tensor of dimensions [dims]. *)
Definition element_count (dims : list Z) : Z := fold_right Z.mul 1 dims.

(** The dimensions [dims] and the products the loop of the size check
    goes through, starting from [num], are integers every number holds
    exactly (magnitude at most 2^53): the loop then computes without
    rounding. *)
Fixpoint exact_products (num : Z) (dims : list Z) : bool :=
  match dims with
  | [] => true
  | d :: r =>
      exact_integer d && exact_integer (num * d)
      && exact_products (num * d) r
  end.

(** The checker [this] with its leniency flag set to [b]. *)
Definition with_flag (this : TensorAttributeChecker.t) (b : bool)
  : TensorAttributeChecker.t :=
  TensorAttributeChecker.mk this.(TensorAttributeChecker.chunksize)
    this.(TensorAttributeChecker.covered) b
    this.(TensorAttributeChecker.has_dtype)
    this.(TensorAttributeChecker.has_shape)
    this.(TensorAttributeChecker.has_data_offsets).

(** A tensor description in order: an object whose keys are the three
    known ones, with a string for [dtype], an array of numbers for
    [shape], and for [data_offsets] two numbers that delimit a range of
    the data section. *)
Definition well_formed_tensor (chunksize : Z) (value : json) : Prop :=
  exists (fields : list (string * json)) (dtype : string)
         (shape : list json) (a b : Z),
    value = JObj fields
    /\ Forall (fun kv => TensorAttributeChecker.attrOk (fst kv) = true) fields
    /\ assoc_get fields "dtype" = Some (JStr dtype)
    /\ assoc_get fields "shape" = Some (JArr shape)
    /\ forallb is_number shape = true
    /\ assoc_get fields "data_offsets" = Some (JArr [JNum a; JNum b])
    /\ pairInRange (a, b) chunksize = true.

(** A metadata value in order: every property is a string. *)
Definition well_formed_metadata (value : json) : Prop :=
  exists entries : list (string * json),
    Object_entries value = Ok entries
    /\ Forall (fun kv => exists s, snd kv = JStr s) entries.

(** A header entry that does not stop the decoding loop: the metadata,
    or a tensor description whose [dtype] is not the empty string. *)
Definition names_a_format (kv : string * json) : Prop :=
  fst kv = "__metadata__"%string
  \/ get_prop (snd kv) "dtype" <> Some (JStr EmptyString).

(** An archive whose only tensor has an empty [dtype]. *)
Definition empty_dtype_archive : Bytes :=
  raw_archive (dq "{'a':{'dtype':'','shape':[1],'data_offsets':[0,1]}}")
    [x01].

(* ===================================================================== *)
(** ** The encoder with a [write] callback *)
(* ===================================================================== *)

(** The overload of [saveSafeTensors] that is given a [write] callback:
    [this.write] is that callback from the start, [writeHeader] allocates
    no buffer, and the function returns [undefined].  All the encoder does
    with the callback is call it with one chunk after the other, so a run
    is modelled by the list of the chunks passed so far, in order; the
    chunks passed before an exception stay passed. *)
Module TensorSaverCallback.

Definition write (chunks : list Bytes) (data : Bytes) : list Bytes :=
  chunks ++ [data].

Definition writeHeader (this : TensorSaver.t) (chunks : list Bytes)
  : list Bytes :=
  let chunks := write chunks this.(TensorSaver.lenbuf) in
  let chunks := write chunks this.(TensorSaver.hdrBuf) in
  if byteLength this.(TensorSaver.hdrBuf) <? this.(TensorSaver.hblen)
  then write chunks
         (slice padder 0
            (this.(TensorSaver.hblen) - byteLength this.(TensorSaver.hdrBuf)))
  else chunks.

Fixpoint writeTensors_loop (this : TensorSaver.t) (chunks : list Bytes)
    (written : Integer) (tes : list (string * TensorRef))
  : result unit * list Bytes :=
  match tes with
  | [] => (Ok tt, chunks)
  | (name, tensor) :: r =>
      let len := byteLength tensor.(bytes) in
      let chunks := write chunks tensor.(bytes) in
      let written := written + len in
      let '(chunks, written) :=
        if negb (js_and len 7 =? 0)
        then (write chunks (slice padder 0 (8 - js_and len 7)),
              written + (8 - js_and len 7))
        else (chunks, written) in
      match TensorSaver.recorded_end this name with
      | Throw e => (Throw e, chunks)
      | Ok end_ =>
          if negb (align8 end_ =? written)
          then (Throw (Error (AlignmentProblem name)), chunks)
          else writeTensors_loop this chunks written r
      end
  end.

Definition writeTensors (this : TensorSaver.t) (chunks : list Bytes)
  : result unit * list Bytes :=
  writeTensors_loop this chunks 0 this.(TensorSaver.tes).

End TensorSaverCallback.

(** [saveSafeTensors(tensorMap, write)]: the outcome and the chunks the
    callback received. *)
Definition saveSafeTensors_write (h : heap) (tm : TensorMap)
  : result unit * list Bytes :=
  let save := TensorSaver.new tm in
  match TensorSaver.calcOffset h tm save with
  | Throw e => (Throw e, [])
  | Ok save =>
      match TensorSaver.calcHeader save with
      | Throw e => (Throw e, [])
      | Ok save =>
          TensorSaverCallback.writeTensors save
            (TensorSaverCallback.writeHeader save [])
      end
  end.

(** A tensor description the decoder can read: an object with a string
    for [dtype], an array for [shape] and two numbers for
    [data_offsets]. *)
Definition readable_tensor (value : json) : Prop :=
  exists (fields : list (string * json)) (dtype : string)
         (shape : list json) (a b : Z),
    value = JObj fields
    /\ assoc_get fields "dtype" = Some (JStr dtype)
    /\ assoc_get fields "shape" = Some (JArr shape)
    /\ assoc_get fields "data_offsets" = Some (JArr [JNum a; JNum b]).

(** What the strict validator checked of a tensor description: an object
    whose keys are the three known ones, with a string for [dtype], an
    array of numbers for [shape], and for [data_offsets] an array of two
    elements which, when they are integers, delimit a range of the data
    section.  (Elements of another kind are compared after a coercion,
    which the model does not follow.) *)
Definition checked_tensor (chunksize : Z) (value : json) : Prop :=
  exists (fields : list (string * json)) (dtype : string)
         (shape : list json) (x y : json),
    value = JObj fields
    /\ Forall (fun kv => TensorAttributeChecker.attrOk (fst kv) = true) fields
    /\ assoc_get fields "dtype" = Some (JStr dtype)
    /\ assoc_get fields "shape" = Some (JArr shape)
    /\ forallb is_number shape = true
    /\ assoc_get fields "data_offsets" = Some (JArr [x; y])
    /\ (forall a b : Z,
           x = JNum a -> y = JNum b -> pairInRange (a, b) chunksize = true).

(** What the validator checks of a tensor description even under
    leniency: an object with a string for [dtype], an array for [shape]
    and an array of two elements for [data_offsets]. *)
Definition described_tensor (value : json) : Prop :=
  exists (fields : list (string * json)) (dtype : string)
         (shape : list json) (x y : json),
    value = JObj fields
    /\ assoc_get fields "dtype" = Some (JStr dtype)
    /\ assoc_get fields "shape" = Some (JArr shape)
    /\ assoc_get fields "data_offsets" = Some (JArr [x; y]).

(** ** Properties *)

(* ===================================================================== *)
(** ** Strings and numerals *)
(* ===================================================================== *)

Lemma append_cons (x : ascii) (a b : string) :
  String x a +:+ b = String x (a +:+ b).
Proof. reflexivity. Qed.

Lemma append_nil_l (a : string) : EmptyString +:+ a = a.
Proof. reflexivity. Qed.

Lemma append_single (x : ascii) (a : string) :
  String x EmptyString +:+ a = String x a.
Proof. reflexivity. Qed.

Lemma length_cons (x : ascii) (a : string) :
  String.length (String x a) = S (String.length a).
Proof. reflexivity. Qed.

Lemma append_assoc (a b c : string) : (a +:+ b) +:+ c = a +:+ (b +:+ c).
Proof.
  induction a as [|x a IH]; [reflexivity|].
  rewrite !append_cons. now rewrite IH.
Qed.

Lemma append_nil_r (a : string) : a +:+ EmptyString = a.
Proof.
  induction a as [|x a IH]; [reflexivity|].
  rewrite append_cons. now rewrite IH.
Qed.

Lemma length_append (a b : string) :
  String.length (a +:+ b) = (String.length a + String.length b)%nat.
Proof.
  induction a as [|x a IH]; [reflexivity|].
  rewrite append_cons. simpl. now rewrite IH.
Qed.

Lemma is_ascii_append (a b : string) :
  is_ascii (a +:+ b) = is_ascii a && is_ascii b.
Proof.
  induction a as [|x a IH]; [reflexivity|].
  rewrite append_cons. simpl. rewrite IH. now rewrite andb_assoc.
Qed.

Lemma digit_char_spec (r : N) :
  (r < 10)%N ->
  is_digit (digit_char r) = true /\ digit_val (digit_char r) = r
  /\ is_ascii_char (digit_char r) = true
  /\ (code (digit_char r) = 48 -> r = 0)%N.
Proof.
  intros H.
  assert (r = 0 \/ r = 1 \/ r = 2 \/ r = 3 \/ r = 4 \/ r = 5 \/ r = 6
          \/ r = 7 \/ r = 8 \/ r = 9)%N as Hc by lia.
  repeat (destruct Hc as [Hc|Hc]; [subst r; repeat split; vm_compute; congruence|]).
  subst r; repeat split; vm_compute; congruence.
Qed.

Lemma digits_value_append (a : N) (s1 s2 : string) :
  digits_value a (s1 +:+ s2) = digits_value (digits_value a s1) s2.
Proof.
  revert a. induction s1 as [|c s1 IH]; intros a; [reflexivity|].
  rewrite append_cons. simpl. apply IH.
Qed.

Lemma digits_of_N_aux_acc (fuel : nat) (n : N) (acc : string) :
  digits_of_N_aux fuel n acc = digits_of_N_aux fuel n EmptyString +:+ acc.
Proof.
  revert n acc. induction fuel as [|f IH]; intros n acc; simpl; [reflexivity|].
  destruct (n <? 10)%N; [reflexivity|].
  rewrite IH. rewrite (IH _ (String _ EmptyString)).
  now rewrite append_assoc.
Qed.

Lemma digits_of_N_aux_value (fuel : nat) (n : N) :
  (n < 2 ^ N.of_nat fuel)%N ->
  digits_value 0 (digits_of_N_aux fuel n EmptyString) = n.
Proof.
  revert n. induction fuel as [|f IH]; intros n Hn.
  - simpl in *. change (2 ^ 0)%N with 1%N in Hn. lia.
  - simpl digits_of_N_aux.
    destruct (n <? 10)%N eqn:E.
    + apply N.ltb_lt in E. simpl.
      destruct (digit_char_spec (n mod 10)) as (_ & Hv & _);
        [apply N.mod_lt; lia|].
      rewrite Hv. rewrite N.mod_small by lia. lia.
    + apply N.ltb_ge in E.
      rewrite digits_of_N_aux_acc, digits_value_append.
      rewrite IH.
      * simpl.
        destruct (digit_char_spec (n mod 10)) as (_ & Hv & _);
          [apply N.mod_lt; lia|].
        rewrite Hv. pose proof (N.div_mod n 10). lia.
      * rewrite Nat2N.inj_succ, N.pow_succ_r' in Hn.
        apply N.Div0.div_lt_upper_bound. lia.
Qed.

Lemma log2_fuel (n : N) : (n < 2 ^ N.of_nat (S (N.to_nat (N.log2 n))))%N.
Proof.
  rewrite Nat2N.inj_succ, N2Nat.id.
  destruct (N.eq_dec n 0%N) as [->|Hn]; [vm_compute; reflexivity|].
  apply N.log2_spec. lia.
Qed.

Lemma digits_value_string_of_N (n : N) : digits_value 0 (string_of_N n) = n.
Proof. apply digits_of_N_aux_value, log2_fuel. Qed.

Lemma digits_of_N_aux_all_digits (fuel : nat) (n : N) (acc : string) :
  all_digits acc = true -> all_digits (digits_of_N_aux fuel n acc) = true.
Proof.
  revert n acc. induction fuel as [|f IH]; intros n acc Hacc; simpl; [assumption|].
  assert (Hd : all_digits (String (digit_char (n mod 10)) acc) = true).
  { simpl. destruct (digit_char_spec (n mod 10)) as (Hd & _);
      [apply N.mod_lt; lia|]. now rewrite Hd. }
  destruct (n <? 10)%N; [assumption|]. now apply IH.
Qed.

Lemma all_digits_string_of_N (n : N) : all_digits (string_of_N n) = true.
Proof. now apply digits_of_N_aux_all_digits. Qed.

Lemma all_digits_is_ascii (s : string) : all_digits s = true -> is_ascii s = true.
Proof.
  induction s as [|c s IH]; simpl; [reflexivity|].
  intros H. apply andb_true_iff in H as [Hc Hs].
  rewrite IH by assumption. rewrite andb_true_r.
  unfold is_digit in Hc. unfold is_ascii_char.
  apply andb_true_iff in Hc as [_ Hc]. apply N.leb_le in Hc.
  apply N.ltb_lt. lia.
Qed.

(** A numeral starts with a digit, which is zero for the numeral of 0
    only. *)
Lemma digits_of_N_aux_head (fuel : nat) (n : N) (acc : string) :
  (n < 2 ^ N.of_nat fuel)%N -> n <> 0%N ->
  exists c r, digits_of_N_aux fuel n acc = String c r
              /\ is_digit c = true /\ code c <> 48%N.
Proof.
  revert n acc. induction fuel as [|f IH]; intros n acc Hn Hnz.
  - simpl in *. change (2 ^ 0)%N with 1%N in Hn. lia.
  - simpl. destruct (n <? 10)%N eqn:E.
    + apply N.ltb_lt in E. rewrite N.mod_small by lia.
      destruct (digit_char_spec n) as (Hd & _ & _ & Hz); [lia|].
      exists (digit_char n), acc. repeat split; auto.
    + apply N.ltb_ge in E. apply IH.
      * rewrite Nat2N.inj_succ, N.pow_succ_r' in Hn.
        apply N.Div0.div_lt_upper_bound. lia.
      * intros H0. apply N.div_small_iff in H0; lia.
Qed.

Lemma string_of_N_head (n : N) :
  n <> 0%N ->
  exists c r, string_of_N n = String c r
              /\ is_digit c = true /\ code c <> 48%N.
Proof. intros Hn. apply digits_of_N_aux_head; [apply log2_fuel|assumption]. Qed.

Lemma string_of_N_0 : string_of_N 0 = "0"%string.
Proof. reflexivity. Qed.

Lemma take_digits_append (ds rest : string) :
  all_digits ds = true -> not_digit_head rest ->
  take_digits (ds +:+ rest) = (ds, rest).
Proof.
  intros Hds Hrest. induction ds as [|c ds IH].
  - rewrite append_nil_l.
    destruct rest as [|c r]; [reflexivity|]. simpl in *. now rewrite Hrest.
  - rewrite append_cons. simpl. simpl in Hds. apply andb_true_iff in Hds as [Hc Hds].
    rewrite Hc, IH by assumption. reflexivity.
Qed.

(* ===================================================================== *)
(** ** String literals *)
(* ===================================================================== *)

Lemma parse_chars_quote_char (c : ascii) (tail : string) :
  parse_chars (quote_char c +:+ tail)
  = (do ' (t, rest) <- parse_chars tail; Ok (String c t, rest)).
Proof. destruct c as [[] [] [] [] [] [] [] []]; reflexivity. Qed.

Lemma is_ascii_quote_char (c : ascii) :
  is_ascii_char c = true -> is_ascii (quote_char c) = true.
Proof.
  destruct c as [[] [] [] [] [] [] [] []]; intros H; try discriminate H;
    reflexivity.
Qed.

Lemma parse_chars_quote_chars (s rest : string) :
  parse_chars (quote_chars s +:+ rest) = Ok (s, rest).
Proof.
  induction s as [|c s IH].
  - reflexivity.
  - simpl quote_chars. rewrite append_assoc.
    rewrite parse_chars_quote_char. rewrite IH. reflexivity.
Qed.

(** *** Well-formed text *)

Lemma is_utf8_cons (c : ascii) (r : string) :
  is_utf8 (String c r)
  = let n := code c in
    if (n <? 128)%N then is_utf8 r
    else if (194 <=? n)%N && (n <=? 223)%N then
      match r with
      | String c1 r1 => is_continuation c1 && is_utf8 r1
      | _ => false
      end
    else if (224 <=? n)%N && (n <=? 239)%N then
      match r with
      | String c1 (String c2 r2) =>
          is_continuation c1 && is_continuation c2
          && (if (n =? 224)%N then (160 <=? code c1)%N else true)
          && (if (n =? 237)%N then (code c1 <=? 159)%N else true)
          && is_utf8 r2
      | _ => false
      end
    else if (240 <=? n)%N && (n <=? 244)%N then
      match r with
      | String c1 (String c2 (String c3 r3)) =>
          is_continuation c1 && is_continuation c2 && is_continuation c3
          && (if (n =? 240)%N then (144 <=? code c1)%N else true)
          && (if (n =? 244)%N then (code c1 <=? 143)%N else true)
          && is_utf8 r3
      | _ => false
      end
    else false.
Proof. reflexivity. Qed.

Lemma is_utf8_ascii_cons (c : ascii) (r : string) :
  is_ascii_char c = true -> is_utf8 (String c r) = is_utf8 r.
Proof.
  intros H. rewrite is_utf8_cons. cbv zeta.
  unfold is_ascii_char in H. now rewrite H.
Qed.

Lemma is_utf8_ascii_append (a b : string) :
  is_ascii a = true -> is_utf8 (a +:+ b) = is_utf8 b.
Proof.
  induction a as [|c a IH]; intros H; [reflexivity|].
  simpl in H. apply andb_true_iff in H as [Hc Ha].
  rewrite append_cons, is_utf8_ascii_cons by assumption. now apply IH.
Qed.

Lemma is_utf8_ascii (s : string) : is_ascii s = true -> is_utf8 s = true.
Proof.
  intros H. rewrite <- (append_nil_r s).
  now rewrite is_utf8_ascii_append.
Qed.

(** The steps of a proof about a well-formed text: the text is empty, or
    starts with one character of one to four bytes. *)
Ltac utf8_cases H c r c1 r1 c2 r2 c3 r3 :=
  rewrite is_utf8_cons in H; cbv zeta in H;
  destruct (code c <? 128)%N eqn:?;
  [|destruct ((194 <=? code c)%N && (code c <=? 223)%N) eqn:?;
    [destruct r as [|c1 r1]; [discriminate H|]
    |destruct ((224 <=? code c)%N && (code c <=? 239)%N) eqn:?;
     [destruct r as [|c1 [|c2 r2]]; try discriminate H
     |destruct ((240 <=? code c)%N && (code c <=? 244)%N) eqn:?;
      [destruct r as [|c1 [|c2 [|c3 r3]]]; try discriminate H
      |discriminate H]]]].

Lemma is_utf8_append_bounded (n : nat) :
  forall a b : string,
    (String.length a <= n)%nat ->
    is_utf8 a = true -> is_utf8 b = true -> is_utf8 (a +:+ b) = true.
Proof.
  induction n as [|n IH]; intros a b Hlen Ha Hb.
  - destruct a; [exact Hb|simpl in Hlen; lia].
  - destruct a as [|c r]; [exact Hb|].
    rewrite length_cons in Hlen.
    utf8_cases Ha c r c1 r1 c2 r2 c3 r3;
      rewrite ?append_cons, is_utf8_cons; cbv zeta;
      repeat match goal with H : _ = _ |- _ => rewrite H end.
    + apply IH; [lia|assumption|assumption].
    + apply andb_true_iff in Ha as [H1 H2]. rewrite H1.
      apply IH; [rewrite length_cons in Hlen; lia|assumption|assumption].
    + apply andb_true_iff in Ha as [H1 H2]. rewrite H1.
      apply IH; [rewrite !length_cons in Hlen; lia|assumption|assumption].
    + apply andb_true_iff in Ha as [H1 H2]. rewrite H1.
      apply IH; [rewrite !length_cons in Hlen; lia|assumption|assumption].
Qed.

Lemma is_utf8_append (a b : string) :
  is_utf8 a = true -> is_utf8 b = true -> is_utf8 (a +:+ b) = true.
Proof. apply (is_utf8_append_bounded (String.length a)). lia. Qed.

Lemma quote_char_beyond_ascii (c : ascii) :
  is_ascii_char c = false -> quote_char c = String c EmptyString.
Proof.
  destruct c as [[] [] [] [] [] [] [] []]; intros H; try discriminate H;
    reflexivity.
Qed.

Lemma is_continuation_beyond_ascii (c : ascii) :
  is_continuation c = true -> is_ascii_char c = false.
Proof.
  unfold is_continuation, is_ascii_char. intros H.
  apply andb_true_iff in H as [H _]. apply N.leb_le in H.
  apply N.ltb_ge. exact H.
Qed.

Lemma quote_chars_cons (c : ascii) (r : string) :
  quote_chars (String c r) = quote_char c +:+ quote_chars r.
Proof. reflexivity. Qed.

Lemma quote_chars_beyond_ascii (c : ascii) (r : string) :
  is_ascii_char c = false ->
  quote_chars (String c r) = String c (quote_chars r).
Proof.
  intros H. rewrite quote_chars_cons, quote_char_beyond_ascii by assumption.
  reflexivity.
Qed.

Lemma is_utf8_quote_chars_bounded (n : nat) :
  forall s : string,
    (String.length s <= n)%nat ->
    is_utf8 s = true -> is_utf8 (quote_chars s) = true.
Proof.
  induction n as [|n IH]; intros s Hlen Hs.
  - destruct s; [reflexivity|simpl in Hlen; lia].
  - destruct s as [|c r]; [reflexivity|].
    rewrite length_cons in Hlen.
    utf8_cases Hs c r c1 r1 c2 r2 c3 r3.
    + rewrite quote_chars_cons, is_utf8_ascii_append
        by (now apply is_ascii_quote_char).
      apply IH; [lia|assumption].
    + apply andb_true_iff in Hs as [Hc1 H2].
      rewrite quote_chars_beyond_ascii by (unfold is_ascii_char; assumption).
      rewrite (quote_chars_beyond_ascii c1)
        by (now apply is_continuation_beyond_ascii).
      rewrite is_utf8_cons. cbv zeta.
      repeat match goal with H : _ = _ |- _ => rewrite H end.
      apply IH; [rewrite length_cons in Hlen; lia|assumption].
    + apply andb_true_iff in Hs as [H1 H2].
      pose proof H1 as H1'.
      apply andb_true_iff in H1' as [H1' _].
      apply andb_true_iff in H1' as [H1' _].
      apply andb_true_iff in H1' as [Hc1 Hc2].
      rewrite quote_chars_beyond_ascii by (unfold is_ascii_char; assumption).
      rewrite (quote_chars_beyond_ascii c1)
        by (now apply is_continuation_beyond_ascii).
      rewrite (quote_chars_beyond_ascii c2)
        by (now apply is_continuation_beyond_ascii).
      rewrite is_utf8_cons. cbv zeta.
      repeat match goal with H : (_ <? _)%N = _ |- _ => rewrite H end.
      repeat match goal with H : (_ && _) = _ |- _ => rewrite H end.
      apply IH; [rewrite !length_cons in Hlen; lia|assumption].
    + apply andb_true_iff in Hs as [H1 H2].
      pose proof H1 as H1'.
      apply andb_true_iff in H1' as [H1' _].
      apply andb_true_iff in H1' as [H1' _].
      apply andb_true_iff in H1' as [H1' Hc3].
      apply andb_true_iff in H1' as [Hc1 Hc2].
      rewrite quote_chars_beyond_ascii by (unfold is_ascii_char; assumption).
      rewrite (quote_chars_beyond_ascii c1)
        by (now apply is_continuation_beyond_ascii).
      rewrite (quote_chars_beyond_ascii c2)
        by (now apply is_continuation_beyond_ascii).
      rewrite (quote_chars_beyond_ascii c3)
        by (now apply is_continuation_beyond_ascii).
      rewrite is_utf8_cons. cbv zeta.
      repeat match goal with H : (_ <? _)%N = _ |- _ => rewrite H end.
      repeat match goal with H : (_ && _) = _ |- _ => rewrite H end.
      apply IH; [rewrite !length_cons in Hlen; lia|assumption].
Qed.

Lemma is_utf8_quote (s : string) :
  is_utf8 s = true -> is_utf8 (quote s) = true.
Proof.
  intros H. unfold quote.
  rewrite is_utf8_ascii_cons by reflexivity.
  now apply (is_utf8_quote_chars_bounded (String.length s)).
Qed.

(* ===================================================================== *)
(** ** TextEncoder and TextDecoder *)
(* ===================================================================== *)

Lemma TextEncoder_encode_text (s : string) :
  is_utf8 s = true -> TextEncoder_encode s = Ok (text_bytes s).
Proof. intros H. unfold TextEncoder_encode. now rewrite H. Qed.

Lemma string_of_text_bytes (s : string) :
  string_of_list_ascii (map ascii_of_byte (text_bytes s)) = s.
Proof.
  unfold text_bytes. induction s as [|c s IH]; [reflexivity|].
  simpl. now rewrite ascii_of_byte_of_ascii, IH.
Qed.

(** Decoding gives back a well-formed text that starts with an ASCII
    character, as the text of an object does. *)
Lemma TextDecoder_decode_text (c : ascii) (r : string) :
  is_ascii_char c = true ->
  is_utf8 (String c r) = true ->
  TextDecoder_decode (text_bytes (String c r)) = Ok (String c r).
Proof.
  intros Hc H. unfold TextDecoder_decode.
  assert (Hbom : strip_BOM (text_bytes (String c r))
                 = text_bytes (String c r)).
  { destruct c as [[] [] [] [] [] [] [] []]; try discriminate Hc;
      reflexivity. }
  rewrite Hbom, string_of_text_bytes. now rewrite H.
Qed.

Lemma text_bytes_append (a b : string) :
  text_bytes (a +:+ b) = text_bytes a ++ text_bytes b.
Proof.
  unfold text_bytes. induction a as [|c a IH]; [reflexivity|].
  rewrite append_cons. simpl. now rewrite IH.
Qed.

Lemma length_text_bytes (s : string) :
  length (text_bytes s) = String.length s.
Proof.
  unfold text_bytes. induction s as [|c s IH]; [reflexivity|].
  simpl. now rewrite IH.
Qed.

(* ===================================================================== *)
(** ** JSON.parse after JSON.stringify *)
(* ===================================================================== *)

Lemma json_ind' (P : json -> Prop) :
  P JNull -> (forall b, P (JBool b)) -> (forall z, P (JNum z)) ->
  (forall s, P (JStr s)) ->
  (forall l, Forall P l -> P (JArr l)) ->
  (forall l, Forall (fun kv => P (snd kv)) l -> P (JObj l)) ->
  forall v, P v.
Proof.
  intros Hnull Hbool Hnum Hstr Harr Hobj.
  fix IH 1. intros [| b | z | s | l | l].
  - apply Hnull.
  - apply Hbool.
  - apply Hnum.
  - apply Hstr.
  - apply Harr. induction l as [|x l IHl]; constructor; [apply IH|apply IHl].
  - apply Hobj. induction l as [|[k x] l IHl]; constructor;
      [apply IH|apply IHl].
Qed.

Lemma JSON_stringify_arr (x : json) (r : list json) :
  JSON_stringify (JArr (x :: r))
  = "[" +:+ JSON_stringify x +:+ stringify_elems r.
Proof. reflexivity. Qed.

Lemma JSON_stringify_obj (k : string) (x : json) (r : list (string * json)) :
  JSON_stringify (JObj ((k, x) :: r))
  = "{" +:+ quote k +:+ ":" +:+ JSON_stringify x +:+ stringify_members r.
Proof. reflexivity. Qed.

Lemma canon_obj (l : list (string * json)) :
  canon (JObj l) = JObj (define_all [] (canon_members l)).
Proof. reflexivity. Qed.

Lemma json_text_obj (l : list (string * json)) :
  json_text (JObj l) = members_text l.
Proof. reflexivity. Qed.

Lemma digit_value_start (c : ascii) : is_digit c = true -> value_start c.
Proof.
  destruct c as [[] [] [] [] [] [] [] []]; intros H; try discriminate H;
    repeat split.
Qed.

Lemma JSON_stringify_head (v : json) :
  exists c r, JSON_stringify v = String c r /\ value_start c.
Proof.
  destruct v as [| [] | z | s | [|x l] | [|[k x] l]].
  - eexists _, _. split; [reflexivity|]. repeat split.
  - eexists _, _. split; [reflexivity|]. repeat split.
  - eexists _, _. split; [reflexivity|]. repeat split.
  - simpl. unfold string_of_Z. destruct (z <? 0).
    + eexists _, _. split; [reflexivity|]. repeat split.
    + destruct (N.eq_dec (Z.to_N z) 0%N) as [E|E].
      * rewrite E. eexists _, _. split; [reflexivity|]. repeat split.
      * destruct (string_of_N_head _ E) as (c & r & Hs & Hd & _).
        exists c, r. split; [assumption|]. now apply digit_value_start.
  - eexists _, _. split; [reflexivity|]. repeat split.
  - eexists _, _. split; [reflexivity|]. repeat split.
  - rewrite JSON_stringify_arr. eexists _, _. split; [reflexivity|].
    repeat split.
  - eexists _, _. split; [reflexivity|]. repeat split.
  - rewrite JSON_stringify_obj. eexists _, _. split; [reflexivity|].
    repeat split.
Qed.

Lemma JSON_stringify_length (v : json) :
  (1 <= String.length (JSON_stringify v))%nat.
Proof.
  destruct (JSON_stringify_head v) as (c & r & -> & _). simpl. lia.
Qed.

Lemma skip_ws_value_start (c : ascii) (r : string) :
  value_start c -> skip_ws (String c r) = String c r.
Proof. intros (H & _). simpl. now rewrite H. Qed.

Lemma parse_digits_numeral (n : N) (rest : string) :
  delimited rest ->
  parse_digits (string_of_N n +:+ rest) = Ok (n, rest).
Proof.
  intros Hrest. unfold parse_digits.
  rewrite take_digits_append.
  - destruct (N.eq_dec n 0%N) as [->|Hn].
    + rewrite string_of_N_0. simpl.
      destruct rest as [|c r]; [reflexivity|].
      destruct Hrest as (_ & H1 & H2 & H3). now rewrite H1, H2, H3.
    + destruct (string_of_N_head n Hn) as (c & r & Hs & _ & Hc).
      rewrite <- (digits_value_string_of_N n) at 2.
      rewrite Hs. apply N.eqb_neq in Hc. rewrite Hc. simpl.
      destruct rest as [|c' r']; [reflexivity|].
      destruct Hrest as (_ & H1 & H2 & H3). now rewrite H1, H2, H3.
  - apply all_digits_string_of_N.
  - destruct rest as [|c r]; [exact I|]. apply Hrest.
Qed.

Lemma parse_value_digit (f : nat) (c : ascii) (r : string) :
  is_digit c = true ->
  parse_value (S f) (String c r)
  = (do ' (n, rest) <- parse_digits (String c r); Ok (JNum (Z.of_N n), rest)).
Proof.
  destruct c as [[] [] [] [] [] [] [] []]; intros H; try discriminate H;
    reflexivity.
Qed.

Lemma parse_value_number (f : nat) (z : Z) (rest : string) :
  delimited rest ->
  parse_value (S f) (string_of_Z z +:+ rest) = Ok (JNum z, rest).
Proof.
  intros Hrest. unfold string_of_Z. destruct (z <? 0) eqn:E.
  - apply Z.ltb_lt in E. rewrite append_cons.
    change (parse_value (S f) (String "-" (string_of_N (Z.abs_N z) +:+ rest)))
      with (do ' (n, rest') <- parse_digits (string_of_N (Z.abs_N z) +:+ rest);
            Ok (JNum (- Z.of_N n), rest')).
    rewrite parse_digits_numeral by assumption. simpl.
    replace (- Z.of_N (Z.abs_N z)) with z
      by (rewrite N2Z.inj_abs_N; lia).
    reflexivity.
  - apply Z.ltb_ge in E.
    destruct (N.eq_dec (Z.to_N z) 0%N) as [H0|H0].
    + rewrite H0, string_of_N_0, append_cons, append_nil_l.
      rewrite parse_value_digit by reflexivity.
      change (String "0" rest) with (string_of_N 0 +:+ rest).
      rewrite parse_digits_numeral by assumption. simpl.
      replace z with 0 by lia. reflexivity.
    + destruct (string_of_N_head _ H0) as (c & r & Hs & Hd & _).
      pose proof (parse_digits_numeral (Z.to_N z) rest Hrest) as Hp.
      rewrite Hs in *. rewrite append_cons in *.
      rewrite parse_value_digit by assumption.
      rewrite Hp. simpl. rewrite Z2N.id by lia. reflexivity.
Qed.

Lemma parse_value_string (f : nat) (r : string) :
  parse_value (S f) (String dquote r)
  = (do ' (t, rest) <- parse_chars r; Ok (JStr t, rest)).
Proof. reflexivity. Qed.

Lemma parse_value_array (f : nat) (c : ascii) (r : string) :
  value_start c ->
  parse_value (S f) (String "[" (String c r))
  = (do ' (l, rest) <- parse_elems f (String c r); Ok (JArr l, rest)).
Proof.
  intros (H1 & H2 & H3).
  change (parse_value (S f) (String "[" (String c r)))
    with (match skip_ws (String c r) with
          | String c1 r1 =>
              if (code c1 =? 93)%N then Ok (JArr [], r1)
              else do ' (l, rest) <- parse_elems f (String c r);
                   Ok (JArr l, rest)
          | EmptyString => Throw SyntaxError
          end).
  simpl. now rewrite H1, H2.
Qed.

Lemma parse_value_object (f : nat) (c : ascii) (r : string) :
  value_start c ->
  parse_value (S f) (String "{" (String c r))
  = (do ' (o, rest) <- parse_members f [] (String c r); Ok (JObj o, rest)).
Proof.
  intros (H1 & H2 & H3).
  change (parse_value (S f) (String "{" (String c r)))
    with (match skip_ws (String c r) with
          | String c1 r1 =>
              if (code c1 =? 125)%N then Ok (JObj [], r1)
              else do ' (o, rest) <- parse_members f [] (String c r);
                   Ok (JObj o, rest)
          | EmptyString => Throw SyntaxError
          end).
  simpl. now rewrite H1, H3.
Qed.

Lemma parse_elems_step (f : nat) (s : string) :
  parse_elems (S f) s
  = (do ' (v, r) <- parse_value f s;
     match skip_ws r with
     | String c r1 =>
         if (code c =? 44)%N then
           do ' (l, rest) <- parse_elems f r1;
           Ok (v :: l, rest)
         else if (code c =? 93)%N then Ok ([v], r1)
         else Throw SyntaxError
     | EmptyString => Throw SyntaxError
     end).
Proof. reflexivity. Qed.

Lemma parse_members_step (f : nat) (acc : list (string * json)) (s : string) :
  parse_members (S f) acc s
  = (do ' (k, r) <- parse_key s;
     do ' (v, r0) <- parse_value f r;
     let acc' := obj_define acc k v in
     match skip_ws r0 with
     | String c r1 =>
         if (code c =? 44)%N then parse_members f acc' r1
         else if (code c =? 125)%N then Ok (acc', r1)
         else Throw SyntaxError
     | EmptyString => Throw SyntaxError
     end).
Proof. reflexivity. Qed.

Lemma parse_key_quote (k rest : string) :
  parse_key (quote k +:+ ":" +:+ rest) = Ok (k, rest).
Proof.
  unfold parse_key, quote. rewrite append_cons.
  change (skip_ws (String dquote (quote_chars k +:+ ":" +:+ rest)))
    with (String dquote (quote_chars k +:+ ":" +:+ rest)).
  change (code dquote =? 34)%N with true. cbv iota.
  rewrite parse_chars_quote_chars. reflexivity.
Qed.

Lemma delimited_elems (l : list json) (rest : string) :
  delimited (stringify_elems l +:+ rest).
Proof. destruct l; repeat split. Qed.

Lemma delimited_members (l : list (string * json)) (rest : string) :
  delimited (stringify_members l +:+ rest).
Proof. destruct l as [|[k x] l]; repeat split. Qed.

Lemma delimited_spaces (n : nat) : delimited (spaces n).
Proof. destruct n; repeat split. Qed.

Lemma skip_ws_spaces (n : nat) : skip_ws (spaces n) = EmptyString.
Proof. induction n as [|n IH]; [reflexivity|]. simpl. exact IH. Qed.

Lemma parse_elems_stringify (l : list json) :
  Forall parses_back l ->
  forallb json_text l = true ->
  forall (x : json) (fuel : nat) (rest : string),
    parses_back x -> json_text x = true ->
    (2 * String.length (JSON_stringify x +:+ stringify_elems l +:+ rest) + 2
       <= fuel)%nat ->
    parse_elems fuel (JSON_stringify x +:+ stringify_elems l +:+ rest)
    = Ok (canon x :: map canon l, rest).
Proof.
  induction l as [|y l IH]; intros Hall Hasc x fuel rest Hx Hxa Hfuel.
  - destruct fuel as [|f]; [lia|]. rewrite parse_elems_step.
    rewrite Hx; [|assumption|apply delimited_elems|lia].
    reflexivity.
  - destruct fuel as [|f]; [lia|]. rewrite parse_elems_step.
    rewrite Hx; [|assumption|apply delimited_elems|lia].
    inversion Hall as [|? ? Hy Hl]; subst.
    simpl in Hasc. apply andb_true_iff in Hasc as [Hya Hla].
    cbn [bind stringify_elems].
    rewrite !append_cons, append_nil_l.
    change (skip_ws (String "," ?s)) with (String "," s).
    cbn [skip_ws is_ws code]. cbn.
    rewrite append_assoc.
    rewrite (IH Hl Hla y f rest Hy Hya).
    + reflexivity.
    + rewrite !length_append in *. simpl in *. rewrite !length_append in Hfuel.
      simpl in Hfuel. lia.
Qed.

Lemma parse_members_stringify (l : list (string * json)) :
  Forall (fun kv => parses_back (snd kv)) l ->
  members_text l = true ->
  forall (k : string) (x : json) (acc : list (string * json)) (fuel : nat)
         (rest : string),
    parses_back x -> is_utf8 k = true -> json_text x = true ->
    (2 * String.length (quote k +:+ ":" +:+ JSON_stringify x
                        +:+ stringify_members l +:+ rest) + 2 <= fuel)%nat ->
    parse_members fuel acc
      (quote k +:+ ":" +:+ JSON_stringify x +:+ stringify_members l +:+ rest)
    = Ok (define_all acc ((k, canon x) :: canon_members l), rest).
Proof.
  induction l as [|[k' y] l IH];
    intros Hall Hasc k x acc fuel rest Hx Hk Hxa Hfuel.
  - destruct fuel as [|f]; [lia|]. rewrite parse_members_step.
    rewrite parse_key_quote. cbn [bind].
    rewrite !length_append in Hfuel.
    rewrite Hx; [|assumption|apply delimited_members
                 |rewrite !length_append; lia].
    reflexivity.
  - destruct fuel as [|f]; [lia|]. rewrite parse_members_step.
    rewrite parse_key_quote. cbn [bind].
    rewrite !length_append in Hfuel.
    rewrite Hx; [|assumption|apply delimited_members
                 |rewrite !length_append; lia].
    inversion Hall as [|? ? Hy Hl]; subst. simpl in Hy.
    simpl in Hasc. apply andb_true_iff in Hasc as [Hasc Hla].
    apply andb_true_iff in Hasc as [Hk' Hya].
    cbn [bind stringify_members].
    rewrite !append_assoc. rewrite (append_single ","%char).
    change (skip_ws (String "," ?s)) with (String "," s).
    change (code "," =? 44)%N with true. cbv iota.
    rewrite (IH Hl Hla k' y (obj_define acc k (canon x)) f rest Hy Hk' Hya).
    + reflexivity.
    + cbn [stringify_members] in Hfuel.
      rewrite !length_append in *. simpl String.length in *. lia.
Qed.

Theorem parse_value_stringify (v : json) : parses_back v.
Proof.
  induction v as [| b | z | s | l IHl | l IHl] using json_ind';
    intros Hasc fuel rest Hrest Hfuel;
    (destruct fuel as [|f]; [lia|]).
  - reflexivity.
  - destruct b; reflexivity.
  - now apply parse_value_number.
  - simpl JSON_stringify. unfold quote. rewrite append_cons.
    rewrite parse_value_string.
    rewrite parse_chars_quote_chars. reflexivity.
  - destruct l as [|x l]; [reflexivity|].
    rewrite JSON_stringify_arr in *. rewrite !append_assoc in *.
    rewrite (append_single "["%char) in *.
    destruct (JSON_stringify_head x) as (c & r & Hs & Hc).
    inversion IHl as [|? ? Hx Hl]; subst.
    simpl in Hasc. apply andb_true_iff in Hasc as [Hxa Hla].
    pose proof (parse_elems_stringify l Hl Hla x f rest Hx Hxa) as Hp.
    rewrite Hs in *. rewrite append_cons in *.
    rewrite parse_value_array by assumption.
    rewrite Hp; [reflexivity|]. rewrite !length_cons in Hfuel.
    rewrite ?length_cons. lia.
  - destruct l as [|[k x] l]; [reflexivity|].
    rewrite canon_obj. rewrite json_text_obj in Hasc.
    rewrite JSON_stringify_obj in *. rewrite !append_assoc in *.
    rewrite (append_single "{"%char) in *.
    inversion IHl as [|? ? Hx Hl]; subst. simpl in Hx.
    simpl in Hasc. apply andb_true_iff in Hasc as [Hasc Hla].
    apply andb_true_iff in Hasc as [Hk Hxa].
    pose proof (parse_members_stringify l Hl Hla k x [] f rest Hx Hk Hxa)
      as Hp.
    match goal with
    | |- context [quote k +:+ ?X] =>
        change (quote k +:+ X) with (String dquote (quote_chars k +:+ X))
    end.
    rewrite parse_value_object by (repeat split).
    match goal with
    | |- context [String dquote (quote_chars k +:+ ?X)] =>
        change (String dquote (quote_chars k +:+ X)) with (quote k +:+ X)
    end.
    rewrite Hp; [reflexivity|]. rewrite !length_cons in Hfuel.
    rewrite ?length_cons. lia.
Qed.

(** [JSON.parse] reads back the text [JSON.stringify] wrote, padded with
    spaces, as the same value with its objects rebuilt. *)
Theorem JSON_parse_stringify (v : json) (n : nat) :
  json_text v = true ->
  JSON_parse (JSON_stringify v +:+ spaces n) = Ok (canon v).
Proof.
  intros Hasc. unfold JSON_parse.
  rewrite parse_value_stringify; [|assumption|apply delimited_spaces|lia].
  cbn [bind]. now rewrite skip_ws_spaces.
Qed.

Lemma is_ascii_spaces (n : nat) : is_ascii (spaces n) = true.
Proof. induction n as [|n IH]; [reflexivity|]. simpl. exact IH. Qed.

Lemma is_ascii_string_of_Z (z : Z) : is_ascii (string_of_Z z) = true.
Proof.
  unfold string_of_Z. destruct (z <? 0); simpl;
    apply all_digits_is_ascii, all_digits_string_of_N.
Qed.

Lemma is_utf8_stringify_elems (l : list json) :
  Forall (fun x => json_text x = true -> is_utf8 (JSON_stringify x) = true) l ->
  forallb json_text l = true ->
  is_utf8 (stringify_elems l) = true.
Proof.
  induction 1 as [|y l Hy Hl IH]; intros Hla; [reflexivity|].
  simpl in Hla. apply andb_true_iff in Hla as [Hya Hla].
  cbn [stringify_elems]. rewrite is_utf8_ascii_append by reflexivity.
  apply is_utf8_append; [now apply Hy|now apply IH].
Qed.

Lemma is_utf8_stringify_members (l : list (string * json)) :
  Forall (fun kv => json_text (snd kv) = true ->
                    is_utf8 (JSON_stringify (snd kv)) = true) l ->
  members_text l = true ->
  is_utf8 (stringify_members l) = true.
Proof.
  induction 1 as [|[k y] l Hy Hl IH]; intros Hla; [reflexivity|].
  simpl in Hla. apply andb_true_iff in Hla as [Hasc Hla].
  apply andb_true_iff in Hasc as [Hk Hya].
  cbn [stringify_members]. rewrite is_utf8_ascii_append by reflexivity.
  apply is_utf8_append; [now apply is_utf8_quote|].
  rewrite is_utf8_ascii_append by reflexivity.
  apply is_utf8_append; [now apply Hy|now apply IH].
Qed.

(** The text of a value whose strings are well-formed is well-formed. *)
Lemma is_utf8_stringify (v : json) :
  json_text v = true -> is_utf8 (JSON_stringify v) = true.
Proof.
  induction v as [| b | z | s | l IHl | l IHl] using json_ind'; intros Hasc.
  - reflexivity.
  - destruct b; reflexivity.
  - apply is_utf8_ascii, is_ascii_string_of_Z.
  - now apply is_utf8_quote.
  - destruct l as [|x l]; [reflexivity|].
    rewrite JSON_stringify_arr. rewrite is_utf8_ascii_append by reflexivity.
    simpl in Hasc. apply andb_true_iff in Hasc as [Hxa Hla].
    inversion IHl as [|? ? Hx Hl]; subst.
    apply is_utf8_append; [now apply Hx|].
    now apply is_utf8_stringify_elems.
  - destruct l as [|[k x] l]; [reflexivity|].
    rewrite JSON_stringify_obj. rewrite is_utf8_ascii_append by reflexivity.
    rewrite json_text_obj in Hasc.
    simpl in Hasc. apply andb_true_iff in Hasc as [Hasc Hla].
    apply andb_true_iff in Hasc as [Hk Hxa].
    inversion IHl as [|? ? Hx Hl]; subst. simpl in Hx.
    apply is_utf8_append; [now apply is_utf8_quote|].
    rewrite is_utf8_ascii_append by reflexivity.
    apply is_utf8_append; [now apply Hx|].
    now apply is_utf8_stringify_members.
Qed.

(* ===================================================================== *)
(** ** Association lists *)
(* ===================================================================== *)

Section AssocFacts.
Context {V : Type}.
Implicit Types (l : list (string * V)) (k : string) (v : V).

Lemma assoc_get_app l1 l2 k :
  assoc_get (l1 ++ l2) k =
  match assoc_get l1 k with
  | Some v => Some v
  | None => assoc_get l2 k
  end.
Proof.
  induction l1 as [|[k' v'] l1 IH]; simpl; [reflexivity|].
  destruct (String.eqb k' k); auto.
Qed.

Lemma assoc_get_replace_eq l k v :
  assoc_get l k <> None -> assoc_get (assoc_replace l k v) k = Some v.
Proof.
  induction l as [|[k' v'] l IH]; simpl; [congruence|].
  destruct (String.eqb k' k) eqn:E; simpl; rewrite E; auto.
Qed.

Lemma assoc_get_replace_ne l k k' v :
  k <> k' -> assoc_get (assoc_replace l k v) k' = assoc_get l k'.
Proof.
  intros Hne. induction l as [|[k0 v0] l IH]; simpl; [reflexivity|].
  destruct (String.eqb k0 k) eqn:E; simpl.
  - apply String.eqb_eq in E. subst k0.
    destruct (String.eqb k k') eqn:E'; [apply String.eqb_eq in E'; congruence|].
    reflexivity.
  - destruct (String.eqb k0 k'); auto.
Qed.

Lemma Map_get_set_eq l k v : Map_get (Map_set l k v) k = Some v.
Proof.
  unfold Map_get, Map_set. destruct (assoc_get l k) eqn:E.
  - apply assoc_get_replace_eq. congruence.
  - rewrite assoc_get_app, E. simpl. now rewrite String.eqb_refl.
Qed.

Lemma Map_get_set_ne l k k' v :
  k <> k' -> Map_get (Map_set l k v) k' = Map_get l k'.
Proof.
  intros Hne. unfold Map_get, Map_set. destruct (assoc_get l k) eqn:E.
  - now apply assoc_get_replace_ne.
  - rewrite assoc_get_app. simpl.
    destruct (String.eqb k k') eqn:E'; [apply String.eqb_eq in E'; congruence|].
    now destruct (assoc_get l k').
Qed.

Lemma Map_get_delete_eq l k : Map_get (Map_delete l k) k = None.
Proof.
  unfold Map_get, Map_delete.
  induction l as [|[k' v'] l IH]; simpl; [reflexivity|].
  destruct (String.eqb k' k) eqn:E; simpl; [assumption|].
  now rewrite E.
Qed.

Lemma Map_get_delete_ne l k k' :
  k <> k' -> Map_get (Map_delete l k) k' = Map_get l k'.
Proof.
  intros Hne. unfold Map_get, Map_delete.
  induction l as [|[k0 v0] l IH]; simpl; [reflexivity|].
  destruct (String.eqb k0 k) eqn:E; simpl.
  - apply String.eqb_eq in E. subst k0.
    destruct (String.eqb k k') eqn:E'; [apply String.eqb_eq in E'; congruence|].
    assumption.
  - destruct (String.eqb k0 k'); auto.
Qed.

End AssocFacts.

(* ===================================================================== *)
(** ** Objects and maps *)
(* ===================================================================== *)

Lemma array_index_canonical (s : string) (n : N) :
  array_index s = Some n -> s = string_of_N n.
Proof.
  unfold array_index. destruct s as [|c s]; [discriminate|].
  destruct (all_digits (String c s)); [|discriminate].
  destruct (String.eqb _ _) eqn:E; [|discriminate].
  destruct (_ <? _)%N; [|discriminate].
  simpl. intros H. inversion H; subst. apply String.eqb_eq in E. now symmetry.
Qed.

Lemma array_index_inj (s s' : string) (n : N) :
  array_index s = Some n -> array_index s' = Some n -> s = s'.
Proof.
  intros H H'. apply array_index_canonical in H, H'. congruence.
Qed.

Section ObjectFacts.
Context {V : Type}.
Implicit Types (l o acc : list (string * V)) (k : string) (v : V).

Lemma assoc_get_In l k v : assoc_get l k = Some v -> List.In (k, v) l.
Proof.
  induction l as [|[k' v'] l IH]; simpl; [discriminate|].
  destruct (String.eqb k' k) eqn:E.
  - apply String.eqb_eq in E. intros H. inversion H; subst. now left.
  - intros H. right. now apply IH.
Qed.

Lemma assoc_get_None_In l k v : assoc_get l k = None -> ~ List.In (k, v) l.
Proof.
  induction l as [|[k' v'] l IH]; simpl; [tauto|].
  destruct (String.eqb k' k) eqn:E; [discriminate|].
  apply String.eqb_neq in E. intros H [Heq|Hin].
  - inversion Heq; subst. congruence.
  - now apply IH.
Qed.

Lemma In_assoc_get_Some l k v :
  List.In (k, v) l -> assoc_get l k <> None.
Proof.
  intros Hin Hn. exact (assoc_get_None_In l k v Hn Hin).
Qed.

Lemma unique_keys_get l k v :
  unique_keys l -> List.In (k, v) l -> assoc_get l k = Some v.
Proof.
  induction l as [|[k' v'] l IH]; simpl; [tauto|].
  intros (Hn & Hu) [Heq|Hin].
  - inversion Heq; subst. now rewrite String.eqb_refl.
  - destruct (String.eqb k' k) eqn:E; [|auto].
    apply String.eqb_eq in E. subst. exfalso.
    exact (assoc_get_None_In l k v Hn Hin).
Qed.

Lemma assoc_get_keys_eq l (W : Type) (l' : list (string * W)) k :
  assoc_keys l = assoc_keys l' ->
  assoc_get l k = None -> assoc_get l' k = None.
Proof.
  revert l'. induction l as [|[k0 v0] l IH]; intros [|[k1 v1] l'] Hk;
    try discriminate; [trivial|].
  simpl in Hk. inversion Hk; subst. simpl.
  destruct (String.eqb k1 k); [discriminate|]. now apply IH.
Qed.

Lemma assoc_keys_app l1 l2 :
  assoc_keys (l1 ++ l2) = assoc_keys l1 ++ assoc_keys l2.
Proof. unfold assoc_keys. apply List.map_app. Qed.

Lemma assoc_keys_replace l k v : assoc_keys (assoc_replace l k v) = assoc_keys l.
Proof.
  induction l as [|[k' v'] l IH]; simpl; [reflexivity|].
  destruct (String.eqb k' k); simpl; [reflexivity|]. now rewrite IH.
Qed.

Lemma Forall_keys_eq (P : string -> Prop) l (W : Type)
    (l' : list (string * W)) :
  assoc_keys l = assoc_keys l' ->
  Forall (fun kv => P (fst kv)) l -> Forall (fun kv => P (fst kv)) l'.
Proof.
  revert l'. induction l as [|[k0 v0] l IH]; intros [|[k1 v1] l'] Hk;
    try discriminate; [constructor|].
  simpl in Hk. inversion Hk; subst. intros H.
  inversion H; subst. constructor; [assumption|]. now apply IH.
Qed.

Lemma js_ordered_keys l l' :
  assoc_keys l = assoc_keys l' -> js_ordered l -> js_ordered l'.
Proof.
  revert l'. induction l as [|[k v] l IH]; intros [|[k' v'] l'] Hk;
    try discriminate; [trivial|].
  simpl in Hk. inversion Hk; subst. simpl. intros (Hn & Hall & Hord).
  split; [|split].
  - eapply assoc_get_keys_eq; eauto.
  - eapply (Forall_keys_eq (precedes k')); eauto.
  - now apply IH.
Qed.

Lemma js_ordered_unique l : js_ordered l -> unique_keys l.
Proof.
  induction l as [|[k v] l IH]; simpl; [trivial|].
  intros (Hn & _ & Hord). auto.
Qed.

Lemma assoc_get_insert_index l i k v k' :
  assoc_get l k = None ->
  assoc_get (insert_index i k v l) k'
  = if String.eqb k k' then Some v else assoc_get l k'.
Proof.
  induction l as [|[k0 v0] l IH]; simpl; [reflexivity|].
  destruct (String.eqb k0 k) eqn:E0k; [discriminate|]. intros Hn.
  destruct (array_index k0) as [j|]; [|reflexivity].
  destruct (i <? j)%N; [reflexivity|].
  simpl. rewrite IH by assumption.
  destruct (String.eqb k0 k') eqn:E0; [|reflexivity].
  destruct (String.eqb k k') eqn:E; [|reflexivity].
  apply String.eqb_eq in E0, E. subst.
  rewrite String.eqb_refl in E0k. discriminate.
Qed.

Lemma assoc_get_define o k v k' :
  assoc_get (obj_define o k v) k'
  = if String.eqb k k' then Some v else assoc_get o k'.
Proof.
  unfold obj_define. destruct (assoc_get o k) eqn:E.
  - destruct (String.eqb k k') eqn:E'.
    + apply String.eqb_eq in E'. subst. apply assoc_get_replace_eq. congruence.
    + apply String.eqb_neq in E'. now apply assoc_get_replace_ne.
  - destruct (array_index k).
    + now apply assoc_get_insert_index.
    + rewrite assoc_get_app. simpl.
      destruct (String.eqb k k') eqn:E'.
      * apply String.eqb_eq in E'. subst. now rewrite E.
      * now destruct (assoc_get o k').
Qed.

Lemma Forall_insert_index (P : string * V -> Prop) l i k v :
  P (k, v) -> Forall P l -> Forall P (insert_index i k v l).
Proof.
  intros Hk. induction l as [|[k0 v0] l IH]; intros Hall; simpl.
  - constructor; [assumption|constructor].
  - destruct (array_index k0) as [j|]; [|now constructor].
    destruct (i <? j)%N; [now constructor|].
    inversion Hall; subst. constructor; auto.
Qed.

Lemma js_ordered_insert_index l i k v :
  array_index k = Some i -> assoc_get l k = None -> js_ordered l ->
  js_ordered (insert_index i k v l).
Proof.
  intros Hi. induction l as [|[k0 v0] l IH]; intros Hn Hord.
  - simpl. repeat split. constructor.
  - simpl in Hn. destruct (String.eqb k0 k) eqn:E0; [discriminate|].
    apply String.eqb_neq in E0.
    destruct Hord as (Hn0 & Hall0 & Hord0).
    assert (Hfront : (match array_index k0 with
                      | Some j => (i < j)%N
                      | None => True
                      end) -> js_ordered ((k, v) :: (k0, v0) :: l)).
    { intros Hlt. simpl. split; [|split].
      - destruct (String.eqb k0 k) eqn:E; [|assumption].
        apply String.eqb_eq in E. congruence.
      - constructor.
        + unfold precedes. simpl. rewrite Hi.
          destruct (array_index k0); auto.
        + eapply Forall_impl; [exact Hall0|]. intros [k1 v1] H1.
          unfold precedes in *. simpl in *.
          rewrite Hi. destruct (array_index k0) as [j|];
            destruct (array_index k1) as [j1|]; auto; try lia; tauto.
      - repeat split; assumption. }
    simpl. destruct (array_index k0) as [j|] eqn:Hj; [|now apply Hfront].
    destruct (i <? j)%N eqn:Hlt.
    + apply N.ltb_lt in Hlt. now apply Hfront.
    + apply N.ltb_ge in Hlt.
      assert (j <> i) by (intros ->; apply E0; eapply array_index_inj; eauto).
      simpl. split; [|split].
      * rewrite assoc_get_insert_index by assumption.
        destruct (String.eqb k k0) eqn:E; [|assumption].
        apply String.eqb_eq in E. congruence.
      * apply Forall_insert_index; [|assumption].
        unfold precedes. simpl. rewrite Hj, Hi. lia.
      * now apply IH.
Qed.

Lemma js_ordered_append l k v :
  array_index k = None -> assoc_get l k = None -> js_ordered l ->
  js_ordered (l ++ [(k, v)]).
Proof.
  intros Hi. induction l as [|[k0 v0] l IH]; intros Hn Hord.
  - simpl. repeat split. constructor.
  - simpl in Hn. destruct (String.eqb k0 k) eqn:E0; [discriminate|].
    apply String.eqb_neq in E0.
    destruct Hord as (Hn0 & Hall0 & Hord0).
    simpl. split; [|split].
    + rewrite assoc_get_app, Hn0. simpl.
      destruct (String.eqb k k0) eqn:E; [|reflexivity].
      apply String.eqb_eq in E. congruence.
    + apply Forall_app. split; [assumption|].
      constructor; [|constructor]. unfold precedes. simpl. rewrite Hi.
      destruct (array_index k0); exact I.
    + now apply IH.
Qed.

Lemma js_ordered_define o k v :
  js_ordered o -> js_ordered (obj_define o k v).
Proof.
  intros Hord. unfold obj_define. destruct (assoc_get o k) eqn:E.
  - eapply js_ordered_keys; [|exact Hord]. symmetry. apply assoc_keys_replace.
  - destruct (array_index k) eqn:Hi.
    + now apply js_ordered_insert_index.
    + now apply js_ordered_append.
Qed.

Lemma js_ordered_define_all acc l :
  js_ordered acc -> js_ordered (define_all acc l).
Proof.
  revert acc. induction l as [|[k v] l IH]; intros acc Hord; [assumption|].
  simpl. apply IH. now apply js_ordered_define.
Qed.

(** Defining, in order, the properties of an enumeration gives the same
    enumeration. *)
Lemma define_ordered_last acc k v r :
  js_ordered (acc ++ (k, v) :: r) -> obj_define acc k v = acc ++ [(k, v)].
Proof.
  intros Hord.
  assert (Hn : assoc_get acc k = None
               /\ Forall (fun kv => precedes (fst kv) k) acc).
  { induction acc as [|[k0 v0] acc IH]; simpl; [split; [reflexivity|constructor]|].
    simpl in Hord. destruct Hord as (Hn0 & Hall0 & Hord0).
    destruct (IH Hord0) as (Hn & Hall).
    rewrite assoc_get_app in Hn0.
    destruct (assoc_get acc k0); [discriminate|]. simpl in Hn0.
    destruct (String.eqb k k0) eqn:E; [discriminate|].
    rewrite String.eqb_sym, E. split; [assumption|].
    constructor; [|assumption]. simpl.
    apply Forall_app in Hall0 as [_ Hall0].
    inversion Hall0; subst. assumption. }
  destruct Hn as (Hn & Hall).
  unfold obj_define. rewrite Hn.
  destruct (array_index k) as [i|] eqn:Hi; [|reflexivity].
  clear Hord Hn. induction acc as [|[k0 v0] acc IH]; simpl; [reflexivity|].
  inversion Hall as [|? ? H0 Hall']; subst. unfold precedes in H0.
  simpl in H0. rewrite Hi in H0.
  destruct (array_index k0) as [j|]; [|contradiction].
  assert (E : (i <? j)%N = false) by (apply N.ltb_ge; lia).
  rewrite E. now rewrite IH.
Qed.

Lemma define_all_ordered acc l :
  js_ordered (acc ++ l) -> define_all acc l = acc ++ l.
Proof.
  revert acc. induction l as [|[k v] l IH]; intros acc Hord.
  - simpl. now rewrite app_nil_r.
  - simpl. rewrite (define_ordered_last acc k v l Hord).
    rewrite IH; rewrite <- app_assoc; [reflexivity|exact Hord].
Qed.

Lemma assoc_get_define_all acc l k :
  unique_keys l ->
  assoc_get (define_all acc l) k
  = match assoc_get l k with
    | Some v => Some v
    | None => assoc_get acc k
    end.
Proof.
  revert acc. induction l as [|[k0 v0] l IH]; intros acc Hnd; [reflexivity|].
  simpl in Hnd. destruct Hnd as (Hnotin & Hnd').
  simpl. rewrite IH by assumption. rewrite assoc_get_define.
  destruct (String.eqb k0 k) eqn:E.
  - apply String.eqb_eq in E. subst. now rewrite Hnotin.
  - reflexivity.
Qed.

Lemma Map_set_fresh l k v :
  assoc_get l k = None -> Map_set l k v = l ++ [(k, v)].
Proof. intros H. unfold Map_set. now rewrite H. Qed.

Lemma unique_keys_app_l l1 l2 k v :
  unique_keys (l1 ++ (k, v) :: l2) -> assoc_get l1 k = None.
Proof.
  induction l1 as [|[k0 v0] l1 IH]; simpl; [reflexivity|].
  intros (Hn & Hu). rewrite assoc_get_app in Hn.
  destruct (assoc_get l1 k0); [discriminate|]. simpl in Hn.
  destruct (String.eqb k k0) eqn:E; [discriminate|].
  rewrite String.eqb_sym, E. now apply IH.
Qed.

Lemma Map_of_entries_unique_aux acc l :
  unique_keys (acc ++ l) ->
  fold_left (fun m kv => Map_set m (fst kv) (snd kv)) l acc = acc ++ l.
Proof.
  revert acc. induction l as [|[k v] l IH]; intros acc Hnd.
  - simpl. now rewrite app_nil_r.
  - simpl. rewrite Map_set_fresh.
    + rewrite IH; rewrite <- app_assoc; [reflexivity|exact Hnd].
    + eapply unique_keys_app_l; eauto.
Qed.

Lemma Map_of_entries_unique l :
  unique_keys l -> Map_of_entries l = l.
Proof. intros H. unfold Map_of_entries. now rewrite Map_of_entries_unique_aux. Qed.

End ObjectFacts.

(* ===================================================================== *)
(** ** Numbers and bytes *)
(* ===================================================================== *)

Lemma ToInt32_small (x : Z) :
  -2147483648 <= x < 2147483648 -> ToInt32 x = x.
Proof.
  intros H. unfold ToInt32. rewrite Z.mod_small by lia. lia.
Qed.

Lemma round8_bounds (n : Z) : n <= round8 n < n + 8.
Proof.
  unfold round8. pose proof (Z.div_mod (n + 7) 8).
  pose proof (Z.mod_pos_bound (n + 7) 8). lia.
Qed.

Lemma round8_below (n : Z) :
  round8 n < 2147483648 -> n + 7 < 2147483648.
Proof.
  unfold round8. pose proof (Z.div_mod (n + 7) 8).
  pose proof (Z.mod_pos_bound (n + 7) 8). lia.
Qed.

Lemma round8_mod (n : Z) : round8 n mod 8 = 0.
Proof. unfold round8. rewrite Z.mul_comm. apply Z.mod_mul. lia. Qed.

Lemma round8_add (a b : Z) : a mod 8 = 0 -> round8 (a + b) = a + round8 b.
Proof.
  intros Ha. unfold round8.
  apply Z.mod_divide in Ha; [|lia]. destruct Ha as [q ->].
  replace (q * 8 + b + 7) with (b + 7 + q * 8) by lia.
  rewrite Z.div_add by lia. lia.
Qed.

Lemma round8_multiple (a : Z) : a mod 8 = 0 -> round8 a = a.
Proof.
  intros Ha. replace a with (a + 0) at 1 by lia.
  rewrite round8_add by assumption.
  change (round8 0) with 0. lia.
Qed.

Lemma align8_round8 (n : Z) :
  0 <= n -> n + 7 < 2147483648 -> align8 n = round8 n.
Proof.
  intros H0 H1. unfold align8, js_and, round8.
  change (js_not 7) with (-8).
  rewrite !ToInt32_small by lia.
  change (-8) with (Z.lnot (Z.ones 3)).
  rewrite <- Z.ldiff_land, Z.ldiff_ones_r by lia.
  rewrite Z.shiftr_div_pow2, Z.shiftl_mul_pow2 by lia.
  change (2 ^ 3) with 8. lia.
Qed.

Lemma js_and_7 (n : Z) : 0 <= n < 2147483648 -> js_and n 7 = n mod 8.
Proof.
  intros H. unfold js_and. rewrite !ToInt32_small by lia.
  change 7 with (Z.ones 3). now rewrite Z.land_ones by lia.
Qed.

Lemma js_and_255 (n : Z) : 0 <= n < 2147483648 -> js_and n 255 = n mod 256.
Proof.
  intros H. unfold js_and. rewrite !ToInt32_small by lia.
  change 255 with (Z.ones 8). now rewrite Z.land_ones by lia.
Qed.

Lemma js_shr_div (n k : Z) :
  0 <= n < 2147483648 -> 0 <= k < 32 -> js_shr n k = n / 2 ^ k.
Proof.
  intros H Hk. unfold js_shr. rewrite ToInt32_small by lia.
  rewrite Z.mod_small by lia. now rewrite Z.shiftr_div_pow2 by lia.
Qed.

Lemma byte_val_byte_of_Z (z : Z) : byte_val (byte_of_Z z) = z mod 256.
Proof.
  unfold byte_val, byte_of_Z.
  pose proof (Z.mod_pos_bound z 256 ltac:(lia)) as Hb.
  destruct (Byte.of_N (Z.to_N (z mod 256))) as [b|] eqn:E.
  - apply Byte.to_of_N in E. rewrite E. lia.
  - apply Byte.of_N_None_iff in E. lia.
Qed.

Lemma byte_val_bounds (b : byte) : 0 <= byte_val b < 256.
Proof. unfold byte_val. pose proof (Byte.to_N_bounded b). lia. Qed.

Lemma js_or_0 (x : Z) : -2147483648 <= x < 2147483648 -> js_or x 0 = x.
Proof.
  intros H. unfold js_or. rewrite ToInt32_small by lia.
  change (ToInt32 0) with 0. apply Z.lor_0_r.
Qed.

Lemma lenbuf_length_field (n : Z) :
  0 <= n < 2147483648 ->
  [byte_of_Z (js_and n 255);
   byte_of_Z (js_and (js_shr n 8) 255);
   byte_of_Z (js_and (js_shr n 16) 255);
   byte_of_Z (js_and (js_shr n 24) 255);
   x00; x00; x00; x00] = length_field n.
Proof.
  intros H. unfold length_field.
  rewrite !js_shr_div by lia.
  change (2 ^ 8) with 256. change (2 ^ 16) with 65536.
  change (2 ^ 24) with 16777216.
  assert (0 <= n / 256 < 2147483648).
  { split; [apply Z.div_pos; lia|apply Z.div_lt_upper_bound; lia]. }
  assert (0 <= n / 65536 < 2147483648).
  { split; [apply Z.div_pos; lia|apply Z.div_lt_upper_bound; lia]. }
  assert (0 <= n / 16777216 < 2147483648).
  { split; [apply Z.div_pos; lia|apply Z.div_lt_upper_bound; lia]. }
  now rewrite !js_and_255 by lia.
Qed.

Lemma unsafeGetHeaderSize_length_field (n : Z) (rest : Bytes) :
  0 <= n < 2147483648 ->
  unsafeGetHeaderSize (length_field n ++ rest) = n.
Proof.
  intros H. unfold unsafeGetHeaderSize, byte_or_0, byte_at, length_field.
  cbn [nth_error app].
  rewrite !byte_val_byte_of_Z, !Z.mod_mod by lia.
  pose proof (Z.mod_pos_bound n 256 ltac:(lia)).
  pose proof (Z.mod_pos_bound (n / 256) 256 ltac:(lia)).
  pose proof (Z.mod_pos_bound (n / 65536) 256 ltac:(lia)).
  pose proof (Z.mod_pos_bound (n / 16777216) 256 ltac:(lia)).
  rewrite (js_or_0 (n mod 256)) by lia.
  rewrite (js_or_0 (n / 256 mod 256)) by lia.
  rewrite (js_or_0 (n / 65536 mod 256)) by lia.
  rewrite (js_or_0 (n / 16777216 mod 256)) by lia.
  assert (Hsum : n mod 256 + n / 256 mod 256 * 256
                 + n / 65536 mod 256 * 256 * 256
                 + n / 16777216 mod 256 * 256 * 256 * 256 = n).
  { pose proof (Z.div_mod n 256 ltac:(lia)).
    pose proof (Z.div_mod (n / 256) 256 ltac:(lia)).
    pose proof (Z.div_mod (n / 256 / 256) 256 ltac:(lia)).
    pose proof (Z.div_mod (n / 256 / 256 / 256) 256 ltac:(lia)).
    assert (n / 256 / 256 / 256 / 256 = 0).
    { apply Z.div_small. split.
      - repeat (apply Z.div_pos; [|lia]). lia.
      - repeat (apply Z.div_lt_upper_bound; [lia|]). lia. }
    change 65536 with (256 * 256). change 16777216 with (256 * 256 * 256).
    rewrite <- !Z.div_div by lia.
    lia. }
  rewrite Hsum. apply js_or_0. lia.
Qed.

(* ===================================================================== *)
(** ** The encoder *)
(* ===================================================================== *)

Lemma entries_of_keys (h : heap) (rs : list (string * loc))
    (tes : list (string * TensorRef)) :
  TensorSaver.entries_of h rs = Ok tes -> assoc_keys tes = assoc_keys rs.
Proof.
  revert tes. induction rs as [|[n l] rs IH]; intros tes; simpl.
  - intros H. now inversion H.
  - destruct (tensorRefs h !! l) as [t|]; [|discriminate].
    destruct (TensorSaver.entries_of h rs) as [rest|]; [|discriminate].
    simpl. intros H. inversion H; subst. simpl. now rewrite (IH rest).
Qed.

Lemma entries_of_get (h : heap) (rs : list (string * loc))
    (tes : list (string * TensorRef)) (n : string) :
  TensorSaver.entries_of h rs = Ok tes ->
  assoc_get tes n
  = match assoc_get rs n with
    | Some l => h.(tensorRefs) !! l
    | None => None
    end.
Proof.
  revert tes. induction rs as [|[n0 l] rs IH]; intros tes; simpl.
  - intros H. now inversion H.
  - destruct (tensorRefs h !! l) as [t|] eqn:Hl; [|discriminate].
    destruct (TensorSaver.entries_of h rs) as [rest|]; [|discriminate].
    simpl. intros H. inversion H; subst. simpl.
    destruct (String.eqb n0 n); [now rewrite Hl|]. now apply IH.
Qed.

Lemma unique_keys_same_keys {V W : Type} (l : list (string * V))
    (l' : list (string * W)) :
  assoc_keys l = assoc_keys l' -> unique_keys l -> unique_keys l'.
Proof.
  revert l'. induction l as [|[k v] l IH]; intros [|[k' v'] l'] Hk;
    try discriminate; [trivial|].
  simpl in Hk. inversion Hk; subst. simpl. intros (Hn & Hu).
  split; [|now apply IH]. eapply assoc_get_keys_eq; eauto.
Qed.

Lemma setMetadata_loop_spec (md : list (string * json)) (toset : bool)
    (entries : list (string * json)) :
  forallb meta_ok entries = true ->
  TensorSaver.setMetadata_loop md toset entries
  = (define_all md entries,
     match entries with [] => toset | _ :: _ => true end).
Proof.
  revert md toset. induction entries as [|[k v] r IH]; intros md toset H.
  - reflexivity.
  - simpl in H. apply andb_true_iff in H as [Hkv Hr].
    simpl. rewrite IH by assumption.
    unfold meta_ok in Hkv. simpl in Hkv.
    apply andb_true_iff in Hkv as [Hkv _].
    apply andb_true_iff in Hkv as [Hk _].
    apply negb_true_iff in Hk. unfold obj_assign. rewrite Hk.
    f_equal. now destruct r.
Qed.

Lemma TensorSaver_new_spec (tm : TensorMap) :
  forallb meta_ok tm.(metadata) = true ->
  TensorSaver.new tm
  = TensorSaver.mk
      match tm.(metadata) with
      | [] => []
      | _ :: _ => [("__metadata__", JObj (metadata_object tm.(metadata)))]
      end None [] 0 [] [] 0 [] 0.
Proof.
  intros H. unfold TensorSaver.new.
  rewrite setMetadata_loop_spec by assumption.
  destruct (metadata tm); reflexivity.
Qed.

Lemma data_size_nonneg (tes : list (string * TensorRef)) : 0 <= data_size tes.
Proof.
  induction tes as [|[n t] r IH]; simpl; [lia|].
  pose proof (round8_bounds (byteLength (bytes t))).
  unfold byteLength in *. lia.
Qed.

Lemma calcOffset_loop_spec (tes : list (string * TensorRef))
    (hdr : list (string * json)) (proto : option json) (off : Z) :
  forallb tensor_ok tes = true ->
  data_size tes < 2147483648 ->
  TensorSaver.calcOffset_loop hdr proto off tes
  = (define_all hdr (header_entries (layout off tes)), proto,
     off + data_size tes).
Proof.
  revert hdr off. induction tes as [|[n t] r IH]; intros hdr off Hok Hsize.
  - simpl. f_equal. lia.
  - simpl in Hok. apply andb_true_iff in Hok as [Hnt Hr].
    simpl in Hsize. pose proof (data_size_nonneg r).
    pose proof (round8_bounds (byteLength (bytes t))).
    assert (0 <= byteLength (bytes t)) by (unfold byteLength; lia).
    cbn [TensorSaver.calcOffset_loop].
    unfold tensor_ok in Hnt. cbn [fst snd] in Hnt.
    repeat (apply andb_true_iff in Hnt as [Hnt ?]).
    unfold TensorSaver.hdr_assign.
    match goal with
    | H : negb (String.eqb n "__proto__") = true |- _ =>
        apply negb_true_iff in H; rewrite H
    end.
    rewrite align8_round8 by (try apply round8_below; lia).
    rewrite IH by (assumption || lia).
    change (layout off ((n, t) :: r))
      with ((n, t, off) :: layout (off + round8 (byteLength (bytes t))) r).
    change (header_entries ((n, t, off) :: ?l))
      with ((n, entry_of t off) :: header_entries l).
    change (define_all hdr ((n, entry_of t off) :: ?l))
      with (define_all (obj_define hdr n (entry_of t off)) l).
    cbn [data_size]. unfold entry_of. f_equal. lia.
Qed.

Lemma calcOffset_spec (h : heap) (tm : TensorMap)
    (tes : list (string * TensorRef)) :
  encodable h tm tes ->
  TensorSaver.calcOffset h tm (TensorSaver.new tm)
  = Ok (TensorSaver.mk (header_of tm tes) None tes (data_size tes)
          [] [] 0 [] 0).
Proof.
  intros [Hent _ _ Hok Hmd Hsize _].
  unfold TensorSaver.calcOffset. rewrite Hent. cbn [bind].
  rewrite TensorSaver_new_spec by assumption.
  cbn [TensorSaver.hdr TensorSaver.hdr_proto].
  rewrite calcOffset_loop_spec by assumption.
  reflexivity.
Qed.

(** *** The header object *)

Section DefineFacts.
Context {V : Type}.
Implicit Types (l o acc : list (string * V)) (k : string) (v : V).

Lemma Forall_replace (P : string * V -> Prop) l k v :
  P (k, v) -> Forall P l -> Forall P (assoc_replace l k v).
Proof.
  intros Hk. induction l as [|[k0 v0] l IH]; intros Hall; simpl.
  - constructor.
  - inversion Hall; subst. destruct (String.eqb k0 k) eqn:E.
    + apply String.eqb_eq in E. subst. now constructor.
    + constructor; auto.
Qed.

Lemma Forall_define (P : string * V -> Prop) o k v :
  P (k, v) -> Forall P o -> Forall P (obj_define o k v).
Proof.
  intros Hk Hall. unfold obj_define. destruct (assoc_get o k).
  - now apply Forall_replace.
  - destruct (array_index k).
    + now apply Forall_insert_index.
    + apply Forall_app. split; [assumption|]. now constructor.
Qed.

Lemma Forall_define_all (P : string * V -> Prop) acc l :
  Forall P acc -> Forall P l -> Forall P (define_all acc l).
Proof.
  revert acc. induction l as [|[k v] l IH]; intros acc Hacc Hl;
    [assumption|].
  inversion Hl; subst. simpl. apply IH; [|assumption].
  now apply Forall_define.
Qed.

Lemma Forall_In_assoc (P : string * V -> Prop) l :
  (forall k v, List.In (k, v) l -> P (k, v)) -> Forall P l.
Proof.
  induction l as [|[k v] l IH]; intros H; constructor.
  - apply H. now left.
  - apply IH. intros k' v' Hin. apply H. now right.
Qed.

Lemma Forall_In_inv (P : string * V -> Prop) l k v :
  Forall P l -> List.In (k, v) l -> P (k, v).
Proof.
  induction 1 as [|x l Hx Hl IH]; simpl; [tauto|].
  intros [->|Hin]; auto.
Qed.
End DefineFacts.

Lemma members_text_Forall (l : list (string * json)) :
  Forall (fun kv => is_utf8 (fst kv) = true /\ json_text (snd kv) = true) l ->
  members_text l = true.
Proof.
  induction 1 as [|[k v] l [Hk Hv] Hl IH]; [reflexivity|].
  simpl in *. now rewrite Hk, Hv, IH.
Qed.

Lemma canon_members_id (l : list (string * json)) :
  Forall (fun kv => canon (snd kv) = snd kv) l -> canon_members l = l.
Proof.
  induction 1 as [|[k v] l Hv Hl IH]; [reflexivity|].
  simpl in *. now rewrite Hv, IH.
Qed.

Lemma canon_numbers (l : list json) :
  forallb is_number l = true -> map canon l = l.
Proof.
  induction l as [|x l IH]; intros H; [reflexivity|].
  simpl in H. apply andb_true_iff in H as [Hx Hl].
  simpl. rewrite IH by assumption. destruct x; try discriminate. reflexivity.
Qed.

Lemma json_text_numbers (l : list json) :
  forallb is_number l = true -> forallb json_text l = true.
Proof.
  induction l as [|x l IH]; intros H; [reflexivity|].
  simpl in H. apply andb_true_iff in H as [Hx Hl].
  simpl. rewrite IH by assumption. destruct x; try discriminate. reflexivity.
Qed.


Lemma plain_object (l : list (string * json)) :
  js_ordered l -> Forall plain_entry l ->
  json_text (JObj l) = true /\ canon (JObj l) = JObj l.
Proof.
  intros Hord Hall. split.
  - rewrite json_text_obj. apply members_text_Forall.
    eapply Forall_impl; [exact Hall|]. intros kv (H1 & H2 & _). now split.
  - rewrite canon_obj. rewrite canon_members_id.
    + now rewrite define_all_ordered.
    + eapply Forall_impl; [exact Hall|]. now intros kv (_ & _ & H3).
Qed.

Lemma plain_entry_tensor (n : string) (t : TensorRef) (o : Z) :
  tensor_ok (n, t) = true -> plain_entry (n, entry_of t o).
Proof.
  unfold tensor_ok. cbn [fst snd]. intros H.
  repeat (apply andb_true_iff in H as [H ?]).
  unfold plain_entry. cbn [fst snd]. split; [assumption|]. split.
  - unfold entry_of. rewrite json_text_obj. cbn.
    rewrite json_text_numbers by assumption.
    match goal with H : is_utf8 (format t) = true |- _ => now rewrite H end.
  - unfold entry_of. rewrite canon_obj. cbn [canon_members canon].
    rewrite canon_numbers by assumption. reflexivity.
Qed.

Lemma plain_entry_meta (kv : string * json) :
  meta_ok kv = true -> plain_entry kv.
Proof.
  destruct kv as [k v]. unfold meta_ok, plain_entry. cbn [fst snd].
  intros H. repeat (apply andb_true_iff in H as [H ?]).
  destruct v; try discriminate. repeat split; assumption.
Qed.

Lemma forallb_Forall_iff {A : Type} (f : A -> bool) (l : list A) :
  forallb f l = true <-> Forall (fun x => f x = true) l.
Proof.
  induction l as [|x l IH]; simpl.
  - split; [constructor|reflexivity].
  - rewrite andb_true_iff, IH. split.
    + intros [? ?]. now constructor.
    + intros H. inversion H; subst. now split.
Qed.

Lemma metadata_object_plain (md : list (string * json)) :
  forallb meta_ok md = true ->
  js_ordered (metadata_object md)
  /\ Forall plain_entry (metadata_object md)
  /\ Forall (fun kv => typeof (snd kv) = "string"%string) (metadata_object md).
Proof.
  intros H. apply forallb_Forall_iff in H. unfold metadata_object.
  split; [|split].
  - now apply js_ordered_define_all.
  - apply Forall_define_all; [constructor|].
    eapply Forall_impl; [exact H|]. apply plain_entry_meta.
  - apply Forall_define_all; [constructor|].
    eapply Forall_impl; [exact H|]. intros [k v] Hkv.
    unfold meta_ok in Hkv. cbn [fst snd] in *.
    apply andb_true_iff in Hkv as [_ Hv]. now destruct v.
Qed.

Lemma layout_keys (tes : list (string * TensorRef)) (off : Z) :
  assoc_keys (header_entries (layout off tes)) = assoc_keys tes.
Proof.
  revert off. induction tes as [|[n t] r IH]; intros off; [reflexivity|].
  simpl. f_equal. apply IH.
Qed.

Lemma layout_tensor_ok (tes : list (string * TensorRef)) (off : Z) :
  forallb tensor_ok tes = true ->
  Forall (fun x => tensor_ok (fst x) = true) (layout off tes).
Proof.
  revert off. induction tes as [|[n t] r IH]; intros off H; [constructor|].
  simpl in H. apply andb_true_iff in H as [Hnt Hr].
  simpl. constructor; [assumption|]. now apply IH.
Qed.

Lemma header_entries_plain (l : list (string * TensorRef * Z)) :
  Forall (fun x => tensor_ok (fst x) = true) l ->
  Forall plain_entry (header_entries l).
Proof.
  induction 1 as [|[[n t] o] l Hx Hl IH]; [constructor|].
  simpl. constructor; [|assumption]. now apply plain_entry_tensor.
Qed.


Lemma header_base_ordered (tm : TensorMap) : js_ordered (header_base tm).
Proof.
  unfold header_base. destruct (metadata tm); simpl; [trivial|].
  repeat split. constructor.
Qed.

Lemma header_base_plain (tm : TensorMap) :
  forallb meta_ok tm.(metadata) = true -> Forall plain_entry (header_base tm).
Proof.
  intros H. unfold header_base. destruct (metadata tm) eqn:E; [constructor|].
  rewrite <- E in *. constructor; [|constructor].
  destruct (metadata_object_plain _ H) as (Hord & Hplain & _).
  destruct (plain_object _ Hord Hplain) as (Ha & Hc).
  unfold plain_entry. cbn [fst snd]. auto.
Qed.

Lemma header_of_plain (h : heap) (tm : TensorMap)
    (tes : list (string * TensorRef)) :
  encodable h tm tes ->
  js_ordered (header_of tm tes) /\ Forall plain_entry (header_of tm tes).
Proof.
  intros [_ _ _ Hok Hmd _ _]. unfold header_of.
  fold (header_base tm). split.
  - apply js_ordered_define_all, header_base_ordered.
  - apply Forall_define_all; [now apply header_base_plain|].
    now apply header_entries_plain, layout_tensor_ok.
Qed.

Lemma header_text_parses (h : heap) (tm : TensorMap)
    (tes : list (string * TensorRef)) (n : nat) :
  encodable h tm tes ->
  is_utf8 (JSON_stringify (JObj (header_of tm tes))) = true
  /\ JSON_parse (JSON_stringify (JObj (header_of tm tes)) +:+ spaces n)
     = Ok (JObj (header_of tm tes)).
Proof.
  intros Henc. destruct (header_of_plain h tm tes Henc) as (Hord & Hplain).
  destruct (plain_object _ Hord Hplain) as (Ha & Hc). split.
  - now apply is_utf8_stringify.
  - rewrite JSON_parse_stringify by assumption. now rewrite Hc.
Qed.

(** *** Writing the archive *)


Lemma byteLength_app (a b : Bytes) :
  byteLength (a ++ b) = byteLength a + byteLength b.
Proof. unfold byteLength. rewrite length_app. lia. Qed.

Lemma byteLength_repeat (x : byte) (n : nat) :
  byteLength (repeat x n) = Z.of_nat n.
Proof. unfold byteLength. now rewrite repeat_length. Qed.

Lemma skipn_repeat {A : Type} (x : A) (n k : nat) :
  skipn k (repeat x n) = repeat x (n - k).
Proof.
  revert k. induction n as [|n IH]; intros [|k]; simpl; auto.
Qed.

Lemma write_spec (s : TensorSaver.t) (prefix : Bytes) (k : nat)
    (data : Bytes) :
  (length data <= k)%nat ->
  TensorSaver.write (saver_at s (prefix ++ repeat x00 k) (byteLength prefix))
    data
  = Ok (saver_at s ((prefix ++ data) ++ repeat x00 (k - length data))
          (byteLength (prefix ++ data))).
Proof.
  intros Hfit. unfold TensorSaver.write, saver_at. cbn.
  unfold Uint8Array_set.
  rewrite byteLength_app, byteLength_repeat.
  assert (E1 : (byteLength prefix <? 0) = false)
    by (apply Z.ltb_ge; unfold byteLength; lia).
  assert (E2 : (byteLength prefix + Z.of_nat k
                <? byteLength prefix + byteLength data) = false)
    by (apply Z.ltb_ge; unfold byteLength; lia).
  rewrite E1, E2. cbn [orb bind].
  unfold byteLength at 1 2. rewrite Nat2Z.id.
  rewrite firstn_app, firstn_all, Nat.sub_diag. cbn [firstn].
  rewrite app_nil_r.
  rewrite skipn_app, skipn_all2 by lia.
  replace (length prefix + length data - length prefix)%nat
    with (length data) by lia.
  rewrite skipn_repeat. cbn [app].
  rewrite byteLength_app. now rewrite <- app_assoc.
Qed.

Lemma slice_padder (k : Z) :
  0 <= k <= 8 -> slice padder 0 k = repeat x20 (Z.to_nat k).
Proof.
  intros H.
  assert (k = 0 \/ k = 1 \/ k = 2 \/ k = 3 \/ k = 4 \/ k = 5 \/ k = 6
          \/ k = 7 \/ k = 8) as Hc by lia.
  repeat (destruct Hc as [Hc|Hc]; [subst k; reflexivity|]).
  subst k; reflexivity.
Qed.

Lemma round8_pad (len : Z) :
  0 <= len ->
  round8 len - len = if len mod 8 =? 0 then 0 else 8 - len mod 8.
Proof.
  intros H. unfold round8.
  pose proof (Z.div_mod len 8 ltac:(lia)).
  pose proof (Z.mod_pos_bound len 8 ltac:(lia)).
  destruct (len mod 8 =? 0) eqn:E.
  - apply Z.eqb_eq in E.
    replace (len + 7) with (7 + (len / 8) * 8) by lia.
    rewrite Z.div_add by lia. change (7 / 8) with 0. lia.
  - apply Z.eqb_neq in E.
    replace (len + 7) with ((len mod 8 - 1) + (len / 8 + 1) * 8) by lia.
    rewrite Z.div_add by lia. rewrite Z.div_small by lia. lia.
Qed.

Lemma calcHeader_spec (hdr : list (string * json))
    (tes : list (string * TensorRef)) (off : Z) :
  let text := JSON_stringify (JObj hdr) in
  let len := Z.of_nat (String.length text) in
  is_utf8 text = true ->
  len <= MAX_HEADER ->
  TensorSaver.calcHeader (TensorSaver.mk hdr None tes off [] [] 0 [] 0)
  = Ok (TensorSaver.mk hdr None tes off (text_bytes text)
          (length_field (round8 len)) (round8 len) [] 0).
Proof.
  intros text len Hasc Hlen. unfold TensorSaver.calcHeader.
  cbn [TensorSaver.hdr]. fold text.
  rewrite TextEncoder_encode_text by assumption. cbn [bind].
  unfold byteLength. rewrite length_text_bytes. fold len.
  unfold MAX_HEADER in *.
  assert (0 <= len) by (unfold len; lia).
  pose proof (round8_bounds len).
  rewrite align8_round8 by lia.
  assert (Hmax : round8 len <= 104857600).
  { unfold round8. pose proof (Z.div_mod (len + 7) 8 ltac:(lia)).
    pose proof (Z.mod_pos_bound (len + 7) 8 ltac:(lia)). lia. }
  assert (E : (100 * 1024 * 1024 <? round8 len) = false)
    by (apply Z.ltb_ge; lia).
  rewrite E. rewrite lenbuf_length_field by lia. reflexivity.
Qed.

Lemma saver_at_hdrBuf (s : TensorSaver.t) (b : Bytes) (w : Z) :
  TensorSaver.hdrBuf (saver_at s b w) = TensorSaver.hdrBuf s.
Proof. reflexivity. Qed.

Lemma saver_at_lenbuf (s : TensorSaver.t) (b : Bytes) (w : Z) :
  TensorSaver.lenbuf (saver_at s b w) = TensorSaver.lenbuf s.
Proof. reflexivity. Qed.

Lemma saver_at_hblen (s : TensorSaver.t) (b : Bytes) (w : Z) :
  TensorSaver.hblen (saver_at s b w) = TensorSaver.hblen s.
Proof. reflexivity. Qed.

Lemma saver_at_tes (s : TensorSaver.t) (b : Bytes) (w : Z) :
  TensorSaver.tes (saver_at s b w) = TensorSaver.tes s.
Proof. reflexivity. Qed.

Lemma saver_at_hdr_get (s : TensorSaver.t) (b : Bytes) (w : Z) (n : string) :
  TensorSaver.hdr_get (saver_at s b w) n = TensorSaver.hdr_get s n.
Proof. reflexivity. Qed.

Lemma saver_at_saver_at (s : TensorSaver.t) (b b' : Bytes) (w w' : Z) :
  saver_at (saver_at s b w) b' w' = saver_at s b' w'.
Proof. reflexivity. Qed.

Lemma writeHeader_spec (s : TensorSaver.t) (text : string) :
  let len := Z.of_nat (String.length text) in
  s.(TensorSaver.hdrBuf) = text_bytes text ->
  s.(TensorSaver.lenbuf) = length_field (round8 len) ->
  s.(TensorSaver.hblen) = round8 len ->
  0 <= s.(TensorSaver.offset) ->
  TensorSaver.writeHeader s
  = Ok (saver_at s
          ((length_field (round8 len) ++ text_bytes text
            ++ repeat x20 (Z.to_nat (round8 len - len)))
           ++ repeat x00 (Z.to_nat s.(TensorSaver.offset)))
          (8 + round8 len)).
Proof.
  intros len Hbuf Hlb Hhl Hoff. unfold TensorSaver.writeHeader.
  assert (0 <= len) by (unfold len; lia).
  pose proof (round8_bounds len).
  unfold new_Uint8Array.
  assert (E : (TensorSaver.offset s + TensorSaver.hblen s + 8 <? 0) = false)
    by (apply Z.ltb_ge; lia).
  rewrite E. cbn [bind].
  set (total := Z.to_nat (TensorSaver.offset s + TensorSaver.hblen s + 8)).
  change (TensorSaver.mk _ _ _ _ _ _ _ (repeat x00 total) 0)
    with (saver_at s ([] ++ repeat x00 total) (byteLength [])).
  cbv zeta.
  assert (Hlf : length (length_field (round8 len)) = 8%nat) by reflexivity.
  assert (Hab : length (text_bytes text) = Z.to_nat len)
    by (rewrite length_text_bytes; unfold len; lia).
  assert (Htotal : total = (8 + Z.to_nat len + Z.to_nat (round8 len - len)
                            + Z.to_nat (TensorSaver.offset s))%nat)
    by (unfold total; lia).
  rewrite saver_at_lenbuf, Hlb.
  rewrite write_spec by (rewrite Hlf; lia).
  cbn [bind]. rewrite saver_at_hdrBuf, Hbuf.
  rewrite write_spec by (rewrite Hlf, Hab; lia).
  cbn [bind]. rewrite saver_at_hdrBuf, saver_at_hblen, Hbuf, Hhl.
  replace (byteLength (text_bytes text)) with len
    by (unfold byteLength; rewrite Hab; lia).
  rewrite Hlf, Hab. cbn [app].
  destruct (len <? round8 len) eqn:Elt.
  - apply Z.ltb_lt in Elt.
    rewrite slice_padder by lia.
    rewrite write_spec by (rewrite repeat_length; lia).
    rewrite repeat_length. f_equal. f_equal.
    + replace (total - 8 - Z.to_nat len - Z.to_nat (round8 len - len))%nat
        with (Z.to_nat (TensorSaver.offset s)) by lia.
      now rewrite <- !app_assoc.
    + rewrite !byteLength_app, byteLength_repeat. unfold byteLength.
      rewrite Hlf, Hab. lia.
  - apply Z.ltb_ge in Elt. assert (round8 len = len) as Heq by lia.
    f_equal. f_equal.
    + rewrite Heq, Z.sub_diag. cbn [Z.to_nat repeat app].
      replace (total - 8 - Z.to_nat len)%nat
        with (Z.to_nat (TensorSaver.offset s)) by lia.
      now rewrite <- !app_assoc.
    + rewrite !byteLength_app. unfold byteLength.
      rewrite Hlf, Hab. lia.
Qed.

Lemma recorded_end_entry (s : TensorSaver.t) (n : string) (t : TensorRef)
    (o : Z) :
  TensorSaver.hdr_get s n = Some (entry_of t o) ->
  TensorSaver.recorded_end s n = Ok (o + byteLength t.(bytes)).
Proof. intros H. unfold TensorSaver.recorded_end. rewrite H. reflexivity. Qed.

Lemma data_section_length (tes : list (string * TensorRef)) :
  byteLength (data_section tes) = data_size tes.
Proof.
  induction tes as [|[n t] r IH]; [reflexivity|].
  simpl. rewrite !byteLength_app, IH. unfold padding.
  rewrite byteLength_repeat.
  pose proof (round8_bounds (byteLength (bytes t))). lia.
Qed.

Lemma writeTensors_loop_spec (tes : list (string * TensorRef)) :
  forall (s : TensorSaver.t) (prefix : Bytes) (k : nat) (o : Z),
    (forall n t off, List.In (n, t, off) (layout o tes) ->
                     TensorSaver.hdr_get s n = Some (entry_of t off)) ->
    o mod 8 = 0 -> 0 <= o ->
    o + data_size tes < 2147483648 ->
    Z.of_nat k = data_size tes ->
    TensorSaver.writeTensors_loop
      (saver_at s (prefix ++ repeat x00 k) (byteLength prefix)) o tes
    = Ok (saver_at s (prefix ++ data_section tes)
            (byteLength prefix + data_size tes)).
Proof.
  induction tes as [|[n t] r IH]; intros s prefix k o Hget Hmod Ho Hsize Hk.
  - simpl in *. assert (k = 0%nat) by lia. subst k. simpl.
    now rewrite Z.add_0_r.
  - cbn [TensorSaver.writeTensors_loop].
    cbn [data_size] in Hsize, Hk. pose proof (data_size_nonneg r).
    set (len := byteLength (bytes t)) in *.
    assert (Hlen : 0 <= len) by (unfold len, byteLength; lia).
    pose proof (round8_bounds len) as Hr8.
    pose proof (round8_pad len Hlen) as Hpad.
    pose proof (Z.mod_pos_bound len 8 ltac:(lia)) as Hm.
    assert (Hl : length (bytes t) = Z.to_nat len)
      by (unfold len, byteLength; lia).
    rewrite write_spec by lia. cbn [bind].
    rewrite js_and_7 by lia.
    assert (Hend : TensorSaver.recorded_end s n = Ok (o + len)).
    { apply recorded_end_entry. apply Hget. now left. }
    assert (Halign : align8 (o + len) = o + round8 len).
    { rewrite align8_round8;
        [now apply round8_add|lia
        |apply round8_below; rewrite round8_add by assumption; lia]. }
    assert (Hrest : forall n' t' off,
               List.In (n', t', off) (layout (o + round8 len) r) ->
               TensorSaver.hdr_get s n' = Some (entry_of t' off)).
    { intros n' t' off Hin. apply Hget. now right. }
    assert (Hmod' : (o + round8 len) mod 8 = 0).
    { rewrite <- Z.add_mod_idemp_l, Hmod by lia. apply round8_mod. }
    destruct (len mod 8 =? 0) eqn:E.
    + (* no padding *)
      cbn [negb bind].
      assert (TensorSaver.recorded_end
                (saver_at s ((prefix ++ bytes t)
                             ++ repeat x00 (k - length (bytes t)))
                   (byteLength (prefix ++ bytes t))) n = Ok (o + len))
        as -> by exact Hend.
      assert (Heq : round8 len = len) by lia.
      cbn [bind]. rewrite Halign, Heq.
      rewrite Z.eqb_refl. cbn [negb].
      rewrite <- Heq at 1.
      rewrite IH; try assumption; try lia.
      cbn [data_section data_size]. fold len. unfold padding. fold len.
      rewrite Heq, Z.sub_diag. cbn [Z.to_nat repeat app].
      rewrite byteLength_app, <- app_assoc. fold len.
      f_equal. f_equal. lia.
    + (* padding *)
      apply Z.eqb_neq in E. cbn [negb bind].
      rewrite slice_padder by lia.
      rewrite write_spec by (rewrite repeat_length; lia). cbn [bind].
      assert (TensorSaver.recorded_end
                (saver_at s
                   (((prefix ++ bytes t) ++ repeat x20 (Z.to_nat (8 - len mod 8)))
                    ++ repeat x00
                         (k - length (bytes t)
                          - length (repeat x20 (Z.to_nat (8 - len mod 8)))))
                   (byteLength ((prefix ++ bytes t)
                                ++ repeat x20 (Z.to_nat (8 - len mod 8)))))
                n = Ok (o + len))
        as -> by exact Hend.
      cbn [bind]. rewrite Halign.
      replace (o + len + (8 - len mod 8)) with (o + round8 len) by lia.
      rewrite Z.eqb_refl. cbn [negb].
      rewrite IH; try assumption; try (rewrite ?repeat_length; lia).
      cbn [data_section data_size]. fold len. unfold padding. fold len.
      replace (round8 len - len) with (8 - len mod 8) by lia.
      rewrite !byteLength_app, byteLength_repeat, <- !app_assoc. fold len.
      f_equal. f_equal. lia.
Qed.

Lemma encodable_unique_tes (h : heap) (tm : TensorMap)
    (tes : list (string * TensorRef)) :
  encodable h tm tes -> unique_keys tes.
Proof.
  intros [Hent Hnames _ _ _ _ _].
  eapply unique_keys_same_keys; [|exact Hnames].
  symmetry. now apply entries_of_keys with (h := h).
Qed.

Lemma header_entries_In (l : list (string * TensorRef * Z)) (n : string)
    (t : TensorRef) (o : Z) :
  List.In (n, t, o) l -> List.In (n, entry_of t o) (header_entries l).
Proof.
  intros H. unfold header_entries.
  apply (List.in_map (fun x => (fst (fst x), entry_of (snd (fst x)) (snd x)))
           l (n, t, o) H).
Qed.

Lemma header_entries_In_inv (l : list (string * TensorRef * Z)) (n : string)
    (v : json) :
  List.In (n, v) (header_entries l) ->
  exists t o, List.In (n, t, o) l /\ v = entry_of t o.
Proof.
  unfold header_entries. intros H. apply List.in_map_iff in H.
  destruct H as ([[n' t] o] & Heq & Hin). cbn [fst snd] in Heq.
  inversion Heq; subst. eauto.
Qed.

Lemma header_of_get (h : heap) (tm : TensorMap)
    (tes : list (string * TensorRef)) (n : string) (t : TensorRef) (o : Z) :
  encodable h tm tes ->
  List.In (n, t, o) (layout 0 tes) ->
  assoc_get (header_of tm tes) n = Some (entry_of t o).
Proof.
  intros Henc Hin. unfold header_of.
  assert (Hu : unique_keys (header_entries (layout 0 tes))).
  { eapply unique_keys_same_keys; [|exact (encodable_unique_tes _ _ _ Henc)].
    symmetry. apply layout_keys. }
  rewrite assoc_get_define_all by assumption.
  now rewrite (unique_keys_get _ _ _ Hu (header_entries_In _ _ _ _ Hin)).
Qed.

Lemma layout_In_ok (tes : list (string * TensorRef)) (off : Z) (n : string)
    (t : TensorRef) (o : Z) :
  forallb tensor_ok tes = true ->
  List.In (n, t, o) (layout off tes) -> tensor_ok (n, t) = true.
Proof.
  intros Hok Hin.
  pose proof (layout_tensor_ok tes off Hok) as Hall.
  rewrite List.Forall_forall in Hall. exact (Hall _ Hin).
Qed.

Lemma tensor_ok_not_proto (n : string) (t : TensorRef) :
  tensor_ok (n, t) = true -> String.eqb n "__proto__" = false.
Proof.
  unfold tensor_ok. cbn [fst snd]. intros H.
  repeat (apply andb_true_iff in H as [H ?]).
  now apply negb_true_iff.
Qed.

(** The encoder succeeds on an encodable container and returns the
    archive of its header text and of its tensors. *)
Theorem saveSafeTensors_of_spec (h : heap) (tm : TensorMap)
    (tes : list (string * TensorRef)) :
  encodable h tm tes ->
  saveSafeTensors_of h tm
  = Ok (archive_of (JSON_stringify (JObj (header_of tm tes))) tes).
Proof.
  intros Henc. unfold saveSafeTensors_of.
  rewrite (calcOffset_spec h tm tes Henc). cbn [bind].
  destruct (header_text_parses h tm tes 0 Henc) as (Hasc & _).
  pose proof (enc_header _ _ _ Henc) as Hlen.
  rewrite calcHeader_spec by assumption. cbn [bind].
  set (text := JSON_stringify (JObj (header_of tm tes))) in *.
  set (len := Z.of_nat (String.length text)) in *.
  pose proof (data_size_nonneg tes) as Hds.
  rewrite (writeHeader_spec _ text) by (try reflexivity; assumption).
  cbn [bind]. fold len.
  unfold TensorSaver.writeTensors. rewrite saver_at_tes.
  cbn [TensorSaver.tes TensorSaver.offset].
  set (prefix := length_field (round8 len) ++ text_bytes text
                 ++ repeat x20 (Z.to_nat (round8 len - len))).
  assert (Hpl : byteLength prefix = 8 + round8 len).
  { unfold prefix. rewrite !byteLength_app, byteLength_repeat.
    unfold byteLength. rewrite length_text_bytes. fold len.
    change (Z.of_nat (length (length_field (round8 len)))) with 8.
    pose proof (round8_bounds len). lia. }
  rewrite <- Hpl.
  rewrite writeTensors_loop_spec.
  - cbn [bind TensorSaver.ret saver_at]. unfold archive_of. fold text len.
    unfold prefix. now rewrite <- !app_assoc.
  - intros n t off Hin. unfold TensorSaver.hdr_get.
    cbn [TensorSaver.hdr TensorSaver.hdr_proto].
    rewrite (tensor_ok_not_proto n t)
      by (eapply layout_In_ok; [exact (enc_tensors _ _ _ Henc)|exact Hin]).
    now apply header_of_get with (h := h).
  - reflexivity.
  - lia.
  - pose proof (enc_data _ _ _ Henc). lia.
  - lia.
Qed.

(* ===================================================================== *)
(** ** Computations over the store *)
(* ===================================================================== *)

Lemma bindM_ret {A B : Type} (a : A) (k : A -> M B) (h : heap) :
  bindM (ret a) k h = k a h.
Proof. reflexivity. Qed.

Lemma bindM_throw {A B : Type} (e : exn) (k : A -> M B) (h : heap) :
  bindM (throw e) k h = (Throw e, h).
Proof. reflexivity. Qed.

Lemma bindM_get_ref {B : Type} (l : loc) (t : TensorRef) (k : TensorRef -> M B)
    (h : heap) :
  h.(tensorRefs) !! l = Some t -> bindM (get_ref l) k h = k t h.
Proof. intros H. unfold bindM, get_ref. now rewrite H. Qed.

Lemma bindM_get_map {B : Type} (l : loc) (m : TensorMap)
    (k : TensorMap -> M B) (h : heap) :
  h.(tensorMaps) !! l = Some m -> bindM (get_map l) k h = k m h.
Proof. intros H. unfold bindM, get_map. now rewrite H. Qed.

Lemma bindM_set_ref {B : Type} (l : loc) (t : TensorRef) (k : unit -> M B)
    (h : heap) :
  bindM (set_ref l t) k h
  = k tt (mkHeap (<[l := t]> h.(tensorRefs)) h.(tensorMaps) h.(next)).
Proof. reflexivity. Qed.

Lemma bindM_set_map {B : Type} (l : loc) (m : TensorMap) (k : unit -> M B)
    (h : heap) :
  bindM (set_map l m) k h
  = k tt (mkHeap h.(tensorRefs) (<[l := m]> h.(tensorMaps)) h.(next)).
Proof. reflexivity. Qed.

Lemma bindM_assoc {A B C : Type} (m : M A) (k : A -> M B) (k' : B -> M C)
    (h : heap) :
  bindM (bindM m k) k' h = bindM m (fun a => bindM (k a) k') h.
Proof. unfold bindM. destruct (m h) as [[a|e] h']; reflexivity. Qed.

(** One step of a computation over a store whose lookups are known. *)
Ltac store_lookup :=
  simpl; first [eassumption | apply lookup_insert_eq
               | (rewrite lookup_insert_ne by congruence); eassumption ].

Ltac store_step :=
  first
    [ rewrite bindM_ret
    | rewrite bindM_throw
    | rewrite bindM_set_ref
    | rewrite bindM_set_map
    | erewrite bindM_get_ref by store_lookup
    | erewrite bindM_get_map by store_lookup
    | rewrite bindM_assoc ].

(* ===================================================================== *)
(** ** The decoder on an archive of the encoder *)
(* ===================================================================== *)

Lemma slice_middle (a m c : Bytes) :
  slice (a ++ m ++ c) (byteLength a) (byteLength a + byteLength m) = m.
Proof.
  unfold slice, relative_index. rewrite !byteLength_app.
  assert (Ha : 0 <= byteLength a) by (unfold byteLength; lia).
  assert (Hm : 0 <= byteLength m) by (unfold byteLength; lia).
  assert (Hc : 0 <= byteLength c) by (unfold byteLength; lia).
  assert (E1 : (byteLength a <? 0) = false) by (apply Z.ltb_ge; lia).
  assert (E2 : (byteLength a + byteLength m <? 0) = false)
    by (apply Z.ltb_ge; lia).
  rewrite E1, E2.
  rewrite !Z.min_l by lia.
  replace (Z.max (byteLength a + byteLength m - byteLength a) 0)
    with (byteLength m) by lia.
  unfold byteLength. rewrite !Nat2Z.id.
  rewrite skipn_app, skipn_all, Nat.sub_diag. cbn [app].
  change (skipn 0 (m ++ c)) with (m ++ c).
  rewrite firstn_app, firstn_all, Nat.sub_diag.
  change (firstn 0 c) with (@nil byte).
  apply app_nil_r.
Qed.

Lemma text_bytes_spaces (n : nat) : text_bytes (spaces n) = repeat x20 n.
Proof.
  induction n as [|n IH]; [reflexivity|].
  unfold text_bytes in *. simpl. now rewrite IH.
Qed.

Lemma JSON_stringify_obj_head (l : list (string * json)) :
  exists r, JSON_stringify (JObj l) = String "{" r.
Proof.
  destruct l as [|[k x] l]; [now eexists|].
  rewrite JSON_stringify_obj. now eexists.
Qed.

Lemma archive_length (text : string) (tes : list (string * TensorRef)) :
  byteLength (archive_of text tes)
  = 8 + round8 (Z.of_nat (String.length text)) + data_size tes.
Proof.
  unfold archive_of. rewrite !byteLength_app, byteLength_repeat.
  rewrite data_section_length. unfold byteLength at 2.
  rewrite length_text_bytes.
  change (byteLength (length_field _)) with 8.
  pose proof (round8_bounds (Z.of_nat (String.length text))). lia.
Qed.

Lemma sanityCheckTensorsHeader_archive (text r : string)
    (tes : list (string * TensorRef)) :
  text = String "{" r ->
  Z.of_nat (String.length text) <= MAX_HEADER ->
  sanityCheckTensorsHeader false (archive_of text tes)
    (byteLength (archive_of text tes))
  = Ok (round8 (Z.of_nat (String.length text)))
  /\ unsafeGetHeaderSize (archive_of text tes)
     = round8 (Z.of_nat (String.length text)).
Proof.
  intros Htext Hlen. set (len := Z.of_nat (String.length text)) in *.
  assert (0 <= len) by (unfold len; lia).
  pose proof (round8_bounds len) as Hr8.
  unfold MAX_HEADER in Hlen.
  assert (Hmax : round8 len <= 104857600).
  { unfold round8. pose proof (Z.div_mod (len + 7) 8 ltac:(lia)).
    pose proof (Z.mod_pos_bound (len + 7) 8 ltac:(lia)). lia. }
  assert (Hsize : unsafeGetHeaderSize (archive_of text tes) = round8 len).
  { unfold archive_of. fold len.
    apply unsafeGetHeaderSize_length_field. lia. }
  split; [|exact Hsize].
  unfold sanityCheckTensorsHeader. rewrite Hsize.
  assert (Hslice : slice (archive_of text tes) 4 9 = [x00; x00; x00; x00; x7b]).
  { unfold archive_of. fold len. unfold length_field. rewrite Htext.
    set (rest := _ ++ data_section tes).
    change (text_bytes (String "{" r)) with (x7b :: text_bytes r).
    match goal with
    | |- slice ([?b0; ?b1; ?b2; ?b3; _; _; _; _] ++ _) _ _ = _ =>
        change (slice ([b0; b1; b2; b3] ++ [x00; x00; x00; x00; x7b]
                       ++ (text_bytes r ++ rest))
                  (byteLength [b0; b1; b2; b3])
                  (byteLength [b0; b1; b2; b3]
                   + byteLength [x00; x00; x00; x00; x7b])
                = [x00; x00; x00; x00; x7b])
    end.
    apply slice_middle. }
  rewrite Hslice.
  change (arrayCompare (map byte_val [x00; x00; x00; x00; x7b])
            [0; 0; 0; 0; 123]) with true.
  cbn [negb]. unfold MAX_HEADER.
  assert (E1 : (100 * 1024 * 1024 <? round8 len) = false)
    by (apply Z.ltb_ge; lia).
  rewrite E1. cbn [andb].
  rewrite archive_length. fold len.
  pose proof (data_size_nonneg tes).
  assert (E2 : (8 + round8 len + data_size tes <? 8 + round8 len) = false)
    by (apply Z.ltb_ge; lia).
  now rewrite E2.
Qed.

Lemma header_slice (text : string) (tes : list (string * TensorRef)) :
  let len := Z.of_nat (String.length text) in
  slice (archive_of text tes) 8 (8 + round8 len)
  = text_bytes (text +:+ spaces (Z.to_nat (round8 len - len))).
Proof.
  intros len. unfold archive_of. fold len.
  rewrite text_bytes_append, text_bytes_spaces.
  rewrite (app_assoc (text_bytes text)).
  pose proof (round8_bounds len).
  assert (0 <= len) by (unfold len; lia).
  assert (Hl : byteLength (text_bytes text
                           ++ repeat x20 (Z.to_nat (round8 len - len)))
               = round8 len).
  { rewrite byteLength_app, byteLength_repeat. unfold byteLength.
    rewrite length_text_bytes. fold len. lia. }
  set (m := text_bytes text ++ repeat x20 (Z.to_nat (round8 len - len)))
    in *.
  set (a := length_field (round8 len)).
  replace (8 + round8 len) with (byteLength a + byteLength m)
    by (rewrite Hl; reflexivity).
  change 8 with (byteLength a). apply slice_middle.
Qed.

Lemma tensor_slice (text : string) (pre post : list (string * TensorRef))
    (n : string) (t : TensorRef) :
  let len := Z.of_nat (String.length text) in
  slice (archive_of text (pre ++ (n, t) :: post))
    (8 + round8 len + data_size pre)
    (8 + round8 len + (data_size pre + byteLength t.(bytes)))
  = t.(bytes).
Proof.
  intros len. unfold archive_of. fold len.
  assert (Hsplit : forall l1 l2, data_section (l1 ++ l2)
                                 = data_section l1 ++ data_section l2).
  { intros l1 l2. induction l1 as [|[n1 t1] l1 IH]; [reflexivity|].
    simpl. rewrite IH. now rewrite <- !app_assoc. }
  rewrite Hsplit. cbn [data_section].
  set (a := length_field (round8 len) ++ text_bytes text
            ++ repeat x20 (Z.to_nat (round8 len - len)) ++ data_section pre).
  pose proof (round8_bounds len).
  assert (0 <= len) by (unfold len; lia).
  assert (Ha : byteLength a = 8 + round8 len + data_size pre).
  { unfold a. rewrite !byteLength_app, byteLength_repeat,
      data_section_length.
    unfold byteLength at 2. rewrite length_text_bytes. fold len.
    change (byteLength (length_field (round8 len))) with 8. lia. }
  replace (length_field (round8 len) ++ text_bytes text
           ++ repeat x20 (Z.to_nat (round8 len - len))
           ++ data_section pre
           ++ bytes t ++ padding (byteLength (bytes t)) ++ data_section post)
    with (a ++ bytes t
          ++ (padding (byteLength (bytes t)) ++ data_section post))
    by (unfold a; now rewrite <- !app_assoc).
  replace (8 + round8 len + (data_size pre + byteLength (bytes t)))
    with (byteLength a + byteLength (bytes t)) by lia.
  rewrite <- Ha. apply slice_middle.
Qed.

(** *** Validation of the header *)


Lemma checkOverlap_loop_ok (this : TensorAttributeChecker.t) (key : string)
    (cov : list OffsetPair) (val : OffsetPair) :
  Forall (fun c => flags c val = false) cov ->
  TensorAttributeChecker.checkOverlap_loop this key cov val = Ok tt.
Proof.
  induction 1 as [|[start end_] cov Hc Hcov IH]; [reflexivity|].
  simpl. unfold TensorAttributeChecker.checkTensorOverlap.
  unfold flags in Hc. cbn [fst snd] in Hc.
  apply orb_false_iff in Hc as [H1 H2]. rewrite H1, H2. cbn [bind].
  exact IH.
Qed.

Lemma checkTensorShape_loop_numbers (this : TensorAttributeChecker.t)
    (key : string) (l : list json) :
  forallb is_number l = true ->
  TensorAttributeChecker.checkTensorShape_loop this key l = Ok tt.
Proof.
  induction l as [|x l IH]; intros H; [reflexivity|].
  simpl in H. apply andb_true_iff in H as [Hx Hl].
  destruct x; try discriminate. simpl. now apply IH.
Qed.

Lemma dtype_string (c : Z) (cov : list OffsetPair) (b1 b2 b3 : bool)
    (key s : string) :
  TensorAttributeChecker.dtype
    (TensorAttributeChecker.mk c cov false b1 b2 b3) key (JStr s)
  = Ok (TensorAttributeChecker.mk c cov false true b2 b3).
Proof. reflexivity. Qed.

Lemma shape_numbers (c : Z) (cov : list OffsetPair) (b1 b2 b3 : bool)
    (key : string) (l : list json) :
  forallb is_number l = true ->
  TensorAttributeChecker.shape
    (TensorAttributeChecker.mk c cov false b1 b2 b3) key (JArr l)
  = Ok (TensorAttributeChecker.mk c cov false b1 true b3).
Proof.
  intros H. unfold TensorAttributeChecker.shape,
    TensorAttributeChecker.checkTensorShape.
  now rewrite checkTensorShape_loop_numbers.
Qed.

Lemma data_offsets_range (c : Z) (cov : list OffsetPair) (b1 b2 b3 : bool)
    (key : string) (a b : Z) :
  0 <= a -> a <= b -> b <= c ->
  Forall (fun r => flags r (a, b) = false) cov ->
  TensorAttributeChecker.data_offsets
    (TensorAttributeChecker.mk c cov false b1 b2 b3) key
    (JArr [JNum a; JNum b])
  = Ok (TensorAttributeChecker.mk c (cov ++ [(a, b)]) false b1 b2 true).
Proof.
  intros Ha Hab Hb Hcov.
  unfold TensorAttributeChecker.data_offsets,
    TensorAttributeChecker.checkDataOffsets.
  change (negb (length [JNum a; JNum b] =? 2)%nat) with false. cbv iota.
  change (TensorAttributeChecker.as_OffsetPair [JNum a; JNum b])
    with (Ok (a, b)).
  cbn [bind].
  assert (Hin : pairInRange (a, b) c = true).
  { unfold pairInRange. cbn [fst snd].
    repeat (apply andb_true_iff; split); apply Z.leb_le; lia. }
  unfold TensorAttributeChecker.checkDataOffsetBasics.
  cbn [TensorAttributeChecker.chunksize TensorAttributeChecker.ignoreInvalid].
  rewrite Hin. cbn [negb andb bind].
  cbn [TensorAttributeChecker.covered].
  rewrite checkOverlap_loop_ok by assumption. reflexivity.
Qed.

Lemma checkTensorValue_entry (chunksize : Z) (covered : list OffsetPair)
    (name : string) (t : TensorRef) (o : Z) :
  forallb is_number t.(shape) = true ->
  0 <= o -> o + byteLength t.(bytes) <= chunksize ->
  Forall (fun c => flags c (o, o + byteLength t.(bytes)) = false) covered ->
  TensorAttributeChecker.checkTensorValue
    (TensorAttributeChecker.new chunksize covered false) name (entry_of t o)
  = Ok (TensorAttributeChecker.mk chunksize
          (covered ++ [(o, o + byteLength t.(bytes))]) false true true true).
Proof.
  intros Hshape Ho Hend Hcov.
  assert (0 <= byteLength (bytes t)) by (unfold byteLength; lia).
  unfold TensorAttributeChecker.checkTensorValue, entry_of,
    TensorAttributeChecker.new.
  cbn [Object_entries bind TensorAttributeChecker.checkTensorValue_loop].
  change (TensorAttributeChecker.attrOk "dtype") with true.
  change (TensorAttributeChecker.attrOk "shape") with true.
  change (TensorAttributeChecker.attrOk "data_offsets") with true.
  cbn [negb].
  unfold TensorAttributeChecker.dispatch.
  change (String.eqb "dtype" "dtype") with true.
  change (String.eqb "shape" "dtype") with false.
  change (String.eqb "shape" "shape") with true.
  change (String.eqb "data_offsets" "dtype") with false.
  change (String.eqb "data_offsets" "shape") with false.
  cbv iota.
  rewrite dtype_string. cbn [bind].
  rewrite shape_numbers by assumption. cbn [bind].
  rewrite data_offsets_range by (assumption || lia).
  reflexivity.
Qed.

Lemma checkMetadata_loop_strings (md : list (string * json)) :
  Forall (fun e => typeof (snd e) = "string"%string) md ->
  checkMetadata_loop false md = Ok tt.
Proof.
  induction 1 as [|[k v] md Hv Hmd IH]; [reflexivity|].
  simpl in *. rewrite Hv. exact IH.
Qed.

Lemma entry_range_entry_of (t : TensorRef) (o : Z) :
  entry_range (entry_of t o) = Some (o, o + byteLength t.(bytes)).
Proof. reflexivity. Qed.

Lemma sanityCheckTensorsParsed_loop_ok (chunksize : Z)
    (es : list (string * json)) :
  forall covered : list OffsetPair,
    Forall (valid_entry chunksize) es ->
    unique_keys es ->
    (forall k v k' v' r r',
        List.In (k, v) es -> List.In (k', v') es -> k <> k' ->
        k <> "__metadata__"%string -> k' <> "__metadata__"%string ->
        entry_range v = Some r -> entry_range v' = Some r' ->
        flags r r' = false) ->
    (forall c k v r,
        List.In c covered -> List.In (k, v) es ->
        k <> "__metadata__"%string ->
        entry_range v = Some r -> flags c r = false) ->
    exists covered',
      sanityCheckTensorsParsed_loop false chunksize covered es = Ok covered'.
Proof.
  induction es as [|[k v] es IH]; intros covered Hvalid Huniq Hpair Hcov.
  - now eexists.
  - inversion Hvalid as [|? ? Hkv Hes]; subst.
    destruct Huniq as (Hfresh & Huniq).
    cbn [sanityCheckTensorsParsed_loop].
    destruct Hkv as [(Hk & md & Hv & Hmd)|(Hk & t & o & Hv & Hshape & Ho & Hend)];
      cbn [fst snd] in *; subst.
    + rewrite String.eqb_refl. unfold checkMetadata.
      cbn [Object_entries bind].
      rewrite checkMetadata_loop_strings by assumption. cbn [bind].
      apply IH; try assumption.
      * intros k1 v1 k2 v2 r1 r2 H1 H2. apply Hpair; now right.
      * intros c k1 v1 r1 Hc H1. apply (Hcov c k1 v1 r1 Hc). now right.
    + apply String.eqb_neq in Hk. rewrite Hk. apply String.eqb_neq in Hk.
      rewrite checkTensorValue_entry; try assumption.
      * cbn [bind TensorAttributeChecker.covered].
        apply IH; try assumption.
        -- intros k1 v1 k2 v2 r1 r2 H1 H2. apply Hpair; now right.
        -- intros c k1 v1 r1 Hc H1 Hk1 Hr1.
           apply List.in_app_or in Hc as [Hc|Hc].
           ++ apply (Hcov c k1 v1 r1 Hc); [now right|assumption|assumption].
           ++ destruct Hc as [<-|[]].
              apply (Hpair k (entry_of t o) k1 v1); auto.
              ** now left.
              ** now right.
              ** intros ->. exact (assoc_get_None_In es k1 v1 Hfresh H1).
      * apply List.Forall_forall. intros c Hc.
        apply (Hcov c k (entry_of t o)); auto. now left.
Qed.

Lemma layout_bounds (tes : list (string * TensorRef)) (off : Z) (n : string)
    (t : TensorRef) (o : Z) :
  List.In (n, t, o) (layout off tes) ->
  off <= o /\ o + round8 (byteLength t.(bytes)) <= off + data_size tes.
Proof.
  revert off. induction tes as [|[n0 t0] r IH]; intros off; simpl; [tauto|].
  pose proof (data_size_nonneg r).
  pose proof (round8_bounds (byteLength (bytes t0))).
  assert (0 <= byteLength (bytes t0)) by (unfold byteLength; lia).
  intros [Heq|Hin].
  - inversion Heq; subst. lia.
  - apply IH in Hin. lia.
Qed.

Lemma layout_separated (tes : list (string * TensorRef)) (off : Z)
    (n n' : string) (t t' : TensorRef) (o o' : Z) :
  List.In (n, t, o) (layout off tes) ->
  List.In (n', t', o') (layout off tes) ->
  (n, t, o) = (n', t', o')
  \/ o + round8 (byteLength t.(bytes)) <= o'
  \/ o' + round8 (byteLength t'.(bytes)) <= o.
Proof.
  revert off. induction tes as [|[n0 t0] r IH]; intros off; simpl; [tauto|].
  intros [Heq|Hin] [Heq'|Hin'].
  - left. congruence.
  - inversion Heq; subst. apply layout_bounds in Hin'. right. left. lia.
  - inversion Heq'; subst. apply layout_bounds in Hin. right. right. lia.
  - eapply IH; eauto.
Qed.

Lemma flags_separated (o len o' len' : Z) :
  0 < len -> 0 < len' -> o + len <= o' ->
  flags (o, o + len) (o', o' + len') = false
  /\ flags (o', o' + len') (o, o + len) = false.
Proof.
  intros H1 H2 H3. unfold flags. cbn [fst snd]. split.
  - apply orb_false_iff. split; apply andb_false_iff.
    + right. apply Z.leb_gt. lia.
    + right. apply Z.ltb_ge. lia.
  - apply orb_false_iff. split; apply andb_false_iff.
    + left. apply Z.ltb_ge. lia.
    + left. apply Z.leb_gt. lia.
Qed.

Lemma header_base_get (tm : TensorMap) (k : string) (v : json) :
  assoc_get (header_base tm) k = Some v ->
  k = "__metadata__"%string /\ v = JObj (metadata_object tm.(metadata)).
Proof.
  unfold header_base. destruct (metadata tm); cbn [assoc_get];
    [discriminate|].
  destruct (String.eqb "__metadata__" k) eqn:E; [|discriminate].
  apply String.eqb_eq in E. intros H. inversion H. now subst.
Qed.

(** The entries of the header object of an encodable container. *)
Lemma header_of_In (h : heap) (tm : TensorMap)
    (tes : list (string * TensorRef)) (k : string) (v : json) :
  encodable h tm tes ->
  List.In (k, v) (header_of tm tes) ->
  (k = "__metadata__"%string /\ v = JObj (metadata_object tm.(metadata)))
  \/ (exists t o, List.In (k, t, o) (layout 0 tes) /\ v = entry_of t o).
Proof.
  intros Henc Hin.
  destruct (header_of_plain h tm tes Henc) as (Hord & _).
  pose proof (unique_keys_get _ _ _ (js_ordered_unique _ Hord) Hin) as Hget.
  unfold header_of in Hget.
  assert (Hu : unique_keys (header_entries (layout 0 tes))).
  { eapply unique_keys_same_keys; [|exact (encodable_unique_tes _ _ _ Henc)].
    symmetry. apply layout_keys. }
  rewrite assoc_get_define_all in Hget by assumption.
  destruct (assoc_get (header_entries (layout 0 tes)) k) as [e|] eqn:E.
  - inversion Hget; subst. right.
    apply header_entries_In_inv. now apply assoc_get_In.
  - left. now apply header_base_get.
Qed.

Lemma tensor_ok_fields (n : string) (t : TensorRef) :
  tensor_ok (n, t) = true ->
  n <> "__metadata__"%string /\ n <> "__proto__"%string
  /\ t.(format) <> EmptyString
  /\ forallb is_number t.(shape) = true.
Proof.
  unfold tensor_ok. cbn [fst snd]. intros H.
  repeat (apply andb_true_iff in H as [H ?]).
  repeat match goal with
         | H : negb _ = true |- _ => apply negb_true_iff, String.eqb_neq in H
         end.
  repeat split; assumption.
Qed.

Lemma layout_In_holds_bytes (tes : list (string * TensorRef)) (off : Z)
    (n : string) (t : TensorRef) (o : Z) :
  forallb holds_bytes tes = true ->
  List.In (n, t, o) (layout off tes) -> 0 < byteLength t.(bytes).
Proof.
  revert off. induction tes as [|[n0 t0] r IH]; intros off Hall Hin;
    [destruct Hin|].
  cbn [forallb] in Hall. apply andb_true_iff in Hall as [H0 Hr].
  destruct Hin as [E|Hin]; [|now apply (IH _ Hr Hin)].
  inversion E; subst. unfold holds_bytes in H0. cbn [snd] in H0.
  now apply Z.ltb_lt.
Qed.

Lemma header_of_valid (h : heap) (tm : TensorMap)
    (tes : list (string * TensorRef)) :
  encodable h tm tes ->
  Forall (valid_entry (data_size tes)) (header_of tm tes).
Proof.
  intros Henc. apply Forall_In_assoc. intros k v Hin.
  destruct (header_of_In h tm tes k v Henc Hin)
    as [(-> & ->)|(t & o & Hl & ->)].
  - left. split; [reflexivity|]. eexists. split; [reflexivity|].
    apply (metadata_object_plain _ (enc_metadata _ _ _ Henc)).
  - right. pose proof (layout_In_ok _ _ _ _ _ (enc_tensors _ _ _ Henc) Hl)
      as Hok.
    destruct (tensor_ok_fields _ _ Hok) as (Hm & _ & _ & Hshape).
    split; [exact Hm|]. exists t, o. split; [reflexivity|].
    split; [assumption|].
    apply layout_bounds in Hl.
    pose proof (round8_bounds (byteLength (bytes t))). lia.
Qed.

(** The strict validator accepts the header of a container whose tensors
    all hold bytes. *)
Lemma sanityCheckTensorsParsed_header (h : heap) (tm : TensorMap)
    (tes : list (string * TensorRef)) :
  encodable h tm tes ->
  forallb holds_bytes tes = true ->
  sanityCheckTensorsParsed false (JObj (header_of tm tes)) (data_size tes)
  = Ok tt.
Proof.
  intros Henc Hbytes. unfold sanityCheckTensorsParsed. cbn [Object_entries bind].
  destruct (header_of_plain h tm tes Henc) as (Hord & _).
  destruct (sanityCheckTensorsParsed_loop_ok (data_size tes)
              (header_of tm tes) []) as (cov & ->).
  - now apply header_of_valid with (h := h).
  - now apply js_ordered_unique.
  - intros k v k' v' r r' Hin Hin' Hne Hk Hk' Hr Hr'.
    destruct (header_of_In h tm tes k v Henc Hin)
      as [(-> & _)|(t & o & Hl & ->)]; [congruence|].
    destruct (header_of_In h tm tes k' v' Henc Hin')
      as [(-> & _)|(t' & o' & Hl' & ->)]; [congruence|].
    rewrite entry_range_entry_of in Hr, Hr'.
    inversion Hr; inversion Hr'; subst.
    pose proof (layout_In_holds_bytes _ _ _ _ _ Hbytes Hl) as Hlen.
    pose proof (layout_In_holds_bytes _ _ _ _ _ Hbytes Hl') as Hlen'.
    pose proof (round8_bounds (byteLength (bytes t))).
    pose proof (round8_bounds (byteLength (bytes t'))).
    destruct (layout_separated _ _ _ _ _ _ _ _ Hl Hl') as [Heq|[Hs|Hs]].
    + inversion Heq. congruence.
    + apply (flags_separated o (byteLength (bytes t)) o'
               (byteLength (bytes t'))); lia.
    + apply (flags_separated o' (byteLength (bytes t')) o
               (byteLength (bytes t))); lia.
  - intros c k v r [].
  - reflexivity.
Qed.

(** *** Population of the container *)

Lemma addTensor_bytes_spec (h : heap) (this : loc) (m : TensorMap)
    (name : string) (b : Bytes) (fmt : Format) (shp : Shape) :
  h.(tensorMaps) !! this = Some m ->
  Map_get m.(refs) name = None ->
  fmt <> EmptyString ->
  TensorMap.addTensor this name (AsBytes b) (Some fmt) (Some shp) h
  = (Ok h.(next),
     mkHeap (<[h.(next) := mkTensorRef name b fmt shp (Some this)]>
               h.(tensorRefs))
            (<[this := set_refs m (m.(refs) ++ [(name, h.(next))])]>
               h.(tensorMaps))
            (Pos.succ h.(next))).
Proof.
  intros Hm Hfresh Hfmt. unfold TensorMap.addTensor.
  repeat store_step. rewrite Hfresh.
  apply String.eqb_neq in Hfmt. rewrite Hfmt.
  unfold bindM at 1, alloc_ref at 1.
  unfold TensorMap._setTensor.
  repeat store_step. cbn [_parent]. repeat store_step.
  unfold ret. cbn [tensorRefs tensorMaps next].
  rewrite insert_insert_eq.
  unfold Map_set. unfold Map_get in Hfresh. rewrite Hfresh.
  reflexivity.
Qed.

Lemma tensor_entry_entry_of (t : TensorRef) (o : Z) :
  tensor_entry (entry_of t o)
  = Ok (t.(format), t.(shape), o, o + byteLength t.(bytes)).
Proof. reflexivity. Qed.


Lemma parseSafeTensors_loop_forward (b : Bytes) (hdrsize : Z) (ret_ : loc)
    (es : list (string * json)) :
  forall (h : heap) (m : TensorMap),
    h.(tensorMaps) !! ret_ = Some m ->
    Forall decodable_entry es ->
    unique_keys es ->
    (forall k v, List.In (k, v) es -> Map_get m.(refs) k = None) ->
    exists (h' : heap) (m' : TensorMap),
      parseSafeTensors_loop b hdrsize ret_ es h = (Ok tt, h')
      /\ h'.(tensorMaps) !! ret_ = Some m'
      /\ assoc_keys m'.(refs) = assoc_keys m.(refs) ++ tensor_keys es
      /\ (forall n l, Map_get m.(refs) n = Some l ->
                      Map_get m'.(refs) n = Some l)
      /\ (forall l, (l < h.(next))%positive ->
                    h'.(tensorRefs) !! l = h.(tensorRefs) !! l)
      /\ (h.(next) <= h'.(next))%positive
      /\ (forall n t o,
             List.In (n, entry_of t o) es -> n <> "__metadata__"%string ->
             exists l t',
               Map_get m'.(refs) n = Some l
               /\ h'.(tensorRefs) !! l = Some t'
               /\ t'.(format) = t.(format)
               /\ t'.(shape) = t.(shape)
               /\ t'.(bytes)
                  = slice b (8 + hdrsize + o)
                      (8 + hdrsize + (o + byteLength t.(bytes))))
      /\ m'.(metadata)
         = match assoc_get es "__metadata__" with
           | Some (JObj md) => Map_of_entries md
           | _ => m.(metadata)
           end.
Proof.
  induction es as [|[k v] es IH]; intros h m Hm Hdec Huniq Hfresh.
  - exists h, m. cbn [parseSafeTensors_loop tensor_keys assoc_get].
    rewrite app_nil_r. repeat split; auto; try lia.
    intros n t o [].
  - inversion Hdec as [|? ? Hkv Hes]; subst.
    destruct Huniq as (Hk_fresh & Huniq).
    cbn [parseSafeTensors_loop].
    destruct Hkv as [(Hk & md & Hv)|(Hk & t & o & Hv & Hfmt)];
      cbn [fst snd] in *; subst.
    + (* the metadata *)
      rewrite String.eqb_refl.
      unfold bindM at 1. unfold bindM at 1. unfold lift at 1.
      cbn [Object_entries].
      unfold TensorMap.setAllMetadata.
      erewrite bindM_get_map by exact Hm. unfold set_map at 1.
      set (h1 := mkHeap _ _ _).
      destruct (IH h1 (mkTensorMap m.(refs) (Map_of_entries md)))
        as (h' & m' & Hloop & Hm' & Hkeys & Hold & Hframe & Hnext & Hnew
            & Hmeta); try assumption.
      * unfold h1. cbn [tensorMaps]. apply lookup_insert_eq.
      * intros k1 v1 H1. cbn [refs]. apply (Hfresh k1 v1). now right.
      * exists h', m'. cbn [tensor_keys assoc_get].
        rewrite String.eqb_refl.
        split; [exact Hloop|]. split; [exact Hm'|].
        split; [exact Hkeys|]. split; [exact Hold|].
        split; [exact Hframe|]. split; [exact Hnext|].
        split.
        -- intros n t o [Heq|Hin] Hn; [inversion Heq; congruence|].
           now apply Hnew.
        -- rewrite Hmeta. cbn [metadata].
           unfold Map_get in Hk_fresh. now rewrite Hk_fresh.
    + (* a tensor *)
      pose proof Hk as Hk'. apply String.eqb_neq in Hk'. rewrite Hk'.
      unfold bindM at 1. unfold bindM at 1. unfold lift at 1.
      rewrite tensor_entry_entry_of.
      unfold bindM at 1.
      rewrite (addTensor_bytes_spec h ret_ m); try assumption;
        [|apply (Hfresh k (entry_of t o)); now left].
      unfold ret at 1.
      set (h1 := mkHeap _ _ _).
      set (m1 := set_refs m (refs m ++ [(k, next h)])).
      destruct (IH h1 m1)
        as (h' & m' & Hloop & Hm' & Hkeys & Hold & Hframe & Hnext & Hnew
            & Hmeta); try assumption.
      * unfold h1. cbn [tensorMaps]. apply lookup_insert_eq.
      * intros k1 v1 H1. unfold m1, set_refs. cbn [refs]. unfold Map_get.
        rewrite assoc_get_app.
        assert (Hf := Hfresh k1 v1 (or_intror H1)). unfold Map_get in Hf.
        rewrite Hf. cbn [assoc_get].
        destruct (String.eqb k k1) eqn:E; [|reflexivity].
        apply String.eqb_eq in E. subst.
        exfalso. exact (assoc_get_None_In es k1 v1 Hk_fresh H1).
      * assert (Hk_new : Map_get m'.(refs) k = Some (next h)).
        { apply Hold. unfold m1, set_refs, Map_get. cbn [refs].
          rewrite assoc_get_app.
          assert (Hf := Hfresh k (entry_of t o) (or_introl eq_refl)).
          unfold Map_get in Hf. rewrite Hf. cbn [assoc_get].
          now rewrite String.eqb_refl. }
        exists h', m'. cbn [tensor_keys assoc_get]. rewrite Hk'.
        split; [exact Hloop|]. split; [exact Hm'|].
        split.
        { rewrite Hkeys. unfold m1, set_refs. cbn [refs].
          rewrite assoc_keys_app. cbn. now rewrite <- app_assoc. }
        split.
        { intros n l Hn. apply Hold. unfold m1, set_refs, Map_get. cbn [refs].
          rewrite assoc_get_app. unfold Map_get in Hn. now rewrite Hn. }
        split.
        { intros l Hl. rewrite Hframe by (unfold h1; cbn [next]; lia).
          unfold h1. cbn [tensorRefs]. apply lookup_insert_ne. lia. }
        split.
        { unfold h1 in Hnext. cbn [next] in Hnext. lia. }
        split.
        { intros n t0 o0 [Heq|Hin] Hn.
          - inversion Heq as [[Hn0 He]]. subst n.
            exists (next h), (mkTensorRef k
                                (slice b (8 + hdrsize + o)
                                   (8 + hdrsize + (o + byteLength (bytes t))))
                                (format t) (shape t) (Some ret_)).
            split; [exact Hk_new|]. split.
            + rewrite Hframe by (unfold h1; cbn [next]; lia).
              unfold h1. cbn [tensorRefs]. apply lookup_insert_eq.
            + unfold entry_of in He. inversion He. cbn.
              repeat split; congruence.
          - now apply Hnew. }
        exact Hmeta.
Qed.

(** *** The round trip *)

Lemma entries_of_resolved (h : heap) (rs : list (string * loc))
    (tes : list (string * TensorRef)) (n : string) (l : loc) :
  TensorSaver.entries_of h rs = Ok tes ->
  assoc_get rs n = Some l ->
  exists t, h.(tensorRefs) !! l = Some t /\ assoc_get tes n = Some t.
Proof.
  revert tes. induction rs as [|[n0 l0] rs IH]; intros tes; simpl;
    [discriminate|].
  destruct (tensorRefs h !! l0) as [t0|] eqn:Hl; [|discriminate].
  destruct (TensorSaver.entries_of h rs) as [rest|]; [|discriminate].
  simpl. intros H. inversion H; subst. simpl.
  destruct (String.eqb n0 n).
  - intros Heq. inversion Heq; subst. eauto.
  - now apply IH.
Qed.

Lemma layout_In_split (tes : list (string * TensorRef)) (off : Z)
    (n : string) (t : TensorRef) (o : Z) :
  List.In (n, t, o) (layout off tes) ->
  exists pre post, tes = pre ++ (n, t) :: post /\ o = off + data_size pre.
Proof.
  revert off. induction tes as [|[n0 t0] r IH]; intros off; simpl; [tauto|].
  intros [Heq|Hin].
  - inversion Heq; subst. exists [], r. split; [reflexivity|]. simpl. lia.
  - destruct (IH _ Hin) as (pre & post & -> & ->).
    exists ((n0, t0) :: pre), post. split; [reflexivity|]. simpl. lia.
Qed.

Lemma layout_In_tes (tes : list (string * TensorRef)) (off : Z)
    (n : string) (t : TensorRef) :
  List.In (n, t) tes -> exists o, List.In (n, t, o) (layout off tes).
Proof.
  revert off. induction tes as [|[n0 t0] r IH]; intros off; simpl; [tauto|].
  intros [Heq|Hin].
  - inversion Heq; subst. eexists. now left.
  - destruct (IH (off + round8 (byteLength (bytes t0))) Hin) as (o & Ho).
    exists o. now right.
Qed.

Lemma layout_In_inv (tes : list (string * TensorRef)) (off : Z)
    (n : string) (t : TensorRef) (o : Z) :
  List.In (n, t, o) (layout off tes) -> List.In (n, t) tes.
Proof.
  revert off. induction tes as [|[n0 t0] r IH]; intros off; simpl; [tauto|].
  intros [Heq|Hin]; [inversion Heq; now left|right; eauto].
Qed.

Lemma tensor_keys_In (es : list (string * json)) (n : string) :
  List.In n (tensor_keys es) ->
  n <> "__metadata__"%string /\ exists v, List.In (n, v) es.
Proof.
  induction es as [|[k v] es IH]; simpl; [tauto|].
  destruct (String.eqb k "__metadata__") eqn:E.
  - intros H. destruct (IH H) as (Hn & v' & Hin). split; [assumption|].
    exists v'. now right.
  - apply String.eqb_neq in E. intros [->|H].
    + split; [assumption|]. exists v. now left.
    + destruct (IH H) as (Hn & v' & Hin). split; [assumption|].
      exists v'. now right.
Qed.

Lemma assoc_get_Some_keys {V : Type} (l : list (string * V)) (k : string)
    (v : V) :
  assoc_get l k = Some v -> List.In k (assoc_keys l).
Proof.
  intros H. apply assoc_get_In in H.
  apply (List.in_map fst l (k, v) H).
Qed.

Lemma assoc_get_None_not_keys {V : Type} (l : list (string * V))
    (k : string) :
  assoc_get l k = None -> ~ List.In k (assoc_keys l).
Proof.
  intros H Hin. apply List.in_map_iff in Hin as ([k' v] & Heq & Hin).
  simpl in Heq. subst. exact (assoc_get_None_In l k v H Hin).
Qed.

Lemma header_of_meta_get (h : heap) (tm : TensorMap)
    (tes : list (string * TensorRef)) :
  encodable h tm tes ->
  assoc_get (header_of tm tes) "__metadata__"
  = assoc_get (header_base tm) "__metadata__".
Proof.
  intros Henc. unfold header_of.
  assert (Hu : unique_keys (header_entries (layout 0 tes))).
  { eapply unique_keys_same_keys; [|exact (encodable_unique_tes _ _ _ Henc)].
    symmetry. apply layout_keys. }
  rewrite assoc_get_define_all by assumption.
  destruct (assoc_get (header_entries (layout 0 tes)) "__metadata__")
    as [e|] eqn:E; [|reflexivity].
  apply assoc_get_In, header_entries_In_inv in E.
  destruct E as (t & o & Hin & _).
  pose proof (layout_In_ok _ _ _ _ _ (enc_tensors _ _ _ Henc) Hin) as Hok.
  destruct (tensor_ok_fields _ _ Hok) as (Hm & _). congruence.
Qed.

Lemma header_of_decodable (h : heap) (tm : TensorMap)
    (tes : list (string * TensorRef)) :
  encodable h tm tes -> Forall decodable_entry (header_of tm tes).
Proof.
  intros Henc. apply Forall_In_assoc. intros k v Hin.
  destruct (header_of_In h tm tes k v Henc Hin)
    as [(-> & ->)|(t & o & Hl & ->)].
  - left. split; [reflexivity|]. now eexists.
  - right. pose proof (layout_In_ok _ _ _ _ _ (enc_tensors _ _ _ Henc) Hl)
      as Hok.
    destruct (tensor_ok_fields _ _ Hok) as (Hm & _ & Hfmt & _).
    split; [exact Hm|]. now exists t, o.
Qed.

(** The decoder on the archive of a container the encoder handles: it
    reads the header back, and goes on to populate a new container when
    the strict validator accepts that header. *)
Lemma parseSafeTensors_archive_run (h h0 : heap) (tm : TensorMap)
    (tes : list (string * TensorRef)) :
  encodable h tm tes ->
  let text := JSON_stringify (JObj (header_of tm tes)) in
  let b := archive_of text tes in
  let h1 := mkHeap h0.(tensorRefs)
              (<[h0.(next) := mkTensorMap [] []]> h0.(tensorMaps))
              (Pos.succ h0.(next)) in
  parseSafeTensors b false h0
  = match sanityCheckTensorsParsed false (JObj (header_of tm tes))
            (data_size tes) with
    | Ok _ =>
        bindM (parseSafeTensors_loop b
                 (round8 (Z.of_nat (String.length text))) h0.(next)
                 (header_of tm tes))
          (fun _ => ret h0.(next)) h1
    | Throw e => (Throw e, h1)
    end.
Proof.
  intros Henc text b h1.
  destruct (JSON_stringify_obj_head (header_of tm tes)) as (r & Hr).
  pose proof (enc_header _ _ _ Henc) as Hlen. fold text in Hr, Hlen.
  set (len := Z.of_nat (String.length text)) in *.
  destruct (sanityCheckTensorsHeader_archive text r tes Hr Hlen)
    as (Hcheck & Hsize). fold b in Hcheck, Hsize. fold len in Hcheck, Hsize.
  destruct (header_text_parses h tm tes (Z.to_nat (round8 len - len)) Henc)
    as (Hasc & Hparse). fold text in Hasc, Hparse.
  unfold parseSafeTensors. rewrite Hsize.
  unfold bindM at 1, lift at 1. rewrite Hcheck.
  unfold bindM at 1, TensorMap.new at 1, alloc_map at 1. fold h1.
  unfold bindM at 1, lift at 1.
  unfold b at 1. rewrite header_slice. fold len.
  assert (Hdec : TextDecoder_decode
                   (text_bytes (text +:+ spaces (Z.to_nat (round8 len - len))))
                 = Ok (text +:+ spaces (Z.to_nat (round8 len - len)))).
  { rewrite Hr, append_cons. apply TextDecoder_decode_text; [reflexivity|].
    rewrite <- append_cons, <- Hr.
    apply is_utf8_append; [exact Hasc|].
    apply is_utf8_ascii, is_ascii_spaces. }
  rewrite Hdec.
  unfold bindM at 1, lift at 1. rewrite Hparse.
  unfold bindM at 1, lift at 1.
  unfold b at 1. rewrite archive_length. fold len.
  replace (8 + round8 len + data_size tes - 8 - round8 len)
    with (data_size tes) by lia.
  destruct (sanityCheckTensorsParsed false (JObj (header_of tm tes))
              (data_size tes)) as [[]|e]; [|reflexivity].
  unfold bindM at 1, lift at 1. cbn [Object_entries]. reflexivity.
Qed.

(** What decoding the archive of such a container yields when the strict
    validator accepts its header: a new container whose tensors and
    metadata are described by the header. *)
Lemma parseSafeTensors_archive (h h0 : heap) (tm : TensorMap)
    (tes : list (string * TensorRef)) :
  encodable h tm tes ->
  sanityCheckTensorsParsed false (JObj (header_of tm tes)) (data_size tes)
  = Ok tt ->
  let text := JSON_stringify (JObj (header_of tm tes)) in
  let b := archive_of text tes in
  exists (h' : heap) (m' : TensorMap),
    parseSafeTensors b false h0 = (Ok h0.(next), h')
    /\ h'.(tensorMaps) !! h0.(next) = Some m'
    /\ assoc_keys m'.(refs) = tensor_keys (header_of tm tes)
    /\ (forall n t o,
           List.In (n, t, o) (layout 0 tes) ->
           exists l t',
             Map_get m'.(refs) n = Some l
             /\ h'.(tensorRefs) !! l = Some t'
             /\ t'.(format) = t.(format)
             /\ t'.(shape) = t.(shape)
             /\ t'.(bytes) = t.(bytes))
    /\ m'.(metadata) = metadata_object tm.(metadata).
Proof.
  intros Henc Hvalid text b.
  pose proof (parseSafeTensors_archive_run h h0 tm tes Henc) as Hrun.
  cbv zeta in Hrun. fold text in Hrun. fold b in Hrun.
  rewrite Hvalid in Hrun. rewrite Hrun. clear Hrun.
  set (len := Z.of_nat (String.length text)) in *.
  set (h1 := mkHeap _ _ _).
  destruct (header_of_plain h tm tes Henc) as (Hord & _).
  destruct (parseSafeTensors_loop_forward b (round8 len) (next h0)
              (header_of tm tes) h1 (mkTensorMap [] []))
    as (h' & m' & Hloop & Hm' & Hkeys & _ & _ & _ & Hnew & Hmeta).
  - unfold h1. cbn [tensorMaps]. apply lookup_insert_eq.
  - now apply header_of_decodable with (h := h).
  - now apply js_ordered_unique.
  - reflexivity.
  - exists h', m'. unfold bindM at 1. rewrite Hloop. unfold ret.
    split; [reflexivity|]. split; [exact Hm'|].
    split; [exact Hkeys|]. split.
    + intros n t o Hin.
      pose proof (layout_In_ok _ _ _ _ _ (enc_tensors _ _ _ Henc) Hin) as Hok.
      destruct (tensor_ok_fields _ _ Hok) as (Hm & _).
      assert (Hhdr : List.In (n, entry_of t o) (header_of tm tes)).
      { apply assoc_get_In. now apply header_of_get with (h := h). }
      destruct (Hnew n t o Hhdr Hm) as (l & t' & Hl & Ht' & Hf & Hs & Hb).
      exists l, t'. repeat split; try assumption.
      rewrite Hb. destruct (layout_In_split _ _ _ _ _ Hin)
        as (pre & post & Htes & Ho).
      unfold b. rewrite Htes, Ho. fold len.
      replace (8 + round8 len + (0 + data_size pre))
        with (8 + round8 len + data_size pre) by lia.
      replace (8 + round8 len + (0 + data_size pre + byteLength (bytes t)))
        with (8 + round8 len + (data_size pre + byteLength (bytes t)))
        by lia.
      rewrite <- Htes. rewrite Htes at 1. apply tensor_slice.
    + rewrite Hmeta. rewrite (header_of_meta_get h tm tes Henc).
      unfold header_base. cbn [metadata].
      destruct (metadata tm) eqn:E.
      * reflexivity.
      * cbn [assoc_get]. rewrite String.eqb_refl.
        apply Map_of_entries_unique, js_ordered_unique.
        apply (metadata_object_plain (p :: l)).
        rewrite <- E. exact (enc_metadata _ _ _ Henc).
Qed.

(* ===================================================================== *)
(** ** The element-size resolver *)
(* ===================================================================== *)

(** C5.  [formatLength] does not reject a bit width of zero: the tag [F0]
    has digits, zero is not a power of two, and the call returns 0 bytes
    instead of failing. *)
Theorem formatLength_accepts_zero_width :
  match_digits "F0" = Some "0"%string /\ formatLength "F0" = Ok (0 # 8)%Q.
Proof. split; reflexivity. Qed.

(** The bit width is reduced to 32 bits before the test: 2^32 + 16 is not
    a power of two and is resolved as 16 bits, and 2^31 yields a negative
    size. *)
Lemma formatLength_wraps :
  formatLength "F4294967312" = Ok (16 # 8)%Q
  /\ formatLength "F2147483648" = Ok (-2147483648 # 8)%Q.
Proof. split; vm_compute; reflexivity. Qed.

Lemma formatLength_examples :
  formatLength "BF16" = Ok (16 # 8)%Q
  /\ formatLength "F4" = Ok (4 # 8)%Q
  /\ formatLength "F12" = Throw (Error (FormatNotPowerOfTwo "F12"))
  /\ formatLength "BOOL" = Throw (Error (FormatWithoutBitSize "BOOL")).
Proof. repeat split; vm_compute; reflexivity. Qed.

(* ===================================================================== *)
(** ** The raw-header check *)
(* ===================================================================== *)

(** C4.  The length field 00 00 00 80 holds 2^31, far above 100 MiB; the
    check reads it as the negative number -2^31, raises nothing with
    leniency disabled and returns that negative value. *)
Theorem sanityCheckTensorsHeader_negative_length :
  map byte_val (slice huge_length_prefix 4 9) = [0; 0; 0; 0; 123]
  /\ unsafeGetHeaderSize huge_length_prefix = -2147483648
  /\ sanityCheckTensorsHeader false huge_length_prefix 9 = Ok (-2147483648).
Proof. repeat split; vm_compute; reflexivity. Qed.

(* ===================================================================== *)
(** ** The parsed-structure check *)
(* ===================================================================== *)

(** C3.  The ranges 4 .. 8 and 0 .. 12 share the bytes 4 to 7, and the
    header is accepted with leniency disabled: a range that strictly
    contains an earlier one passes both tests of [checkTensorOverlap]. *)
Theorem sanityCheckTensorsParsed_accepts_nested_ranges :
  ranges_intersect (4, 8) (0, 12)
  /\ sanityCheckTensorsParsed false nested_ranges_header 12 = Ok tt.
Proof.
  split.
  - exists 4. simpl. lia.
  - vm_compute. reflexivity.
Qed.


(* ===================================================================== *)
(** ** The entity model *)
(* ===================================================================== *)

(** C7.  [getOrMakeTensor] stores the tensor its factory made without
    setting the back-reference: the tensor is in the mapping of the map and
    its parent is absent, so the invariant fails after the call. *)
Theorem getOrMakeTensor_leaves_parent_unset :
  exists (h : heap) (m : TensorMap) (tr : TensorRef),
    getOrMake_scenario empty_heap = (Ok 2%positive, h)
    /\ h.(tensorMaps) !! 1%positive = Some m
    /\ Map_get m.(refs) "a" = Some 2%positive
    /\ h.(tensorRefs) !! 2%positive = Some tr
    /\ tr.(_parent) = None
    /\ ~ parent_invariant h 1%positive.
Proof.
  eexists _, _, _.
  split; [vm_compute; reflexivity|].
  split; [vm_compute; reflexivity|].
  split; [vm_compute; reflexivity|].
  split; [vm_compute; reflexivity|].
  split; [reflexivity|].
  intros Hinv.
  destruct (Hinv (mkTensorMap [("a", 2%positive)] []) "a"%string 2%positive)
    as (tr & Htr & Hpar).
  - vm_compute. reflexivity.
  - reflexivity.
  - vm_compute in Htr. inversion Htr; subst. discriminate Hpar.
Qed.

(** The sibling path: [addTensor] with an existing tensor sets the
    back-reference. *)
Lemma addTensor_sets_parent (h h' : heap) (c t : loc) (n : string) :
  TensorMap.addTensor c n (AsTensorRef t) None None h = (Ok t, h') ->
  exists tr, h'.(tensorRefs) !! t = Some tr /\ tr.(_parent) = Some c.
Proof.
  unfold TensorMap.addTensor.
  destruct (tensorMaps h !! c) as [m|] eqn:Hm;
    [|unfold bindM, get_map; rewrite Hm; discriminate].
  repeat store_step.
  destruct (Map_get (refs m) n); [discriminate|].
  unfold TensorMap._setTensor.
  destruct (tensorRefs h !! t) as [tr|] eqn:Ht;
    [|unfold bindM, get_ref; rewrite Ht; discriminate].
  repeat store_step.
  destruct (_parent tr) as [p|].
  - destruct (Pos.eqb p c); simpl.
    + repeat store_step. unfold ret. intros H. inversion H; subst; simpl.
      rewrite lookup_insert_eq. eauto.
    + repeat store_step. discriminate.
  - repeat store_step. unfold ret. intros H. inversion H; subst; simpl.
    rewrite lookup_insert_eq. eauto.
Qed.

(** C9, as stated, fails when the name is taken: [addTensor] throws and
    stores nothing. *)
Lemma add_then_remove_counterexample :
  ~ (forall (h : heap) (c t : loc) (n : string) (m : TensorMap)
            (tr : TensorRef),
        h.(tensorMaps) !! c = Some m ->
        h.(tensorRefs) !! t = Some tr ->
        tr.(_parent) = None ->
        tr.(_name) <> n ->
        add_then_remove_keeps_entry h c t n).
Proof.
  intros H.
  destruct (occupied_name_scenario empty_heap) as [r h0] eqn:E.
  vm_compute in E. inversion E as [[Hr Hh]]. clear E.
  destruct (H h0 1%positive 3%positive "n"%string
              (mkTensorMap [("n", 2%positive)] [])
              (mkTensorRef "x" [x02] "U8" [JNum 1] None))
    as (h1 & h2 & tr0 & tr1 & tr2 & m1 & m2 & _ & Hadd & _).
  - subst h0. vm_compute. reflexivity.
  - subst h0. vm_compute. reflexivity.
  - reflexivity.
  - discriminate.
  - subst h0. vm_compute in Hadd. discriminate Hadd.
Qed.

(** C9, amended: for a name that is not yet a key of the map. *)
Theorem add_then_remove_keeps_entry_fresh
    (h : heap) (c t : loc) (n : string) (m : TensorMap) (tr : TensorRef) :
  h.(tensorMaps) !! c = Some m ->
  h.(tensorRefs) !! t = Some tr ->
  tr.(_parent) = None ->
  tr.(_name) <> n ->
  Map_get m.(refs) n = None ->
  add_then_remove_keeps_entry h c t n.
Proof.
  intros Hm Ht Hpar Hne Hfresh.
  unfold add_then_remove_keeps_entry.
  eexists _, _, tr, _, _, _, _.
  split; [exact Ht|].
  split.
  { unfold TensorMap.addTensor. repeat store_step. rewrite Hfresh.
    unfold TensorMap._setTensor. repeat store_step. rewrite Hpar.
    repeat store_step. reflexivity. }
  simpl. split; [apply lookup_insert_eq|].
  split; [apply lookup_insert_eq|].
  split; [apply Map_get_set_eq|].
  split; [reflexivity|].
  split.
  { unfold TensorMap.removeTensor. repeat store_step. simpl.
    rewrite Map_get_set_eq. repeat store_step. simpl.
    rewrite Pos.eqb_refl. simpl. repeat store_step.
    unfold set_map. simpl. reflexivity. }
  simpl. split; [apply lookup_insert_eq|].
  split; [reflexivity|].
  split; [apply lookup_insert_eq|].
  split; [reflexivity|].
  unfold TensorMap.getTensor. repeat store_step. simpl.
  rewrite Map_get_delete_ne by assumption.
  rewrite Map_get_set_eq. reflexivity.
Qed.

Lemma add_then_remove_keeps_entry_fresh_witness :
  fresh_pair_heap.(tensorMaps) !! 1%positive = Some (mkTensorMap [] [])
  /\ fresh_pair_heap.(tensorRefs) !! 2%positive
     = Some (mkTensorRef "x" [x01] "U8" [JNum 1] None)
  /\ add_then_remove_keeps_entry fresh_pair_heap 1%positive 2%positive "y".
Proof.
  split; [vm_compute; reflexivity|].
  split; [vm_compute; reflexivity|].
  apply (add_then_remove_keeps_entry_fresh fresh_pair_heap 1%positive
           2%positive "y" (mkTensorMap [] [])
           (mkTensorRef "x" [x01] "U8" [JNum 1] None)).
  - vm_compute; reflexivity.
  - vm_compute; reflexivity.
  - reflexivity.
  - simpl; discriminate.
  - reflexivity.
Defined.

(** C10, as stated, fails for a tensor held under a key that is not its
    name: the assignment goes through and adds a second entry. *)
Lemma rename_to_own_name_counterexample :
  ~ (forall (h : heap) (c t : loc),
        owned_by h t c -> rename_to_own_name_throws h t).
Proof.
  intros H.
  destruct (renamed_key_scenario empty_heap) as [r h0] eqn:E.
  vm_compute in E. inversion E as [[Hr Hh]]. clear E.
  destruct (H h0 1%positive 2%positive) as (tr & Htr & Hset).
  - exists (mkTensorRef "x" [x01] "U8" [JNum 1] (Some 1%positive)),
      (mkTensorMap [("y", 2%positive)] []), "y"%string.
    subst h0. repeat split; vm_compute; reflexivity.
  - subst h0. vm_compute in Htr. inversion Htr; subst tr.
    vm_compute in Hset. discriminate Hset.
Qed.

(** C10, amended: when the map has an entry under the current name of the
    tensor. *)
Theorem rename_to_own_name_collides
    (h : heap) (c t : loc) (tr : TensorRef) (m : TensorMap) :
  owned_by h t c ->
  h.(tensorRefs) !! t = Some tr ->
  h.(tensorMaps) !! c = Some m ->
  Map_get m.(refs) tr.(_name) <> None ->
  rename_to_own_name_throws h t.
Proof.
  intros (tr' & m' & k & Ht' & Hpar & Hm' & _) Ht Hm Hentry.
  assert (tr' = tr) by congruence. subst tr'.
  exists tr. split; [assumption|].
  unfold TensorRef.set_name. repeat store_step. rewrite Hpar.
  repeat store_step.
  destruct (Map_get (refs m) (_name tr)); [|congruence].
  reflexivity.
Qed.

Lemma rename_to_own_name_collides_witness :
  owned_by own_name_heap 2%positive 1%positive
  /\ rename_to_own_name_throws own_name_heap 2%positive.
Proof.
  assert (Hown : owned_by own_name_heap 2%positive 1%positive).
  { exists (mkTensorRef "x" [x01] "U8" [JNum 1] (Some 1%positive)),
      (mkTensorMap [("x", 2%positive)] []), "x"%string.
    repeat split; vm_compute; reflexivity. }
  split; [exact Hown|].
  apply (rename_to_own_name_collides own_name_heap 1%positive 2%positive
           (mkTensorRef "x" [x01] "U8" [JNum 1] (Some 1%positive))
           (mkTensorMap [("x", 2%positive)] [])).
  - exact Hown.
  - vm_compute; reflexivity.
  - vm_compute; reflexivity.
  - vm_compute; discriminate.
Defined.

(* ===================================================================== *)
(** ** Offset assignment *)
(* ===================================================================== *)

Lemma byteLength_two_gib : byteLength two_gib = 2147483648.
Proof.
  unfold byteLength, two_gib. rewrite repeat_length. apply Z2Nat.id. lia.
Qed.

(** C8.  For a tensor of 2 GiB the advance [(len + 7) & ~7] wraps to
    -2^31: the next tensor is assigned the range that starts at -2^31,
    below the end 2^31 of its predecessor. *)
Theorem calcOffset_wraps_at_two_gib :
  exists s : TensorSaver.t,
    TensorSaver.calcOffset big_tensor_heap big_tensor_map
      (TensorSaver.new big_tensor_map) = Ok s
    /\ s.(TensorSaver.hdr) =
       [("a", JObj [("dtype", JStr "U8"); ("shape", JArr [JNum 2147483648]);
                    ("data_offsets", JArr [JNum 0; JNum 2147483648])]);
        ("b", JObj [("dtype", JStr "U8"); ("shape", JArr [JNum 1]);
                    ("data_offsets",
                     JArr [JNum (-2147483648); JNum (-2147483647)])])]
    /\ s.(TensorSaver.offset) = -2147483640.
Proof.
  pose proof byteLength_two_gib as Hlen.
  unfold big_tensor_heap, big_tensor_map.
  generalize dependent two_gib. intros big Hlen.
  eexists. split.
  - unfold TensorSaver.calcOffset. cbn [TensorSaver.entries_of refs tensorRefs].
    rewrite lookup_insert_eq.
    rewrite lookup_insert_ne by discriminate.
    rewrite lookup_insert_eq.
    cbn [bind]. unfold TensorSaver.new. cbn.
    rewrite Hlen. cbn. reflexivity.
  - cbn. split; reflexivity.
Qed.

(* ===================================================================== *)
(** ** Round trips *)
(* ===================================================================== *)

Lemma saveSafeTensors_spec (h : heap) (c : loc) (tm : TensorMap)
    (tes : list (string * TensorRef)) :
  h.(tensorMaps) !! c = Some tm ->
  encodable h tm tes ->
  saveSafeTensors c h
  = (Ok (archive_of (JSON_stringify (JObj (header_of tm tes))) tes), h).
Proof.
  intros Hm Henc. unfold saveSafeTensors.
  erewrite bindM_get_map by exact Hm.
  now rewrite (saveSafeTensors_of_spec h tm tes Henc).
Qed.

(** A tensor stored under the reserved key [__metadata__] does not survive
    the round trip either: its header entry is read back as the metadata
    and rejected. *)
Lemma roundtrip_reserved_name_counterexample :
  ~ (forall (h : heap) (c : loc) (tm : TensorMap),
        h.(tensorMaps) !! c = Some tm ->
        hand_built h tm ->
        roundtrips h c).
Proof.
  intros H.
  destruct (reserved_name_container empty_heap) as [r h0] eqn:E.
  vm_compute in E. inversion E as [[Hr Hh]]. clear E.
  destruct (H h0 1%positive (mkTensorMap [("__metadata__", 2%positive)] []))
    as (tm & b & c' & h' & tm' & _ & Hsave & Hparse & _).
  - subst h0. vm_compute. reflexivity.
  - exists [("__metadata__",
             mkTensorRef "__metadata__" [x01] "U8" [JNum 1]
               (Some 1%positive))].
    subst h0. split; [vm_compute; reflexivity|].
    split; [|constructor].
    constructor; [vm_compute; reflexivity|constructor].
  - subst h0. vm_compute in Hsave. inversion Hsave as [Hb]. subst b.
    vm_compute in Hparse. discriminate Hparse.
Qed.

(** C1.  The round trip fails on a container built by hand from a tensor [a]
    of eight bytes and an empty tensor [b], both consistent with their
    shapes: the encoder writes the ranges [0, 8] and [8, 8], and the
    overlap test of the decoder reports the empty range [8, 8) as ending
    inside [0, 8), so the decoder rejects the archive of the encoder. *)
Theorem roundtrip_empty_tensor_rejected :
  exists (h : heap) (tm : TensorMap) (b : Bytes),
    empty_tensor_container empty_heap = (Ok 1%positive, h)
    /\ h.(tensorMaps) !! 1%positive = Some tm
    /\ hand_built h tm
    /\ saveSafeTensors 1%positive h = (Ok b, h)
    /\ fst (parseSafeTensors b false h)
       = Throw (IgnorableError (OffsetsEndOverlaps "b"))
    /\ ~ roundtrips h 1%positive.
Proof.
  eexists _, (mkTensorMap [("a", 2%positive); ("b", 3%positive)] []), _.
  split; [vm_compute; reflexivity|].
  split; [vm_compute; reflexivity|].
  split.
  { exists [("a", mkTensorRef "a"
                    [x01; x02; x03; x04; x05; x06; x07; x08] "U8" [JNum 8]
                    (Some 1%positive));
            ("b", mkTensorRef "b" [] "U8" [JNum 0] (Some 1%positive))].
    split; [vm_compute; reflexivity|].
    split; [|constructor].
    constructor; [vm_compute; reflexivity|].
    constructor; [vm_compute; reflexivity|constructor]. }
  split; [vm_compute; reflexivity|].
  split; [vm_compute; reflexivity|].
  intros (tm' & b' & c' & h' & tm'' & _ & Hsave & Hparse & _).
  vm_compute in Hsave. inversion Hsave as [Hb]. subst b'.
  apply (f_equal fst) in Hparse. vm_compute in Hparse. discriminate Hparse.
Qed.

(** Where the round trip holds: a container the encoder handles, all of
    whose tensors hold bytes. *)
Theorem roundtrip_decode_encode (h : heap) (c : loc) (tm : TensorMap)
    (tes : list (string * TensorRef)) :
  h.(tensorMaps) !! c = Some tm ->
  encodable h tm tes ->
  forallb holds_bytes tes = true ->
  roundtrips h c.
Proof.
  intros Hm Henc Hbytes.
  destruct (parseSafeTensors_archive h h tm tes Henc
              (sanityCheckTensorsParsed_header h tm tes Henc Hbytes))
    as (h' & m' & Hparse & Hm' & Hkeys & Hnew & Hmeta).
  exists tm, (archive_of (JSON_stringify (JObj (header_of tm tes))) tes),
    (next h), h', m'.
  split; [exact Hm|].
  split; [now apply saveSafeTensors_spec|].
  split; [exact Hparse|]. split; [exact Hm'|].
  pose proof (enc_entries _ _ _ Henc) as Hent.
  split.
  - intros n. unfold Map_get.
    destruct (assoc_get (refs tm) n) as [l|] eqn:En.
    + destruct (entries_of_resolved h _ tes n l Hent En) as (t & Hl & Ht).
      destruct (layout_In_tes tes 0 n t (assoc_get_In _ _ _ Ht)) as (o & Ho).
      destruct (Hnew n t o Ho) as (l' & t' & Hl' & Ht' & Hf & Hs & Hb).
      unfold Map_get in Hl'. rewrite Hl'. now exists t, t'.
    + destruct (assoc_get (refs m') n) as [l'|] eqn:En'; [|exact I].
      apply assoc_get_Some_keys in En'. rewrite Hkeys in En'.
      apply tensor_keys_In in En' as (Hnm & v & Hin).
      destruct (header_of_In h tm tes n v Henc Hin)
        as [(Hn & _)|(t & o & Hl & _)]; [congruence|].
      apply layout_In_inv in Hl.
      assert (Hnone : assoc_get tes n = None).
      { eapply assoc_get_keys_eq; [|exact En].
        symmetry. now apply entries_of_keys with (h := h). }
      exact (assoc_get_None_In tes n t Hnone Hl).
  - intros k. rewrite Hmeta. unfold Map_get, metadata_object.
    rewrite assoc_get_define_all by exact (enc_keys _ _ _ Henc).
    now destruct (assoc_get (metadata tm) k).
Qed.

Lemma test_container_encodable :
  encodable test_container_heap test_container_map test_container_tensors.
Proof.
  constructor.
  - vm_compute. reflexivity.
  - repeat split.
  - repeat split.
  - vm_compute. reflexivity.
  - vm_compute. reflexivity.
  - vm_compute. reflexivity.
  - vm_compute. discriminate.
Defined.

(** C2, as stated, fails for an archive whose padding is not made of
    spaces: the decoder accepts it and the encoder writes spaces. *)
Lemma reencode_zero_padding_counterexample :
  ~ (forall (b : Bytes) (h h' : heap) (c : loc),
        parseSafeTensors b false h = (Ok c, h') ->
        saveSafeTensors c h' = (Ok b, h')).
Proof.
  intros H.
  destruct (parseSafeTensors test_archive_zero_pad false empty_heap)
    as [r h'] eqn:E.
  vm_compute in E. inversion E as [[Hr Hh]]. clear E.
  assert (Hp : parseSafeTensors test_archive_zero_pad false empty_heap
               = (Ok 1%positive, h'))
    by (subst h'; vm_compute; reflexivity).
  specialize (H _ _ _ _ Hp). subst h'. vm_compute in H. discriminate H.
Qed.

(** The archive the encoder makes of a container whose tensor [w] was
    added before its tensor [0] is accepted, and encoded again with the
    two tensors in the other order: the header object enumerates the
    array index first, and the decoder adds the tensors in that order. *)
Lemma reencode_reorders_index_names :
  exists (h : heap) (b b' : Bytes) (h' : heap),
    unordered_names_container empty_heap = (Ok 1%positive, h)
    /\ saveSafeTensors 1%positive h = (Ok b, h)
    /\ parseSafeTensors b false h = (Ok 4%positive, h')
    /\ saveSafeTensors 4%positive h' = (Ok b', h')
    /\ b' <> b.
Proof.
  eexists _, _, _, _.
  split; [vm_compute; reflexivity|].
  split; [vm_compute; reflexivity|].
  split; [vm_compute; reflexivity|].
  split; [vm_compute; reflexivity|].
  vm_compute. discriminate.
Qed.

Lemma obj_define_nonempty {V : Type} (o : list (string * V)) (k : string)
    (v : V) :
  obj_define o k v <> [].
Proof.
  unfold obj_define. destruct (assoc_get o k) eqn:E.
  - destruct o as [|[k0 w0] o]; [discriminate|]. simpl.
    destruct (String.eqb k0 k); discriminate.
  - destruct (array_index k).
    + destruct o as [|[k0 w0] o]; simpl; [discriminate|].
      destruct (array_index k0); [destruct (_ <? _)%N|]; discriminate.
    + destruct o; discriminate.
Qed.

Lemma define_all_nonempty {V : Type} (acc l : list (string * V)) :
  acc <> [] -> define_all acc l <> [].
Proof.
  revert acc. induction l as [|[k v] l IH]; intros acc H; [assumption|].
  simpl. apply IH. apply obj_define_nonempty.
Qed.

Lemma metadata_object_idem (md : list (string * json)) :
  metadata_object (metadata_object md) = metadata_object md.
Proof.
  unfold metadata_object. apply (define_all_ordered []).
  now apply js_ordered_define_all.
Qed.

Lemma header_base_metadata_object (tm tm' : TensorMap) :
  tm'.(metadata) = metadata_object tm.(metadata) ->
  header_base tm' = header_base tm.
Proof.
  intros H. unfold header_base. rewrite H.
  destruct (metadata tm) as [|[k v] md] eqn:E; [reflexivity|].
  destruct (metadata_object ((k, v) :: md)) eqn:E'.
  - exfalso. revert E'. unfold metadata_object. simpl.
    apply define_all_nonempty, obj_define_nonempty.
  - rewrite <- E'. now rewrite metadata_object_idem.
Qed.

Lemma same_entries_layout (tes tes' : list (string * TensorRef)) (off : Z) :
  same_entries tes tes' ->
  header_entries (layout off tes') = header_entries (layout off tes)
  /\ data_section tes' = data_section tes
  /\ data_size tes' = data_size tes
  /\ forallb tensor_ok tes' = forallb tensor_ok tes.
Proof.
  intros H. revert off.
  induction H as [|[n t] [n' t'] tes tes' (Hn & Hf & Hs & Hb) Hrest IH];
    intros off; [repeat split|].
  cbn [fst snd] in *. subst n'.
  destruct (IH (off + round8 (byteLength (bytes t)))) as (H1 & H2 & H3 & H4).
  cbn [layout data_section data_size forallb]. rewrite Hb.
  unfold header_entries in *. cbn [map fst snd].
  rewrite H1, H2, H3, H4. repeat split.
  - unfold entry_of. now rewrite Hf, Hs, Hb.
  - unfold tensor_ok. cbn [fst snd]. now rewrite Hf, Hs.
Qed.

Lemma resolve_same_entries (h' : heap) (rs : list (string * loc)) :
  forall tes : list (string * TensorRef),
    assoc_keys rs = assoc_keys tes ->
    unique_keys tes ->
    (forall n t, List.In (n, t) tes ->
                 exists l t', assoc_get rs n = Some l
                              /\ h'.(tensorRefs) !! l = Some t'
                              /\ same_fields t t') ->
    exists tes', TensorSaver.entries_of h' rs = Ok tes'
                 /\ same_entries tes tes'.
Proof.
  induction rs as [|[n0 l0] rs IH]; intros [|[n t] tes] Hkeys Huniq Hres;
    try discriminate.
  - exists []. split; [reflexivity|constructor].
  - simpl in Hkeys. inversion Hkeys; subst n0.
    destruct Huniq as (Hfresh & Huniq).
    destruct (Hres n t (or_introl eq_refl)) as (l & t' & Hl & Ht' & Hsame).
    simpl in Hl. rewrite String.eqb_refl in Hl. inversion Hl; subst l.
    destruct (IH tes) as (tes' & Hent & Hrel); try assumption.
    + intros n1 t1 Hin.
      destruct (Hres n1 t1 (or_intror Hin)) as (l1 & t1' & Hl1 & Ht1 & Hs1).
      exists l1, t1'. split; [|split; assumption].
      simpl in Hl1. destruct (String.eqb n n1) eqn:E; [|assumption].
      apply String.eqb_eq in E. subst n1. exfalso.
      exact (assoc_get_None_In tes n t1 Hfresh Hin).
    + exists ((n, t') :: tes'). split.
      * simpl. rewrite Ht', Hent. reflexivity.
      * constructor; [|assumption]. now split.
Qed.

Lemma tensor_keys_app (a b : list (string * json)) :
  tensor_keys (a ++ b) = tensor_keys a ++ tensor_keys b.
Proof.
  induction a as [|[k v] a IH]; [reflexivity|].
  simpl. destruct (String.eqb k "__metadata__"); simpl; now rewrite IH.
Qed.

Lemma tensor_keys_plain (l : list (string * json)) :
  Forall (fun kv => fst kv <> "__metadata__"%string) l ->
  tensor_keys l = assoc_keys l.
Proof.
  induction 1 as [|[k v] l Hk Hl IH]; [reflexivity|].
  cbn [fst] in Hk. apply String.eqb_neq in Hk.
  cbn [tensor_keys]. rewrite Hk. cbn. now rewrite IH.
Qed.

(** *** The order of the names in the header object *)

Section HeaderOrder.
Context {V : Type}.
Implicit Types (l acc r : list (string * V)) (k m : string) (v x : V).

Lemma js_ordered_app_precedes acc k v r :
  js_ordered (acc ++ (k, v) :: r) ->
  assoc_get acc k = None /\ Forall (fun kv => precedes (fst kv) k) acc.
Proof.
  induction acc as [|[k0 v0] acc IH]; intros Hord;
    [split; [reflexivity|constructor]|].
  cbn [app js_ordered] in Hord. destruct Hord as (Hn0 & Hall0 & Hord0).
  destruct (IH Hord0) as (Hn & Hall).
  rewrite assoc_get_app in Hn0.
  destruct (assoc_get acc k0); [discriminate|]. cbn [assoc_get] in Hn0.
  destruct (String.eqb k k0) eqn:E; [discriminate|].
  cbn [assoc_get]. rewrite String.eqb_sym, E. split; [assumption|].
  constructor; [|assumption]. cbn [fst].
  apply Forall_app in Hall0 as [_ Hall0].
  now inversion Hall0; subst.
Qed.

Lemma js_ordered_index_prefix acc k v r :
  array_index k <> None ->
  js_ordered (acc ++ (k, v) :: r) ->
  Forall (fun kv => array_index (fst kv) <> None) acc.
Proof.
  intros Hk Hord. destruct (js_ordered_app_precedes _ _ _ _ Hord) as (_ & Hall).
  eapply Forall_impl; [exact Hall|]. intros [k0 v0]. cbn [fst].
  unfold precedes. destruct (array_index k0); [discriminate|].
  destruct (array_index k); [contradiction|congruence].
Qed.

Lemma js_ordered_plain_suffix k v r :
  array_index k = None ->
  js_ordered ((k, v) :: r) ->
  Forall (fun kv => array_index (fst kv) = None) r.
Proof.
  intros Hk (_ & Hall & _).
  eapply Forall_impl; [exact Hall|]. intros [k0 v0]. cbn [fst].
  unfold precedes. rewrite Hk. now destruct (array_index k0).
Qed.

Lemma insert_index_after_smaller acc i k v m x r :
  array_index k = Some i ->
  array_index m = None ->
  Forall (fun kv => array_index (fst kv) <> None
                    /\ precedes (fst kv) k) acc ->
  insert_index i k v (acc ++ (m, x) :: r) = acc ++ (k, v) :: (m, x) :: r.
Proof.
  intros Hk Hm. induction 1 as [|[k0 v0] acc (H0 & Hp) Hacc IH].
  - cbn [app insert_index]. now rewrite Hm.
  - cbn [app insert_index fst] in *. unfold precedes in Hp. rewrite Hk in Hp.
    destruct (array_index k0) as [j|]; [|contradiction].
    assert (E : (i <? j)%N = false) by (apply N.ltb_ge; lia).
    rewrite E. now rewrite IH.
Qed.

Lemma js_ordered_insert_plain acc m x r :
  array_index m = None ->
  assoc_get (acc ++ r) m = None ->
  Forall (fun kv => array_index (fst kv) = None) r ->
  js_ordered (acc ++ r) ->
  js_ordered (acc ++ (m, x) :: r).
Proof.
  intros Hm. induction acc as [|[k0 v0] acc IH]; intros Hfresh Hr Hord.
  - cbn [app] in *. cbn [js_ordered]. split; [exact Hfresh|].
    split; [|exact Hord].
    eapply Forall_impl; [exact Hr|]. intros [k1 v1] H1. cbn [fst] in *.
    unfold precedes. now rewrite Hm, H1.
  - cbn [app js_ordered assoc_get] in *.
    destruct (String.eqb k0 m) eqn:E; [discriminate Hfresh|].
    destruct Hord as (Hn0 & Hall0 & Hord0).
    split; [|split].
    + rewrite assoc_get_app in *.
      destruct (assoc_get acc k0); [discriminate Hn0|].
      cbn [assoc_get]. rewrite String.eqb_sym, E. exact Hn0.
    + apply Forall_app in Hall0 as [Ha Hb]. apply Forall_app.
      split; [exact Ha|]. constructor; [|exact Hb].
      cbn [fst]. unfold precedes. rewrite Hm.
      now destruct (array_index k0).
    + now apply IH.
Qed.

(** Defining the properties [l] on an object that holds the index
    properties [acc] and one other property [m]: the indices of [l] go
    before [m] and the other properties after it. *)
Lemma define_all_around l :
  forall acc m x,
    array_index m = None ->
    Forall (fun kv => array_index (fst kv) <> None) acc ->
    assoc_get (acc ++ l) m = None ->
    js_ordered (acc ++ l) ->
    exists front back,
      l = front ++ back
      /\ define_all (acc ++ [(m, x)]) l = acc ++ front ++ (m, x) :: back.
Proof.
  induction l as [|[k v] l IH]; intros acc m x Hm Hacc Hfresh Hord.
  - exists [], []. split; reflexivity.
  - destruct (array_index k) as [i|] eqn:Hk.
    + destruct (js_ordered_app_precedes _ _ _ _ Hord) as (Hn & Hprec).
      assert (Hkm : String.eqb k m = false).
      { rewrite assoc_get_app in Hfresh.
        destruct (assoc_get acc m); [discriminate Hfresh|].
        cbn [assoc_get] in Hfresh.
        now destruct (String.eqb k m). }
      assert (Hdef : obj_define (acc ++ [(m, x)]) k v
                     = (acc ++ [(k, v)]) ++ [(m, x)]).
      { unfold obj_define. rewrite assoc_get_app, Hn. cbn [assoc_get].
        rewrite String.eqb_sym, Hkm. rewrite Hk.
        rewrite (insert_index_after_smaller acc i k v m x []); try assumption.
        - now rewrite <- app_assoc.
        - apply Forall_forall. intros kv Hin. split.
          + exact (proj1 (Forall_forall _ _) Hacc kv Hin).
          + exact (proj1 (Forall_forall _ _) Hprec kv Hin). }
      destruct (IH (acc ++ [(k, v)]) m x Hm) as (front & back & Hl & Hall).
      * apply Forall_app. split; [exact Hacc|].
        constructor; [|constructor]. cbn [fst]. congruence.
      * now rewrite <- app_assoc.
      * now rewrite <- app_assoc.
      * exists ((k, v) :: front), back. split; [now rewrite Hl|].
        cbn [define_all fold_left fst snd]. unfold define_all in Hall.
        rewrite Hdef, Hall. now rewrite <- !app_assoc.
    + exists [], ((k, v) :: l). split; [reflexivity|].
      assert (Hplain : Forall (fun kv => array_index (fst kv) = None)
                         ((k, v) :: l)).
      { constructor; [exact Hk|].
        assert (Hord' : js_ordered ((k, v) :: l)).
        { clear - Hord. induction acc as [|[k0 v0] acc IH]; [exact Hord|].
          apply IH. now destruct Hord as (_ & _ & Hord). }
        exact (js_ordered_plain_suffix k v l Hk Hord'). }
      rewrite define_all_ordered; [now rewrite <- app_assoc|].
      rewrite <- app_assoc. cbn [app].
      now apply js_ordered_insert_plain.
Qed.

End HeaderOrder.

Lemma js_ordered_same_keys {V W : Type} (l : list (string * V))
    (l' : list (string * W)) :
  assoc_keys l = assoc_keys l' -> js_ordered l -> js_ordered l'.
Proof.
  revert l'. induction l as [|[k v] l IH]; intros [|[k' v'] l'] Hk;
    try discriminate; [trivial|].
  simpl in Hk. inversion Hk; subst. simpl. intros (Hn & Hall & Hord).
  split; [|split].
  - eapply assoc_get_keys_eq; eauto.
  - eapply (Forall_keys_eq (precedes k')); eauto.
  - now apply IH.
Qed.

(** The tensors of the header of a container whose names enumerate as
    they were added come in the order of the container. *)
Lemma tensor_keys_header_of (h : heap) (tm : TensorMap)
    (tes : list (string * TensorRef)) :
  encodable h tm tes ->
  js_ordered tes ->
  tensor_keys (header_of tm tes) = assoc_keys tes.
Proof.
  intros Henc Hord. unfold header_of.
  set (es := header_entries (layout 0 tes)).
  assert (Hkeys : assoc_keys es = assoc_keys tes) by apply layout_keys.
  assert (Hes : js_ordered es)
    by (eapply js_ordered_same_keys; [symmetry; exact Hkeys|exact Hord]).
  assert (Hnm : Forall (fun kv => fst kv <> "__metadata__"%string) es).
  { apply Forall_In_assoc. intros k v Hin. cbn [fst].
    apply header_entries_In_inv in Hin as (t & o & Hin & _).
    pose proof (layout_In_ok _ _ _ _ _ (enc_tensors _ _ _ Henc) Hin) as Hok.
    now destruct (tensor_ok_fields _ _ Hok). }
  rewrite <- Hkeys. unfold header_base.
  destruct (metadata tm) as [|kv md].
  - rewrite define_all_ordered by exact Hes. now apply tensor_keys_plain.
  - destruct (define_all_around es [] "__metadata__"
                (JObj (metadata_object (kv :: md))) eq_refl
                (List.Forall_nil _)) as (front & back & Hsplit & Hall).
    + cbn [app].
      destruct (assoc_get es "__metadata__") as [e|] eqn:E; [|reflexivity].
      apply assoc_get_In in E.
      apply (proj1 (List.Forall_forall _ _) Hnm) in E. now cbn in E.
    + exact Hes.
    + cbn [app] in Hall. rewrite Hall, Hsplit.
      rewrite Hsplit in Hnm. apply Forall_app in Hnm as [Hf Hb].
      rewrite tensor_keys_app. change ((?a :: back)) with ([a] ++ back).
      rewrite tensor_keys_app. cbn [tensor_keys String.eqb Ascii.eqb].
      change (String.eqb "__metadata__" "__metadata__") with true.
      cbv iota. cbn [app].
      rewrite !tensor_keys_plain by assumption.
      now rewrite assoc_keys_app.
Qed.

(** C2, amended: the archive the encoder makes of a container it handles,
    whose names enumerate as they were added, is encoded again to the same
    bytes once the decoder has accepted it. *)
Theorem reencode_byte_exact (h : heap) (c : loc) (tm : TensorMap)
    (tes : list (string * TensorRef)) (b : Bytes) (c' : loc) (h' : heap) :
  h.(tensorMaps) !! c = Some tm ->
  encodable h tm tes ->
  js_ordered tes ->
  saveSafeTensors c h = (Ok b, h) ->
  parseSafeTensors b false h = (Ok c', h') ->
  saveSafeTensors c' h' = (Ok b, h').
Proof.
  intros Hm Henc Hord Hsave Hdecode.
  rewrite (saveSafeTensors_spec h c tm tes Hm Henc) in Hsave.
  set (text := JSON_stringify (JObj (header_of tm tes))) in *.
  assert (Hb : b = archive_of text tes) by congruence.
  subst b. clear Hsave.
  assert (Hvalid : sanityCheckTensorsParsed false (JObj (header_of tm tes))
                     (data_size tes) = Ok tt).
  { pose proof (parseSafeTensors_archive_run h h tm tes Henc) as Hrun.
    cbv zeta in Hrun. fold text in Hrun.
    rewrite Hrun in Hdecode.
    destruct (sanityCheckTensorsParsed false (JObj (header_of tm tes))
                (data_size tes)) as [[]|e]; [reflexivity|discriminate]. }
  destruct (parseSafeTensors_archive h h tm tes Henc Hvalid)
    as (h1 & m' & Hparse & Hm' & Hkeys & Hnew & Hmeta).
  fold text in Hparse. rewrite Hparse in Hdecode.
  assert (c' = next h /\ h' = h1) as [-> <-] by (split; congruence).
  clear Hdecode.
  pose proof (encodable_unique_tes _ _ _ Henc) as Hu.
  assert (Hk : assoc_keys (refs m') = assoc_keys tes).
  { rewrite Hkeys. now apply tensor_keys_header_of with (h := h). }
  destruct (resolve_same_entries h' (refs m') tes Hk Hu)
    as (tes' & Hent' & Hsame).
  { intros n t Hin. destruct (layout_In_tes tes 0 n t Hin) as (o & Ho).
    destruct (Hnew n t o Ho) as (l & t' & Hl & Ht' & Hf & Hs & Hbt).
    exists l, t'. split; [exact Hl|]. split; [exact Ht'|].
    repeat split; assumption. }
  destruct (same_entries_layout tes tes' 0 Hsame) as (He & Hd & Hs & Hok).
  assert (Hhdr : header_of m' tes' = header_of tm tes).
  { unfold header_of. rewrite He.
    now rewrite (header_base_metadata_object tm m' Hmeta). }
  assert (Henc' : encodable h' m' tes').
  { constructor.
    - exact Hent'.
    - eapply unique_keys_same_keys; [|exact Hu]. now symmetry.
    - rewrite Hmeta. apply js_ordered_unique.
      apply (metadata_object_plain _ (enc_metadata _ _ _ Henc)).
    - rewrite Hok. exact (enc_tensors _ _ _ Henc).
    - rewrite Hmeta. apply forallb_Forall_iff.
      unfold metadata_object. apply Forall_define_all; [constructor|].
      apply forallb_Forall_iff. exact (enc_metadata _ _ _ Henc).
    - rewrite Hs. exact (enc_data _ _ _ Henc).
    - rewrite Hhdr. exact (enc_header _ _ _ Henc). }
  rewrite (saveSafeTensors_spec h' (next h) m' tes' Hm' Henc').
  rewrite Hhdr. fold text. unfold archive_of. now rewrite Hd.
Qed.

Lemma ordered_names_encodable :
  encodable ordered_names_heap ordered_names_map ordered_names_tensors.
Proof.
  constructor.
  - vm_compute. reflexivity.
  - repeat split.
  - repeat split.
  - vm_compute. reflexivity.
  - vm_compute. reflexivity.
  - vm_compute. reflexivity.
  - vm_compute. discriminate.
Defined.

Lemma reencode_byte_exact_witness :
  ordered_names_heap.(tensorMaps) !! 1%positive = Some ordered_names_map
  /\ encodable ordered_names_heap ordered_names_map ordered_names_tensors
  /\ js_ordered ordered_names_tensors
  /\ saveSafeTensors 1%positive ordered_names_heap
     = (Ok ordered_names_archive, ordered_names_heap)
  /\ parseSafeTensors ordered_names_archive false ordered_names_heap
     = (Ok 5%positive,
        snd (parseSafeTensors ordered_names_archive false ordered_names_heap))
  /\ saveSafeTensors 5%positive
       (snd (parseSafeTensors ordered_names_archive false ordered_names_heap))
     = (Ok ordered_names_archive,
        snd (parseSafeTensors ordered_names_archive false ordered_names_heap)).
Proof.
  assert (Hm : ordered_names_heap.(tensorMaps) !! 1%positive
               = Some ordered_names_map) by (vm_compute; reflexivity).
  assert (Hord : js_ordered ordered_names_tensors).
  { cbn [ordered_names_tensors js_ordered]. repeat split.
    all: repeat constructor. }
  assert (Hsave : saveSafeTensors 1%positive ordered_names_heap
                  = (Ok ordered_names_archive, ordered_names_heap))
    by (vm_compute; reflexivity).
  assert (Hparse : parseSafeTensors ordered_names_archive false
                     ordered_names_heap
                   = (Ok 5%positive,
                      snd (parseSafeTensors ordered_names_archive false
                             ordered_names_heap)))
    by (vm_compute; reflexivity).
  split; [exact Hm|]. split; [exact ordered_names_encodable|].
  split; [exact Hord|]. split; [exact Hsave|]. split; [exact Hparse|].
  exact (reencode_byte_exact ordered_names_heap 1%positive ordered_names_map
           ordered_names_tensors ordered_names_archive 5%positive _ Hm
           ordered_names_encodable Hord Hsave Hparse).
Defined.

(* ===================================================================== *)
(** ** Leniency *)
(* ===================================================================== *)

Lemma Object_entries_not_ignorable (v : json) :
  is_ignorable (Object_entries v) = false.
Proof. destruct v; cbn; try destruct (is_ascii _); reflexivity. Qed.

Lemma checkMetadata_loop_lenient (entries : list (string * json)) :
  checkMetadata_loop true entries = Ok tt.
Proof.
  induction entries as [|[k v] r IH]; [reflexivity|].
  cbn [checkMetadata_loop]. now rewrite andb_false_r.
Qed.

Lemma checkMetadata_lenient (value : json) :
  is_ignorable (checkMetadata true value) = false.
Proof.
  unfold checkMetadata. destruct (Object_entries value) as [es|e] eqn:E.
  - cbn [bind]. now rewrite checkMetadata_loop_lenient.
  - pose proof (Object_entries_not_ignorable value) as H.
    now rewrite E in H.
Qed.

Section LenientChecker.

Import TensorAttributeChecker.

Variable this : TensorAttributeChecker.t.
Hypothesis lenient : this.(ignoreInvalid) = true.

Lemma checkTensorShape_loop_lenient (key : string) (val : list json) :
  checkTensorShape_loop this key val = Ok tt.
Proof.
  induction val as [|v r IH]; [reflexivity|].
  cbn [checkTensorShape_loop]. rewrite lenient. now rewrite andb_false_r.
Qed.

Lemma checkOverlap_loop_lenient (key : string) (cov : list OffsetPair)
    (val : OffsetPair) :
  checkOverlap_loop this key cov val = Ok tt.
Proof.
  induction cov as [|[s e] r IH]; [reflexivity|].
  cbn [checkOverlap_loop]. unfold checkTensorOverlap. rewrite lenient.
  cbv zeta.
  destruct ((s <? snd val) && (snd val <=? e));
    destruct ((s <=? fst val) && (fst val <? e)); exact IH.
Qed.

Lemma checkDataOffsetBasics_lenient (key : string) (val : OffsetPair) :
  checkDataOffsetBasics this key val = Ok tt.
Proof.
  unfold checkDataOffsetBasics. rewrite lenient.
  now rewrite andb_false_r.
Qed.

Lemma dispatch_lenient (key name : string) (val : json) :
  lenient_result (dispatch this key name val).
Proof.
  unfold dispatch.
  destruct (String.eqb key "dtype"); [|destruct (String.eqb key "shape")].
  - unfold dtype. destruct (negb _); [exact I|exact lenient].
  - unfold shape, checkTensorShape. destruct val; try exact I.
    rewrite checkTensorShape_loop_lenient. exact lenient.
  - unfold data_offsets, checkDataOffsets. destruct val; try exact I.
    destruct (negb _); [exact I|].
    unfold as_OffsetPair.
    destruct l as [|a [|b [|c l]]]; try exact I.
    destruct a; try exact I. destruct b; try exact I.
    cbn [as_Integer bind].
    rewrite checkDataOffsetBasics_lenient, checkOverlap_loop_lenient.
    exact lenient.
Qed.

End LenientChecker.

Lemma checkTensorValue_loop_lenient (name : string)
    (entries : list (string * json)) :
  forall this : TensorAttributeChecker.t,
    this.(TensorAttributeChecker.ignoreInvalid) = true ->
    lenient_result
      (TensorAttributeChecker.checkTensorValue_loop this name entries).
Proof.
  induction entries as [|[k v] r IH]; intros this Hl; [exact Hl|].
  cbn [TensorAttributeChecker.checkTensorValue_loop].
  destruct (negb (TensorAttributeChecker.attrOk k)).
  - rewrite Hl. now apply IH.
  - pose proof (dispatch_lenient this Hl k name v) as Hd.
    destruct (TensorAttributeChecker.dispatch this k name v) as [this'|e].
    + now apply IH.
    + exact Hd.
Qed.

Lemma checkTensorValue_lenient (this : TensorAttributeChecker.t)
    (name : string) (value : json) :
  this.(TensorAttributeChecker.ignoreInvalid) = true ->
  is_ignorable (TensorAttributeChecker.checkTensorValue this name value)
  = false.
Proof.
  intros Hl. unfold TensorAttributeChecker.checkTensorValue.
  destruct (Object_entries value) as [es|e] eqn:E.
  - cbn [bind].
    pose proof (checkTensorValue_loop_lenient name es this Hl) as H.
    destruct (TensorAttributeChecker.checkTensorValue_loop this name es)
      as [this'|e]; cbn [bind].
    + unfold TensorAttributeChecker.assertAttributePresence.
      destruct (negb _); [reflexivity|].
      destruct (negb _); [reflexivity|].
      destruct (negb _); reflexivity.
    + destruct e; try reflexivity. destruct H.
  - pose proof (Object_entries_not_ignorable value) as H.
    now rewrite E in H.
Qed.

Lemma sanityCheckTensorsParsed_loop_lenient (chunksize : Z)
    (entries : list (string * json)) :
  forall covered : list OffsetPair,
    is_ignorable
      (sanityCheckTensorsParsed_loop true chunksize covered entries)
    = false.
Proof.
  induction entries as [|[k v] r IH]; intros covered; [reflexivity|].
  cbn [sanityCheckTensorsParsed_loop].
  destruct (String.eqb k "__metadata__").
  - pose proof (checkMetadata_lenient v) as H.
    destruct (checkMetadata true v); [apply IH|exact H].
  - pose proof (checkTensorValue_lenient
                  (TensorAttributeChecker.new chunksize covered true) k v
                  eq_refl) as H.
    destruct (TensorAttributeChecker.checkTensorValue _ k v);
      [apply IH|exact H].
Qed.

Lemma sanityCheckTensorsHeader_lenient (bytes : Bytes) (filesize : Z) :
  is_ignorable (sanityCheckTensorsHeader true bytes filesize) = false.
Proof.
  unfold sanityCheckTensorsHeader.
  destruct (negb _); [reflexivity|].
  rewrite andb_false_r. now destruct (_ <? _).
Qed.

Lemma sanityCheckTensorsParsed_lenient (j : json) (chunksize : Z) :
  is_ignorable (sanityCheckTensorsParsed true j chunksize) = false.
Proof.
  unfold sanityCheckTensorsParsed.
  destruct (Object_entries j) as [es|e] eqn:E.
  - cbn [bind].
    pose proof (sanityCheckTensorsParsed_loop_lenient chunksize es []) as H.
    destruct (sanityCheckTensorsParsed_loop true chunksize [] es);
      [reflexivity|exact H].
  - pose proof (Object_entries_not_ignorable j) as H.
    now rewrite E in H.
Qed.

Lemma bindM_inv {A B : Type} (m : M A) (k : A -> M B) (h h' : heap) (b : B) :
  bindM m k h = (Ok b, h') ->
  exists (a : A) (h1 : heap), m h = (Ok a, h1) /\ k a h1 = (Ok b, h').
Proof.
  unfold bindM. destruct (m h) as [[a|e] h1]; intros H.
  - now exists a, h1.
  - discriminate H.
Qed.

Lemma bindM_lift_inv {A B : Type} (r : result A) (k : A -> M B)
    (h h' : heap) (b : B) :
  bindM (lift r) k h = (Ok b, h') ->
  exists a : A, r = Ok a /\ k a h = (Ok b, h').
Proof.
  intros H. apply bindM_inv in H as (a & h1 & Hr & Hk).
  unfold lift in Hr. inversion Hr; subst. now exists a.
Qed.

Lemma bindM_not_ignorable {A B : Type} (m : M A) (k : A -> M B) (h : heap) :
  is_ignorable (fst (m h)) = false ->
  (forall a h1, m h = (Ok a, h1) -> is_ignorable (fst (k a h1)) = false) ->
  is_ignorable (fst (bindM m k h)) = false.
Proof.
  unfold bindM. destruct (m h) as [[a|e] h1]; intros Hm Hk.
  - now apply Hk.
  - exact Hm.
Qed.

Lemma tensor_entry_inv (val : json) (dtype : Format) (shp : Shape)
    (start end_ : Z) :
  tensor_entry val = Ok (dtype, shp, start, end_) ->
  get_prop val "dtype" = Some (JStr dtype)
  /\ get_prop val "shape" = Some (JArr shp)
  /\ get_prop val "data_offsets" = Some (JArr [JNum start; JNum end_]).
Proof.
  unfold tensor_entry.
  destruct (get_prop val "dtype") as [[|?|?|s|?|?]|];
    destruct (get_prop val "shape") as [[|?|?|?|shp0|?]|];
    destruct (get_prop val "data_offsets")
      as [[|?|?|?|[|[|?|x|?|?|?] [|[|?|y|?|?|?] [|? ?]]]|?]|];
    try discriminate.
  cbn [as_Integer bind]. intros H. now inversion H.
Qed.

Lemma tensor_entry_not_ignorable (val : json) :
  is_ignorable (tensor_entry val) = false.
Proof.
  unfold tensor_entry.
  destruct (get_prop val "dtype") as [[|?|?|s|?|?]|];
    destruct (get_prop val "shape") as [[|?|?|?|shp0|?]|];
    destruct (get_prop val "data_offsets")
      as [[|?|?|?|[|[|?|x|?|?|?] [|[|?|y|?|?|?] [|? ?]]]|?]|];
    reflexivity.
Qed.

(** What [addTensor] does with the bytes of a new tensor. *)
Lemma addTensor_bytes_cases (h : heap) (this : loc) (name : string)
    (b : Bytes) (fmt : Format) (shp : Shape) :
  (exists m,
      h.(tensorMaps) !! this = Some m
      /\ Map_get m.(refs) name = None
      /\ fmt <> EmptyString
      /\ TensorMap.addTensor this name (AsBytes b) (Some fmt) (Some shp) h
         = (Ok h.(next),
            mkHeap (<[h.(next) := mkTensorRef name b fmt shp (Some this)]>
                      h.(tensorRefs))
                   (<[this := set_refs m (m.(refs) ++ [(name, h.(next))])]>
                      h.(tensorMaps))
                   (Pos.succ h.(next))))
  \/ (exists e h1,
         TensorMap.addTensor this name (AsBytes b) (Some fmt) (Some shp) h
         = (Throw e, h1)
         /\ is_ignorable (@Throw loc e) = false).
Proof.
  destruct (h.(tensorMaps) !! this) as [m|] eqn:Hm.
  - destruct (Map_get m.(refs) name) as [l0|] eqn:Hn.
    + right. unfold TensorMap.addTensor.
      erewrite bindM_get_map by exact Hm. rewrite Hn.
      now eexists _, _.
    + destruct (String.eqb fmt EmptyString) eqn:Hf.
      * right. unfold TensorMap.addTensor.
        erewrite bindM_get_map by exact Hm. rewrite Hn, Hf.
        now eexists _, _.
      * left. exists m. apply String.eqb_neq in Hf.
        repeat split; try assumption.
        now apply addTensor_bytes_spec.
  - right. unfold TensorMap.addTensor, bindM, get_map. rewrite Hm.
    now eexists _, _.
Qed.

Lemma parseSafeTensors_loop_not_ignorable (b : Bytes) (hdrsize : Z)
    (ret_ : loc) (es : list (string * json)) :
  forall h : heap,
    is_ignorable (fst (parseSafeTensors_loop b hdrsize ret_ es h)) = false.
Proof.
  induction es as [|[k v] es IH]; intros h; [reflexivity|].
  cbn [parseSafeTensors_loop].
  apply bindM_not_ignorable; [|intros; apply IH].
  destruct (String.eqb k "__metadata__").
  - apply bindM_not_ignorable.
    + apply Object_entries_not_ignorable.
    + intros md h1 _. unfold TensorMap.setAllMetadata, bindM, get_map.
      now destruct (tensorMaps h1 !! ret_).
  - apply bindM_not_ignorable.
    + apply tensor_entry_not_ignorable.
    + intros [[[dtype shp] start] end_] h1 _.
      apply bindM_not_ignorable; [|reflexivity].
      destruct (addTensor_bytes_cases h1 ret_ k
                  (slice b (8 + hdrsize + start) (8 + hdrsize + end_))
                  dtype shp) as [(m & _ & _ & _ & H)|(e & h2 & H & He)];
        rewrite H; [reflexivity|exact He].
Qed.

Lemma bind_not_ignorable {A B : Type} (m : result A) (k : A -> result B) :
  is_ignorable m = false ->
  (forall a, is_ignorable (k a) = false) ->
  is_ignorable (bind m k) = false.
Proof. destruct m as [a|e]; intros Hm Hk; [apply Hk|exact Hm]. Qed.

(** The steps of a proof that a computation throws no suppressible
    error. *)
Ltac not_ignorable_step :=
  match goal with
  | |- is_ignorable (Ok _) = false => reflexivity
  | |- is_ignorable (Throw _) = false => reflexivity
  | |- is_ignorable (bind _ _) = false =>
      apply bind_not_ignorable; [|intros [? ?]]
  | |- is_ignorable (if ?x then _ else _) = false => destruct x
  | |- is_ignorable (match ?x with _ => _ end) = false => destruct x
  end.

Lemma TextDecoder_decode_not_ignorable (b : Bytes) :
  is_ignorable (TextDecoder_decode b) = false.
Proof. unfold TextDecoder_decode. cbv zeta. now destruct (is_utf8 _). Qed.

Lemma parse_chars_not_ignorable :
  forall s : string, is_ignorable (parse_chars s) = false.
Proof.
  fix IH 1. intros [|c r]; [reflexivity|].
  cbn [parse_chars].
  destruct (code c =? 34)%N; [reflexivity|].
  destruct (code c =? 92)%N.
  - destruct r as [|e r1]; [reflexivity|].
    destruct (simple_escape e).
    + apply bind_not_ignorable; [apply IH|now intros [? ?]].
    + destruct (code e =? 117)%N; [|reflexivity].
      destruct r1 as [|a [|b [|c' [|d r2]]]]; try reflexivity.
      destruct (hex4 a b c' d); [|reflexivity].
      destruct (_ <? 128)%N; [|reflexivity].
      apply bind_not_ignorable; [apply IH|now intros [? ?]].
  - destruct (code c <? 32)%N; [reflexivity|].
    apply bind_not_ignorable; [apply IH|now intros [? ?]].
Qed.

Lemma parse_digits_not_ignorable (s : string) :
  is_ignorable (parse_digits s) = false.
Proof.
  unfold parse_digits. destruct (take_digits s) as [ds rest].
  repeat not_ignorable_step.
Qed.

Lemma parse_number_not_ignorable (s : string) :
  is_ignorable (parse_number s) = false.
Proof.
  unfold parse_number. destruct s as [|c r]; [reflexivity|].
  destruct (code c =? 45)%N;
    (apply bind_not_ignorable;
     [apply parse_digits_not_ignorable|now intros [? ?]]).
Qed.

Lemma parse_literal_not_ignorable (s : string) :
  is_ignorable (parse_literal s) = false.
Proof. unfold parse_literal. repeat not_ignorable_step. Qed.

Lemma parse_key_not_ignorable (s : string) :
  is_ignorable (parse_key s) = false.
Proof.
  unfold parse_key. destruct (skip_ws s) as [|c r]; [reflexivity|].
  destruct (code c =? 34)%N; [|reflexivity].
  apply bind_not_ignorable; [apply parse_chars_not_ignorable|].
  intros [k r1]. repeat not_ignorable_step.
Qed.

Lemma parse_value_S (f : nat) (s : string) :
  parse_value (S f) s
  = match skip_ws s with
    | EmptyString => Throw SyntaxError
    | String c r =>
        let n := code c in
        if (n =? 123)%N then
          match skip_ws r with
          | String c1 r1 =>
              if (code c1 =? 125)%N then Ok (JObj [], r1)
              else
                do '(o, rest) <- parse_members f [] r;
                Ok (JObj o, rest)
          | EmptyString => Throw SyntaxError
          end
        else if (n =? 91)%N then
          match skip_ws r with
          | String c1 r1 =>
              if (code c1 =? 93)%N then Ok (JArr [], r1)
              else
                do '(l, rest) <- parse_elems f r;
                Ok (JArr l, rest)
          | EmptyString => Throw SyntaxError
          end
        else if (n =? 34)%N then
          do '(t, rest) <- parse_chars r;
          Ok (JStr t, rest)
        else if (n =? 45)%N || is_digit c then parse_number (String c r)
        else parse_literal (String c r)
    end.
Proof. reflexivity. Qed.

Lemma parser_not_ignorable (fuel : nat) :
  (forall s, is_ignorable (parse_value fuel s) = false)
  /\ (forall s, is_ignorable (parse_elems fuel s) = false)
  /\ (forall acc s, is_ignorable (parse_members fuel acc s) = false).
Proof.
  induction fuel as [|f (IHv & IHe & IHm)]; [now repeat split|].
  split; [|split].
  - intros s. rewrite parse_value_S.
    destruct (skip_ws s) as [|c r]; [reflexivity|]. cbv zeta.
    destruct (code c =? 123)%N.
    { destruct (skip_ws r) as [|c1 r1]; [reflexivity|].
      destruct (code c1 =? 125)%N; [reflexivity|].
      apply bind_not_ignorable; [apply IHm|now intros [? ?]]. }
    destruct (code c =? 91)%N.
    { destruct (skip_ws r) as [|c1 r1]; [reflexivity|].
      destruct (code c1 =? 93)%N; [reflexivity|].
      apply bind_not_ignorable; [apply IHe|now intros [? ?]]. }
    destruct (code c =? 34)%N.
    { apply bind_not_ignorable;
        [apply parse_chars_not_ignorable|now intros [? ?]]. }
    destruct (_ || _);
      [apply parse_number_not_ignorable|apply parse_literal_not_ignorable].
  - intros s. rewrite parse_elems_step.
    apply bind_not_ignorable; [apply IHv|]. intros [v r].
    destruct (skip_ws r) as [|c r1]; [reflexivity|].
    destruct (code c =? 44)%N.
    { apply bind_not_ignorable; [apply IHe|now intros [? ?]]. }
    now destruct (code c =? 93)%N.
  - intros acc s. rewrite parse_members_step.
    apply bind_not_ignorable; [apply parse_key_not_ignorable|].
    intros [k r].
    apply bind_not_ignorable; [apply IHv|]. intros [v r0]. cbv zeta.
    destruct (skip_ws r0) as [|c r1]; [reflexivity|].
    destruct (code c =? 44)%N; [apply IHm|].
    now destruct (code c =? 125)%N.
Qed.

Lemma JSON_parse_not_ignorable (text : string) :
  is_ignorable (JSON_parse text) = false.
Proof.
  unfold JSON_parse. apply bind_not_ignorable.
  - apply parser_not_ignorable.
  - intros [v rest]. now destruct (skip_ws rest).
Qed.

Lemma parseSafeTensors_lenient (b : Bytes) (h : heap) :
  is_ignorable (fst (parseSafeTensors b true h)) = false.
Proof.
  unfold parseSafeTensors.
  apply bindM_not_ignorable; [apply sanityCheckTensorsHeader_lenient|].
  intros n h1 _.
  apply bindM_not_ignorable; [reflexivity|]. intros ret_ h2 _.
  apply bindM_not_ignorable; [apply TextDecoder_decode_not_ignorable|].
  intros text h3 _.
  apply bindM_not_ignorable; [apply JSON_parse_not_ignorable|].
  intros j h4 _.
  apply bindM_not_ignorable; [apply sanityCheckTensorsParsed_lenient|].
  intros [] h5 _.
  apply bindM_not_ignorable; [apply Object_entries_not_ignorable|].
  intros es h6 _.
  apply bindM_not_ignorable; [apply parseSafeTensors_loop_not_ignorable|].
  reflexivity.
Qed.

(** What the decoding loop leaves in the store when it returns. *)
Lemma parseSafeTensors_loop_inv (b : Bytes) (hdrsize : Z) (ret_ : loc)
    (es : list (string * json)) :
  forall (h h' : heap) (m : TensorMap),
    h.(tensorMaps) !! ret_ = Some m ->
    parseSafeTensors_loop b hdrsize ret_ es h = (Ok tt, h') ->
    exists m' : TensorMap,
      h'.(tensorMaps) !! ret_ = Some m'
      /\ (forall n l, Map_get m.(refs) n = Some l ->
                      Map_get m'.(refs) n = Some l)
      /\ (forall l, (l < h.(next))%positive ->
                    h'.(tensorRefs) !! l = h.(tensorRefs) !! l)
      /\ (h.(next) <= h'.(next))%positive
      /\ (forall name val,
             List.In (name, val) es -> name <> "__metadata__"%string ->
             exists (l : loc) (t : TensorRef) (o0 o1 : Z),
               Map_get m'.(refs) name = Some l
               /\ h'.(tensorRefs) !! l = Some t
               /\ get_prop val "dtype" = Some (JStr t.(format))
               /\ get_prop val "shape" = Some (JArr t.(shape))
               /\ get_prop val "data_offsets"
                  = Some (JArr [JNum o0; JNum o1])
               /\ t.(bytes)
                  = slice b (8 + hdrsize + o0) (8 + hdrsize + o1))
      /\ m'.(metadata) = header_metadata m.(metadata) es.
Proof.
  induction es as [|[k v] es IH]; intros h h' m Hm Hrun.
  - cbn [parseSafeTensors_loop] in Hrun. inversion Hrun; subst h'.
    exists m. repeat split; auto; try lia. intros name val [].
  - cbn [parseSafeTensors_loop] in Hrun.
    apply bindM_inv in Hrun as ([] & h1 & Hhead & Hrest).
    cbn [header_metadata].
    destruct (String.eqb k "__metadata__") eqn:Hk.
    + apply String.eqb_eq in Hk. subst k.
      apply bindM_lift_inv in Hhead as (md & Hmd & Hset).
      unfold TensorMap.setAllMetadata in Hset.
      erewrite bindM_get_map in Hset by exact Hm.
      unfold set_map in Hset. inversion Hset as [Hh1]. clear Hset.
      rewrite Hmd.
      destruct (IH h1 h' (mkTensorMap m.(refs) (Map_of_entries md)))
        as (m' & Hm' & Hold & Hframe & Hnext & Hnew & Hmeta);
        [subst h1; apply lookup_insert_eq|exact Hrest|].
      exists m'. subst h1. cbn [refs metadata tensorRefs next] in *.
      split; [exact Hm'|]. split; [exact Hold|]. split; [exact Hframe|].
      split; [exact Hnext|]. split; [|exact Hmeta].
      intros name val [Heq|Hin] Hname; [inversion Heq; congruence|].
      now apply Hnew.
    + apply String.eqb_neq in Hk.
      apply bindM_lift_inv in Hhead as ([[[dtype shp] start] end_] & He & Hadd).
      apply bindM_inv in Hadd as (l0 & h2 & Hadd & Hret).
      unfold ret in Hret. inversion Hret; subst h2. clear Hret.
      apply tensor_entry_inv in He as (Hd & Hs & Ho).
      destruct (addTensor_bytes_cases h ret_ k
                  (slice b (8 + hdrsize + start) (8 + hdrsize + end_))
                  dtype shp)
        as [(m0 & Hm0 & Hfresh & Hfmt & Hspec)|(e & h2 & Hthrow & _)];
        [|congruence].
      rewrite Hm in Hm0. inversion Hm0; subst m0. clear Hm0.
      rewrite Hspec in Hadd. inversion Hadd as [[Hl0 Hh1]]. clear Hadd.
      set (t0 := mkTensorRef k
                   (slice b (8 + hdrsize + start) (8 + hdrsize + end_))
                   dtype shp (Some ret_)) in *.
      set (m1 := set_refs m (m.(refs) ++ [(k, h.(next))])) in *.
      destruct (IH h1 h' m1)
        as (m' & Hm' & Hold & Hframe & Hnext & Hnew & Hmeta);
        [subst h1; apply lookup_insert_eq|exact Hrest|].
      exists m'. subst h1. cbn [tensorRefs next] in *.
      split; [exact Hm'|].
      assert (Hkeep : forall n l, Map_get m.(refs) n = Some l ->
                                  Map_get m1.(refs) n = Some l).
      { intros n l Hn. unfold m1, set_refs. cbn [refs].
        unfold Map_get in *. rewrite assoc_get_app, Hn. reflexivity. }
      split; [intros n l Hn; apply Hold, Hkeep, Hn|].
      split.
      { intros l Hl. rewrite Hframe by lia.
        apply lookup_insert_ne. lia. }
      split; [lia|]. split; [|exact Hmeta].
      intros name val [Heq|Hin] Hname; [|now apply Hnew].
      inversion Heq; subst name val.
      exists h.(next), t0, start, end_.
      split.
      { apply Hold. unfold m1, set_refs. cbn [refs].
        unfold Map_get in *. rewrite assoc_get_app, Hfresh.
        cbn [assoc_get]. now rewrite String.eqb_refl. }
      split.
      { rewrite Hframe by lia. apply lookup_insert_eq. }
      now repeat split.
Qed.

Lemma parseSafeTensors_kept (b : Bytes) (ignoreInvalid : bool)
    (h h' : heap) (c : loc) :
  parseSafeTensors b ignoreInvalid h = (Ok c, h') ->
  kept_verbatim b h' c.
Proof.
  unfold parseSafeTensors. intros H.
  apply bindM_lift_inv in H as (n & _ & H).
  apply bindM_inv in H as (ret_ & h1 & Hnew & H).
  unfold TensorMap.new, alloc_map in Hnew. inversion Hnew; subst ret_ h1.
  clear Hnew.
  apply bindM_lift_inv in H as (text & Htext & H).
  apply bindM_lift_inv in H as (j & Hj & H).
  apply bindM_lift_inv in H as ([] & _ & H).
  apply bindM_lift_inv in H as (es & Hes & H).
  apply bindM_inv in H as ([] & h2 & Hloop & Hret).
  unfold ret in Hret. inversion Hret; subst c h2. clear Hret.
  eapply parseSafeTensors_loop_inv in Hloop
    as (m' & Hm' & _ & _ & _ & Hnew & Hmeta);
    [|cbn [tensorMaps]; apply lookup_insert_eq].
  exists text, j, es, m'. repeat split; try assumption.
  intros name val Hin Hname.
  destruct (Hnew name val Hin Hname) as (l & t & o0 & o1 & Hl & Ht & Hd & Hs
                                         & Ho & Hb).
  exists l, t. repeat split; try assumption.
  intros a c Hac. rewrite Hac in Ho. inversion Ho; subst. exact Hb.
Qed.

(** C6, as stated, fails for the explicit size check: it takes no
    leniency flag, and on a tensor decoded with leniency enabled it raises
    its suppressible error all the same. *)
Lemma size_check_after_lenient_decode_counterexample :
  ~ (forall (b : Bytes) (h h' : heap) (c : loc) (tm : TensorMap)
            (n : string) (l : loc),
        parseSafeTensors b true h = (Ok c, h') ->
        h'.(tensorMaps) !! c = Some tm ->
        Map_get tm.(refs) n = Some l ->
        is_ignorable (fst (TensorRef_sanityCheck l h')) = false).
Proof.
  intros H.
  destruct (parseSafeTensors short_tensor_archive true empty_heap)
    as [r h'] eqn:E.
  assert (Hr : r = Ok 1%positive)
    by (apply (f_equal fst) in E; vm_compute in E; now symmetry).
  subst r.
  specialize (H short_tensor_archive empty_heap h' 1%positive
                (mkTensorMap [("ten", 2%positive)] []) "ten"%string
                2%positive E).
  apply (f_equal snd) in E. cbn [snd] in E. subst h'.
  vm_compute in H. specialize (H eq_refl eq_refl). discriminate H.
Qed.

(** Under leniency a range that leaves the data section is cut to the
    bytes there are. *)
Lemma lenient_range_is_cut :
  exists (h' : heap) (t : TensorRef),
    parseSafeTensors out_of_spec_archive true empty_heap = (Ok 1%positive, h')
    /\ h'.(tensorRefs) !! 3%positive = Some t
    /\ t.(_name) = "b"%string
    /\ t.(bytes) = [x03; x04; x05; x06].
Proof.
  eexists _, _. split; [vm_compute; reflexivity|].
  split; [vm_compute; reflexivity|]. split; reflexivity.
Qed.

(* ===================================================================== *)
(** ** The element size and the size check *)
(* ===================================================================== *)

Lemma match_digits_none (s : string) :
  match_digits s = None <-> has_digit s = false.
Proof.
  induction s as [|c r IH]; [now split|].
  cbn [match_digits has_digit]. destruct (is_digit c); [now split|exact IH].
Qed.

(** The match of [/\d+/] is the first maximal run of digits. *)
Lemma match_digits_first_run (pre ds post : string) :
  has_digit pre = false -> all_digits ds = true -> ds <> EmptyString ->
  not_digit_head post ->
  match_digits (pre +:+ ds +:+ post) = Some ds.
Proof.
  intros Hpre Hds Hne Hpost. induction pre as [|c pre IH].
  - rewrite append_nil_l. destruct ds as [|d ds]; [congruence|].
    rewrite append_cons. cbn [match_digits].
    cbn [all_digits] in Hds. apply andb_true_iff in Hds as [Hd Hds].
    rewrite Hd. rewrite <- append_cons.
    rewrite take_digits_append; [reflexivity| |assumption].
    cbn [all_digits]. now rewrite Hd, Hds.
  - rewrite append_cons. cbn [match_digits].
    cbn [has_digit] in Hpre. apply orb_false_iff in Hpre as [Hc Hpre].
    rewrite Hc. now apply IH.
Qed.

Lemma land_pred_power_of_two (n : Z) :
  0 < n -> (Z.land n (n - 1) = 0 <-> power_of_two n).
Proof.
  intros Hn. split.
  - intros Hland.
    pose proof (Z.log2_spec n Hn) as [Hlo Hhi].
    pose proof (Z.log2_nonneg n) as Hk.
    exists (Z.log2 n). split; [assumption|].
    destruct (Z.eq_dec n (2 ^ Z.log2 n)) as [|Hne]; [assumption|].
    exfalso.
    assert (Hlog : Z.log2 (n - 1) = Z.log2 n)
      by (apply Z.log2_unique; [assumption|]; rewrite <- Z.add_1_r in *; lia).
    assert (H1 : Z.testbit n (Z.log2 n) = true) by now apply Z.bit_log2.
    assert (H2 : Z.testbit (n - 1) (Z.log2 n) = true).
    { rewrite <- Hlog. apply Z.bit_log2.
      assert (0 < 2 ^ Z.log2 n) by (apply Z.pow_pos_nonneg; lia). lia. }
    assert (H3 : Z.testbit (Z.land n (n - 1)) (Z.log2 n) = true)
      by (rewrite Z.land_spec, H1, H2; reflexivity).
    rewrite Hland, Z.bits_0 in H3. discriminate H3.
  - intros (k & Hk & ->).
    replace (2 ^ k - 1) with (Z.ones k) by (rewrite Z.ones_equiv; lia).
    rewrite Z.land_ones by assumption. apply Z.mod_same.
    assert (0 < 2 ^ k) by (apply Z.pow_pos_nonneg; lia). lia.
Qed.

Lemma parseInt_or_0_small (ds : string) :
  Z.of_N (digits_value 0 ds) < 2147483648 ->
  parseInt_or_0 ds = Z.of_N (digits_value 0 ds).
Proof.
  intros H. unfold parseInt_or_0, round_to_double.
  assert (E : (digits_value 0 ds <? 2 ^ 53)%N = true).
  { apply N.ltb_lt. change (2 ^ 53)%N with 9007199254740992%N. lia. }
  rewrite E. apply ToInt32_small. lia.
Qed.

Lemma formatLength_of_width (fmt ds : string) :
  match_digits fmt = Some ds ->
  0 < Z.of_N (digits_value 0 ds) < 2147483648 ->
  (power_of_two (Z.of_N (digits_value 0 ds)) ->
   formatLength fmt = Ok (Z.of_N (digits_value 0 ds) # 8)%Q)
  /\ (~ power_of_two (Z.of_N (digits_value 0 ds)) ->
      formatLength fmt = Throw (Error (FormatNotPowerOfTwo fmt))).
Proof.
  intros Hm Hn. unfold formatLength. rewrite Hm.
  rewrite parseInt_or_0_small by lia.
  set (n := Z.of_N (digits_value 0 ds)) in *.
  rewrite js_or_0 by lia.
  unfold js_and. rewrite !ToInt32_small by lia.
  pose proof (land_pred_power_of_two n ltac:(lia)) as Hiff.
  split; intros Hp.
  - apply Hiff in Hp. rewrite Hp. reflexivity.
  - destruct (Z.land n (n - 1) =? 0) eqn:E; [|reflexivity].
    apply Z.eqb_eq, Hiff in E. contradiction.
Qed.

(** X1.  The element size of a format tag whose first run of digits is a bit
    width between 1 and 2^31 - 1: an eighth of the width when it is a
    power of two (a fraction below 8 bits), the fatal error otherwise. *)
Theorem formatLength_bit_width (pre ds post : string) :
  has_digit pre = false -> all_digits ds = true -> ds <> EmptyString ->
  not_digit_head post ->
  0 < Z.of_N (digits_value 0 ds) < 2147483648 ->
  (power_of_two (Z.of_N (digits_value 0 ds)) ->
   formatLength (pre +:+ ds +:+ post)
   = Ok (Z.of_N (digits_value 0 ds) # 8)%Q)
  /\ (~ power_of_two (Z.of_N (digits_value 0 ds)) ->
      formatLength (pre +:+ ds +:+ post)
      = Throw (Error (FormatNotPowerOfTwo (pre +:+ ds +:+ post)))).
Proof.
  intros Hpre Hds Hne Hpost Hn.
  apply formatLength_of_width; [|assumption].
  now apply match_digits_first_run.
Qed.

Lemma formatLength_bit_width_witness :
  formatLength "BF16" = Ok (16 # 8)%Q
  /\ formatLength "Q4_K" = Ok (4 # 8)%Q.
Proof.
  split.
  - apply (proj1 (formatLength_bit_width "BF" "16" "" eq_refl eq_refl
                    ltac:(discriminate) I ltac:(vm_compute; split; reflexivity))).
    exists 4. split; [lia|reflexivity].
  - apply (proj1 (formatLength_bit_width "Q" "4" "_K" eq_refl eq_refl
                    ltac:(discriminate) eq_refl
                    ltac:(vm_compute; split; reflexivity))).
    exists 2. split; [lia|reflexivity].
Defined.

(** X2.  A format tag without a digit is the only one [formatLength] rejects
    for its missing bit size. *)
Theorem formatLength_without_digits (fmt : string) :
  has_digit fmt = false
  <-> formatLength fmt = Throw (Error (FormatWithoutBitSize fmt)).
Proof.
  rewrite <- match_digits_none. unfold formatLength.
  destruct (match_digits fmt) as [ds|]; [|now split].
  split; [discriminate|].
  destruct (negb _); discriminate.
Qed.

Lemma shape_product_numbers (dims : list Z) (num : Z) :
  exact_products num dims = true ->
  shape_product (map JNum dims) num = Ok (num * element_count dims).
Proof.
  revert num. induction dims as [|d dims IH]; intros num H.
  - cbn. f_equal. lia.
  - cbn [exact_products] in H. apply andb_true_iff in H as [Hd Hr].
    cbn [map shape_product as_Integer bind element_count fold_right].
    rewrite Hd. rewrite IH by exact Hr. f_equal. unfold element_count. lia.
Qed.

(** X3.  The explicit size check on a tensor of integer dimensions whose
    running product stays within the integers a number holds exactly, and
    whose format holds a power-of-two bit width: it accepts exactly when
    the bytes are the elements times the width, and raises the
    suppressible size error otherwise.  An empty shape counts one
    element. *)
Theorem sanityCheck_size_equation (name : TensorName) (b : Bytes)
    (fmt ds : string) (dims : list Z) :
  match_digits fmt = Some ds ->
  0 < Z.of_N (digits_value 0 ds) < 2147483648 ->
  power_of_two (Z.of_N (digits_value 0 ds)) ->
  exact_products 1 dims = true ->
  _sanityCheck name b (Some fmt) (Some (map JNum dims))
  = if 8 * byteLength b =? element_count dims * Z.of_N (digits_value 0 ds)
    then Ok tt
    else Throw (IgnorableError (WrongSize name)).
Proof.
  intros Hm Hn Hp Hexact. unfold _sanityCheck.
  assert (Hfmt : String.eqb fmt EmptyString = false).
  { destruct fmt; [discriminate Hm|reflexivity]. }
  rewrite Hfmt. cbv zeta.
  assert (Hprod : shape_product
                    match map JNum dims return list json with
                    | [] => [JNum 1]
                    | _ :: _ => map JNum dims
                    end 1 = Ok (element_count dims)).
  { destruct dims as [|d dims]; [reflexivity|].
    change (shape_product (map JNum (d :: dims)) 1
            = Ok (element_count (d :: dims))).
    rewrite shape_product_numbers by exact Hexact. f_equal. lia. }
  rewrite Hprod. cbn [bind].
  rewrite (proj1 (formatLength_of_width fmt ds Hm Hn) Hp). cbn [bind].
  set (n := Z.of_N (digits_value 0 ds)).
  unfold Qeq_bool, Qmult, inject_Z. cbn [Qnum Qden].
  replace (byteLength b * Z.pos (1 * 8)) with (8 * byteLength b) by lia.
  replace (element_count dims * n * 1) with (element_count dims * n) by lia.
  now destruct (8 * byteLength b =? element_count dims * n).
Qed.

Lemma sanityCheck_size_equation_witness :
  _sanityCheck "t" [x01; x02; x03] (Some "U4"%string)
    (Some (map JNum [2; 3]))
  = Ok tt
  /\ _sanityCheck "t" [x01; x02; x03] (Some "F16"%string)
       (Some (map JNum [2]))
     = Throw (IgnorableError (WrongSize "t")).
Proof.
  split.
  - apply (sanityCheck_size_equation "t" [x01; x02; x03] "U4" "4" [2; 3]
             eq_refl ltac:(vm_compute; split; reflexivity));
      [|reflexivity].
    exists 2. split; [lia|reflexivity].
  - apply (sanityCheck_size_equation "t" [x01; x02; x03] "F16" "16" [2]
             eq_refl ltac:(vm_compute; split; reflexivity));
      [|reflexivity].
    exists 4. split; [lia|reflexivity].
Defined.

(* ===================================================================== *)
(** ** The validator of the raw header *)
(* ===================================================================== *)

Lemma arrayCompare_from_eq (a b : list Z) :
  length a = length b -> arrayCompare_from a b = true -> a = b.
Proof.
  revert b. induction a as [|x a IH]; intros [|y b] Hlen H;
    try discriminate Hlen; [reflexivity|].
  cbn [arrayCompare_from] in H.
  destruct (Z.eqb_spec x y) as [->|]; [|discriminate H].
  cbn [negb] in H. f_equal. apply IH; [|assumption].
  now inversion Hlen.
Qed.

(** X4.  [arrayCompare] answers true on equal arrays and on no others. *)
Theorem arrayCompare_true_iff (a b : list Z) :
  arrayCompare a b = true <-> a = b.
Proof.
  unfold arrayCompare. split.
  - destruct (Nat.eqb_spec (length a) (length b)) as [Hlen|];
      [|discriminate].
    cbn [negb]. now apply arrayCompare_from_eq.
  - intros <-. rewrite Nat.eqb_refl. cbn [negb].
    induction a as [|x a IH]; [reflexivity|].
    cbn [arrayCompare_from]. now rewrite Z.eqb_refl.
Qed.

Lemma slice_length_le (b : Bytes) (start end_ : Z) :
  0 <= start ->
  byteLength (slice b start end_) <= Z.max (byteLength b - start) 0.
Proof.
  intros Hs. unfold slice, relative_index, byteLength.
  rewrite length_firstn, length_skipn.
  destruct (start <? 0) eqn:E; [apply Z.ltb_lt in E; lia|].
  destruct (end_ <? 0); lia.
Qed.

(** X5.  A buffer of fewer than nine bytes is not a safetensors header,
    whatever the flag and the file size given. *)
Theorem sanityCheckTensorsHeader_short_buffer (ignoreInvalid : bool)
    (bytes : Bytes) (filesize : Z) :
  byteLength bytes < 9 ->
  sanityCheckTensorsHeader ignoreInvalid bytes filesize
  = Throw (Error HeaderNotValid).
Proof.
  intros Hlen. unfold sanityCheckTensorsHeader.
  assert (E : arrayCompare (map byte_val (slice bytes 4 9)) [0; 0; 0; 0; 123]
              = false).
  { unfold arrayCompare. rewrite length_map.
    pose proof (slice_length_le bytes 4 9 ltac:(lia)) as H.
    unfold byteLength in H, Hlen.
    destruct (Nat.eqb_spec (length (slice bytes 4 9)) (length [0; 0; 0; 0; 123]))
      as [E|E]; [|reflexivity].
    cbn [length] in E. lia. }
  now rewrite E.
Qed.

Lemma sanityCheckTensorsHeader_short_buffer_witness :
  sanityCheckTensorsHeader true [x00; x00; x00; x00; x00; x00; x00; x00] 8
  = Throw (Error HeaderNotValid).
Proof.
  apply (sanityCheckTensorsHeader_short_buffer true
           [x00; x00; x00; x00; x00; x00; x00; x00] 8).
  vm_compute. reflexivity.
Defined.

(** X6.  What a successful check of the raw header guarantees: the bytes 4 to 8
    are four zeros and an opening brace, the value returned is the header
    size read from the buffer, the header fits into the file size given,
    and without leniency it is at most 100 MiB. *)
Theorem sanityCheckTensorsHeader_returns (ignoreInvalid : bool)
    (bytes : Bytes) (filesize val : Z) :
  sanityCheckTensorsHeader ignoreInvalid bytes filesize = Ok val ->
  map byte_val (slice bytes 4 9) = [0; 0; 0; 0; 123]
  /\ val = unsafeGetHeaderSize bytes
  /\ 8 + val <= filesize
  /\ (ignoreInvalid = false -> val <= MAX_HEADER).
Proof.
  unfold sanityCheckTensorsHeader.
  destruct (arrayCompare _ _) eqn:Hmagic; [|discriminate].
  cbn [negb]. unfold arrayCompare in Hmagic.
  destruct (Nat.eqb_spec (length (map byte_val (slice bytes 4 9)))
              (length [0; 0; 0; 0; 123])) as [Hlen|];
    [|discriminate Hmagic].
  cbn [negb] in Hmagic. apply (arrayCompare_from_eq _ _ Hlen) in Hmagic.
  destruct ((MAX_HEADER <? unsafeGetHeaderSize bytes) && negb ignoreInvalid)
    eqn:Hmax; [discriminate|].
  destruct (filesize <? 8 + unsafeGetHeaderSize bytes) eqn:Hsize;
    [discriminate|].
  intros H. inversion H; subst val. apply Z.ltb_ge in Hsize.
  repeat split; try assumption; try lia.
  intros ->. rewrite andb_true_r in Hmax. now apply Z.ltb_ge in Hmax.
Qed.

Lemma sanityCheckTensorsHeader_returns_witness :
  sanityCheckTensorsHeader false test_archive 88 = Ok 64
  /\ 64 = unsafeGetHeaderSize test_archive.
Proof.
  assert (H : sanityCheckTensorsHeader false test_archive 88 = Ok 64)
    by (vm_compute; reflexivity).
  split; [exact H|].
  exact (proj1 (proj2 (sanityCheckTensorsHeader_returns false test_archive
                         88 64 H))).
Defined.

Lemma ToInt32_unsigned (u : Z) :
  0 <= u < 4294967296 ->
  ToInt32 u = if u <? 2147483648 then u else u - 4294967296.
Proof.
  intros H. unfold ToInt32. destruct (Z.ltb_spec u 2147483648).
  - rewrite Z.mod_small by lia. lia.
  - replace (u + 2147483648) with (u - 2147483648 + 1 * 4294967296) by lia.
    rewrite Z.mod_add by lia. rewrite Z.mod_small by lia. lia.
Qed.

(** X7.  The header size is the little-endian value of the first four bytes
    read as a signed 32-bit integer: the unsigned value below 2^31, and
    that value less 2^32 from 2^31 on. *)
Theorem unsafeGetHeaderSize_signed_little_endian (b0 b1 b2 b3 : byte)
    (rest : Bytes) :
  let u := byte_val b0 + 256 * byte_val b1 + 65536 * byte_val b2
           + 16777216 * byte_val b3 in
  unsafeGetHeaderSize (b0 :: b1 :: b2 :: b3 :: rest)
  = if u <? 2147483648 then u else u - 4294967296.
Proof.
  intros u. unfold unsafeGetHeaderSize, byte_or_0, byte_at.
  cbn [nth_error].
  pose proof (byte_val_bounds b0). pose proof (byte_val_bounds b1).
  pose proof (byte_val_bounds b2). pose proof (byte_val_bounds b3).
  rewrite (js_or_0 (byte_val b0)), (js_or_0 (byte_val b1)),
    (js_or_0 (byte_val b2)), (js_or_0 (byte_val b3)) by lia.
  unfold js_or. change (ToInt32 0) with 0. rewrite Z.lor_0_r.
  replace (byte_val b0 + byte_val b1 * 256 + byte_val b2 * 256 * 256
           + byte_val b3 * 256 * 256 * 256) with u by (unfold u; lia).
  apply ToInt32_unsigned. unfold u. lia.
Qed.

(* ===================================================================== *)
(** ** The validator of the parsed header *)
(* ===================================================================== *)

Section StrictChecker.

Import TensorAttributeChecker.

Lemma checkTensorShape_loop_strict (this : t) (key : string)
    (val : list json) :
  this.(ignoreInvalid) = false ->
  checkTensorShape_loop this key val = Ok tt ->
  forallb is_number val = true.
Proof.
  intros Hs. induction val as [|v r IH]; [reflexivity|].
  cbn [checkTensorShape_loop forallb]. rewrite Hs. cbn [negb].
  rewrite andb_true_r.
  destruct v; cbn; try discriminate. exact IH.
Qed.

Lemma checkOverlap_loop_strict (this : t) (key : string)
    (cov : list OffsetPair) (val : OffsetPair) :
  this.(ignoreInvalid) = false ->
  checkOverlap_loop this key cov val = Ok tt ->
  Forall (fun c => flags c val = false) cov.
Proof.
  intros Hs. induction cov as [|[s e] r IH]; [constructor|].
  cbn [checkOverlap_loop]. unfold checkTensorOverlap. rewrite Hs.
  cbv zeta. cbn [negb].
  destruct ((s <? snd val) && (snd val <=? e)) eqn:E1;
    destruct ((s <=? fst val) && (fst val <? e)) eqn:E2;
    cbn [bind]; try discriminate.
  intros H. constructor; [|now apply IH].
  unfold flags. cbn [fst snd]. now rewrite E1, E2.
Qed.

Lemma checkDataOffsetBasics_strict (this : t) (key : string)
    (val : OffsetPair) :
  this.(ignoreInvalid) = false ->
  checkDataOffsetBasics this key val = Ok tt ->
  pairInRange val this.(chunksize) = true.
Proof.
  intros Hs. unfold checkDataOffsetBasics. rewrite Hs. cbn [negb].
  rewrite andb_true_r. now destruct (pairInRange val (chunksize this)).
Qed.

End StrictChecker.

Section StrictDispatch.

Import TensorAttributeChecker.

Variable this : t.
Hypothesis strict : this.(ignoreInvalid) = false.

(** What an accepted attribute tells, and the checker after it. *)
Lemma dispatch_strict (key name : string) (val : json) (this' : t) :
  attrOk key = true ->
  dispatch this key name val = Ok this' ->
  (key = "dtype"%string
   /\ (exists s, val = JStr s)
   /\ this' = mk this.(chunksize) this.(covered) false true
                 this.(has_shape) this.(has_data_offsets))
  \/ (key = "shape"%string
      /\ (exists l, val = JArr l /\ forallb is_number l = true)
      /\ this' = mk this.(chunksize) this.(covered) false this.(has_dtype)
                    true this.(has_data_offsets))
  \/ (key = "data_offsets"%string
      /\ (exists a b,
             val = JArr [JNum a; JNum b]
             /\ pairInRange (a, b) this.(chunksize) = true
             /\ Forall (fun c => flags c (a, b) = false) this.(covered)
             /\ this' = mk this.(chunksize) (this.(covered) ++ [(a, b)])
                           false this.(has_dtype) this.(has_shape) true)).
Proof.
  intros Hok. unfold dispatch.
  destruct (String.eqb_spec key "dtype") as [->|Hd].
  { unfold dtype. intros H. left. split; [reflexivity|].
    destruct val; try discriminate H. cbn in H. inversion H.
    rewrite strict. split; [now eexists|reflexivity]. }
  destruct (String.eqb_spec key "shape") as [->|Hs].
  { unfold shape, checkTensorShape. intros H. right. left.
    split; [reflexivity|].
    destruct val as [| | | |l|]; try discriminate H.
    cbv beta iota in H.
    revert H.
    destruct (checkTensorShape_loop this name l) as [[]|e] eqn:E;
      intros H; [|discriminate H].
    cbn [bind] in H. inversion H. rewrite strict.
    split; [|reflexivity]. exists l. split; [reflexivity|].
    now apply (checkTensorShape_loop_strict this name). }
  assert (Hk : key = "data_offsets"%string).
  { unfold attrOk in Hok.
    apply String.eqb_neq in Hd, Hs. rewrite Hd, Hs in Hok.
    now apply String.eqb_eq in Hok. }
  subst key. unfold data_offsets, checkDataOffsets. intros H.
  right. right. split; [reflexivity|].
  destruct val as [| | | |l|]; try discriminate H.
  cbv beta iota in H.
  destruct (negb (length l =? 2)%nat); [discriminate H|].
  unfold as_OffsetPair in H.
  destruct l as [|x [|y [|z l]]]; try discriminate H.
  destruct x as [| |a| | |]; try discriminate H.
  destruct y as [| |b| | |]; try discriminate H.
  cbn [as_Integer bind] in H.
  revert H.
  destruct (checkDataOffsetBasics _ _ _) as [[]|e] eqn:E1;
    [|cbn [bind]; discriminate].
  cbn [bind].
  destruct (checkOverlap_loop _ _ _ _) as [[]|e] eqn:E2;
    [|cbn [bind]; discriminate].
  intros H.
  cbn [bind covered chunksize ignoreInvalid has_dtype has_shape] in H.
  inversion H. rewrite strict. exists a, b.
  split; [reflexivity|].
  split; [now apply (checkDataOffsetBasics_strict this name)|].
  split; [now apply (checkOverlap_loop_strict this name)|reflexivity].
Qed.

End StrictDispatch.

Section StrictTensorValue.

Import TensorAttributeChecker.

(** The attributes a strict checker lets through, the flags it sets and
    the ranges it records. *)
Lemma checkTensorValue_loop_strict (name : string)
    (es : list (string * json)) :
  forall this this' : t,
    this.(ignoreInvalid) = false ->
    checkTensorValue_loop this name es = Ok this' ->
    Forall (fun kv => attrOk (fst kv) = true) es
    /\ (forall v, List.In ("dtype"%string, v) es -> exists s, v = JStr s)
    /\ (forall v, List.In ("shape"%string, v) es ->
                  exists l, v = JArr l /\ forallb is_number l = true)
    /\ (forall v, List.In ("data_offsets"%string, v) es ->
                  exists a b, v = JArr [JNum a; JNum b]
                              /\ pairInRange (a, b) this.(chunksize) = true)
    /\ (this'.(has_dtype) = true ->
        this.(has_dtype) = true \/ exists v, List.In ("dtype"%string, v) es)
    /\ (this'.(has_shape) = true ->
        this.(has_shape) = true \/ exists v, List.In ("shape"%string, v) es)
    /\ (this'.(has_data_offsets) = true ->
        this.(has_data_offsets) = true
        \/ exists v, List.In ("data_offsets"%string, v) es)
    /\ exists added : list OffsetPair,
         this'.(covered) = this.(covered) ++ added
         /\ match assoc_get es "data_offsets" with
            | Some (JArr [JNum a; JNum b]) =>
                (exists extra, added = (a, b) :: extra)
                /\ Forall (fun c => flags c (a, b) = false) this.(covered)
            | Some _ => False
            | None => added = []
            end.
Proof.
  induction es as [|[key val] r IH]; intros this this' Hs Hrun.
  - cbn [checkTensorValue_loop] in Hrun. inversion Hrun; subst this'.
    split; [constructor|].
    do 3 (split; [intros v []|]).
    do 3 (split; [now left|]).
    exists []. now rewrite app_nil_r.
  - cbn [checkTensorValue_loop] in Hrun.
    destruct (attrOk key) eqn:Hok;
      [|cbn [negb] in Hrun; rewrite Hs in Hrun; discriminate Hrun].
    cbn [negb] in Hrun.
    destruct (dispatch this key name val) as [this1|e] eqn:Hd;
      [|discriminate Hrun].
    cbn [bind] in Hrun.
    pose proof (dispatch_strict this Hs key name val this1 Hok Hd) as Hcase.
    assert (Hs1 : ignoreInvalid this1 = false).
    { destruct Hcase as [(_ & _ & ->)|[(_ & _ & ->)|(_ & a & b & _ & _ & _ & ->)]];
        reflexivity. }
    destruct (IH this1 this' Hs1 Hrun)
      as (Hkeys & Hdt & Hsh & Hdo & Hhd & Hhs & Hho & added & Hcov & Hfirst).
    split; [constructor; [exact Hok|exact Hkeys]|].
    destruct Hcase
      as [(-> & (s & ->) & ->)
         |[(-> & (l & -> & Hnum) & ->)
          |(-> & a & b & -> & Hrange & Hflags & ->)]];
      cbn [chunksize covered has_dtype has_shape has_data_offsets] in *.
    + (* dtype *)
      split; [intros v [E|Hin]; [inversion E; now eexists|now apply Hdt]|].
      split; [intros v [E|Hin]; [discriminate E|now apply Hsh]|].
      split; [intros v [E|Hin]; [discriminate E|now apply Hdo]|].
      split; [intros _; right; eexists; now left|].
      split.
      { intros H. destruct (Hhs H) as [|[v Hv]]; [now left|].
        right. exists v. now right. }
      split.
      { intros H. destruct (Hho H) as [|[v Hv]]; [now left|].
        right. exists v. now right. }
      exists added. split; [exact Hcov|]. exact Hfirst.
    + (* shape *)
      split; [intros v [E|Hin]; [discriminate E|now apply Hdt]|].
      split; [intros v [E|Hin]; [inversion E; now eexists|now apply Hsh]|].
      split; [intros v [E|Hin]; [discriminate E|now apply Hdo]|].
      split.
      { intros H. destruct (Hhd H) as [|[v Hv]]; [now left|].
        right. exists v. now right. }
      split; [intros _; right; eexists; now left|].
      split.
      { intros H. destruct (Hho H) as [|[v Hv]]; [now left|].
        right. exists v. now right. }
      exists added. split; [exact Hcov|]. exact Hfirst.
    + (* data_offsets *)
      split; [intros v [E|Hin]; [discriminate E|now apply Hdt]|].
      split; [intros v [E|Hin]; [discriminate E|now apply Hsh]|].
      split; [intros v [E|Hin]; [inversion E; now eexists _, _|now apply Hdo]|].
      split.
      { intros H. destruct (Hhd H) as [|[v Hv]]; [now left|].
        right. exists v. now right. }
      split.
      { intros H. destruct (Hhs H) as [|[v Hv]]; [now left|].
        right. exists v. now right. }
      split; [intros _; right; eexists; now left|].
      exists ((a, b) :: added). split.
      { rewrite Hcov, <- app_assoc. reflexivity. }
      split; [now eexists|exact Hflags].
Qed.

End StrictTensorValue.

Lemma In_assoc_get (l : list (string * json)) (k : string) (v : json) :
  List.In (k, v) l -> exists v', assoc_get l k = Some v'.
Proof.
  intros Hin. destruct (assoc_get l k) as [v'|] eqn:E; [now exists v'|].
  exfalso. exact (assoc_get_None_In l k v E Hin).
Qed.

(** A tensor description the strict checker accepts is in order; its
    range is recorded after the ranges seen so far, none of which made
    the overlap test fire. *)
Lemma checkTensorValue_strict (chunksize : Z) (cov : list OffsetPair)
    (name : string) (value : json) (tac : TensorAttributeChecker.t) :
  TensorAttributeChecker.checkTensorValue
    (TensorAttributeChecker.new chunksize cov false) name value = Ok tac ->
  well_formed_tensor chunksize value
  /\ exists (r : OffsetPair) (extra : list OffsetPair),
       entry_range value = Some r
       /\ tac.(TensorAttributeChecker.covered) = cov ++ r :: extra
       /\ Forall (fun c => flags c r = false) cov.
Proof.
  unfold TensorAttributeChecker.checkTensorValue. intros H.
  destruct (Object_entries value) as [es|e] eqn:Hes; [|discriminate H].
  cbn [bind] in H.
  destruct (TensorAttributeChecker.checkTensorValue_loop _ name es)
    as [this'|e] eqn:Hloop; [|discriminate H].
  cbn [bind] in H.
  destruct (TensorAttributeChecker.assertAttributePresence this' name)
    as [[]|e] eqn:Hpres; [|discriminate H].
  cbn [bind] in H. inversion H; subst tac. clear H.
  unfold TensorAttributeChecker.assertAttributePresence in Hpres.
  destruct (TensorAttributeChecker.has_dtype this') eqn:H1;
    [|discriminate Hpres].
  destruct (TensorAttributeChecker.has_shape this') eqn:H2;
    [|discriminate Hpres].
  destruct (TensorAttributeChecker.has_data_offsets this') eqn:H3;
    [|discriminate Hpres].
  clear Hpres.
  destruct (checkTensorValue_loop_strict name es
              (TensorAttributeChecker.new chunksize cov false) this'
              eq_refl Hloop)
    as (Hkeys & Hdt & Hsh & Hdo & Hhd & Hhs & Hho & added & Hcov & Hfirst).
  cbn [TensorAttributeChecker.new TensorAttributeChecker.has_dtype
       TensorAttributeChecker.has_shape
       TensorAttributeChecker.has_data_offsets
       TensorAttributeChecker.covered
       TensorAttributeChecker.chunksize] in *.
  destruct (Hhd H1) as [Hf|[v1 Hv1]]; [discriminate Hf|].
  destruct (Hhs H2) as [Hf|[v2 Hv2]]; [discriminate Hf|].
  destruct (Hho H3) as [Hf|[v3 Hv3]]; [discriminate Hf|].
  assert (Hobj : value = JObj es).
  { destruct value as [|?|?|s|l|fields]; cbn in Hes;
      try (destruct (is_ascii _); [|discriminate Hes]); inversion Hes; subst es;
      try (now destruct Hv1); try reflexivity.
    - destruct s as [|c s]; [now destruct Hv1|].
      inversion Hkeys as [|? ? Hk _]. discriminate Hk.
    - destruct l as [|x l]; [now destruct Hv1|].
      inversion Hkeys as [|? ? Hk _]. discriminate Hk. }
  subst value.
  destruct (In_assoc_get es _ _ Hv1) as (w1 & Hw1).
  destruct (In_assoc_get es _ _ Hv2) as (w2 & Hw2).
  destruct (In_assoc_get es _ _ Hv3) as (w3 & Hw3).
  destruct (Hdt w1 (assoc_get_In _ _ _ Hw1)) as (s & ->).
  destruct (Hsh w2 (assoc_get_In _ _ _ Hw2)) as (l & -> & Hnum).
  destruct (Hdo w3 (assoc_get_In _ _ _ Hw3)) as (a & b & -> & Hrange).
  rewrite Hw3 in Hfirst. destruct Hfirst as ((extra & ->) & Hflags).
  split.
  - exists es, s, l, a, b. repeat split; assumption.
  - exists (a, b), extra. unfold entry_range, get_prop. rewrite Hw3.
    repeat split; assumption.
Qed.

Lemma checkMetadata_strict (value : json) :
  checkMetadata false value = Ok tt -> well_formed_metadata value.
Proof.
  unfold checkMetadata, well_formed_metadata.
  destruct (Object_entries value) as [es|e]; [|discriminate].
  cbn [bind]. intros H. exists es. split; [reflexivity|].
  induction es as [|[k v] r IH]; [constructor|].
  cbn [checkMetadata_loop] in H. rewrite andb_true_r in H.
  destruct v; try discriminate H. cbn in H.
  constructor; [now eexists|now apply IH].
Qed.

(** What a strict pass over the entries of a header establishes. *)
Lemma sanityCheckTensorsParsed_loop_strict (chunksize : Z)
    (es : list (string * json)) :
  forall cov cov' : list OffsetPair,
    sanityCheckTensorsParsed_loop false chunksize cov es = Ok cov' ->
    (forall v, List.In ("__metadata__"%string, v) es ->
               well_formed_metadata v)
    /\ (forall pre n v post,
           es = pre ++ (n, v) :: post -> n <> "__metadata__"%string ->
           well_formed_tensor chunksize v
           /\ exists r,
                entry_range v = Some r
                /\ Forall (fun c => flags c r = false) cov
                /\ (forall n1 v1 r1,
                       List.In (n1, v1) pre ->
                       n1 <> "__metadata__"%string ->
                       entry_range v1 = Some r1 -> flags r1 r = false)).
Proof.
  induction es as [|[k v] es IH]; intros cov cov' Hrun.
  - split; [intros v []|]. intros [|x pre] n v post E; discriminate E.
  - cbn [sanityCheckTensorsParsed_loop] in Hrun.
    destruct (String.eqb_spec k "__metadata__") as [->|Hk].
    + destruct (checkMetadata false v) as [[]|e] eqn:Hmd; [|discriminate Hrun].
      cbn [bind] in Hrun. destruct (IH cov cov' Hrun) as (IHm & IHt).
      split.
      * intros v' [E|Hin]; [inversion E; subst v'|now apply IHm].
        now apply checkMetadata_strict.
      * intros [|x pre] n v' post E Hn.
        { inversion E; subst n. congruence. }
        inversion E; subst x es.
        destruct (IHt pre n v' post eq_refl Hn)
          as (Hwf & r & Hr & Hcov & Hpre).
        split; [exact Hwf|]. exists r. split; [exact Hr|].
        split; [exact Hcov|].
        intros n1 v1 r1 [E1|Hin] Hn1 Hr1; [inversion E1; congruence|].
        now apply (Hpre n1 v1 r1).
    + destruct (TensorAttributeChecker.checkTensorValue _ k v)
        as [tac|e] eqn:Htac; [|discriminate Hrun].
      cbn [bind] in Hrun.
      destruct (checkTensorValue_strict chunksize cov k v tac Htac)
        as (Hwf0 & r0 & extra & Hr0 & Hcov0 & Hflags0).
      destruct (IH _ cov' Hrun) as (IHm & IHt).
      split.
      * intros v' [E|Hin]; [inversion E; congruence|now apply IHm].
      * intros [|x pre] n v' post E Hn.
        { inversion E; subst n v' post.
          split; [exact Hwf0|]. exists r0. split; [exact Hr0|].
          split; [exact Hflags0|]. intros n1 v1 r1 []. }
        inversion E; subst x es.
        destruct (IHt pre n v' post eq_refl Hn)
          as (Hwf & r & Hr & Hcov & Hpre).
        rewrite Hcov0 in Hcov. apply Forall_app in Hcov as [Hcov1 Hcov2].
        split; [exact Hwf|]. exists r. split; [exact Hr|].
        split; [exact Hcov1|].
        intros n1 v1 r1 [E1|Hin] Hn1 Hr1.
        { inversion E1; subst n1 v1. rewrite Hr0 in Hr1.
          inversion Hr1; subst r1. now inversion Hcov2. }
        now apply (Hpre n1 v1 r1).
Qed.

Lemma sanityCheckTensorsParsed_strict_entries (j : json) (chunksize : Z)
    (es : list (string * json)) :
  sanityCheckTensorsParsed false j chunksize = Ok tt ->
  Object_entries j = Ok es ->
  forall n v,
    List.In (n, v) es ->
    if String.eqb n "__metadata__" then well_formed_metadata v
    else well_formed_tensor chunksize v.
Proof.
  unfold sanityCheckTensorsParsed. intros H Hes. rewrite Hes in H.
  cbn [bind] in H.
  destruct (sanityCheckTensorsParsed_loop false chunksize [] es)
    as [cov'|e] eqn:Hrun; [|discriminate H].
  destruct (sanityCheckTensorsParsed_loop_strict chunksize es [] cov' Hrun)
    as (Hm & Ht).
  intros n v Hin. destruct (String.eqb_spec n "__metadata__") as [->|Hn].
  - now apply Hm.
  - apply in_split in Hin as (pre & post & ->).
    now destruct (Ht pre n v post eq_refl Hn).
Qed.

Lemma well_formed_tensor_checked (chunksize : Z) (value : json) :
  well_formed_tensor chunksize value -> checked_tensor chunksize value.
Proof.
  intros (fields & dtype & shp & a & b & Hv & Hk & Hd & Hs & Hn & Ho & Hr).
  exists fields, dtype, shp, (JNum a), (JNum b).
  repeat (split; [assumption|]).
  intros a' b' Ea Eb. inversion Ea; inversion Eb; subst. exact Hr.
Qed.

(** X8.  A header the strict validator accepts is in order: its metadata
    holds strings only, and every other entry is a tensor description
    with the three attributes and no other, a string for [dtype], a shape
    of numbers, and for [data_offsets] two elements which, when they are
    integers, delimit a range inside the data section. *)
Theorem sanityCheckTensorsParsed_strict_sound (j : json) (chunksize : Z) :
  sanityCheckTensorsParsed false j chunksize = Ok tt ->
  exists entries : list (string * json),
    Object_entries j = Ok entries
    /\ forall n v,
         List.In (n, v) entries ->
         if String.eqb n "__metadata__" then well_formed_metadata v
         else checked_tensor chunksize v.
Proof.
  intros H.
  destruct (Object_entries j) as [es|e] eqn:Hes.
  - exists es. split; [reflexivity|]. intros n v Hin.
    pose proof (sanityCheckTensorsParsed_strict_entries j chunksize es H Hes
                  n v Hin) as Hv.
    destruct (String.eqb n "__metadata__"); [exact Hv|].
    now apply well_formed_tensor_checked.
  - unfold sanityCheckTensorsParsed in H. rewrite Hes in H. discriminate H.
Qed.

Lemma sanityCheckTensorsParsed_strict_sound_witness :
  sanityCheckTensorsParsed false nested_ranges_header 12 = Ok tt
  /\ exists entries : list (string * json),
       Object_entries nested_ranges_header = Ok entries
       /\ forall n v,
            List.In (n, v) entries ->
            if String.eqb n "__metadata__" then well_formed_metadata v
            else checked_tensor 12 v.
Proof.
  split; [vm_compute; reflexivity|].
  apply (sanityCheckTensorsParsed_strict_sound nested_ranges_header 12).
  vm_compute. reflexivity.
Defined.

(** X9.  The only overlap the strict validator lets through: when the ranges
    of two tensor entries share a byte, the later range strictly contains
    the earlier one. *)
Theorem strict_overlap_is_containment (j : json) (chunksize : Z)
    (pre mid post : list (string * json)) (n1 n2 : string) (v1 v2 : json)
    (c v : OffsetPair) :
  sanityCheckTensorsParsed false j chunksize = Ok tt ->
  Object_entries j = Ok (pre ++ (n1, v1) :: mid ++ (n2, v2) :: post) ->
  n1 <> "__metadata__"%string -> n2 <> "__metadata__"%string ->
  entry_range v1 = Some c -> entry_range v2 = Some v ->
  ranges_intersect c v ->
  fst v < fst c /\ snd c < snd v.
Proof.
  unfold sanityCheckTensorsParsed. intros H Hes Hn1 Hn2 Hc Hv Hx.
  rewrite Hes in H. cbn [bind] in H.
  destruct (sanityCheckTensorsParsed_loop false chunksize [] _)
    as [cov'|e] eqn:Hrun; [|discriminate H].
  destruct (sanityCheckTensorsParsed_loop_strict chunksize _ [] cov' Hrun)
    as (_ & Ht).
  destruct (Ht (pre ++ (n1, v1) :: mid) n2 v2 post) as (_ & r & Hr & _ & Hpre);
    [now rewrite <- app_assoc|assumption|].
  rewrite Hv in Hr. inversion Hr; subst r.
  assert (Hf : flags c v = false).
  { apply (Hpre n1 v1 c); [|assumption|assumption].
    apply in_or_app. right. now left. }
  destruct Hx as (x & Hxc & Hxv). unfold flags in Hf.
  apply orb_false_iff in Hf as [H1 H2].
  apply andb_false_iff in H1, H2. lia.
Qed.

Lemma strict_overlap_is_containment_witness :
  sanityCheckTensorsParsed false nested_ranges_header 12 = Ok tt
  /\ ranges_intersect (4, 8) (0, 12)
  /\ fst (0, 12) < fst (4, 8) /\ snd (4, 8) < snd (0, 12).
Proof.
  assert (H : sanityCheckTensorsParsed false nested_ranges_header 12 = Ok tt)
    by (vm_compute; reflexivity).
  assert (Hx : ranges_intersect (4, 8) (0, 12))
    by (exists 4; cbn; lia).
  split; [exact H|]. split; [exact Hx|].
  apply (strict_overlap_is_containment nested_ranges_header 12 [] [] []
           "a" "b"
           (JObj [("dtype", JStr "U8"); ("shape", JArr [JNum 4]);
                  ("data_offsets", JArr [JNum 4; JNum 8])])
           (JObj [("dtype", JStr "U8"); ("shape", JArr [JNum 12]);
                  ("data_offsets", JArr [JNum 0; JNum 12])])
           (4, 8) (0, 12) H eq_refl);
    [discriminate|discriminate|reflexivity|reflexivity|exact Hx].
Defined.

Section StrictThenLenient.

Import TensorAttributeChecker.

Lemma dispatch_strict_lenient (this this' : t) (key name : string)
    (val : json) :
  this.(ignoreInvalid) = false ->
  attrOk key = true ->
  dispatch this key name val = Ok this' ->
  dispatch (with_flag this true) key name val = Ok (with_flag this' true).
Proof.
  intros Hs Hok Hd.
  destruct (dispatch_strict this Hs key name val this' Hok Hd)
    as [(-> & (s & ->) & ->)
       |[(-> & (l & -> & Hnum) & ->)
        |(-> & a & b & -> & Hrange & Hflags & ->)]].
  - reflexivity.
  - unfold dispatch. change (String.eqb "shape" "dtype") with false.
    change (String.eqb "shape" "shape") with true. cbv iota.
    unfold shape, checkTensorShape.
    rewrite (checkTensorShape_loop_lenient (with_flag this true) eq_refl).
    reflexivity.
  - unfold dispatch.
    change (String.eqb "data_offsets" "dtype") with false.
    change (String.eqb "data_offsets" "shape") with false. cbv iota.
    unfold data_offsets, checkDataOffsets.
    cbn [length Nat.eqb negb as_OffsetPair as_Integer bind].
    rewrite (checkDataOffsetBasics_lenient (with_flag this true) eq_refl).
    rewrite (checkOverlap_loop_lenient (with_flag this true) eq_refl).
    reflexivity.
Qed.

Lemma checkTensorValue_loop_strict_lenient (name : string)
    (es : list (string * json)) :
  forall this this' : t,
    this.(ignoreInvalid) = false ->
    checkTensorValue_loop this name es = Ok this' ->
    checkTensorValue_loop (with_flag this true) name es
    = Ok (with_flag this' true)
    /\ this'.(ignoreInvalid) = false.
Proof.
  induction es as [|[key val] r IH]; intros this this' Hs Hrun.
  - cbn [checkTensorValue_loop] in *. inversion Hrun; subst this'.
    now split.
  - cbn [checkTensorValue_loop] in *.
    destruct (attrOk key) eqn:Hok;
      [|cbn [negb] in Hrun; rewrite Hs in Hrun; discriminate Hrun].
    cbn [negb] in *.
    destruct (dispatch this key name val) as [this1|e] eqn:Hd;
      [|discriminate Hrun].
    cbn [bind] in Hrun.
    rewrite (dispatch_strict_lenient this this1 key name val Hs Hok Hd).
    cbn [bind]. apply IH; [|exact Hrun].
    destruct (dispatch_strict this Hs key name val this1 Hok Hd)
      as [(_ & _ & ->)|[(_ & _ & ->)|(_ & a & b & _ & _ & _ & ->)]];
      reflexivity.
Qed.

End StrictThenLenient.

Lemma sanityCheckTensorsParsed_loop_strict_lenient (chunksize : Z)
    (es : list (string * json)) :
  forall cov cov' : list OffsetPair,
    sanityCheckTensorsParsed_loop false chunksize cov es = Ok cov' ->
    sanityCheckTensorsParsed_loop true chunksize cov es = Ok cov'.
Proof.
  induction es as [|[k v] es IH]; intros cov cov' Hrun; [exact Hrun|].
  cbn [sanityCheckTensorsParsed_loop] in *.
  destruct (String.eqb k "__metadata__").
  - destruct (checkMetadata false v) as [[]|e] eqn:Hmd; [|discriminate Hrun].
    cbn [bind] in Hrun.
    assert (Hl : checkMetadata true v = Ok tt).
    { unfold checkMetadata in *.
      destruct (Object_entries v); [|discriminate Hmd].
      cbn [bind]. apply checkMetadata_loop_lenient. }
    rewrite Hl. cbn [bind]. now apply IH.
  - unfold TensorAttributeChecker.checkTensorValue in *.
    destruct (Object_entries v) as [fields|e]; [|discriminate Hrun].
    cbn [bind] in *.
    destruct (TensorAttributeChecker.checkTensorValue_loop
                (TensorAttributeChecker.new chunksize cov false) k fields)
      as [this'|e] eqn:Hloop; [|discriminate Hrun].
    cbn [bind] in Hrun.
    destruct (checkTensorValue_loop_strict_lenient k fields
                (TensorAttributeChecker.new chunksize cov false) this'
                eq_refl Hloop) as (Hl & _).
    change (with_flag (TensorAttributeChecker.new chunksize cov false) true)
      with (TensorAttributeChecker.new chunksize cov true) in Hl.
    rewrite Hl. cbn [bind].
    change (TensorAttributeChecker.assertAttributePresence
              (with_flag this' true) k)
      with (TensorAttributeChecker.assertAttributePresence this' k).
    destruct (TensorAttributeChecker.assertAttributePresence this' k)
      as [[]|e]; [|discriminate Hrun].
    cbn [bind] in *. now apply IH.
Qed.

Lemma sanityCheckTensorsHeader_strict_lenient (bytes : Bytes)
    (filesize val : Z) :
  sanityCheckTensorsHeader false bytes filesize = Ok val ->
  sanityCheckTensorsHeader true bytes filesize = Ok val.
Proof.
  unfold sanityCheckTensorsHeader.
  destruct (negb _); [discriminate|].
  rewrite andb_false_r.
  destruct (_ && _); [discriminate|]. auto.
Qed.

Lemma sanityCheckTensorsParsed_strict_lenient (j : json) (chunksize : Z) :
  sanityCheckTensorsParsed false j chunksize = Ok tt ->
  sanityCheckTensorsParsed true j chunksize = Ok tt.
Proof.
  unfold sanityCheckTensorsParsed.
  destruct (Object_entries j) as [es|e]; [|discriminate].
  cbn [bind].
  destruct (sanityCheckTensorsParsed_loop false chunksize [] es)
    as [cov'|e] eqn:Hrun; [|discriminate].
  intros _.
  now rewrite (sanityCheckTensorsParsed_loop_strict_lenient _ _ _ _ Hrun).
Qed.

(** X10.  Leniency only widens what the validators accept: what passes with
    the flag off passes with the flag on. *)
Theorem strict_validation_implies_lenient (bytes : Bytes) (filesize : Z)
    (val : Z) (j : json) (chunksize : Z) :
  (sanityCheckTensorsHeader false bytes filesize = Ok val ->
   sanityCheckTensorsHeader true bytes filesize = Ok val)
  /\ (sanityCheckTensorsParsed false j chunksize = Ok tt ->
      sanityCheckTensorsParsed true j chunksize = Ok tt).
Proof.
  split.
  - apply sanityCheckTensorsHeader_strict_lenient.
  - apply sanityCheckTensorsParsed_strict_lenient.
Qed.

(** X11.  An archive the decoder accepts without leniency is decoded to the
    same container with leniency. *)
Theorem parseSafeTensors_strict_implies_lenient (b : Bytes) (h h' : heap)
    (c : loc) :
  parseSafeTensors b false h = (Ok c, h') ->
  parseSafeTensors b true h = (Ok c, h').
Proof.
  unfold parseSafeTensors. intros H.
  apply bindM_lift_inv in H as (n & Hn & H).
  apply sanityCheckTensorsHeader_strict_lenient in Hn.
  rewrite Hn. unfold bindM at 1, lift at 1.
  apply bindM_inv in H as (ret_ & h1 & Hnew & H).
  unfold bindM at 1. rewrite Hnew.
  apply bindM_lift_inv in H as (text & Htext & H).
  rewrite Htext. unfold bindM at 1, lift at 1.
  apply bindM_lift_inv in H as (j & Hj & H).
  rewrite Hj. unfold bindM at 1, lift at 1.
  apply bindM_lift_inv in H as ([] & Hv & H).
  apply sanityCheckTensorsParsed_strict_lenient in Hv.
  rewrite Hv. unfold bindM at 1, lift at 1.
  exact H.
Qed.

Lemma parseSafeTensors_strict_implies_lenient_witness :
  parseSafeTensors test_archive true empty_heap
  = (Ok 1%positive, snd (parseSafeTensors test_archive false empty_heap)).
Proof.
  apply (parseSafeTensors_strict_implies_lenient test_archive empty_heap).
  vm_compute. reflexivity.
Defined.

Lemma strict_validation_implies_lenient_witness :
  sanityCheckTensorsHeader true test_archive 88 = Ok 64
  /\ sanityCheckTensorsParsed true nested_ranges_header 12 = Ok tt.
Proof.
  split.
  - apply (proj1 (strict_validation_implies_lenient test_archive 88 64
                    JNull 0)).
    vm_compute. reflexivity.
  - apply (proj2 (strict_validation_implies_lenient [] 0 0
                    nested_ranges_header 12)).
    vm_compute. reflexivity.
Defined.

(* ===================================================================== *)
(** ** The container and its tensors *)
(* ===================================================================== *)

Lemma _setTensor_spec (h : heap) (this : loc) (name : string) (tensor : loc)
    (t : TensorRef) (m : TensorMap) :
  h.(tensorRefs) !! tensor = Some t ->
  h.(tensorMaps) !! this = Some m ->
  TensorMap._setTensor this name tensor h
  = if match t.(_parent) with
       | Some p => Pos.eqb p this
       | None => true
       end
    then (Ok tensor,
          mkHeap (<[tensor := set_parent t (Some this)]> h.(tensorRefs))
                 (<[this := set_refs m (Map_set m.(refs) name tensor)]>
                    h.(tensorMaps))
                 h.(next))
    else (Throw (Error AddFromForeignMap), h).
Proof.
  intros Ht Hm. unfold TensorMap._setTensor.
  erewrite bindM_get_ref by exact Ht.
  destruct (_parent t) as [p|]; [destruct (Pos.eqb p this)|]; cbn [negb];
    repeat store_step; reflexivity.
Qed.

(** What a successful [addTensor] did. *)
Lemma addTensor_ok_inv (this : loc) (name : string) (data : tensor_data)
    (fmt : option Format) (shp : option Shape) (h h' : heap) (l : loc) :
  TensorMap.addTensor this name data fmt shp h = (Ok l, h') ->
  exists (m : TensorMap) (t : TensorRef),
    h.(tensorMaps) !! this = Some m
    /\ Map_get m.(refs) name = None
    /\ h'.(tensorMaps)
       = <[this := set_refs m (m.(refs) ++ [(name, l)])]> h.(tensorMaps)
    /\ h'.(tensorRefs) = <[l := t]> h.(tensorRefs)
    /\ t.(_parent) = Some this
    /\ match data with
       | AsTensorRef tensor =>
           l = tensor /\ h'.(next) = h.(next)
           /\ exists t0, h.(tensorRefs) !! tensor = Some t0
                         /\ t = set_parent t0 (Some this)
                         /\ (t0.(_parent) = None
                             \/ t0.(_parent) = Some this)
       | AsBytes b =>
           l = h.(next) /\ h'.(next) = Pos.succ h.(next)
           /\ exists f s, fmt = Some f /\ shp = Some s
                          /\ f <> EmptyString
                          /\ t = mkTensorRef name b f s (Some this)
       end.
Proof.
  unfold TensorMap.addTensor. intros H.
  apply bindM_inv in H as (m & h0 & Hget & H).
  unfold get_map in Hget.
  destruct (tensorMaps h !! this) as [m0|] eqn:Hm; [|discriminate Hget].
  inversion Hget; subst m0 h0. clear Hget.
  destruct (Map_get (refs m) name) as [old|] eqn:Hn; [discriminate H|].
  destruct data as [tensor|b].
  - destruct (tensorRefs h !! tensor) as [t0|] eqn:Ht0.
    + rewrite (_setTensor_spec h this name tensor t0 m Ht0 Hm) in H.
      destruct (match _parent t0 with
                | Some p => Pos.eqb p this
                | None => true
                end) eqn:Hp; [|discriminate H].
      inversion H; subst l h'. clear H.
      exists m, (set_parent t0 (Some this)). cbn [tensorMaps tensorRefs next].
      rewrite Map_set_fresh by exact Hn.
      repeat split; try reflexivity; try assumption.
      exists t0. repeat split.
      destruct (_parent t0) as [p|]; [|now left].
      apply Pos.eqb_eq in Hp. subst p. now right.
    + unfold TensorMap._setTensor, bindM, get_ref in H. rewrite Ht0 in H.
      discriminate H.
  - destruct fmt as [f|]; [|discriminate H].
    destruct shp as [s|]; [|discriminate H].
    destruct (String.eqb_spec f EmptyString) as [|Hf]; [discriminate H|].
    pose proof (addTensor_bytes_spec h this m name b f s Hm Hn Hf) as Hspec.
    unfold TensorMap.addTensor in Hspec.
    erewrite bindM_get_map in Hspec by exact Hm.
    rewrite Hn in Hspec.
    apply String.eqb_neq in Hf. rewrite Hf in Hspec.
    rewrite Hspec in H. inversion H; subst l h'. clear H.
    exists m, (mkTensorRef name b f s (Some this)).
    cbn [tensorMaps tensorRefs next].
    repeat split; try reflexivity; try assumption.
    exists f, s. repeat split. now apply String.eqb_neq.
Qed.

Lemma getTensor_spec (h : heap) (this : loc) (m : TensorMap) (n : string) :
  h.(tensorMaps) !! this = Some m ->
  TensorMap.getTensor this n h = (Ok (Map_get m.(refs) n), h).
Proof.
  intros Hm. unfold TensorMap.getTensor.
  erewrite bindM_get_map by exact Hm. reflexivity.
Qed.

(** X12.  Insert then look up: after [addTensor] returned, [getTensor] finds
    the tensor under the name given, the tensor points back to the
    container, and the other names resolve as before. *)
Theorem addTensor_then_getTensor (this : loc) (name : string)
    (data : tensor_data) (fmt : option Format) (shp : option Shape)
    (h h' : heap) (l : loc) :
  TensorMap.addTensor this name data fmt shp h = (Ok l, h') ->
  TensorMap.getTensor this name h' = (Ok (Some l), h')
  /\ (exists t, h'.(tensorRefs) !! l = Some t /\ t.(_parent) = Some this)
  /\ forall n, n <> name ->
               fst (TensorMap.getTensor this n h')
               = fst (TensorMap.getTensor this n h).
Proof.
  intros H.
  destruct (addTensor_ok_inv _ _ _ _ _ _ _ _ H)
    as (m & t & Hm & Hfresh & Hmaps & Hrefs & Hpar & _).
  assert (Hm' : h'.(tensorMaps) !! this
                = Some (set_refs m (m.(refs) ++ [(name, l)])))
    by (rewrite Hmaps; apply lookup_insert_eq).
  split.
  - rewrite (getTensor_spec h' this _ name Hm'). cbn [refs set_refs].
    unfold Map_get in *. rewrite assoc_get_app, Hfresh.
    cbn [assoc_get]. now rewrite String.eqb_refl.
  - split.
    + exists t. split; [|exact Hpar]. rewrite Hrefs. apply lookup_insert_eq.
    + intros n Hn.
      rewrite (getTensor_spec h' this _ n Hm'), (getTensor_spec h this m n Hm).
      cbn [fst refs set_refs]. unfold Map_get. rewrite assoc_get_app.
      destruct (assoc_get (refs m) n); [reflexivity|].
      cbn [assoc_get]. apply String.eqb_neq in Hn.
      rewrite String.eqb_sym in Hn. now rewrite Hn.
Qed.

Lemma addTensor_then_getTensor_witness :
  TensorMap.getTensor 1%positive "x" own_name_heap
  = (Ok (Some 2%positive), own_name_heap).
Proof.
  apply (addTensor_then_getTensor 1%positive "x" (AsBytes [x01])
           (Some "U8"%string) (Some [JNum 1])
           (snd (TensorMap.new empty_heap)) own_name_heap 2%positive).
  vm_compute. reflexivity.
Defined.

(** X13.  [addTensor] is all or nothing: when it throws, the store is as it
    was. *)
Theorem addTensor_throw_unchanged (this : loc) (name : string)
    (data : tensor_data) (fmt : option Format) (shp : option Shape)
    (h h' : heap) (e : exn) :
  TensorMap.addTensor this name data fmt shp h = (Throw e, h') ->
  h' = h.
Proof.
  unfold TensorMap.addTensor. unfold bindM at 1, get_map at 1.
  destruct (tensorMaps h !! this) as [m|] eqn:Hm;
    [|intros H; now inversion H].
  destruct (Map_get (refs m) name) as [old|] eqn:Hn;
    [intros H; now inversion H|].
  destruct data as [tensor|b].
  - destruct (tensorRefs h !! tensor) as [t0|] eqn:Ht0.
    + rewrite (_setTensor_spec h this name tensor t0 m Ht0 Hm).
      destruct (match _parent t0 with
                | Some p => Pos.eqb p this
                | None => true
                end); intros H; now inversion H.
    + unfold TensorMap._setTensor, bindM, get_ref. rewrite Ht0.
      intros H. now inversion H.
  - destruct fmt as [f|]; [|intros H; now inversion H].
    destruct shp as [s|]; [|intros H; now inversion H].
    destruct (String.eqb f EmptyString) eqn:Hf; [intros H; now inversion H|].
    unfold bindM at 1, alloc_ref at 1.
    erewrite _setTensor_spec;
      [|cbn [tensorRefs]; apply lookup_insert_eq|cbn [tensorMaps]; exact Hm].
    cbn [_parent]. discriminate.
Qed.

Lemma addTensor_throw_unchanged_witness :
  snd (TensorMap.addTensor 1%positive "x" (AsBytes [x02])
         (Some "U8"%string) (Some [JNum 1]) own_name_heap)
  = own_name_heap.
Proof.
  apply (addTensor_throw_unchanged 1%positive "x" (AsBytes [x02])
           (Some "U8"%string) (Some [JNum 1]) own_name_heap _
           (Error (NameAlreadyExists "x"))).
  vm_compute. reflexivity.
Defined.

(** X14.  [addTensor] keeps the back-reference invariant of every container,
    in a store whose next address is unused. *)
Theorem addTensor_keeps_parent_invariant (this c : loc) (name : string)
    (data : tensor_data) (fmt : option Format) (shp : option Shape)
    (h h' : heap) (l : loc) :
  h.(tensorRefs) !! h.(next) = None ->
  parent_invariant h c ->
  TensorMap.addTensor this name data fmt shp h = (Ok l, h') ->
  parent_invariant h' c.
Proof.
  intros Hnext Hinv H.
  destruct (addTensor_ok_inv _ _ _ _ _ _ _ _ H)
    as (m & t & Hm & Hfresh & Hmaps & Hrefs & Hpar & Hdata).
  intros m' k x Hm' Hk. rewrite Hrefs.
  destruct (Pos.eq_dec c this) as [->|Hc].
  - rewrite Hmaps, lookup_insert_eq in Hm'. inversion Hm'; subst m'.
    cbn [refs set_refs] in Hk. unfold Map_get in Hk.
    rewrite assoc_get_app in Hk.
    destruct (Pos.eq_dec x l) as [->|Hx].
    { exists t. split; [apply lookup_insert_eq|exact Hpar]. }
    rewrite lookup_insert_ne by congruence.
    destruct (assoc_get (refs m) k) as [y|] eqn:Hy.
    + inversion Hk; subst y. exact (Hinv m k x Hm Hy).
    + cbn [assoc_get] in Hk.
      destruct (String.eqb name k); [|discriminate Hk].
      inversion Hk. congruence.
  - rewrite Hmaps, lookup_insert_ne in Hm' by congruence.
    destruct (Hinv m' k x Hm' Hk) as (tr & Htr & Hp).
    destruct (Pos.eq_dec x l) as [->|Hx].
    + exfalso. destruct data as [tensor|b].
      * destruct Hdata as (-> & _ & t0 & Ht0 & _ & Hpar0).
        rewrite Htr in Ht0. inversion Ht0; subst t0.
        rewrite Hp in Hpar0. destruct Hpar0 as [Hp0|Hp0];
          [discriminate Hp0|inversion Hp0; congruence].
      * destruct Hdata as (-> & _). rewrite Hnext in Htr. discriminate Htr.
    + exists tr. split; [|exact Hp].
      now rewrite lookup_insert_ne by congruence.
Qed.

Lemma addTensor_keeps_parent_invariant_witness :
  parent_invariant own_name_heap 1%positive.
Proof.
  apply (addTensor_keeps_parent_invariant 1%positive 1%positive "x"
           (AsBytes [x01]) (Some "U8"%string) (Some [JNum 1])
           (snd (TensorMap.new empty_heap)) own_name_heap 2%positive).
  - vm_compute. reflexivity.
  - intros m k x Hm Hk. vm_compute in Hm. inversion Hm; subst m.
    discriminate Hk.
  - vm_compute. reflexivity.
Defined.

Lemma Map_delete_app_fresh {V : Type} (l : list (string * V)) (k : string)
    (v : V) :
  assoc_get l k = None -> Map_delete (l ++ [(k, v)]) k = l.
Proof.
  intros H. unfold Map_delete. rewrite List.filter_app.
  cbn [List.filter fst]. rewrite String.eqb_refl. cbn [negb].
  rewrite app_nil_r.
  induction l as [|[k0 v0] l IH]; [reflexivity|].
  cbn [assoc_get] in H. cbn [List.filter fst].
  destruct (String.eqb k0 k); [discriminate H|].
  cbn [negb]. f_equal. now apply IH.
Qed.

Lemma removeTensor_spec (h : heap) (this : loc) (m : TensorMap)
    (x : TensorName + loc) (ten : loc) (t : TensorRef) :
  h.(tensorMaps) !! this = Some m ->
  match x with
  | inl n => Map_get m.(refs) n
  | inr tensor => Some tensor
  end = Some ten ->
  h.(tensorRefs) !! ten = Some t ->
  TensorMap.removeTensor this x h
  = if same_parent t.(_parent) this
    then (Ok tt,
          mkHeap (<[ten := set_parent t None]> h.(tensorRefs))
                 (<[this := set_refs m (Map_delete m.(refs) t.(_name))]>
                    h.(tensorMaps))
                 h.(next))
    else (Throw (Error RemoveFromForeignMap), h).
Proof.
  intros Hm Hx Ht. unfold TensorMap.removeTensor.
  erewrite bindM_get_map by exact Hm. cbv zeta. rewrite Hx.
  erewrite bindM_get_ref by exact Ht.
  destruct (same_parent (_parent t) this); cbn [negb];
    repeat store_step; reflexivity.
Qed.

(** X15.  Adding a tensor from its bytes and removing it by name gives the
    mapping back: the name is free again, the maps of the store are those
    before the addition, and the tensor made is left without a parent. *)
Theorem removeTensor_after_addTensor (this : loc) (name : string)
    (b : Bytes) (fmt : Format) (shp : Shape) (h h1 : heap) (l : loc) :
  TensorMap.addTensor this name (AsBytes b) (Some fmt) (Some shp) h
  = (Ok l, h1) ->
  exists h2 : heap,
    TensorMap.removeTensor this (inl name) h1 = (Ok tt, h2)
    /\ TensorMap.getTensor this name h2 = (Ok None, h2)
    /\ h2.(tensorMaps) = h.(tensorMaps)
    /\ h2.(tensorRefs) !! l = Some (mkTensorRef name b fmt shp None).
Proof.
  intros H.
  destruct (addTensor_ok_inv _ _ _ _ _ _ _ _ H)
    as (m & t & Hm & Hfresh & Hmaps & Hrefs & Hpar
        & _ & _ & f & s & Hf & Hs & _ & Ht).
  inversion Hf; inversion Hs; subst f s t.
  assert (Hm1 : h1.(tensorMaps) !! this
                = Some (set_refs m (m.(refs) ++ [(name, l)])))
    by (rewrite Hmaps; apply lookup_insert_eq).
  assert (Ht1 : h1.(tensorRefs) !! l
                = Some (mkTensorRef name b fmt shp (Some this)))
    by (rewrite Hrefs; apply lookup_insert_eq).
  eexists. split.
  - rewrite (removeTensor_spec h1 this _ (inl name) l
               (mkTensorRef name b fmt shp (Some this)) Hm1); [| |exact Ht1].
    + cbn [_parent same_parent]. rewrite Pos.eqb_refl. reflexivity.
    + cbn [refs set_refs]. unfold Map_get in *.
      rewrite assoc_get_app, Hfresh. cbn [assoc_get].
      now rewrite String.eqb_refl.
  - cbn [_name refs set_refs tensorMaps tensorRefs].
    unfold Map_get in Hfresh.
    rewrite (Map_delete_app_fresh _ _ _ Hfresh).
    assert (Hsame : <[this := set_refs (set_refs m (refs m ++ [(name, l)]))
                               (refs m)]> (tensorMaps h1)
                    = tensorMaps h).
    { rewrite Hmaps, insert_insert_eq.
      replace (set_refs (set_refs m (refs m ++ [(name, l)])) (refs m))
        with m by (now destruct m).
      now apply insert_id. }
    split.
    + erewrite getTensor_spec
        by (cbn [tensorMaps]; rewrite Hsame; exact Hm).
      unfold Map_get. now rewrite Hfresh.
    + split; [exact Hsame|]. apply lookup_insert_eq.
Qed.

Lemma removeTensor_after_addTensor_witness :
  exists h2 : heap,
    TensorMap.removeTensor 1%positive (inl "x"%string) own_name_heap
    = (Ok tt, h2)
    /\ TensorMap.getTensor 1%positive "x" h2 = (Ok None, h2)
    /\ h2.(tensorMaps) = (snd (TensorMap.new empty_heap)).(tensorMaps)
    /\ h2.(tensorRefs) !! 2%positive
       = Some (mkTensorRef "x" [x01] "U8" [JNum 1] None).
Proof.
  apply (removeTensor_after_addTensor 1%positive "x" [x01] "U8" [JNum 1]
           (snd (TensorMap.new empty_heap)) own_name_heap 2%positive).
  vm_compute. reflexivity.
Defined.

(** X16.  [removeTensor] is all or nothing as well: a name that is absent is a
    no-op, and when the call throws (a tensor of another container, or
    of none) the store is as it was. *)
Theorem removeTensor_failure_unchanged (this : loc)
    (x : TensorName + loc) (h h' : heap) :
  (forall e, TensorMap.removeTensor this x h = (Throw e, h') -> h' = h)
  /\ (forall m n, x = inl n -> h.(tensorMaps) !! this = Some m ->
                  Map_get m.(refs) n = None ->
                  TensorMap.removeTensor this x h = (Ok tt, h)).
Proof.
  split.
  - intros e. unfold TensorMap.removeTensor.
    unfold bindM at 1, get_map at 1.
    destruct (tensorMaps h !! this) as [m|] eqn:Hm;
      [|intros H; now inversion H].
    cbv zeta.
    destruct (match x with
              | inl n => Map_get (refs m) n
              | inr tensor => Some tensor
              end) as [ten|]; [|discriminate].
    unfold bindM at 1, get_ref at 1.
    destruct (tensorRefs h !! ten) as [t|]; [|intros H; now inversion H].
    destruct (same_parent (_parent t) this); cbn [negb].
    + repeat store_step. discriminate.
    + intros H. now inversion H.
  - intros m n -> Hm Hn. unfold TensorMap.removeTensor.
    erewrite bindM_get_map by exact Hm. cbv zeta. now rewrite Hn.
Qed.

Lemma removeTensor_failure_unchanged_witness :
  snd (TensorMap.removeTensor 1%positive (inr 2%positive) fresh_pair_heap)
  = fresh_pair_heap
  /\ TensorMap.removeTensor 1%positive (inl "y"%string) fresh_pair_heap
     = (Ok tt, fresh_pair_heap).
Proof.
  split.
  - apply (proj1 (removeTensor_failure_unchanged 1%positive (inr 2%positive)
                    fresh_pair_heap _) (Error RemoveFromForeignMap)).
    vm_compute. reflexivity.
  - apply (proj2 (removeTensor_failure_unchanged 1%positive
                    (inl "y"%string) fresh_pair_heap fresh_pair_heap)
             (mkTensorMap [] []) "y"%string eq_refl).
    + vm_compute. reflexivity.
    + reflexivity.
Defined.

(** X17.  [setTensor] replaces: whatever tensor the container held under the
    name, the call leaves the new tensor there, parented, the other names
    untouched, and the tensor it displaced without a parent. *)
Theorem setTensor_replaces (this : loc) (name : string) (tensor old : loc)
    (h : heap) (m : TensorMap) (t told : TensorRef) :
  h.(tensorMaps) !! this = Some m ->
  Map_get m.(refs) name = Some old ->
  h.(tensorRefs) !! old = Some told ->
  told.(_parent) = Some this -> told.(_name) = name ->
  h.(tensorRefs) !! tensor = Some t ->
  t.(_parent) = None \/ tensor = old ->
  exists h' : heap,
    TensorMap.setTensor this name tensor h = (Ok tensor, h')
    /\ TensorMap.getTensor this name h' = (Ok (Some tensor), h')
    /\ (exists t', h'.(tensorRefs) !! tensor = Some t'
                   /\ t'.(_parent) = Some this)
    /\ (tensor <> old ->
        exists told', h'.(tensorRefs) !! old = Some told'
                      /\ told'.(_parent) = None)
    /\ forall n, n <> name ->
                 fst (TensorMap.getTensor this n h')
                 = fst (TensorMap.getTensor this n h).
Proof.
  intros Hm Hold Htold Hpar Hname Ht Hfree.
  unfold TensorMap.setTensor. unfold bindM at 1.
  pose proof (removeTensor_spec h this m (inl name) old told Hm Hold Htold)
    as Hrem.
  unfold TensorName in *. rewrite Hrem. clear Hrem.
  rewrite Hpar. cbn [same_parent]. rewrite Pos.eqb_refl, Hname.
  set (h1 := mkHeap _ _ _).
  set (m1 := set_refs m (Map_delete (refs m) name)).
  assert (Hm1 : h1.(tensorMaps) !! this = Some m1) by apply lookup_insert_eq.
  assert (Ht1 : exists t1, h1.(tensorRefs) !! tensor = Some t1
                           /\ t1.(_parent) = None).
  { destruct (Pos.eq_dec tensor old) as [->|Hne].
    - exists (set_parent told None). split; [apply lookup_insert_eq|reflexivity].
    - exists t. split.
      + unfold h1. cbn [tensorRefs]. now rewrite lookup_insert_ne by congruence.
      + destruct Hfree; [assumption|contradiction]. }
  destruct Ht1 as (t1 & Ht1 & Hp1).
  unfold TensorMap.addTensor.
  erewrite bindM_get_map by exact Hm1.
  assert (Hgone : Map_get (refs m1) name = None)
    by apply Map_get_delete_eq.
  rewrite Hgone.
  rewrite (_setTensor_spec h1 this name tensor t1 m1 Ht1 Hm1), Hp1.
  eexists. split; [reflexivity|].
  split.
  { erewrite getTensor_spec by (cbn [tensorMaps]; apply lookup_insert_eq).
    cbn [refs set_refs]. now rewrite Map_get_set_eq. }
  split.
  { eexists. split; [apply lookup_insert_eq|reflexivity]. }
  split.
  { intros Hne. exists (set_parent told None). split; [|reflexivity].
    cbn [tensorRefs]. rewrite lookup_insert_ne by congruence.
    apply lookup_insert_eq. }
  intros n Hn.
  erewrite getTensor_spec by (cbn [tensorMaps]; apply lookup_insert_eq).
  rewrite (getTensor_spec h this m n Hm). cbn [fst refs set_refs].
  rewrite Map_get_set_ne by congruence.
  unfold m1. cbn [refs set_refs]. now rewrite Map_get_delete_ne by congruence.
Qed.

Lemma setTensor_replaces_witness :
  exists h' : heap,
    TensorMap.setTensor 1%positive "n" 3%positive
      (snd (occupied_name_scenario empty_heap))
    = (Ok 3%positive, h')
    /\ TensorMap.getTensor 1%positive "n" h' = (Ok (Some 3%positive), h').
Proof.
  destruct (setTensor_replaces 1%positive "n" 3%positive 2%positive
              (snd (occupied_name_scenario empty_heap))
              (mkTensorMap [("n", 2%positive)] [])
              (mkTensorRef "x" [x02] "U8" [JNum 1] None)
              (mkTensorRef "n" [x01] "U8" [JNum 1] (Some 1%positive)))
    as (h' & H1 & H2 & _);
    try (vm_compute; reflexivity).
  - now left.
  - exists h'. now split.
Defined.

(** X18.  [getOrMakeTensor] runs its factory once: after a call returned a
    tensor, a further call under the same name returns that tensor,
    whatever factory it is given, and changes nothing. *)
Theorem getOrMakeTensor_idempotent (this : loc) (name : string)
    (factory factory' : M loc) (h h1 : heap) (l : loc) :
  TensorMap.getOrMakeTensor this name factory h = (Ok l, h1) ->
  TensorMap.getOrMakeTensor this name factory' h1 = (Ok l, h1).
Proof.
  unfold TensorMap.getOrMakeTensor. intros H.
  apply bindM_inv in H as (m & h0 & Hget & H).
  unfold get_map in Hget.
  destruct (tensorMaps h !! this) as [m0|] eqn:Hm; [|discriminate Hget].
  inversion Hget; subst m0 h0. clear Hget.
  destruct (Map_get (refs m) name) as [ten|] eqn:Hn.
  - inversion H; subst ten h1.
    erewrite bindM_get_map by exact Hm. now rewrite Hn.
  - apply bindM_inv in H as (ten & hf & Hf & H).
    apply bindM_inv in H as (m2 & h2 & Hget2 & H).
    unfold get_map in Hget2.
    destruct (tensorMaps hf !! this) as [m3|] eqn:Hm3; [|discriminate Hget2].
    inversion Hget2; subst m3 h2. clear Hget2.
    rewrite bindM_set_map in H. inversion H; subst l h1. clear H.
    erewrite bindM_get_map by (cbn [tensorMaps]; apply lookup_insert_eq).
    cbn [refs set_refs]. now rewrite Map_get_set_eq.
Qed.

Lemma getOrMakeTensor_idempotent_witness :
  TensorMap.getOrMakeTensor 1%positive "a"
    (TensorRef.new "b" [x02] "U8" [JNum 1])
    (snd (getOrMake_scenario empty_heap))
  = (Ok 2%positive, snd (getOrMake_scenario empty_heap)).
Proof.
  apply (getOrMakeTensor_idempotent 1%positive "a"
           (TensorRef.new "a" [x01] "U8" [JNum 1]) _
           (snd (TensorMap.new empty_heap))).
  vm_compute. reflexivity.
Defined.

(** X19.  Renaming a tensor of a container: a name the container already
    holds is refused and nothing changes; a free name is given to the
    tensor, the container finds the tensor under it and no longer under
    the old one, and the other names resolve as before. *)
Theorem set_name_renames (t : loc) (val : string) (h : heap)
    (tr : TensorRef) (p : loc) (pm : TensorMap) :
  h.(tensorRefs) !! t = Some tr ->
  tr.(_parent) = Some p ->
  h.(tensorMaps) !! p = Some pm ->
  match Map_get pm.(refs) val with
  | Some _ =>
      TensorRef.set_name t val h = (Throw (Error (NameExistsInParent val)), h)
  | None =>
      exists h' : heap,
        TensorRef.set_name t val h = (Ok tt, h')
        /\ h'.(tensorRefs) !! t
           = Some (mkTensorRef val tr.(bytes) tr.(format) tr.(shape) (Some p))
        /\ TensorMap.getTensor p val h' = (Ok (Some t), h')
        /\ (val <> tr.(_name) ->
            TensorMap.getTensor p tr.(_name) h' = (Ok None, h'))
        /\ forall n, n <> val -> n <> tr.(_name) ->
                     fst (TensorMap.getTensor p n h')
                     = fst (TensorMap.getTensor p n h)
  end.
Proof.
  intros Ht Hp Hpm. unfold TensorRef.set_name.
  erewrite bindM_get_ref by exact Ht. rewrite Hp.
  destruct (Map_get (refs pm) val) as [x|] eqn:Hval.
  - rewrite bindM_assoc. erewrite bindM_get_map by exact Hpm.
    rewrite Hval. reflexivity.
  - rewrite bindM_assoc. erewrite bindM_get_map by exact Hpm.
    rewrite Hval. repeat store_step.
    eexists. split; [reflexivity|].
    cbn [tensorRefs tensorMaps]. rewrite insert_insert_eq.
    split; [apply lookup_insert_eq|].
    split.
    { erewrite getTensor_spec by (cbn [tensorMaps]; apply lookup_insert_eq).
      cbn [refs set_refs]. now rewrite Map_get_set_eq. }
    split.
    { intros Hne.
      erewrite getTensor_spec by (cbn [tensorMaps]; apply lookup_insert_eq).
      cbn [refs set_refs]. rewrite Map_get_set_ne by congruence.
      now rewrite Map_get_delete_eq. }
    intros n Hn1 Hn2.
    erewrite getTensor_spec by (cbn [tensorMaps]; apply lookup_insert_eq).
    rewrite (getTensor_spec h p pm n Hpm). cbn [fst refs set_refs].
    rewrite Map_get_set_ne by congruence.
    now rewrite Map_get_delete_ne by congruence.
Qed.

Lemma set_name_renames_witness :
  exists h' : heap,
    TensorRef.set_name 2%positive "y" own_name_heap = (Ok tt, h')
    /\ TensorMap.getTensor 1%positive "y" h' = (Ok (Some 2%positive), h')
    /\ TensorMap.getTensor 1%positive "x" h' = (Ok None, h').
Proof.
  pose proof (set_name_renames 2%positive "y" own_name_heap
                (mkTensorRef "x" [x01] "U8" [JNum 1] (Some 1%positive))
                1%positive (mkTensorMap [("x", 2%positive)] [])
                ltac:(vm_compute; reflexivity) eq_refl
                ltac:(vm_compute; reflexivity)) as H.
  cbn [refs Map_get assoc_get] in H.
  change (String.eqb "x" "y") with false in H. cbv iota in H.
  destruct H as (h' & H1 & _ & H3 & H4 & _).
  exists h'. split; [exact H1|]. split; [exact H3|].
  apply H4. discriminate.
Defined.

(** X20.  Set then get on the metadata: the value set is the value read, the
    other keys and the tensors are untouched. *)
Theorem setMetaValue_then_getMetaValue (this : loc) (k : string) (v : json)
    (h : heap) (m : TensorMap) :
  h.(tensorMaps) !! this = Some m ->
  exists h' : heap,
    TensorMap.setMetaValue this k v h = (Ok tt, h')
    /\ TensorMap.getMetaValue this k h' = (Ok (Some v), h')
    /\ (forall k', k' <> k ->
                   fst (TensorMap.getMetaValue this k' h')
                   = fst (TensorMap.getMetaValue this k' h))
    /\ (forall n, fst (TensorMap.getTensor this n h')
                  = fst (TensorMap.getTensor this n h))
    /\ h'.(tensorRefs) = h.(tensorRefs).
Proof.
  intros Hm. unfold TensorMap.setMetaValue.
  erewrite bindM_get_map by exact Hm.
  eexists. split; [reflexivity|].
  unfold TensorMap.getMetaValue.
  split.
  { erewrite bindM_get_map by (cbn [tensorMaps]; apply lookup_insert_eq).
    cbn [metadata]. now rewrite Map_get_set_eq. }
  split.
  { intros k' Hk.
    erewrite bindM_get_map by (cbn [tensorMaps]; apply lookup_insert_eq).
    erewrite bindM_get_map by exact Hm.
    cbn [fst ret metadata]. now rewrite Map_get_set_ne by congruence. }
  split; [|reflexivity].
  intros n.
  erewrite getTensor_spec by (cbn [tensorMaps]; apply lookup_insert_eq).
  now rewrite (getTensor_spec h this m n Hm).
Qed.

Lemma setMetaValue_then_getMetaValue_witness :
  exists h' : heap,
    TensorMap.setMetaValue 1%positive "foo" (JStr "bar") own_name_heap
    = (Ok tt, h')
    /\ TensorMap.getMetaValue 1%positive "foo" h' = (Ok (Some (JStr "bar")), h').
Proof.
  destruct (setMetaValue_then_getMetaValue 1%positive "foo" (JStr "bar")
              own_name_heap (mkTensorMap [("x", 2%positive)] [])
              ltac:(vm_compute; reflexivity))
    as (h' & H1 & H2 & _).
  exists h'. now split.
Defined.

(* ===================================================================== *)
(** ** The decoder *)
(* ===================================================================== *)

(** Where the tensors of the container come from when the decoding loop
    returns: from before the loop, or from an entry of the header. *)
Lemma parseSafeTensors_loop_refs (b : Bytes) (hdrsize : Z) (ret_ : loc)
    (es : list (string * json)) :
  forall (h h' : heap) (m : TensorMap),
    h.(tensorMaps) !! ret_ = Some m ->
    parseSafeTensors_loop b hdrsize ret_ es h = (Ok tt, h') ->
    (forall n l, Map_get m.(refs) n = Some l -> (l < h.(next))%positive) ->
    exists m' : TensorMap,
      h'.(tensorMaps) !! ret_ = Some m'
      /\ (h.(next) <= h'.(next))%positive
      /\ (forall l, (l < h.(next))%positive ->
                    h'.(tensorRefs) !! l = h.(tensorRefs) !! l)
      /\ forall n l,
           Map_get m'.(refs) n = Some l ->
           (l < h'.(next))%positive
           /\ (Map_get m.(refs) n = Some l
               \/ exists (val : json) (o0 o1 : Z) (dtype : string)
                         (shp : list json),
                    List.In (n, val) es
                    /\ n <> "__metadata__"%string
                    /\ get_prop val "dtype" = Some (JStr dtype)
                    /\ dtype <> EmptyString
                    /\ get_prop val "shape" = Some (JArr shp)
                    /\ get_prop val "data_offsets"
                       = Some (JArr [JNum o0; JNum o1])
                    /\ h'.(tensorRefs) !! l
                       = Some (mkTensorRef n
                                 (slice b (8 + hdrsize + o0)
                                          (8 + hdrsize + o1))
                                 dtype shp (Some ret_))).
Proof.
  induction es as [|[k v] es IH]; intros h h' m Hm Hrun Hold.
  - cbn [parseSafeTensors_loop] in Hrun. inversion Hrun; subst h'.
    exists m. split; [exact Hm|]. split; [lia|]. split; [reflexivity|].
    intros n l Hn. split; [now apply (Hold n)|now left].
  - cbn [parseSafeTensors_loop] in Hrun.
    apply bindM_inv in Hrun as ([] & h1 & Hhead & Hrest).
    destruct (String.eqb k "__metadata__") eqn:Hk.
    + apply bindM_lift_inv in Hhead as (md & Hmd & Hset).
      unfold TensorMap.setAllMetadata in Hset.
      erewrite bindM_get_map in Hset by exact Hm.
      unfold set_map in Hset. inversion Hset as [Hh1]. clear Hset.
      destruct (IH h1 h' (mkTensorMap m.(refs) (Map_of_entries md)))
        as (m' & Hm' & Hnext & Hframe & Hnew);
        [subst h1; apply lookup_insert_eq|exact Hrest
        |subst h1; exact Hold|].
      exists m'. subst h1. cbn [refs tensorRefs next] in *.
      split; [exact Hm'|]. split; [exact Hnext|]. split; [exact Hframe|].
      intros n l Hn. destruct (Hnew n l Hn) as (Hlt & Hcase).
      split; [exact Hlt|].
      destruct Hcase as [|(val & o0 & o1 & dtype & shp & Hin & Hrest')];
        [now left|].
      right. exists val, o0, o1, dtype, shp. split; [now right|exact Hrest'].
    + apply String.eqb_neq in Hk.
      apply bindM_lift_inv in Hhead
        as ([[[dtype shp] start] end_] & He & Hadd).
      apply bindM_inv in Hadd as (l0 & h2 & Hadd & Hret).
      unfold ret in Hret. inversion Hret; subst h2. clear Hret.
      apply tensor_entry_inv in He as (Hd & Hs & Ho).
      destruct (addTensor_bytes_cases h ret_ k
                  (slice b (8 + hdrsize + start) (8 + hdrsize + end_))
                  dtype shp)
        as [(m0 & Hm0 & Hfresh & Hfmt & Hspec)|(e & h2 & Hthrow & _)];
        [|congruence].
      rewrite Hm in Hm0. inversion Hm0; subst m0. clear Hm0.
      rewrite Hspec in Hadd. inversion Hadd as [[Hl0 Hh1]]. clear Hadd.
      set (t0 := mkTensorRef k
                   (slice b (8 + hdrsize + start) (8 + hdrsize + end_))
                   dtype shp (Some ret_)) in *.
      set (m1 := set_refs m (m.(refs) ++ [(k, h.(next))])) in *.
      destruct (IH h1 h' m1) as (m' & Hm' & Hnext & Hframe & Hnew);
        [subst h1; apply lookup_insert_eq|exact Hrest| |].
      { subst h1. cbn [next]. intros n l Hn.
        unfold m1, set_refs, Map_get in Hn. cbn [refs] in Hn.
        rewrite assoc_get_app in Hn.
        destruct (assoc_get (refs m) n) as [y|] eqn:Hy.
        - inversion Hn; subst y. pose proof (Hold n l Hy). lia.
        - cbn [assoc_get] in Hn.
          destruct (String.eqb k n); [|discriminate Hn].
          inversion Hn. lia. }
      exists m'. subst h1. cbn [tensorRefs next] in *.
      split; [exact Hm'|]. split; [lia|].
      split.
      { intros l Hl. rewrite Hframe by lia. apply lookup_insert_ne. lia. }
      intros n l Hn. destruct (Hnew n l Hn) as (Hlt & Hcase).
      split; [exact Hlt|].
      destruct Hcase as [Hm1|(val & o0 & o1 & dt & sh & Hin & Hrest')].
      * unfold m1, set_refs, Map_get in Hm1. cbn [refs] in Hm1.
        rewrite assoc_get_app in Hm1.
        destruct (assoc_get (refs m) n) as [y|] eqn:Hy;
          [left; unfold Map_get; congruence|].
        cbn [assoc_get] in Hm1.
        destruct (String.eqb_spec k n) as [->|]; [|discriminate Hm1].
        inversion Hm1; subst l. right.
        exists v, start, end_, dtype, shp.
        split; [now left|]. split; [exact Hk|].
        split; [exact Hd|]. split; [exact Hfmt|].
        split; [exact Hs|]. split; [exact Ho|].
        rewrite Hframe by lia. apply lookup_insert_eq.
      * right. exists val, o0, o1, dt, sh. split; [now right|exact Hrest'].
Qed.

(** X21.  What the decoder returns, with or without leniency: a new container
    whose every tensor was made from an entry of the header, carries the
    name it is stored under, and points back to the container. *)
Theorem parseSafeTensors_owns_its_tensors (b : Bytes) (ignoreInvalid : bool)
    (h h' : heap) (c : loc) :
  parseSafeTensors b ignoreInvalid h = (Ok c, h') ->
  c = h.(next)
  /\ exists tm : TensorMap,
       h'.(tensorMaps) !! c = Some tm
       /\ forall n l,
            Map_get tm.(refs) n = Some l ->
            exists t : TensorRef,
              h'.(tensorRefs) !! l = Some t
              /\ t.(_name) = n
              /\ t.(_parent) = Some c
              /\ t.(format) <> EmptyString.
Proof.
  unfold parseSafeTensors. intros H.
  apply bindM_lift_inv in H as (n & _ & H).
  apply bindM_inv in H as (ret_ & h1 & Hnew & H).
  unfold TensorMap.new, alloc_map in Hnew. inversion Hnew; subst ret_ h1.
  clear Hnew.
  apply bindM_lift_inv in H as (text & _ & H).
  apply bindM_lift_inv in H as (j & _ & H).
  apply bindM_lift_inv in H as ([] & _ & H).
  apply bindM_lift_inv in H as (es & _ & H).
  apply bindM_inv in H as ([] & h2 & Hloop & Hret).
  unfold ret in Hret. inversion Hret; subst c h2. clear Hret.
  split; [reflexivity|].
  eapply parseSafeTensors_loop_refs in Hloop
    as (m' & Hm' & _ & _ & Hall);
    [|cbn [tensorMaps]; apply lookup_insert_eq|intros ? ? Hf; discriminate Hf].
  exists m'. split; [exact Hm'|].
  intros k l Hk. destruct (Hall k l Hk) as (_ & [Hf|Hcase]);
    [discriminate Hf|].
  destruct Hcase
    as (val & o0 & o1 & dtype & shp & Hin & _ & Hd & Hne & _ & _ & Ht).
  eexists. split; [exact Ht|]. now repeat split.
Qed.

Lemma parseSafeTensors_owns_its_tensors_witness :
  1%positive = empty_heap.(next)
  /\ exists tm : TensorMap,
       (snd (parseSafeTensors test_archive false empty_heap)).(tensorMaps)
         !! 1%positive = Some tm
       /\ forall n l,
            Map_get tm.(refs) n = Some l ->
            exists t : TensorRef,
              (snd (parseSafeTensors test_archive false empty_heap)).(tensorRefs)
                !! l = Some t
              /\ t.(_name) = n
              /\ t.(_parent) = Some 1%positive
              /\ t.(format) <> EmptyString.
Proof.
  apply (parseSafeTensors_owns_its_tensors test_archive false empty_heap).
  vm_compute. reflexivity.
Defined.

Lemma slice_length_exact (b : Bytes) (s e : Z) :
  0 <= s <= e -> e <= byteLength b -> byteLength (slice b s e) = e - s.
Proof.
  intros Hs He. unfold slice, relative_index.
  destruct (Z.ltb_spec s 0); [lia|]. destruct (Z.ltb_spec e 0); [lia|].
  unfold byteLength in *. rewrite length_firstn, length_skipn. lia.
Qed.

(** X22.  Without leniency and with a header size that is not negative, the
    container the decoder returns holds, for every tensor entry of the
    header whose [data_offsets] are two integers, a tensor under the name
    of the entry with exactly the bytes of that range: the range lies
    inside the buffer, the byte length is the difference of the two
    offsets, and the shape is that of the entry and holds numbers only. *)
Theorem parseSafeTensors_strict_byte_ranges (b : Bytes) (h h' : heap)
    (c : loc) :
  parseSafeTensors b false h = (Ok c, h') ->
  0 <= unsafeGetHeaderSize b ->
  exists (text : string) (j : json) (entries : list (string * json))
         (tm : TensorMap),
    TextDecoder_decode (slice b 8 (8 + unsafeGetHeaderSize b)) = Ok text
    /\ JSON_parse text = Ok j
    /\ Object_entries j = Ok entries
    /\ h'.(tensorMaps) !! c = Some tm
    /\ forall (name : string) (val : json) (o0 o1 : Z),
         List.In (name, val) entries ->
         name <> "__metadata__"%string ->
         get_prop val "data_offsets" = Some (JArr [JNum o0; JNum o1]) ->
         exists (l : loc) (t : TensorRef),
           Map_get tm.(refs) name = Some l
           /\ h'.(tensorRefs) !! l = Some t
           /\ 0 <= o0 <= o1
           /\ 8 + unsafeGetHeaderSize b + o1 <= byteLength b
           /\ t.(bytes) = slice b (8 + unsafeGetHeaderSize b + o0)
                                  (8 + unsafeGetHeaderSize b + o1)
           /\ byteLength t.(bytes) = o1 - o0
           /\ get_prop val "shape" = Some (JArr t.(shape))
           /\ forallb is_number t.(shape) = true.
Proof.
  unfold parseSafeTensors. intros H Hsize.
  apply bindM_lift_inv in H as (n & _ & H).
  apply bindM_inv in H as (ret_ & h1 & Hnew & H).
  unfold TensorMap.new, alloc_map in Hnew. inversion Hnew; subst ret_ h1.
  clear Hnew.
  apply bindM_lift_inv in H as (text & Htext & H).
  apply bindM_lift_inv in H as (j & Hj & H).
  apply bindM_lift_inv in H as ([] & Hvalid & H).
  apply bindM_lift_inv in H as (es & Hes & H).
  apply bindM_inv in H as ([] & h2 & Hloop & Hret).
  unfold ret in Hret. inversion Hret; subst c h2. clear Hret.
  pose proof (sanityCheckTensorsParsed_strict_entries _ _ _ Hvalid Hes)
    as Hsound.
  eapply parseSafeTensors_loop_inv in Hloop
    as (m' & Hm' & _ & _ & _ & Hall & _);
    [|cbn [tensorMaps]; apply lookup_insert_eq].
  exists text, j, es, m'.
  split; [exact Htext|]. split; [exact Hj|]. split; [exact Hes|].
  split; [exact Hm'|].
  intros name val o0 o1 Hin Hname Hoff.
  destruct (Hall name val Hin Hname)
    as (l & t & p0 & p1 & Hl & Ht & _ & Hs & Ho & Hb).
  rewrite Ho in Hoff. inversion Hoff; subst p0 p1. clear Hoff.
  specialize (Hsound name val Hin).
  apply String.eqb_neq in Hname. rewrite Hname in Hsound.
  destruct Hsound
    as (fields & dt & sh & x & y & -> & _ & _ & Hsh & Hnum & Hdo & Hrange).
  cbn [get_prop] in Hs, Ho.
  rewrite Hsh in Hs. inversion Hs; subst sh.
  rewrite Hdo in Ho. inversion Ho; subst x y.
  unfold pairInRange in Hrange. cbn [fst snd] in Hrange.
  repeat (apply andb_true_iff in Hrange as [Hrange ?]).
  exists l, t. split; [exact Hl|]. split; [exact Ht|].
  split; [lia|]. split; [lia|]. split; [exact Hb|].
  split; [rewrite Hb, slice_length_exact by lia; lia|].
  split; [cbn [get_prop]; exact Hsh|exact Hnum].
Qed.

Lemma parseSafeTensors_strict_byte_ranges_witness :
  exists (text : string) (j : json) (entries : list (string * json))
         (tm : TensorMap),
    TextDecoder_decode
      (slice test_archive 8 (8 + unsafeGetHeaderSize test_archive)) = Ok text
    /\ JSON_parse text = Ok j
    /\ Object_entries j = Ok entries
    /\ (snd (parseSafeTensors test_archive false empty_heap)).(tensorMaps)
         !! 1%positive = Some tm
    /\ forall (name : string) (val : json) (o0 o1 : Z),
         List.In (name, val) entries ->
         name <> "__metadata__"%string ->
         get_prop val "data_offsets" = Some (JArr [JNum o0; JNum o1]) ->
         exists (l : loc) (t : TensorRef),
           Map_get tm.(refs) name = Some l
           /\ (snd (parseSafeTensors test_archive false empty_heap)).(tensorRefs)
                !! l = Some t
           /\ 0 <= o0 <= o1
           /\ 8 + unsafeGetHeaderSize test_archive + o1
              <= byteLength test_archive
           /\ t.(bytes) = slice test_archive
                            (8 + unsafeGetHeaderSize test_archive + o0)
                            (8 + unsafeGetHeaderSize test_archive + o1)
           /\ byteLength t.(bytes) = o1 - o0
           /\ get_prop val "shape" = Some (JArr t.(shape))
           /\ forallb is_number t.(shape) = true.
Proof.
  apply (parseSafeTensors_strict_byte_ranges test_archive empty_heap).
  - vm_compute. reflexivity.
  - vm_compute. discriminate.
Defined.

Lemma parse_members_ordered (f : nat) :
  forall (acc : list (string * json)) (s : string)
         (o : list (string * json)) (rest : string),
    js_ordered acc ->
    parse_members f acc s = Ok (o, rest) -> js_ordered o.
Proof.
  induction f as [|f IH]; intros acc s o rest Hacc H; [discriminate H|].
  rewrite parse_members_step in H.
  destruct (parse_key s) as [[k r]|e]; [|discriminate H].
  cbn [bind] in H.
  destruct (parse_value f r) as [[v r0]|e]; [|discriminate H].
  cbn [bind] in H. cbv zeta in H.
  destruct (skip_ws r0) as [|c r1]; [discriminate H|].
  pose proof (js_ordered_define acc k v Hacc) as Hacc'.
  destruct (code c =? 44)%N; [now apply (IH _ _ _ _ Hacc' H)|].
  destruct (code c =? 125)%N; [|discriminate H].
  now inversion H; subst.
Qed.

Lemma parse_value_object_ordered (f : nat) (s rest : string)
    (o : list (string * json)) :
  parse_value f s = Ok (JObj o, rest) -> js_ordered o.
Proof.
  destruct f as [|f]; [discriminate|].
  rewrite parse_value_S.
  destruct (skip_ws s) as [|c r]; [discriminate|]. cbv zeta.
  destruct (code c =? 123)%N.
  { destruct (skip_ws r) as [|c1 r1]; [discriminate|].
    destruct (code c1 =? 125)%N; [intros H; now inversion H|].
    destruct (parse_members f [] r) as [[o' rest']|e] eqn:E; [|discriminate].
    cbn [bind]. intros H. inversion H; subst o' rest'.
    exact (parse_members_ordered f [] r o rest I E). }
  destruct (code c =? 91)%N.
  { destruct (skip_ws r) as [|c1 r1]; [discriminate|].
    destruct (code c1 =? 93)%N; [discriminate|].
    destruct (parse_elems f r) as [[? ?]|?]; discriminate. }
  destruct (code c =? 34)%N.
  { destruct (parse_chars r) as [[? ?]|?]; discriminate. }
  destruct (_ || _).
  - unfold parse_number. destruct (code c =? 45)%N.
    + destruct (parse_digits r) as [[? ?]|?]; discriminate.
    + destruct (parse_digits (String c r)) as [[? ?]|?]; discriminate.
  - unfold parse_literal.
    destruct (strip_prefix "true" _); [discriminate|].
    destruct (strip_prefix "false" _); [discriminate|].
    destruct (strip_prefix "null" _); discriminate.
Qed.

Lemma indexed_from_keys {A : Type} (l : list A) :
  forall (i : N) (k : string) (x : A),
    List.In (k, x) (indexed_from i l) ->
    exists j, (i <= j)%N /\ k = string_of_N j.
Proof.
  induction l as [|y l IH]; intros i k x Hin; [destruct Hin|].
  destruct Hin as [E|Hin].
  - inversion E. exists i. split; [lia|reflexivity].
  - destruct (IH _ _ _ Hin) as (j & Hj & ->). exists j. split; [lia|reflexivity].
Qed.

Lemma indexed_from_unique {A : Type} (l : list A) (i : N) :
  unique_keys (indexed_from i l).
Proof.
  revert i. induction l as [|y l IH]; intros i; [exact I|].
  cbn [indexed_from unique_keys]. split; [|apply IH].
  destruct (assoc_get (indexed_from (N.succ i) l) (string_of_N i)) as [x|] eqn:E;
    [|reflexivity].
  apply assoc_get_In, indexed_from_keys in E as (j & Hj & E).
  apply (f_equal (digits_value 0)) in E.
  rewrite !digits_value_string_of_N in E. lia.
Qed.

(** The entries of a parsed text have distinct names. *)
Lemma JSON_parse_entries_unique (text : string) (j : json)
    (es : list (string * json)) :
  JSON_parse text = Ok j -> Object_entries j = Ok es -> unique_keys es.
Proof.
  unfold JSON_parse. intros Hj Hes.
  destruct (parse_value _ text) as [[v rest]|e] eqn:Hv; [|discriminate Hj].
  cbn [bind] in Hj. destruct (skip_ws rest); [|discriminate Hj].
  inversion Hj; subst v.
  destruct j as [|?|?|s|l|o]; cbn in Hes;
      try (destruct (is_ascii _); [|discriminate Hes]); inversion Hes; subst es;
    try exact I; try apply indexed_from_unique.
  apply js_ordered_unique. exact (parse_value_object_ordered _ _ _ _ Hv).
Qed.

Lemma well_formed_tensor_entry (chunksize : Z) (v : json) :
  well_formed_tensor chunksize v ->
  exists (dtype : string) (shp : list json) (a b : Z),
    tensor_entry v = Ok (dtype, shp, a, b)
    /\ get_prop v "dtype" = Some (JStr dtype).
Proof.
  intros (fields & dtype & shp & a & b & -> & _ & Hd & Hs & _ & Ho & _).
  exists dtype, shp, a, b. unfold tensor_entry. cbn [get_prop].
  now rewrite Hd, Hs, Ho.
Qed.

(** How the decoding loop ends on entries it can read: it
    returns when every tensor names a format, and otherwise throws the
    fatal error of [addTensor] for a tensor whose [dtype] is empty. *)
Lemma parseSafeTensors_loop_outcome (b : Bytes) (hdrsize : Z) (ret_ : loc)
    (es : list (string * json)) :
  forall (h : heap) (m : TensorMap),
    h.(tensorMaps) !! ret_ = Some m ->
    unique_keys es ->
    (forall k v, List.In (k, v) es -> Map_get m.(refs) k = None) ->
    (forall k v, List.In (k, v) es ->
                 if String.eqb k "__metadata__"
                 then exists md, Object_entries v = Ok md
                 else exists (dtype : string) (shp : list json) (a c : Z),
                        tensor_entry v = Ok (dtype, shp, a, c)
                        /\ get_prop v "dtype" = Some (JStr dtype)) ->
    match fst (parseSafeTensors_loop b hdrsize ret_ es h) with
    | Ok _ => Forall names_a_format es
    | Throw e =>
        exists n v,
          List.In (n, v) es /\ n <> "__metadata__"%string
          /\ get_prop v "dtype" = Some (JStr EmptyString)
          /\ e = Error (MustProvideFormatAndShape n)
    end.
Proof.
  induction es as [|[k v] es IH]; intros h m Hm Huniq Hfresh Hwf;
    [constructor|].
  destruct Huniq as (Hk_fresh & Huniq).
  cbn [parseSafeTensors_loop].
  pose proof (Hwf k v (or_introl eq_refl)) as Hkv.
  destruct (String.eqb_spec k "__metadata__") as [->|Hk].
  - destruct Hkv as (md & Hmd).
    unfold bindM at 1. unfold bindM at 1. unfold lift at 1. rewrite Hmd.
    unfold TensorMap.setAllMetadata.
    erewrite bindM_get_map by exact Hm. unfold set_map at 1.
    set (h1 := mkHeap _ _ _).
    specialize (IH h1 (mkTensorMap m.(refs) (Map_of_entries md))).
    destruct (fst (parseSafeTensors_loop b hdrsize ret_ es h1)) as [[]|e].
    + constructor; [now left|]. apply IH; try assumption.
      * apply lookup_insert_eq.
      * intros k1 v1 H1. apply (Hfresh k1 v1). now right.
      * intros k1 v1 H1. apply Hwf. now right.
    + destruct IH as (n & v' & Hin & Hrest); try assumption.
      * apply lookup_insert_eq.
      * intros k1 v1 H1. apply (Hfresh k1 v1). now right.
      * intros k1 v1 H1. apply Hwf. now right.
      * exists n, v'. split; [now right|exact Hrest].
  - destruct Hkv as (dtype & shp & a & c & He & Hd).
    unfold bindM at 1. unfold bindM at 1. unfold lift at 1. rewrite He.
    assert (Hkf : Map_get (refs m) k = None)
      by (apply (Hfresh k v); now left).
    destruct (String.eqb_spec dtype EmptyString) as [->|Hne].
    + unfold bindM at 1. unfold TensorMap.addTensor.
      erewrite bindM_get_map by exact Hm. rewrite Hkf.
      cbn [String.eqb fst]. exists k, v.
      repeat split; [now left|assumption|assumption].
    + unfold bindM at 1.
      rewrite (addTensor_bytes_spec h ret_ m k _ dtype shp Hm Hkf Hne).
      unfold ret at 1.
      set (h1 := mkHeap _ _ _).
      specialize (IH h1 (set_refs m (m.(refs) ++ [(k, h.(next))]))).
      assert (Hfresh1 : forall k1 v1,
                 List.In (k1, v1) es ->
                 Map_get (refs (set_refs m (refs m ++ [(k, next h)]))) k1
                 = None).
      { intros k1 v1 H1. cbn [refs set_refs]. unfold Map_get.
        rewrite assoc_get_app.
        pose proof (Hfresh k1 v1 (or_intror H1)) as Hf1.
        unfold Map_get in Hf1. rewrite Hf1. cbn [assoc_get].
        destruct (String.eqb_spec k k1) as [->|]; [|reflexivity].
        exfalso. exact (assoc_get_None_In es k1 v1 Hk_fresh H1). }
      destruct (fst (parseSafeTensors_loop b hdrsize ret_ es h1)) as [[]|e].
      * constructor.
        { right. cbn [snd]. rewrite Hd. intros E. inversion E. congruence. }
        apply IH; try assumption.
        -- apply lookup_insert_eq.
        -- intros k1 v1 H1. apply Hwf. now right.
      * destruct IH as (n & v' & Hin & Hrest); try assumption.
        -- apply lookup_insert_eq.
        -- intros k1 v1 H1. apply Hwf. now right.
        -- exists n, v'. split; [now right|exact Hrest].
Qed.

(** X23.  Once the header and the strict validator accepted an archive, the
    decoder, with or without leniency, fails for one reason only: a
    tensor whose [dtype] is the empty string, which [addTensor] refuses
    with its fatal error.  When every tensor names a format the decoder
    returns a new container. *)
Theorem parseSafeTensors_fails_only_on_empty_dtype (b : Bytes)
    (ignoreInvalid : bool) (h : heap) (n : Z) (text : string) (j : json)
    (es : list (string * json)) :
  sanityCheckTensorsHeader false b (byteLength b) = Ok n ->
  TextDecoder_decode (slice b 8 (8 + unsafeGetHeaderSize b)) = Ok text ->
  JSON_parse text = Ok j ->
  sanityCheckTensorsParsed false j (byteLength b - 8 - unsafeGetHeaderSize b)
  = Ok tt ->
  Object_entries j = Ok es ->
  (Forall names_a_format es ->
   exists h', parseSafeTensors b ignoreInvalid h = (Ok h.(next), h'))
  /\ (forall e h',
         parseSafeTensors b ignoreInvalid h = (Throw e, h') ->
         exists name v,
           List.In (name, v) es /\ name <> "__metadata__"%string
           /\ get_prop v "dtype" = Some (JStr EmptyString)
           /\ e = Error (MustProvideFormatAndShape name)).
Proof.
  intros Hhdr Htext Hj Hvalid Hes.
  assert (Hhdr' : sanityCheckTensorsHeader ignoreInvalid b (byteLength b)
                  = Ok n).
  { destruct ignoreInvalid; [|exact Hhdr].
    now apply sanityCheckTensorsHeader_strict_lenient. }
  assert (Hvalid' : sanityCheckTensorsParsed ignoreInvalid j
                      (byteLength b - 8 - unsafeGetHeaderSize b) = Ok tt).
  { destruct ignoreInvalid; [|exact Hvalid].
    now apply sanityCheckTensorsParsed_strict_lenient. }
  pose proof (sanityCheckTensorsParsed_strict_entries _ _ _ Hvalid Hes)
    as Hsound.
  pose proof (JSON_parse_entries_unique text j es Hj Hes) as Huniq.
  set (h1 := mkHeap h.(tensorRefs)
               (<[h.(next) := mkTensorMap [] []]> h.(tensorMaps))
               (Pos.succ h.(next))).
  assert (Hread : forall k v,
             List.In (k, v) es ->
             if String.eqb k "__metadata__"
             then exists md, Object_entries v = Ok md
             else exists (dtype : string) (shp : list json) (a c : Z),
                    tensor_entry v = Ok (dtype, shp, a, c)
                    /\ get_prop v "dtype" = Some (JStr dtype)).
  { intros k v Hin. specialize (Hsound k v Hin).
    destruct (String.eqb k "__metadata__").
    - destruct Hsound as (md & Hmd & _). now exists md.
    - exact (well_formed_tensor_entry _ _ Hsound). }
  pose proof (parseSafeTensors_loop_outcome b (unsafeGetHeaderSize b)
                h.(next) es h1 (mkTensorMap [] [])
                ltac:(apply lookup_insert_eq) Huniq
                ltac:(reflexivity) Hread) as Hout.
  assert (Hrun : parseSafeTensors b ignoreInvalid h
                 = match parseSafeTensors_loop b (unsafeGetHeaderSize b)
                           h.(next) es h1 with
                   | (Ok _, h') => (Ok h.(next), h')
                   | (Throw e, h') => (Throw e, h')
                   end).
  { unfold parseSafeTensors.
    unfold bindM at 1, lift at 1. rewrite Hhdr'.
    unfold bindM at 1, TensorMap.new, alloc_map. fold h1.
    unfold bindM at 1, lift at 1. rewrite Htext.
    unfold bindM at 1, lift at 1. rewrite Hj.
    unfold bindM at 1, lift at 1. rewrite Hvalid'.
    unfold bindM at 1, lift at 1. rewrite Hes.
    unfold bindM at 1.
    destruct (parseSafeTensors_loop b (unsafeGetHeaderSize b) (next h) es h1)
      as [[[]|e] h']; reflexivity. }
  rewrite Hrun.
  destruct (parseSafeTensors_loop b (unsafeGetHeaderSize b) (next h) es h1)
    as [[[]|e] h'] eqn:Hloop; cbn [fst] in Hout.
  - split; [intros _; now exists h'|]. intros e h2 H. discriminate H.
  - destruct Hout as (name & v & Hin & Hname & Hd & ->).
    split.
    + intros Hall. exfalso.
      apply (proj1 (List.Forall_forall _ _) Hall) in Hin.
      destruct Hin as [Hm|Hd']; [contradiction|]. cbn [snd] in Hd'.
      contradiction.
    + intros e h2 H. inversion H; subst e h2. now exists name, v.
Qed.

Lemma parseSafeTensors_fails_only_on_empty_dtype_witness :
  fst (parseSafeTensors empty_dtype_archive true empty_heap)
  = Throw (Error (MustProvideFormatAndShape "a"))
  /\ exists h', parseSafeTensors test_archive false empty_heap
                = (Ok 1%positive, h').
Proof.
  split; [vm_compute; reflexivity|].
  apply (proj1 (parseSafeTensors_fails_only_on_empty_dtype test_archive false
                  empty_heap 64 test_header
                  (JObj [("ten", JObj [("dtype", JStr "BF16");
                                       ("shape", JArr [JNum 2; JNum 3]);
                                       ("data_offsets",
                                        JArr [JNum 0; JNum 12])])])
                  [("ten", JObj [("dtype", JStr "BF16");
                                 ("shape", JArr [JNum 2; JNum 3]);
                                 ("data_offsets", JArr [JNum 0; JNum 12])])]
                  ltac:(vm_compute; reflexivity)
                  ltac:(vm_compute; reflexivity)
                  ltac:(vm_compute; reflexivity)
                  ltac:(vm_compute; reflexivity)
                  eq_refl)).
  constructor; [|constructor]. right. discriminate.
Defined.

(* ===================================================================== *)
(** ** The encoder *)
(* ===================================================================== *)

Lemma layout_aligned (tes : list (string * TensorRef)) :
  forall (off : Z) (n : string) (t : TensorRef) (o : Z),
    off mod 8 = 0 -> List.In (n, t, o) (layout off tes) -> o mod 8 = 0.
Proof.
  induction tes as [|[n0 t0] r IH]; intros off n t o Hoff Hin;
    [destruct Hin|].
  destruct Hin as [E|Hin]; [now inversion E; subst|].
  apply (IH (off + round8 (byteLength (bytes t0))) n t o); [|exact Hin].
  rewrite <- Z.add_mod_idemp_l, Hoff by lia. apply round8_mod.
Qed.

(** What the loop of [calcOffset] leaves in the header object: the entry
    of every tensor under its name, read as [this.hdr[name]] reads it, and
    the other properties as they were. *)
Lemma calcOffset_loop_get (tes : list (string * TensorRef)) :
  forall (hdr : list (string * json)) (proto : option json) (off : Z),
    unique_keys tes ->
    data_size tes < 2147483648 ->
    exists hdr' proto',
      TensorSaver.calcOffset_loop hdr proto off tes
      = (hdr', proto', off + data_size tes)
      /\ (forall n t o,
             List.In (n, t, o) (layout off tes) ->
             (if String.eqb n "__proto__" then proto' else assoc_get hdr' n)
             = Some (entry_of t o))
      /\ (forall n,
             assoc_get tes n = None ->
             (if String.eqb n "__proto__" then proto' else assoc_get hdr' n)
             = (if String.eqb n "__proto__" then proto else assoc_get hdr n)).
Proof.
  induction tes as [|[n0 t0] r IH]; intros hdr proto off Hu Hsize.
  - exists hdr, proto. cbn [TensorSaver.calcOffset_loop data_size layout].
    rewrite Z.add_0_r. split; [reflexivity|]. split; [intros n t o []|].
    reflexivity.
  - destruct Hu as (Hfresh & Hu). cbn [data_size] in Hsize.
    pose proof (data_size_nonneg r) as Hr.
    pose proof (round8_bounds (byteLength (bytes t0))) as Hr8.
    assert (Hlen : 0 <= byteLength (bytes t0)) by (unfold byteLength; lia).
    cbn [TensorSaver.calcOffset_loop].
    rewrite align8_round8 by (try apply round8_below; lia).
    fold (entry_of t0 off).
    destruct (TensorSaver.hdr_assign hdr proto n0 (entry_of t0 off))
      as [hdr1 proto1] eqn:Hassign.
    destruct (IH hdr1 proto1 (off + round8 (byteLength (bytes t0))) Hu
                ltac:(lia)) as (hdr' & proto' & Hrun & Hget & Hkeep).
    exists hdr', proto'. rewrite Hrun. cbn [data_size layout].
    split; [f_equal; lia|].
    assert (Hfirst : (if String.eqb n0 "__proto__" then proto1
                      else assoc_get hdr1 n0) = Some (entry_of t0 off)).
    { unfold TensorSaver.hdr_assign in Hassign.
      destruct (String.eqb n0 "__proto__"); inversion Hassign; subst.
      - reflexivity.
      - rewrite assoc_get_define. now rewrite String.eqb_refl. }
    assert (Hother : forall n,
               String.eqb n0 n = false ->
               (if String.eqb n "__proto__" then proto1 else assoc_get hdr1 n)
               = (if String.eqb n "__proto__" then proto
                  else assoc_get hdr n)).
    { intros n Hn. unfold TensorSaver.hdr_assign in Hassign.
      destruct (String.eqb_spec n0 "__proto__") as [->|H0];
        inversion Hassign; subst.
      - rewrite String.eqb_sym, Hn. reflexivity.
      - rewrite assoc_get_define, Hn. reflexivity. }
    split.
    + intros n t o [E|Hin].
      * inversion E; subst n t o. rewrite (Hkeep n0 Hfresh). exact Hfirst.
      * now apply Hget.
    + intros n Hn. cbn [assoc_get] in Hn.
      destruct (String.eqb n0 n) eqn:E; [discriminate Hn|].
      rewrite (Hkeep n Hn). now apply Hother.
Qed.

(** X24.  The offsets [calcOffset] assigns, whatever the names, formats and
    shapes, as long as the data section stays below 2^31 bytes: every
    tensor, empty ones included, gets the range from its start to its
    start plus its byte length, every start is a multiple of 8, two
    tensors never share a byte, and the running offset ends at the size
    of the data section. *)
Theorem calcOffset_aligned_ranges (h : heap) (tm : TensorMap)
    (tes : list (string * TensorRef)) :
  TensorSaver.entries_of h tm.(refs) = Ok tes ->
  unique_keys tm.(refs) ->
  data_size tes < 2147483648 ->
  exists save : TensorSaver.t,
    TensorSaver.calcOffset h tm (TensorSaver.new tm) = Ok save
    /\ save.(TensorSaver.tes) = tes
    /\ save.(TensorSaver.offset) = data_size tes
    /\ save.(TensorSaver.offset) mod 8 = 0
    /\ (forall n t o,
           List.In (n, t, o) (layout 0 tes) ->
           TensorSaver.hdr_get save n = Some (entry_of t o)
           /\ o mod 8 = 0
           /\ 0 <= o
           /\ o + byteLength t.(bytes) <= data_size tes)
    /\ forall n t o n' t' o',
         List.In (n, t, o) (layout 0 tes) ->
         List.In (n', t', o') (layout 0 tes) ->
         (n, t, o) = (n', t', o')
         \/ o + byteLength t.(bytes) <= o'
         \/ o' + byteLength t'.(bytes) <= o.
Proof.
  intros Hent Hnames Hsize.
  assert (Hu : unique_keys tes).
  { eapply unique_keys_same_keys; [|exact Hnames].
    symmetry. now apply entries_of_keys with (h := h). }
  destruct (calcOffset_loop_get tes
              (TensorSaver.hdr (TensorSaver.new tm))
              (TensorSaver.hdr_proto (TensorSaver.new tm)) 0 Hu Hsize)
    as (hdr' & proto' & Hrun & Hget & _).
  eexists. split.
  { unfold TensorSaver.calcOffset. rewrite Hent. cbn [bind].
    rewrite Hrun. reflexivity. }
  cbn [TensorSaver.tes TensorSaver.offset]. split; [reflexivity|].
  split; [lia|]. split.
  { rewrite Z.add_0_l. clear.
    induction tes as [|[n t] r IH]; [reflexivity|].
    cbn [data_size]. rewrite <- Z.add_mod_idemp_l, round8_mod by lia.
    exact IH. }
  split.
  - intros n t o Hin. split; [exact (Hget n t o Hin)|].
    split; [now apply (layout_aligned tes 0 n t o)|].
    pose proof (layout_bounds tes 0 n t o Hin).
    pose proof (round8_bounds (byteLength (bytes t))). lia.
  - intros n t o n' t' o' Hin Hin'.
    pose proof (round8_bounds (byteLength (bytes t))).
    pose proof (round8_bounds (byteLength (bytes t'))).
    destruct (layout_separated tes 0 n n' t t' o o' Hin Hin')
      as [|[|]]; [now left|right; left; lia|right; right; lia].
Qed.

Lemma calcOffset_aligned_ranges_witness :
  exists save : TensorSaver.t,
    TensorSaver.calcOffset ordered_names_heap ordered_names_map
      (TensorSaver.new ordered_names_map) = Ok save
    /\ save.(TensorSaver.offset) = 16.
Proof.
  destruct (calcOffset_aligned_ranges ordered_names_heap ordered_names_map
              ordered_names_tensors ltac:(vm_compute; reflexivity)
              ltac:(repeat split) ltac:(vm_compute; reflexivity))
    as (save & H1 & _ & H2 & _).
  exists save. split; [exact H1|]. rewrite H2. reflexivity.
Defined.

(** X25.  The archive of a container the encoder handles: its length and the
    header size stored in its first bytes are multiples of 8, the raw
    header check accepts it and returns that size, and the bytes of every
    tensor stand at its recorded offset in the data section. *)
Theorem saveSafeTensors_archive_layout (h : heap) (tm : TensorMap)
    (tes : list (string * TensorRef)) :
  encodable h tm tes ->
  exists b : Bytes,
    saveSafeTensors_of h tm = Ok b
    /\ byteLength b mod 8 = 0
    /\ unsafeGetHeaderSize b mod 8 = 0
    /\ byteLength b = 8 + unsafeGetHeaderSize b + data_size tes
    /\ sanityCheckTensorsHeader false b (byteLength b)
       = Ok (unsafeGetHeaderSize b)
    /\ forall n t o,
         List.In (n, t, o) (layout 0 tes) ->
         slice b (8 + unsafeGetHeaderSize b + o)
                 (8 + unsafeGetHeaderSize b + (o + byteLength t.(bytes)))
         = t.(bytes).
Proof.
  intros Henc. eexists. split; [exact (saveSafeTensors_of_spec h tm tes Henc)|].
  set (text := JSON_stringify (JObj (header_of tm tes))).
  set (len := Z.of_nat (String.length text)).
  destruct (JSON_stringify_obj_head (header_of tm tes)) as (r & Hr).
  fold text in Hr.
  destruct (sanityCheckTensorsHeader_archive text r tes Hr
              (enc_header _ _ _ Henc)) as (Hcheck & Hsize).
  pose proof (archive_length text tes) as Hlen.
  fold len in Hcheck, Hsize, Hlen. rewrite Hsize, Hlen in *.
  assert (Hds : data_size tes mod 8 = 0).
  { clear. induction tes as [|[n t] tes IH]; [reflexivity|].
    cbn [data_size]. rewrite <- Z.add_mod_idemp_l, round8_mod by lia.
    exact IH. }
  split.
  { rewrite <- Z.add_mod_idemp_r, Hds, Z.add_0_r by lia.
    replace (8 + round8 len) with (round8 len + 1 * 8) by lia.
    rewrite Z.mod_add by lia. apply round8_mod. }
  split; [apply round8_mod|]. split; [reflexivity|].
  split; [exact Hcheck|].
  intros n t o Hin.
  destruct (layout_In_split tes 0 n t o Hin) as (pre & post & -> & Ho).
  rewrite Z.add_0_l in Ho. subst o.
  apply (tensor_slice text pre post n t).
Qed.

Lemma saveSafeTensors_archive_layout_witness :
  exists b : Bytes,
    saveSafeTensors_of test_container_heap test_container_map = Ok b
    /\ byteLength b mod 8 = 0.
Proof.
  destruct (saveSafeTensors_archive_layout test_container_heap
              test_container_map test_container_tensors
              test_container_encodable)
    as (b & H1 & H2 & _).
  exists b. now split.
Defined.

Lemma concat_snoc (chunks : list Bytes) (data : Bytes) :
  concat (chunks ++ [data]) = concat chunks ++ data.
Proof. rewrite concat_app. cbn [concat]. now rewrite app_nil_r. Qed.

Lemma writeTensors_callback_spec (tes : list (string * TensorRef)) :
  forall (s : TensorSaver.t) (chunks : list Bytes) (o : Z),
    (forall n t off, List.In (n, t, off) (layout o tes) ->
                     TensorSaver.hdr_get s n = Some (entry_of t off)) ->
    o mod 8 = 0 -> 0 <= o ->
    o + data_size tes < 2147483648 ->
    exists chunks',
      TensorSaverCallback.writeTensors_loop s chunks o tes = (Ok tt, chunks')
      /\ concat chunks' = concat chunks ++ data_section tes.
Proof.
  induction tes as [|[n t] r IH]; intros s chunks o Hget Hmod Ho Hsize.
  - exists chunks. split; [reflexivity|]. cbn [data_section].
    now rewrite app_nil_r.
  - cbn [TensorSaverCallback.writeTensors_loop].
    cbn [data_size] in Hsize. pose proof (data_size_nonneg r).
    set (len := byteLength (bytes t)) in *.
    assert (Hlen : 0 <= len) by (unfold len, byteLength; lia).
    pose proof (round8_bounds len) as Hr8.
    pose proof (round8_pad len Hlen) as Hpad.
    pose proof (Z.mod_pos_bound len 8 ltac:(lia)) as Hm.
    cbv zeta. rewrite js_and_7 by lia.
    assert (Hend : TensorSaver.recorded_end s n = Ok (o + len)).
    { apply recorded_end_entry. apply Hget. now left. }
    assert (Halign : align8 (o + len) = o + round8 len).
    { rewrite align8_round8;
        [now apply round8_add|lia
        |apply round8_below; rewrite round8_add by assumption; lia]. }
    assert (Hrest : forall n' t' off,
               List.In (n', t', off) (layout (o + round8 len) r) ->
               TensorSaver.hdr_get s n' = Some (entry_of t' off)).
    { intros n' t' off Hin. apply Hget. now right. }
    assert (Hmod' : (o + round8 len) mod 8 = 0).
    { rewrite <- Z.add_mod_idemp_l, Hmod by lia. apply round8_mod. }
    destruct (len mod 8 =? 0) eqn:E; cbn [negb]; rewrite Hend, Halign.
    + assert (Heq : round8 len = len) by lia.
      rewrite Heq, Z.eqb_refl. cbn [negb].
      rewrite Heq in Hrest, Hmod'.
      destruct (IH s (TensorSaverCallback.write chunks (bytes t))
                  (o + len) Hrest Hmod' ltac:(lia) ltac:(lia))
        as (chunks' & Hrun & Hcat).
      exists chunks'. split; [exact Hrun|].
      rewrite Hcat. unfold TensorSaverCallback.write.
      rewrite concat_snoc. cbn [data_section]. unfold padding. fold len.
      rewrite Heq, Z.sub_diag. cbn [Z.to_nat repeat app].
      now rewrite <- app_assoc.
    + apply Z.eqb_neq in E.
      replace (o + len + (8 - len mod 8)) with (o + round8 len) by lia.
      rewrite Z.eqb_refl. cbn [negb].
      rewrite slice_padder by lia.
      destruct (IH s (TensorSaverCallback.write
                        (TensorSaverCallback.write chunks (bytes t))
                        (repeat x20 (Z.to_nat (8 - len mod 8))))
                  (o + round8 len) Hrest Hmod' ltac:(lia) ltac:(lia))
        as (chunks' & Hrun & Hcat).
      exists chunks'. split; [exact Hrun|].
      rewrite Hcat. unfold TensorSaverCallback.write.
      rewrite !concat_snoc. cbn [data_section]. unfold padding. fold len.
      replace (round8 len - len) with (8 - len mod 8) by lia.
      now rewrite <- !app_assoc.
Qed.

(** X26.  The two overloads of [saveSafeTensors] agree: for a container the
    encoder handles, the chunks handed to the [write] callback, put end
    to end, are the buffer the other overload returns, and no exception is
    raised on the way. *)
Theorem saveSafeTensors_write_chunks (h : heap) (tm : TensorMap)
    (tes : list (string * TensorRef)) :
  encodable h tm tes ->
  exists (b : Bytes) (chunks : list Bytes),
    saveSafeTensors_of h tm = Ok b
    /\ saveSafeTensors_write h tm = (Ok tt, chunks)
    /\ concat chunks = b.
Proof.
  intros Henc. eexists.
  unfold saveSafeTensors_write.
  rewrite (calcOffset_spec h tm tes Henc).
  destruct (header_text_parses h tm tes 0 Henc) as (Hasc & _).
  pose proof (enc_header _ _ _ Henc) as Hlen.
  rewrite calcHeader_spec by assumption.
  set (text := JSON_stringify (JObj (header_of tm tes))) in *.
  set (len := Z.of_nat (String.length text)) in *.
  set (s := TensorSaver.mk _ _ _ _ _ _ _ _ _).
  assert (Hhead : concat (TensorSaverCallback.writeHeader s [])
                  = length_field (round8 len) ++ text_bytes text
                    ++ repeat x20 (Z.to_nat (round8 len - len))).
  { unfold TensorSaverCallback.writeHeader, TensorSaverCallback.write.
    unfold s. cbn [TensorSaver.lenbuf TensorSaver.hdrBuf TensorSaver.hblen].
    assert (Hab : byteLength (text_bytes text) = len)
      by (unfold byteLength; rewrite length_text_bytes; reflexivity).
    rewrite Hab. pose proof (round8_bounds len).
    destruct (len <? round8 len) eqn:Elt.
    - apply Z.ltb_lt in Elt. rewrite slice_padder by lia.
      cbn [app concat]. now rewrite app_nil_r.
    - apply Z.ltb_ge in Elt. replace (round8 len - len) with 0 by lia.
      cbn [app concat Z.to_nat repeat]. now rewrite !app_nil_r. }
  destruct (writeTensors_callback_spec tes s
              (TensorSaverCallback.writeHeader s []) 0)
    as (chunks & Hrun & Hcat).
  - intros n t off Hin. unfold TensorSaver.hdr_get, s.
    cbn [TensorSaver.hdr TensorSaver.hdr_proto].
    rewrite (tensor_ok_not_proto n t)
      by (eapply layout_In_ok; [exact (enc_tensors _ _ _ Henc)|exact Hin]).
    now apply header_of_get with (h := h).
  - reflexivity.
  - lia.
  - pose proof (enc_data _ _ _ Henc). lia.
  - exists chunks. split; [exact (saveSafeTensors_of_spec h tm tes Henc)|].
    split; [exact Hrun|].
    rewrite Hcat, Hhead. unfold archive_of. fold text len.
    now rewrite <- !app_assoc.
Qed.

Lemma saveSafeTensors_write_chunks_witness :
  exists (b : Bytes) (chunks : list Bytes),
    saveSafeTensors_of test_container_heap test_container_map = Ok b
    /\ saveSafeTensors_write test_container_heap test_container_map
       = (Ok tt, chunks)
    /\ concat chunks = b.
Proof.
  exact (saveSafeTensors_write_chunks test_container_heap test_container_map
           test_container_tensors test_container_encodable).
Defined.

Lemma entries_of_app (h : heap) (rs rs' : list (string * loc))
    (tes tes' : list (string * TensorRef)) :
  TensorSaver.entries_of h rs = Ok tes ->
  TensorSaver.entries_of h rs' = Ok tes' ->
  TensorSaver.entries_of h (rs ++ rs') = Ok (tes ++ tes').
Proof.
  revert tes. induction rs as [|[n l] rs IH]; intros tes H H'.
  - inversion H. exact H'.
  - cbn [app TensorSaver.entries_of] in *.
    destruct (tensorRefs h !! l) as [t|]; [|discriminate H].
    destruct (TensorSaver.entries_of h rs) as [rest|]; [|discriminate H].
    cbn [bind] in H. inversion H; subst tes.
    rewrite (IH rest eq_refl H'). reflexivity.
Qed.

Lemma calcOffset_loop_app (tes tes' : list (string * TensorRef)) :
  forall (hdr : list (string * json)) (proto : option json) (off : Z),
    TensorSaver.calcOffset_loop hdr proto off (tes ++ tes')
    = let '(hdr', proto', off') :=
        TensorSaver.calcOffset_loop hdr proto off tes in
      TensorSaver.calcOffset_loop hdr' proto' off' tes'.
Proof.
  induction tes as [|[n t] r IH]; intros hdr proto off; [reflexivity|].
  cbn [app TensorSaver.calcOffset_loop].
  destruct (TensorSaver.hdr_assign hdr proto n _) as [hdr' proto'].
  apply IH.
Qed.

Lemma layout_app (tes tes' : list (string * TensorRef)) (off : Z) :
  layout off (tes ++ tes')
  = layout off tes ++ layout (off + data_size tes) tes'.
Proof.
  revert off. induction tes as [|[n t] r IH]; intros off.
  - cbn [app layout data_size]. now rewrite Z.add_0_r.
  - cbn [app layout data_size]. rewrite IH. do 3 f_equal. lia.
Qed.

Lemma data_size_app (tes tes' : list (string * TensorRef)) :
  data_size (tes ++ tes') = data_size tes + data_size tes'.
Proof.
  induction tes as [|[n t] r IH]; [reflexivity|].
  cbn [app data_size]. rewrite IH. lia.
Qed.

Lemma calcHeader_with_prototype (hdr : list (string * json))
    (proto : option json) (tes : list (string * TensorRef)) (off : Z) :
  let text := JSON_stringify (JObj hdr) in
  let len := Z.of_nat (String.length text) in
  is_utf8 text = true ->
  len <= MAX_HEADER ->
  TensorSaver.calcHeader (TensorSaver.mk hdr proto tes off [] [] 0 [] 0)
  = Ok (TensorSaver.mk hdr proto tes off (text_bytes text)
          (length_field (round8 len)) (round8 len) [] 0).
Proof.
  intros text len Hasc Hlen. unfold TensorSaver.calcHeader.
  cbn [TensorSaver.hdr]. fold text.
  rewrite TextEncoder_encode_text by assumption. cbn [bind].
  unfold byteLength. rewrite length_text_bytes. fold len.
  unfold MAX_HEADER in *.
  assert (0 <= len) by (unfold len; lia).
  pose proof (round8_bounds len).
  rewrite align8_round8 by lia.
  assert (Hmax : round8 len <= 104857600).
  { unfold round8. pose proof (Z.div_mod (len + 7) 8 ltac:(lia)).
    pose proof (Z.mod_pos_bound (len + 7) 8 ltac:(lia)). lia. }
  assert (E : (100 * 1024 * 1024 <? round8 len) = false)
    by (apply Z.ltb_ge; lia).
  rewrite E. rewrite lenbuf_length_field by lia. reflexivity.
Qed.

(** X27.  A tensor stored under the name [__proto__] is written to the data
    section and left out of the header: the assignment [hdr[name] = ...]
    sets the prototype of the header object, which [JSON.stringify] does
    not print.  The header text is that of the container without the
    tensor. *)
Theorem saveSafeTensors_omits_proto_name (h : heap) (tm : TensorMap)
    (tes : list (string * TensorRef)) (l : loc) (t : TensorRef) :
  encodable h tm tes ->
  h.(tensorRefs) !! l = Some t ->
  data_size tes + round8 (byteLength t.(bytes)) < 2147483648 ->
  saveSafeTensors_of h tm
  = Ok (archive_of (JSON_stringify (JObj (header_of tm tes))) tes)
  /\ saveSafeTensors_of h
       (mkTensorMap (tm.(refs) ++ [("__proto__", l)]) tm.(metadata))
     = Ok (archive_of (JSON_stringify (JObj (header_of tm tes)))
             (tes ++ [("__proto__", t)])).
Proof.
  intros Henc Hl Hsize.
  split; [exact (saveSafeTensors_of_spec h tm tes Henc)|].
  unfold saveSafeTensors_of.
  set (tm' := mkTensorMap (refs tm ++ [("__proto__", l)]) (metadata tm)).
  set (tes' := tes ++ [("__proto__", t)]).
  assert (Hent : TensorSaver.entries_of h (refs tm') = Ok tes').
  { apply entries_of_app; [exact (enc_entries _ _ _ Henc)|].
    cbn [TensorSaver.entries_of]. rewrite Hl. reflexivity. }
  pose proof (data_size_nonneg tes) as Hds.
  pose proof (round8_bounds (byteLength (bytes t))) as Hr8.
  assert (Hlen : 0 <= byteLength (bytes t)) by (unfold byteLength; lia).
  assert (Hcalc : TensorSaver.calcOffset h tm' (TensorSaver.new tm')
                  = Ok (TensorSaver.mk (header_of tm tes)
                          (Some (entry_of t (data_size tes))) tes'
                          (data_size tes') [] [] 0 [] 0)).
  { unfold TensorSaver.calcOffset. rewrite Hent. cbn [bind].
    change (TensorSaver.new tm') with (TensorSaver.new tm).
    rewrite TensorSaver_new_spec by exact (enc_metadata _ _ _ Henc).
    cbn [TensorSaver.hdr TensorSaver.hdr_proto TensorSaver.hdrBuf
         TensorSaver.lenbuf TensorSaver.hblen TensorSaver.ret
         TensorSaver.wrote].
    unfold tes'. rewrite calcOffset_loop_app.
    rewrite calcOffset_loop_spec
      by (try exact (enc_tensors _ _ _ Henc); lia).
    cbn [TensorSaver.calcOffset_loop]. unfold TensorSaver.hdr_assign.
    change (String.eqb "__proto__" "__proto__") with true. cbv iota.
    rewrite align8_round8 by (try apply round8_below; lia).
    rewrite data_size_app. cbn [data_size].
    rewrite Z.add_0_l, Z.add_0_r. reflexivity. }
  rewrite Hcalc. cbn [bind].
  destruct (header_text_parses h tm tes 0 Henc) as (Hasc & _).
  pose proof (enc_header _ _ _ Henc) as Hmax.
  rewrite calcHeader_with_prototype by assumption. cbn [bind].
  set (text := JSON_stringify (JObj (header_of tm tes))) in *.
  set (len := Z.of_nat (String.length text)) in *.
  assert (Hsize' : data_size tes' = data_size tes
                                    + round8 (byteLength (bytes t))).
  { unfold tes'. rewrite data_size_app. cbn [data_size]. lia. }
  rewrite (writeHeader_spec _ text)
    by (try reflexivity; cbn [TensorSaver.offset]; lia).
  cbn [bind]. fold len.
  unfold TensorSaver.writeTensors. rewrite saver_at_tes.
  cbn [TensorSaver.tes TensorSaver.offset].
  set (prefix := length_field (round8 len) ++ text_bytes text
                 ++ repeat x20 (Z.to_nat (round8 len - len))).
  assert (Hpl : byteLength prefix = 8 + round8 len).
  { unfold prefix. rewrite !byteLength_app, byteLength_repeat.
    unfold byteLength. rewrite length_text_bytes. fold len.
    change (Z.of_nat (length (length_field (round8 len)))) with 8.
    pose proof (round8_bounds len). lia. }
  rewrite <- Hpl.
  rewrite writeTensors_loop_spec.
  - cbn [bind TensorSaver.ret saver_at]. unfold archive_of. fold text len.
    unfold prefix. now rewrite <- !app_assoc.
  - intros n t0 off Hin. unfold TensorSaver.hdr_get.
    cbn [TensorSaver.hdr TensorSaver.hdr_proto].
    unfold tes' in Hin. rewrite layout_app in Hin.
    apply in_app_or in Hin as [Hin|Hin].
    + rewrite (tensor_ok_not_proto n t0)
        by (eapply layout_In_ok; [exact (enc_tensors _ _ _ Henc)|exact Hin]).
      now apply header_of_get with (h := h).
    + destruct Hin as [E|[]]. inversion E; subst n t0 off.
      reflexivity.
  - reflexivity.
  - lia.
  - lia.
  - lia.
Qed.

Lemma saveSafeTensors_omits_proto_name_witness :
  exists b b' : Bytes,
    saveSafeTensors_of test_container_heap test_container_map = Ok b
    /\ saveSafeTensors_of test_container_heap
         (mkTensorMap (test_container_map.(refs) ++ [("__proto__", 2%positive)])
            test_container_map.(metadata))
       = Ok b'
    /\ slice b' 0 (8 + unsafeGetHeaderSize b')
       = slice b 0 (8 + unsafeGetHeaderSize b).
Proof.
  destruct (saveSafeTensors_omits_proto_name test_container_heap
              test_container_map test_container_tensors 2%positive
              (mkTensorRef "snark"
                 [x01; x02; x03; x04; x05; x06; x07; x08; x09; x0a; x0b; x0c]
                 "UINT8" [JNum 1; JNum 3; JNum 4] (Some 1%positive))
              test_container_encodable
              ltac:(vm_compute; reflexivity)
              ltac:(vm_compute; reflexivity)) as (H1 & H2).
  eexists _, _. split; [exact H1|]. split; [exact H2|].
  vm_compute. reflexivity.
Defined.

(* ===================================================================== *)
(** ** What leniency does not waive *)
(* ===================================================================== *)

Section LenientTensorValue.

Import TensorAttributeChecker.

Lemma dispatch_lenient_inv (this this' : t) (key name : string)
    (val : json) :
  this.(ignoreInvalid) = true ->
  attrOk key = true ->
  dispatch this key name val = Ok this' ->
  this'.(ignoreInvalid) = true
  /\ ((key = "dtype"%string /\ (exists s, val = JStr s)
       /\ this'.(has_shape) = this.(has_shape)
       /\ this'.(has_data_offsets) = this.(has_data_offsets))
      \/ (key = "shape"%string /\ (exists l, val = JArr l)
          /\ this'.(has_dtype) = this.(has_dtype)
          /\ this'.(has_data_offsets) = this.(has_data_offsets))
      \/ (key = "data_offsets"%string
          /\ (exists a b, val = JArr [JNum a; JNum b])
          /\ this'.(has_dtype) = this.(has_dtype)
          /\ this'.(has_shape) = this.(has_shape))).
Proof.
  intros Hl Hok. unfold dispatch.
  destruct (String.eqb_spec key "dtype") as [->|Hd].
  { unfold dtype. intros H.
    destruct val; try discriminate H. cbn in H. inversion H.
    cbn [ignoreInvalid has_shape has_data_offsets].
    split; [exact Hl|]. left. repeat split. now eexists. }
  destruct (String.eqb_spec key "shape") as [->|Hs].
  { unfold shape, checkTensorShape. intros H.
    destruct val as [| | | |l|]; try discriminate H.
    rewrite (checkTensorShape_loop_lenient this Hl) in H.
    cbn [bind] in H. inversion H.
    cbn [ignoreInvalid has_dtype has_data_offsets].
    split; [exact Hl|]. right. left. repeat split. now eexists. }
  assert (Hk : key = "data_offsets"%string).
  { unfold attrOk in Hok.
    apply String.eqb_neq in Hd, Hs. rewrite Hd, Hs in Hok.
    now apply String.eqb_eq in Hok. }
  subst key. unfold data_offsets, checkDataOffsets. intros H.
  destruct val as [| | | |l|]; try discriminate H.
  cbv beta iota in H.
  destruct (negb (length l =? 2)%nat); [discriminate H|].
  unfold as_OffsetPair in H.
  destruct l as [|x [|y [|z l]]]; try discriminate H.
  destruct x as [| |a| | |]; try discriminate H.
  destruct y as [| |b| | |]; try discriminate H.
  cbn [as_Integer bind] in H.
  rewrite (checkDataOffsetBasics_lenient this Hl) in H.
  rewrite (checkOverlap_loop_lenient this Hl) in H.
  cbn [bind covered chunksize ignoreInvalid has_dtype has_shape] in H.
  inversion H. cbn [ignoreInvalid has_dtype has_shape].
  split; [exact Hl|]. right. right. repeat split. now eexists _, _.
Qed.

Lemma checkTensorValue_loop_lenient_inv (name : string)
    (es : list (string * json)) :
  forall this this' : t,
    this.(ignoreInvalid) = true ->
    checkTensorValue_loop this name es = Ok this' ->
    (forall v, List.In ("dtype"%string, v) es -> exists s, v = JStr s)
    /\ (forall v, List.In ("shape"%string, v) es -> exists l, v = JArr l)
    /\ (forall v, List.In ("data_offsets"%string, v) es ->
                  exists a b, v = JArr [JNum a; JNum b])
    /\ (this'.(has_dtype) = true ->
        this.(has_dtype) = true \/ exists v, List.In ("dtype"%string, v) es)
    /\ (this'.(has_shape) = true ->
        this.(has_shape) = true \/ exists v, List.In ("shape"%string, v) es)
    /\ (this'.(has_data_offsets) = true ->
        this.(has_data_offsets) = true
        \/ exists v, List.In ("data_offsets"%string, v) es).
Proof.
  induction es as [|[key val] r IH]; intros this this' Hl Hrun.
  - cbn [checkTensorValue_loop] in Hrun. inversion Hrun; subst this'.
    do 3 (split; [intros v []|]). repeat split; now left.
  - cbn [checkTensorValue_loop] in Hrun.
    destruct (attrOk key) eqn:Hok; cbn [negb] in Hrun.
    + destruct (dispatch this key name val) as [this1|e] eqn:Hd;
        [|discriminate Hrun].
      cbn [bind] in Hrun.
      destruct (dispatch_lenient_inv this this1 key name val Hl Hok Hd)
        as (Hl1 & Hcase).
      destruct (IH this1 this' Hl1 Hrun)
        as (Hdt & Hsh & Hdo & Hhd & Hhs & Hho).
      destruct Hcase
        as [(-> & (s & ->) & E1 & E2)
           |[(-> & (l & ->) & E1 & E2)
            |(-> & (a & b & ->) & E1 & E2)]].
      * split; [intros v [E|Hin]; [inversion E; now eexists|now apply Hdt]|].
        split; [intros v [E|Hin]; [discriminate E|now apply Hsh]|].
        split; [intros v [E|Hin]; [discriminate E|now apply Hdo]|].
        split; [intros _; right; eexists; now left|].
        split.
        { intros H. destruct (Hhs H) as [H'|[v Hv]];
            [left; congruence|right; exists v; now right]. }
        intros H. destruct (Hho H) as [H'|[v Hv]];
          [left; congruence|right; exists v; now right].
      * split; [intros v [E|Hin]; [discriminate E|now apply Hdt]|].
        split; [intros v [E|Hin]; [inversion E; now eexists|now apply Hsh]|].
        split; [intros v [E|Hin]; [discriminate E|now apply Hdo]|].
        split.
        { intros H. destruct (Hhd H) as [H'|[v Hv]];
            [left; congruence|right; exists v; now right]. }
        split; [intros _; right; eexists; now left|].
        intros H. destruct (Hho H) as [H'|[v Hv]];
          [left; congruence|right; exists v; now right].
      * split; [intros v [E|Hin]; [discriminate E|now apply Hdt]|].
        split; [intros v [E|Hin]; [discriminate E|now apply Hsh]|].
        split; [intros v [E|Hin];
                [inversion E; now eexists _, _|now apply Hdo]|].
        split.
        { intros H. destruct (Hhd H) as [H'|[v Hv]];
            [left; congruence|right; exists v; now right]. }
        split.
        { intros H. destruct (Hhs H) as [H'|[v Hv]];
            [left; congruence|right; exists v; now right]. }
        intros _. right. eexists. now left.
    + rewrite Hl in Hrun. cbn [negb] in Hrun.
      destruct (IH this this' Hl Hrun)
        as (Hdt & Hsh & Hdo & Hhd & Hhs & Hho).
      unfold attrOk in Hok. apply orb_false_iff in Hok as [Hok Hk3].
      apply orb_false_iff in Hok as [Hk1 Hk2].
      apply String.eqb_neq in Hk1, Hk2, Hk3.
      split; [intros v [E|Hin]; [inversion E; congruence|now apply Hdt]|].
      split; [intros v [E|Hin]; [inversion E; congruence|now apply Hsh]|].
      split; [intros v [E|Hin]; [inversion E; congruence|now apply Hdo]|].
      split.
      { intros H. destruct (Hhd H) as [H'|[v Hv]];
          [now left|right; exists v; now right]. }
      split.
      { intros H. destruct (Hhs H) as [H'|[v Hv]];
          [now left|right; exists v; now right]. }
      intros H. destruct (Hho H) as [H'|[v Hv]];
        [now left|right; exists v; now right].
Qed.

End LenientTensorValue.

Lemma checkTensorValue_lenient_inv (chunksize : Z) (cov : list OffsetPair)
    (name : string) (value : json) (tac : TensorAttributeChecker.t) :
  TensorAttributeChecker.checkTensorValue
    (TensorAttributeChecker.new chunksize cov true) name value = Ok tac ->
  readable_tensor value.
Proof.
  unfold TensorAttributeChecker.checkTensorValue. intros H.
  destruct (Object_entries value) as [es|e] eqn:Hes; [|discriminate H].
  cbn [bind] in H.
  destruct (TensorAttributeChecker.checkTensorValue_loop _ name es)
    as [this'|e] eqn:Hloop; [|discriminate H].
  cbn [bind] in H.
  destruct (TensorAttributeChecker.assertAttributePresence this' name)
    as [[]|e] eqn:Hpres; [|discriminate H].
  clear H.
  unfold TensorAttributeChecker.assertAttributePresence in Hpres.
  destruct (TensorAttributeChecker.has_dtype this') eqn:H1;
    [|discriminate Hpres].
  destruct (TensorAttributeChecker.has_shape this') eqn:H2;
    [|discriminate Hpres].
  destruct (TensorAttributeChecker.has_data_offsets this') eqn:H3;
    [|discriminate Hpres].
  clear Hpres.
  destruct (checkTensorValue_loop_lenient_inv name es
              (TensorAttributeChecker.new chunksize cov true) this'
              eq_refl Hloop)
    as (Hdt & Hsh & Hdo & Hhd & Hhs & Hho).
  destruct (Hhd H1) as [Hf|[v1 Hv1]]; [discriminate Hf|].
  destruct (Hhs H2) as [Hf|[v2 Hv2]]; [discriminate Hf|].
  destruct (Hho H3) as [Hf|[v3 Hv3]]; [discriminate Hf|].
  assert (Hobj : value = JObj es).
  { destruct value as [|?|?|s|l|fields]; cbn in Hes;
      try (destruct (is_ascii _); [|discriminate Hes]); inversion Hes; subst es;
      try (now destruct Hv1); try reflexivity.
    - apply indexed_from_keys in Hv1 as (i & _ & E).
      apply (f_equal all_digits) in E.
      rewrite all_digits_string_of_N in E. discriminate E.
    - apply indexed_from_keys in Hv1 as (i & _ & E).
      apply (f_equal all_digits) in E.
      rewrite all_digits_string_of_N in E. discriminate E. }
  subst value.
  destruct (In_assoc_get es _ _ Hv1) as (w1 & Hw1).
  destruct (In_assoc_get es _ _ Hv2) as (w2 & Hw2).
  destruct (In_assoc_get es _ _ Hv3) as (w3 & Hw3).
  destruct (Hdt w1 (assoc_get_In _ _ _ Hw1)) as (s & ->).
  destruct (Hsh w2 (assoc_get_In _ _ _ Hw2)) as (l & ->).
  destruct (Hdo w3 (assoc_get_In _ _ _ Hw3)) as (a & b & ->).
  exists es, s, l, a, b. now repeat split.
Qed.

Lemma sanityCheckTensorsParsed_loop_lenient_inv (chunksize : Z)
    (es : list (string * json)) :
  forall cov cov' : list OffsetPair,
    sanityCheckTensorsParsed_loop true chunksize cov es = Ok cov' ->
    forall n v,
      List.In (n, v) es ->
      if String.eqb n "__metadata__"
      then exists md, Object_entries v = Ok md
      else readable_tensor v.
Proof.
  induction es as [|[k v] es IH]; intros cov cov' Hrun n v' Hin;
    [destruct Hin|].
  cbn [sanityCheckTensorsParsed_loop] in Hrun.
  destruct (String.eqb_spec k "__metadata__") as [->|Hk].
  - destruct (checkMetadata true v) as [[]|e] eqn:Hmd; [|discriminate Hrun].
    cbn [bind] in Hrun.
    destruct Hin as [E|Hin]; [|now apply (IH cov cov' Hrun)].
    inversion E; subst n v'. cbn.
    unfold checkMetadata in Hmd.
    destruct (Object_entries v) as [md|]; [now exists md|discriminate Hmd].
  - destruct (TensorAttributeChecker.checkTensorValue _ k v)
      as [tac|e] eqn:Htac; [|discriminate Hrun].
    cbn [bind] in Hrun.
    destruct Hin as [E|Hin]; [|now apply (IH _ cov' Hrun)].
    inversion E; subst n v'.
    apply String.eqb_neq in Hk. rewrite Hk.
    exact (checkTensorValue_lenient_inv chunksize cov k v tac Htac).
Qed.

Lemma readable_tensor_described (value : json) :
  readable_tensor value -> described_tensor value.
Proof.
  intros (fields & dtype & shp & a & b & Hv & Hd & Hs & Ho).
  now exists fields, dtype, shp, (JNum a), (JNum b).
Qed.

(** X28.  What leniency does not waive: even with the flag on, a header the
    validator accepts has, for every tensor entry, an object with a string
    [dtype], an array [shape] and a [data_offsets] of two elements; the
    metadata is a value whose properties can be listed. *)
Theorem sanityCheckTensorsParsed_lenient_readable (j : json)
    (chunksize : Z) (es : list (string * json)) :
  sanityCheckTensorsParsed true j chunksize = Ok tt ->
  Object_entries j = Ok es ->
  forall n v,
    List.In (n, v) es ->
    if String.eqb n "__metadata__"
    then exists md, Object_entries v = Ok md
    else described_tensor v.
Proof.
  unfold sanityCheckTensorsParsed. intros H Hes. rewrite Hes in H.
  cbn [bind] in H.
  destruct (sanityCheckTensorsParsed_loop true chunksize [] es)
    as [cov'|e] eqn:Hrun; [|discriminate H].
  intros n v Hin.
  pose proof (sanityCheckTensorsParsed_loop_lenient_inv chunksize es []
                cov' Hrun n v Hin) as Hv.
  destruct (String.eqb n "__metadata__"); [exact Hv|].
  now apply readable_tensor_described.
Qed.

Lemma sanityCheckTensorsParsed_lenient_readable_witness :
  described_tensor
    (JObj [("dtype", JStr "U8"); ("shape", JArr [JNum 2; JStr "x"]);
           ("data_offsets", JArr [JNum 0; JNum 4]); ("extra", JNum 1)]).
Proof.
  apply (sanityCheckTensorsParsed_lenient_readable
           (JObj [("a", JObj [("dtype", JStr "U8");
                              ("shape", JArr [JNum 2; JStr "x"]);
                              ("data_offsets", JArr [JNum 0; JNum 4]);
                              ("extra", JNum 1)])])
           4 _ ltac:(vm_compute; reflexivity) eq_refl "a"%string).
  now left.
Defined.

(* ===================================================================== *)
(** ** The leniency gate *)
(* ===================================================================== *)

(** With the flag set the validator of the raw header gives up the
    ceiling on the header size and nothing else. *)
Lemma sanityCheckTensorsHeader_waives_size (bytes : Bytes) (filesize : Z) :
  sanityCheckTensorsHeader true bytes filesize
  = match sanityCheckTensorsHeader false bytes filesize with
    | Throw (IgnorableError _) =>
        if filesize <? 8 + unsafeGetHeaderSize bytes
        then Throw (Error FileTruncated)
        else Ok (unsafeGetHeaderSize bytes)
    | r => r
    end.
Proof.
  unfold sanityCheckTensorsHeader.
  destruct (negb (arrayCompare _ _)); [reflexivity|]. cbv zeta.
  rewrite andb_false_r. cbn [negb]. rewrite andb_true_r.
  destruct (MAX_HEADER <? _); [reflexivity|].
  now destruct (filesize <? _).
Qed.

Section ToleratedFields.

Import TensorAttributeChecker.

Lemma dispatch_tolerated (this : TensorAttributeChecker.t)
    (key name : string) (val : json) :
  this.(ignoreInvalid) = true ->
  attrOk key = true ->
  (key = "dtype"%string -> exists s, val = JStr s) ->
  (key = "shape"%string -> exists l, val = JArr l) ->
  (key = "data_offsets"%string -> exists a b, val = JArr [JNum a; JNum b]) ->
  exists this' : TensorAttributeChecker.t,
    dispatch this key name val = Ok this'
    /\ this'.(ignoreInvalid) = true
    /\ this'.(has_dtype) = this.(has_dtype) || String.eqb key "dtype"
    /\ this'.(has_shape) = this.(has_shape) || String.eqb key "shape"
    /\ this'.(has_data_offsets)
       = this.(has_data_offsets) || String.eqb key "data_offsets".
Proof.
  intros Hl Hk Hd Hs Ho. unfold dispatch.
  destruct (String.eqb_spec key "dtype") as [->|Hnd].
  { destruct (Hd eq_refl) as [s ->]. unfold dtype. cbn.
    eexists. split; [reflexivity|]. cbn.
    now rewrite orb_true_r, !orb_false_r. }
  destruct (String.eqb_spec key "shape") as [->|Hns].
  { destruct (Hs eq_refl) as [l ->]. unfold shape, checkTensorShape.
    rewrite (checkTensorShape_loop_lenient this Hl). cbn [bind].
    eexists. split; [reflexivity|]. cbn.
    now rewrite orb_true_r, !orb_false_r. }
  assert (Hkey : key = "data_offsets"%string).
  { unfold attrOk in Hk.
    apply String.eqb_neq in Hnd, Hns. rewrite Hnd, Hns in Hk.
    now apply String.eqb_eq in Hk. }
  subst key. destruct (Ho eq_refl) as (a & b & ->).
  unfold data_offsets, checkDataOffsets, as_OffsetPair.
  cbn [length Nat.eqb negb as_Integer bind].
  rewrite (checkDataOffsetBasics_lenient this Hl),
    (checkOverlap_loop_lenient this Hl).
  cbn [bind]. eexists. split; [reflexivity|]. cbn.
  now rewrite orb_true_r, !orb_false_r.
Qed.

Lemma checkTensorValue_loop_tolerated (name : string)
    (entries : list (string * json)) :
  forall this : TensorAttributeChecker.t,
    this.(ignoreInvalid) = true ->
    (forall k v,
        List.In (k, v) entries ->
        (k = "dtype"%string -> exists s, v = JStr s)
        /\ (k = "shape"%string -> exists l, v = JArr l)
        /\ (k = "data_offsets"%string ->
            exists a b, v = JArr [JNum a; JNum b])) ->
    exists this' : TensorAttributeChecker.t,
      checkTensorValue_loop this name entries = Ok this'
      /\ (this.(has_dtype) = true \/ assoc_get entries "dtype" <> None ->
          this'.(has_dtype) = true)
      /\ (this.(has_shape) = true \/ assoc_get entries "shape" <> None ->
          this'.(has_shape) = true)
      /\ (this.(has_data_offsets) = true
          \/ assoc_get entries "data_offsets" <> None ->
          this'.(has_data_offsets) = true).
Proof.
  induction entries as [|[k v] r IH]; intros this Hl Hall.
  - exists this. cbn [checkTensorValue_loop assoc_get].
    repeat split; intros [H|H]; congruence.
  - cbn [checkTensorValue_loop].
    assert (Hr : forall k0 v0,
               List.In (k0, v0) r ->
               (k0 = "dtype"%string -> exists s, v0 = JStr s)
               /\ (k0 = "shape"%string -> exists l, v0 = JArr l)
               /\ (k0 = "data_offsets"%string ->
                   exists a b, v0 = JArr [JNum a; JNum b]))
      by (intros k0 v0 H0; apply Hall; now right).
    destruct (attrOk k) eqn:Hk; cbn [negb].
    + destruct (Hall k v (or_introl eq_refl)) as (Hd & Hs & Ho).
      destruct (dispatch_tolerated this k name v Hl Hk Hd Hs Ho)
        as (this1 & -> & Hl1 & H1 & H2 & H3).
      cbn [bind].
      destruct (IH this1 Hl1 Hr) as (this' & -> & Gd & Gs & Go).
      exists this'. split; [reflexivity|].
      cbn [assoc_get]. rewrite H1, H2, H3 in *.
      repeat split.
      * intros [H|H]; apply Gd.
        -- left. now rewrite H.
        -- destruct (String.eqb k "dtype");
             [left; apply orb_true_r|now right].
      * intros [H|H]; apply Gs.
        -- left. now rewrite H.
        -- destruct (String.eqb k "shape");
             [left; apply orb_true_r|now right].
      * intros [H|H]; apply Go.
        -- left. now rewrite H.
        -- destruct (String.eqb k "data_offsets");
             [left; apply orb_true_r|now right].
    + rewrite Hl. cbn [negb].
      destruct (IH this Hl Hr) as (this' & -> & Gd & Gs & Go).
      exists this'. split; [reflexivity|].
      unfold attrOk in Hk. apply orb_false_iff in Hk as [Hk Hk3].
      apply orb_false_iff in Hk as [Hk1 Hk2].
      cbn [assoc_get]. rewrite Hk1, Hk2, Hk3. now repeat split.
Qed.

Lemma checkTensorValue_tolerated (this : TensorAttributeChecker.t)
    (name : string) (value : json) :
  this.(ignoreInvalid) = true ->
  tolerated_tensor value ->
  exists this' : TensorAttributeChecker.t,
    checkTensorValue this name value = Ok this'.
Proof.
  intros Hl (fields & dtype & shp & a & b & -> & Hu & Hd & Hs & Ho).
  unfold checkTensorValue. cbn [Object_entries bind].
  destruct (checkTensorValue_loop_tolerated name fields this Hl)
    as (this' & -> & Gd & Gs & Go).
  { intros k v Hin. pose proof (unique_keys_get fields k v Hu Hin) as Hg.
    repeat split; intros ->; rewrite Hg in *.
    - exists dtype. congruence.
    - exists shp. congruence.
    - exists a, b. congruence. }
  cbn [bind]. unfold assertAttributePresence.
  rewrite Gd, Gs, Go by (right; congruence).
  now exists this'.
Qed.

End ToleratedFields.

Lemma sanityCheckTensorsParsed_loop_tolerated (chunksize : Z)
    (entries : list (string * json)) :
  forall covered : list OffsetPair,
    Forall tolerated_entry entries ->
    exists covered' : list OffsetPair,
      sanityCheckTensorsParsed_loop true chunksize covered entries
      = Ok covered'.
Proof.
  induction entries as [|[k v] r IH]; intros covered Hall;
    [now exists covered|].
  apply List.Forall_cons_iff in Hall as [Hkv Hall].
  unfold tolerated_entry in Hkv. cbn [fst snd] in Hkv.
  cbn [sanityCheckTensorsParsed_loop].
  destruct (String.eqb k "__metadata__").
  - destruct Hkv as (md & Hmd). unfold checkMetadata. rewrite Hmd.
    cbn [bind]. rewrite checkMetadata_loop_lenient. now apply IH.
  - destruct (checkTensorValue_tolerated
                (TensorAttributeChecker.new chunksize covered true) k v
                eq_refl Hkv) as (tac & ->).
    cbn [bind]. now apply IH.
Qed.

Lemma sanityCheckTensorsParsed_tolerated (j : json) (chunksize : Z)
    (entries : list (string * json)) :
  Object_entries j = Ok entries ->
  Forall tolerated_entry entries ->
  sanityCheckTensorsParsed true j chunksize = Ok tt.
Proof.
  intros Hes Hall. unfold sanityCheckTensorsParsed. rewrite Hes.
  cbn [bind].
  now destruct (sanityCheckTensorsParsed_loop_tolerated chunksize entries
                  [] Hall) as (cov & ->).
Qed.

(** The decoder returns on an archive whose header entries have no fault
    but those leniency waives. *)
Lemma parseSafeTensors_tolerated (b : Bytes) (h : heap) (n : Z)
    (text : string) (j : json) (entries : list (string * json)) :
  sanityCheckTensorsHeader true b (byteLength b) = Ok n ->
  TextDecoder_decode (slice b 8 (8 + unsafeGetHeaderSize b)) = Ok text ->
  JSON_parse text = Ok j ->
  Object_entries j = Ok entries ->
  Forall tolerated_entry entries ->
  Forall names_a_format entries ->
  exists h' : heap, parseSafeTensors b true h = (Ok h.(next), h').
Proof.
  intros Hhdr Htext Hj Hes Hall Hfmt.
  pose proof (sanityCheckTensorsParsed_tolerated j
                (byteLength b - 8 - unsafeGetHeaderSize b) entries Hes Hall)
    as Hvalid.
  pose proof (JSON_parse_entries_unique text j entries Hj Hes) as Huniq.
  set (h1 := mkHeap h.(tensorRefs)
               (<[h.(next) := mkTensorMap [] []]> h.(tensorMaps))
               (Pos.succ h.(next))).
  assert (Hread : forall k v,
             List.In (k, v) entries ->
             if String.eqb k "__metadata__"
             then exists md, Object_entries v = Ok md
             else exists (dtype : string) (shp : list json) (a c : Z),
                    tensor_entry v = Ok (dtype, shp, a, c)
                    /\ get_prop v "dtype" = Some (JStr dtype)).
  { intros k v Hin.
    apply (proj1 (List.Forall_forall _ _) Hall) in Hin.
    unfold tolerated_entry in Hin. cbn [fst snd] in Hin.
    destruct (String.eqb k "__metadata__"); [exact Hin|].
    destruct Hin as (fields & dtype & shp & a & c & -> & _ & Hd & Hs & Ho).
    exists dtype, shp, a, c. unfold tensor_entry. cbn [get_prop].
    now rewrite Hd, Hs, Ho. }
  pose proof (parseSafeTensors_loop_outcome b (unsafeGetHeaderSize b)
                h.(next) entries h1 (mkTensorMap [] [])
                ltac:(apply lookup_insert_eq) Huniq
                ltac:(reflexivity) Hread) as Hout.
  unfold parseSafeTensors.
  unfold bindM at 1, lift at 1. rewrite Hhdr.
  unfold bindM at 1, TensorMap.new, alloc_map. fold h1.
  unfold bindM at 1, lift at 1. rewrite Htext.
  unfold bindM at 1, lift at 1. rewrite Hj.
  unfold bindM at 1, lift at 1. rewrite Hvalid.
  unfold bindM at 1, lift at 1. rewrite Hes.
  unfold bindM at 1.
  destruct (parseSafeTensors_loop b (unsafeGetHeaderSize b) (next h)
              entries h1) as [[[]|e] h'] eqn:Hloop; cbn [fst] in Hout.
  - now exists h'.
  - exfalso. destruct Hout as (name & v & Hin & Hname & Hd & _).
    apply (proj1 (List.Forall_forall _ _) Hfmt) in Hin.
    destruct Hin as [Hm|Hd']; [contradiction|]. cbn [snd] in Hd'.
    contradiction.
Qed.

Lemma out_of_spec_entries_tolerated :
  Forall tolerated_entry out_of_spec_entries.
Proof.
  repeat apply List.Forall_cons; try apply List.Forall_nil.
  - now eexists _, _, _, _, _.
  - now eexists _, _, _, _, _.
  - now eexists.
Qed.

Lemma out_of_spec_entries_formats :
  Forall names_a_format out_of_spec_entries.
Proof.
  repeat apply List.Forall_cons; try apply List.Forall_nil.
  - right. discriminate.
  - right. discriminate.
  - now left.
Qed.

(** C6, amended: with the leniency flag set, the validator of the raw
    header gives up the ceiling on the header size and nothing else; the
    validator of the parsed header accepts every header whose tensor
    entries have a string [dtype], an array [shape] and two integer
    offsets, whatever the elements of the shape, the range, the overlaps
    and the other fields, and whose metadata has values of any kind; the
    decoder returns a container for such an archive when every [dtype] is
    non-empty; none of the three raises a suppressible error on any
    input; and the container the decoder returns holds the format, the
    shape and the metadata of the header as they are, the bytes being the
    slice the declared range selects.  The explicit size check takes no
    flag and raises its suppressible error on every mismatch. *)
Theorem leniency_gate :
  (forall (bytes : Bytes) (filesize : Z),
      sanityCheckTensorsHeader true bytes filesize
      = match sanityCheckTensorsHeader false bytes filesize with
        | Throw (IgnorableError _) =>
            if filesize <? 8 + unsafeGetHeaderSize bytes
            then Throw (Error FileTruncated)
            else Ok (unsafeGetHeaderSize bytes)
        | r => r
        end)
  /\ (forall (j : json) (chunksize : Z) (entries : list (string * json)),
         Object_entries j = Ok entries ->
         Forall tolerated_entry entries ->
         sanityCheckTensorsParsed true j chunksize = Ok tt)
  /\ (forall (b : Bytes) (h : heap) (n : Z) (text : string) (j : json)
             (entries : list (string * json)),
         sanityCheckTensorsHeader true b (byteLength b) = Ok n ->
         TextDecoder_decode (slice b 8 (8 + unsafeGetHeaderSize b))
         = Ok text ->
         JSON_parse text = Ok j ->
         Object_entries j = Ok entries ->
         Forall tolerated_entry entries ->
         Forall names_a_format entries ->
         exists h' : heap,
           parseSafeTensors b true h = (Ok h.(next), h')
           /\ kept_verbatim b h' h.(next))
  /\ (forall (bytes : Bytes) (filesize : Z),
         is_ignorable (sanityCheckTensorsHeader true bytes filesize) = false)
  /\ (forall (j : json) (chunksize : Z),
         is_ignorable (sanityCheckTensorsParsed true j chunksize) = false)
  /\ (forall (b : Bytes) (h : heap),
         is_ignorable (fst (parseSafeTensors b true h)) = false)
  /\ (forall (b : Bytes) (h h' : heap) (c : loc),
         parseSafeTensors b true h = (Ok c, h') -> kept_verbatim b h' c)
  /\ (forall (name : TensorName) (b : Bytes) (fmt : Format) (shp : Shape)
             (num : Z) (fl : Q),
         fmt <> EmptyString ->
         shape_product (match shp with [] => [JNum 1] | _ => shp end) 1
         = Ok num ->
         formatLength fmt = Ok fl ->
         Qeq_bool (inject_Z (byteLength b)) (inject_Z num * fl) = false ->
         _sanityCheck name b (Some fmt) (Some shp)
         = Throw (IgnorableError (WrongSize name))).
Proof.
  split; [exact sanityCheckTensorsHeader_waives_size|].
  split; [exact sanityCheckTensorsParsed_tolerated|].
  split.
  { intros b h n text j entries Hhdr Htext Hj Hes Hall Hfmt.
    destruct (parseSafeTensors_tolerated b h n text j entries Hhdr Htext Hj
                Hes Hall Hfmt) as (h' & Hrun).
    exists h'. split; [exact Hrun|].
    exact (parseSafeTensors_kept b true h h' _ Hrun). }
  split; [exact sanityCheckTensorsHeader_lenient|].
  split; [exact sanityCheckTensorsParsed_lenient|].
  split; [exact parseSafeTensors_lenient|].
  split; [intros b h h' c; apply parseSafeTensors_kept|].
  intros name b fmt shp num fl Hfmt Hnum Hfl Hne.
  unfold _sanityCheck. apply String.eqb_neq in Hfmt. rewrite Hfmt.
  cbv zeta. unfold Shape in Hnum. rewrite Hnum. cbn [bind].
  rewrite Hfl. cbn [bind].
  now rewrite Hne.
Qed.

Lemma leniency_gate_witness :
  sanityCheckTensorsParsed true (JObj out_of_spec_entries) 6 = Ok tt
  /\ (exists h' : heap,
         parseSafeTensors out_of_spec_archive true empty_heap
         = (Ok 1%positive, h')
         /\ kept_verbatim out_of_spec_archive h' 1%positive)
  /\ _sanityCheck "ten" [x01; x02; x03; x04; x05; x06; x07; x08; x09; x0a; x0b]
       (Some "BF16"%string) (Some [JNum 2; JNum 3])
     = Throw (IgnorableError (WrongSize "ten")).
Proof.
  split; [|split].
  - exact (proj1 (proj2 leniency_gate) (JObj out_of_spec_entries) 6
             out_of_spec_entries eq_refl out_of_spec_entries_tolerated).
  - apply (proj1 (proj2 (proj2 leniency_gate)) out_of_spec_archive
             empty_heap (unsafeGetHeaderSize out_of_spec_archive)
             out_of_spec_header (JObj out_of_spec_entries)
             out_of_spec_entries).
    + vm_compute. reflexivity.
    + vm_compute. reflexivity.
    + vm_compute. reflexivity.
    + reflexivity.
    + exact out_of_spec_entries_tolerated.
    + exact out_of_spec_entries_formats.
  - apply (proj2 (proj2 (proj2 (proj2 (proj2 (proj2 (proj2 leniency_gate))))))
             "ten"%string _ "BF16"%string [JNum 2; JNum 3] 6 (16 # 8)%Q).
    + discriminate.
    + reflexivity.
    + vm_compute. reflexivity.
    + vm_compute. reflexivity.
Defined.
